(* ===== verification/_CoqProject ===== *)
-Q . S2P
Prelude.v
Types.v
DiskManager.v
Replacer.v
BufferPool.v
PageStore.v
Latches.v
Tuple.v
TablePage.v
TableHeap.v
BPlusTreePage.v
BPlusTreeLayout.v
BPlusTree.v
BPlusTreeRep.v
BPlusTreeLookup.v
BPlusTreeSplit.v
BPlusTreeInsert.v
BPlusTreeMerge.v
BPlusTreeSiblings.v
BPlusTreeDelete.v
BPlusTreeIndex.v
BPlusTreeLimits.v
BPlusTreeScan.v
Tables.v
Socket.v
Service.v
Handlers.v
Daemon.v
Logger.v
Concurrency.v
