(* ===== verification/Prelude.v ===== *)
(** * AetherDB: a verification development of the storage engine

    AetherDB's storage service is a page server: [services/storage/main.cpp]
    opens a database file, starts [StorageService], and clients read, write,
    allocate and free pages over a binary protocol.  The same engine carries slotted
    pages and table heaps for rows and a B+ tree index.  From the bottom up, the
    files of this development and the code they model (paths are
    under [src/]: headers in [services/storage/include/storage/] and
    [common/include/common/], sources in [services/storage/src/] and
    [common/src/]):

    - [Types] - [types.hpp]: page ids, row ids, constants.
    - [DiskManager] - [disk_manager.hpp/.cpp]: the file as a list of bytes and a
      stream position with its failure flags, the metadata page, page reads and
      writes, the free list threaded through freed pages; the constructor with every
      way in which opening, creating and opening again may fail ([open_db]).
    - [Replacer] - [replacer.hpp/.cpp]: the class [Replacer] is the C++ interface,
      [ReplacerLaws] what the pool relies on; modules [LRU] and [Clock] are the
      two implementations, both instances of the laws.
    - [BufferPool] - [page.hpp], [buffer_pool_manager.hpp/.cpp]: frames, page
      table, free list of frames, pins and dirty flags over a disk manager and any
      replacer.
    - [PageStore] - the contract of the pool with its clients.  A client is a
      program ([prog]) over the calls [Fetch], [Unpin], [New], [Delete],
      [FlushAll] and the accesses through a [Page*]; it runs on the pool
      ([run_pool]) or on an abstract store of pages and pin counts ([run_store]).
    - [Latches] - the mutexes of the pool, the replacers, the disk manager and the
      logger: every method once more with the locks it takes, and threads that wait
      for each other.
    - [Tuple] - [column.hpp], [schema.hpp], [tuple.hpp]: values, serialization.
    - [TablePage] - [table_page.hpp]: a slotted page as the bytes of the page.
    - [TableHeap] - [table_heap.hpp], [table_catalog.hpp]: heaps as chains of
      slotted pages (client programs of the pool) and the catalog.
    - [BPlusTreePage], [BPlusTreeLayout] - [b_plus_tree_page.hpp],
      [b_plus_tree_leaf_page.hpp], [b_plus_tree_internal_page.hpp]: the structs
      with their fixed arrays, their methods, and their offsets in a page.
    - [BPlusTree] - [b_plus_tree.hpp/.cpp]: search, insertion, deletion and the
      iterator, as client programs of the pool.
    - [Socket] - [socket.hpp/.cpp], [protocol.hpp]: descriptors over the calls of
      the operating system, the loops of [Send] and [Recv], the packed headers.
    - [Service] - [storage_service.hpp/.cpp]: the request loop, start, accept, stop.
    - [Handlers] - the handler threads of [storage_service.cpp]: many request loops at
      once, interleaved step by step. What a request does is a value of [work] in the
      order of the code; a call of the pool is one step, the bytes of a page
      are sent and copied in pieces, one step each.
    - [Daemon] - [main.cpp]: command line, signal, exit codes, destructors.
    - [Logger] - [logger.hpp]: the formatter and the log lines.
    - [Concurrency] - [concurrency.hpp]: [Thread] handles (pthreads and Windows), and
      methods under [Mutex] and [LockGuard] as interleaved steps of many threads.

    The remaining files hold the proofs about the B+ tree: [BPlusTreeRep] says what
    tree the pages represent (nodes, separators, sizes, the chain of leaves, paths
    to the root as contexts), [BPlusTreeLookup] searching, [BPlusTreeSplit] and
    [BPlusTreeInsert] insertion, [BPlusTreeMerge], [BPlusTreeSiblings] and
    [BPlusTreeDelete] deletion, [BPlusTreeIndex] the whole index as a finite map,
    [BPlusTreeScan] the iterator, [BPlusTreeLimits] insertions for which the pool
    has too few frames.  [Tables] puts the catalog, the heaps, the indexes and
    their scans together: a client of many tables on one pool.

    ** How the code is modelled

    A member function is a function from the state of its object to the new state
    and an [outcome]: a value, an exception with the state reached before the throw,
    or undefined behaviour (a null dereference, an access outside an array).
    Operations on a member object are lifted with [zoom].  Machine integers are [Z]
    at their width: unsigned results are reduced modulo their power of two where the
    code can wrap, and fields are stored and loaded as little-endian bytes, as on
    the platforms the build supports.  Pages are lists of 4096 bytes and the structs
    on them are decoded from and encoded into those bytes.

    The parts meet through interfaces: the pool is proved against [ReplacerLaws];
    table heap, B+ tree and service are proved against the abstract store, and
    [PageStore.sim_prog] carries every such theorem to the real pool, under either
    policy.  The calls of the operating system are the class [OS] (with laws
    [OSLaws] for descriptors, [OSStream] for byte streams, [OSUp] for a connection
    that stays up), those of pthreads the class [Pthread]; [test_net] in [Socket] is
    an instance on which the witnesses run.

    ** What the theorems show

    - Page server: a disk manager is an allocator of pages under every legal call
      sequence ([disk_refines_alloc]) and reopens to the same state
      ([reopen_roundtrip]); the pool is the abstract store ([pool_refines_store]),
      whatever the policy ([policy_unobservable]); flushing makes the file alone
      hold the store ([flush_restart_durable]); LRU is a queue of frames, the clock
      finds the second-chance victim in at most two sweeps.
    - The engine as a whole: whatever calls a client makes on any number of tables,
      their rows, their indexes and the scans of these, the answers are those of tables that are maps
      ([tables_refine_maps]), and the tables survive a restart
      ([tables_survive_restart]).
    - Rows: tuples survive serialization ([tuple_roundtrip]); whatever bytes are
      read under a schema give a tuple of the schema when the lengths among them stay
      within the buffer, and an undefined read when they do not
      ([tuple_deserialize_typed]); a
      slotted page is an array of rows; a heap is a chain of them and [InsertTuple]
      terminates.
    - Index: pages as finite maps ([leaf_is_map], [internal_lookup_routes]) with
      their layouts; the tree is a finite map under every sequence of insertions,
      deletions and lookups ([btree_refines_map], [btree_delete_correct]), whose
      searches go through a logarithmic number of levels ([btree_height_bound]); scans yield every entry once, in order; iterators hold
      one pin each.
    - Service: [Send] and [Recv] move exactly the bytes asked for; a session gets
      the replies of the specification [answers] ([service_session]); the handlers of
      many clients, interleaved in any way that has no data race, are one page server
      that takes the requests one after the other ([handlers_linearize],
      [handler_does_work]; two clients that do race are in [clients_can_race]);
      [Stop] loses nothing; a run of [main] from the command line to the exit code
      ([daemon_session], [main_failures]); all that a database's daemons answer, from
      one restart to the next, is one history of that page server
      ([daemon_restarts]).
    - Threads: methods under a lock are atomic, exclude each other and do not
      deadlock ([lock_serializes]); concurrent calls of the pool are calls on the
      store in the order of the latch ([pool_calls_serialize]). The locks that a call
      takes below the pool's latch leave its result as it is ([locked_call_agrees])
      and are taken in one order, so no schedule of threads gets stuck
      ([engine_never_deadlocks]).
    - Flaws found on the way are theorems too: frames lost by failing fetches
      ([fetch_throw_exhausts_pool], [bad_reads_exhaust_server]), double frees,
      oversize tuples, an insertion that fails after it has changed its leaf
      ([btree_insert_without_frame]) or loses half of it ([btree_insert_loses_half]),
      [Begin(key)] past the end of a leaf, [Stop]
      under a running handler ([stop_races_handler]), a database truncated because
      it could not be opened ([main_failures]), strings read past the page
      ([tuple_deserialize_typed]).

    ** Fuel and bounds

    Loops without a structural measure take fuel; running out of it is undefined
    behaviour in the model, so every theorem that gives a result shows the fuel was
    enough.  The clock takes two sweeps and one step and always finds a
    frame with them if there is one ([clock_victim_second_chance]).
    Searches, splits and underflows of a tree take one unit per level; no tree is
    higher than five levels as page ids have 32 bits ([btree_height_bound]), so six
    are enough.  [InsertTuple] takes one unit per page of the chain, a
    scan one per entry and one for the end.  A handler
    takes one unit per request and one for the end of the stream.  A tree operation
    takes up to thirteen frames beside those pinned by others: one
    page per level in the recursion, twice, and the children being moved.  The
    sequences of [btree_refines_map] are bounded by the page ids left: an insertion
    allocates at most seven pages; so are the clients of [tables_refine_maps], which
    may make a given number of calls and get a frame more for each, as an index that
    is emptied keeps a frame.

    ** What is not modelled

    - The Winsock branches, which differ from the POSIX ones in the start-up call and
      in the name of [close]. A Windows critical section may be locked again by its
      holder; no call does so ([engine_never_deadlocks] holds without it).
    - The text of log lines inside the engine and of [--help]; [Logger] models the
      logger itself, [Latches] the places where the engine logs under its locks.
      Handlers and the acceptor also log, outside of all other locks.
    - What the code does once it races. In [Handlers] a call of the pool is one step
      ([Concurrency] shows that the latch makes it one); the bytes of a page, which the
      code takes from the frame and copies into it outside the latch, move in
      pieces of any size, and two handlers that use a page at a time, one
      of them to write it, are a data race: undefined behaviour, whatever the schedule.
      The steps of handlers are therefore those of [calm_step], which
      do not lead to a race. Handlers in [Handlers] have connections that stay
      up; what a lost one does is in [Service].
    - The handler and acceptor threads as part of the state of the service: they are
      detached, so [Stop] cannot wait for them. The acceptor and [Stop] are sequences
      of calls of their own; [stop_races_handler] puts them one after the other.
    - Signals other than the two [main] handles: a [send] on a connection the
      client has closed returns an error here, where [SIGPIPE], which the daemon does
      not ignore, can end the process.
    - The overflow of a pin count, an [int] in [page.hpp]: [pin_count_] is a [Z], as it
      takes [2^31] pins on one page to get there.
    - Failures of the disk other than those the code tests (a full disk, a file
      changed by another process), and allocation failures of the heap.
    - The tests, the documents and the build files of the repository. *)
From Stdlib Require Import ZArith Lia.
From Stdlib Require Strings.Byte.
From stdpp Require Import base list gmap numbers sorting.

Abbreviation byte := Byte.byte.
Open Scope Z_scope.

Create HintDb aether.
Create Rewrite HintDb zlen.

(** ** Outcomes and the state-and-error monad

    A C++ member function is modelled as a function from the state of its
    object to the new state and an outcome: a normal return, an exception
    derived from [std::exception] (the state reached before the throw is kept,
    as in C++), or undefined behaviour (a null dereference or an access outside
    an array). *)
Inductive exn := OutOfRange | RuntimeError.

Inductive outcome (A : Type) : Type :=
| Ret (a : A)
| Throw (e : exn)
| UB.
Arguments Ret {A} a.
Arguments Throw {A} e.
Arguments UB {A}.

#[export] Instance exn_eq_dec : EqDecision exn.
Proof. solve_decision. Defined.
#[export] Instance outcome_eq_dec {A} `{EqDecision A} : EqDecision (outcome A).
Proof. solve_decision. Defined.

Definition M (S A : Type) : Type := S → S * outcome A.

#[export] Instance M_ret {S} : MRet (M S) := λ A a s, (s, Ret a).
#[export] Instance M_bind {S} : MBind (M S) := λ A B f m s,
  match m s with
  | (s', Ret a) => f a s'
  | (s', Throw e) => (s', Throw e)
  | (s', UB) => (s', UB)
  end.

Definition throw {S A} (e : exn) : M S A := λ s, (s, Throw e).
Definition undefined {S A} : M S A := λ s, (s, UB).
Definition gets {S A} (f : S → A) : M S A := λ s, (s, Ret (f s)).
Definition modify {S} (f : S → S) : M S unit := λ s, (f s, Ret tt).
(** [None] stands for an access outside an array. *)
Definition from_opt {S A} (o : option A) : M S A := λ s,
  match o with Some a => (s, Ret a) | None => (s, UB) end.
(** [try { m } catch (const std::exception&) { h }]. *)
Definition try_catch {S A} (m : M S A) (h : exn → M S A) : M S A := λ s,
  match m s with
  | (s', Throw e) => h e s'
  | r => r
  end.
(** Run an operation of a sub-object. *)
Definition zoom {S T A} (get : S → T) (put : T → S → S) (m : M T A) : M S A := λ s,
  let '(t, r) := m (get s) in (put t s, r).

Lemma bind_Ret {S A B} (m : M S A) (f : A → M S B) s s' a :
  m s = (s', Ret a) → (m ≫= f) s = f a s'.
Proof. unfold mbind, M_bind. by intros ->. Qed.
Lemma bind_Throw {S A B} (m : M S A) (f : A → M S B) s s' e :
  m s = (s', Throw e) → (m ≫= f) s = (s', Throw e).
Proof. unfold mbind, M_bind. by intros ->. Qed.
Lemma zoom_eq {S T A} (get : S → T) put (m : M T A) s t r :
  m (get s) = (t, r) → zoom get put m s = (put t s, r).
Proof. unfold zoom. by intros ->. Qed.

(** Symbolic execution: unfold the monad around the code under the goal. *)
Ltac msimpl :=
  cbv beta iota zeta delta
    [mbind M_bind mret M_ret gets modify throw undefined from_opt try_catch zoom].

(** ** Arrays indexed by machine integers

    [zget]/[zset] are [a[i]] and [a[i] = x] on an array held as a list; [None]
    is an index outside the array. *)
Abbreviation zlen l := (Z.of_nat (length l)).

Section arrays.
Context {A : Type}.
Implicit Types (l : list A) (i j n : Z) (x : A).

Definition zget l i : option A :=
  if decide (0 ≤ i) then l !! Z.to_nat i else None.
Definition zset l i x : option (list A) :=
  if decide (0 ≤ i < zlen l) then Some (<[Z.to_nat i := x]> l) else None.

Lemma zget_lookup l i : 0 ≤ i → zget l i = l !! Z.to_nat i.
Proof. intros. unfold zget. by rewrite decide_True. Qed.
Lemma zget_Some_bound l i x : zget l i = Some x → 0 ≤ i < zlen l.
Proof.
  unfold zget. case_decide; [|done]. intros ?%lookup_lt_Some. lia.
Qed.
Lemma zget_is_Some l i : 0 ≤ i < zlen l → ∃ x, zget l i = Some x.
Proof.
  intros. rewrite zget_lookup by lia.
  destruct (lookup_lt_is_Some_2 l (Z.to_nat i)) as [x Hx]; [lia|eauto].
Qed.
Lemma zget_None l i : ¬ (0 ≤ i < zlen l) → zget l i = None.
Proof.
  intros. unfold zget. case_decide; [|done]. apply lookup_ge_None. lia.
Qed.
Lemma zset_Some l i x : 0 ≤ i < zlen l → zset l i x = Some (<[Z.to_nat i := x]> l).
Proof. intros. unfold zset. by rewrite decide_True. Qed.
Lemma zset_length l i x l' : zset l i x = Some l' → length l' = length l.
Proof. unfold zset. case_decide; intros; simplify_eq. by rewrite length_insert. Qed.
Lemma zset_bound l i x l' : zset l i x = Some l' → 0 ≤ i < zlen l.
Proof. unfold zset. by case_decide. Qed.
Lemma zget_zset_eq l i x l' : zset l i x = Some l' → zget l' i = Some x.
Proof.
  unfold zset. case_decide; intros; simplify_eq.
  rewrite zget_lookup by lia. apply list_lookup_insert_eq. lia.
Qed.
Lemma zget_zset_ne l i j x l' : i ≠ j → zset l i x = Some l' → zget l' j = zget l j.
Proof.
  unfold zset, zget. repeat case_decide; intros; simplify_eq; [|done].
  apply list_lookup_insert_ne. lia.
Qed.
Lemma zget_zset l i j x l' : zset l i x = Some l' →
  zget l' j = if decide (j = i) then Some x else zget l j.
Proof.
  intros H. case_decide; subst; [by eapply zget_zset_eq|by eapply zget_zset_ne].
Qed.
Lemma zset_total l i x : 0 ≤ i < zlen l →
  ∃ l', zset l i x = Some l' ∧ length l' = length l ∧
    ∀ j, zget l' j = if decide (j = i) then Some x else zget l j.
Proof.
  intros. eexists. split_and!; [by apply zset_Some|by rewrite length_insert|].
  intros j. eapply zget_zset. by apply zset_Some.
Qed.
End arrays.

#[export] Hint Resolve zset_bound zset_length : aether.

(** ** Lists *)
Section filters.
Context {A : Type} (P : A → Prop) `{!∀ x, Decision (P x)}.

Lemma filter_all (l : list A) : (∀ x, x ∈ l → P x) → filter P l = l.
Proof.
  induction l as [|x l IH]; intros Hall; [done|].
  rewrite filter_cons_True by (apply Hall; left). f_equal. apply IH.
  intros y Hy. apply Hall. by right.
Qed.
Lemma NoDup_fmap_filter {B} (f : A → B) (l : list A) : NoDup (f <$> l) → NoDup (f <$> filter P l).
Proof.
  induction l as [|x l IH]; [done|]. cbn [fmap list_fmap]. intros [Hx ?]%NoDup_cons.
  rewrite filter_cons. case_decide; [|auto]. apply NoDup_cons. split; [|auto].
  intros (y & Heq & Hy)%list_elem_of_fmap. apply Hx. rewrite Heq.
  apply list_elem_of_fmap. exists y. by apply list_elem_of_filter in Hy as [_ ?].
Qed.
End filters.

Lemma NoDup_snoc {A} (l : list A) x : NoDup l → x ∉ l → NoDup (l ++ [x]).
Proof.
  intros ? ?. apply NoDup_app. split_and!; [done| |apply NoDup_singleton].
  intros y ? ->%list_elem_of_singleton. done.
Qed.
(** ** Slices of a buffer

    [slice o n l] is the [n] bytes at offset [o]; [splice o d l] overwrites the
    bytes at offset [o] with [d]. *)
Section slices.
Context {A : Type}.
Implicit Types (l d : list A) (o n i : Z).

Definition slice o n l : list A := take (Z.to_nat n) (drop (Z.to_nat o) l).
Definition splice o d l : list A :=
  take (Z.to_nat o) l ++ d ++ drop (Z.to_nat o + length d) l.

Lemma zlen_slice o n l : 0 ≤ o → 0 ≤ n → o + n ≤ zlen l → zlen (slice o n l) = n.
Proof. intros. unfold slice. rewrite length_take, length_drop. lia. Qed.
Lemma zlen_splice o d l : 0 ≤ o → o + zlen d ≤ zlen l → zlen (splice o d l) = zlen l.
Proof.
  intros. unfold splice. rewrite !length_app, length_take, length_drop. lia.
Qed.
Lemma lookup_slice o n l (k : nat) :
  slice o n l !! k = if decide (Z.of_nat k < n) then l !! (Z.to_nat o + k)%nat else None.
Proof.
  unfold slice. case_decide.
  - rewrite lookup_take_lt, lookup_drop by lia. done.
  - apply lookup_take_ge. lia.
Qed.
Lemma lookup_splice o d l (k : nat) : 0 ≤ o → o + zlen d ≤ zlen l →
  splice o d l !! k =
    if decide (o ≤ Z.of_nat k < o + zlen d) then d !! (k - Z.to_nat o)%nat else l !! k.
Proof.
  intros. unfold splice. case_decide.
  - rewrite lookup_app_r by (rewrite length_take; lia).
    rewrite lookup_app_l by (rewrite length_take; lia).
    f_equal. rewrite length_take. lia.
  - destruct (decide (Z.of_nat k < o)).
    + rewrite lookup_app_l by (rewrite length_take; lia). apply lookup_take_lt. lia.
    + rewrite lookup_app_r by (rewrite length_take; lia).
      rewrite lookup_app_r by (rewrite length_take; lia).
      rewrite lookup_drop, length_take. f_equal. lia.
Qed.
Lemma slice_splice_eq o d l n : 0 ≤ o → o + zlen d ≤ zlen l → n = zlen d →
  slice o n (splice o d l) = d.
Proof.
  intros ? ? ->. apply list_eq. intros k. rewrite lookup_slice. case_decide.
  - rewrite lookup_splice by done. rewrite decide_True by lia. f_equal. lia.
  - symmetry. apply lookup_ge_None. lia.
Qed.
Lemma slice_splice_ne o o' n d l : 0 ≤ o → 0 ≤ o' → o + zlen d ≤ zlen l →
  o' + n ≤ o ∨ o + zlen d ≤ o' →
  slice o' n (splice o d l) = slice o' n l.
Proof.
  intros. apply list_eq. intros k. rewrite !lookup_slice. case_decide; [|done].
  rewrite lookup_splice by done. rewrite decide_False by lia. done.
Qed.
(** A splice inside a slice. *)
Lemma slice_slice o n o' n' l : 0 ≤ o → 0 ≤ o' → 0 ≤ n' → o' + n' ≤ n →
  slice o' n' (slice o n l) = slice (o + o') n' l.
Proof.
  intros. apply list_eq. intros k. rewrite !lookup_slice.
  case_decide; [|done]. rewrite decide_True by lia. f_equal. lia.
Qed.
Lemma slice_full n l : n = zlen l → slice 0 n l = l.
Proof. intros ->. unfold slice. rewrite drop_0, Nat2Z.id. by apply take_ge. Qed.
Lemma slice_app_l n l1 l2 : n = zlen l1 → slice 0 n (l1 ++ l2) = l1.
Proof. intros ->. unfold slice. rewrite drop_0, Nat2Z.id. by apply take_app_length. Qed.
Lemma slice_app_r o n l1 l2 : zlen l1 ≤ o → slice o n (l1 ++ l2) = slice (o - zlen l1) n l2.
Proof.
  intros. unfold slice. rewrite drop_app_ge by lia. do 2 f_equal. lia.
Qed.
Lemma slice_cut n m l o : 0 ≤ o → 0 ≤ n → 0 ≤ m →
  slice o (n + m) l = slice o n l ++ slice (o + n) m l.
Proof.
  intros. unfold slice. rewrite Z2Nat.inj_add by lia.
  replace (Z.to_nat (o + n)) with (Z.to_nat o + Z.to_nat n)%nat by lia.
  rewrite <- drop_drop. symmetry. apply take_take_drop.
Qed.
Lemma splice_full d l : zlen d = zlen l → splice 0 d l = d.
Proof.
  intros. unfold splice. rewrite drop_ge by lia. cbn. apply app_nil_r.
Qed.
End slices.

#[global] Arguments slice : simpl never.
#[global] Arguments splice : simpl never.

(** ** Bytes and little-endian integers *)
Definition byte_to_Z (b : byte) : Z := Z.of_N (Byte.to_N b).
Definition byte_of_Z (z : Z) : byte :=
  match Byte.of_N (Z.to_N (z mod 256)) with Some b => b | None => Byte.x00 end.

#[export] Instance byte_eq_dec : EqDecision byte := Byte.byte_eq_dec.

Lemma byte_to_Z_range b : 0 ≤ byte_to_Z b < 256.
Proof. unfold byte_to_Z. pose proof (Byte.to_N_bounded b). lia. Qed.
Lemma byte_of_to_Z b : byte_of_Z (byte_to_Z b) = b.
Proof.
  unfold byte_of_Z. rewrite Z.mod_small by apply byte_to_Z_range.
  unfold byte_to_Z. by rewrite N2Z.id, Byte.of_to_N.
Qed.
Lemma byte_to_of_Z z : byte_to_Z (byte_of_Z z) = z mod 256.
Proof.
  unfold byte_of_Z, byte_to_Z. destruct (Byte.of_N _) eqn:E.
  - apply Byte.to_of_N in E. rewrite E. rewrite Z2N.id; [done|].
    apply Z.mod_pos_bound. lia.
  - apply Byte.of_N_None_iff in E. pose proof (Z.mod_pos_bound z 256). lia.
Qed.

Fixpoint le_decode (bs : list byte) : Z :=
  match bs with [] => 0 | b :: bs => byte_to_Z b + 256 * le_decode bs end.
Fixpoint le_encode (n : nat) (z : Z) : list byte :=
  match n with O => [] | S n => byte_of_Z z :: le_encode n (z / 256) end.

Lemma length_le_encode n z : length (le_encode n z) = n.
Proof. revert z. induction n; cbn [le_encode length]; auto. Qed.
Lemma le_decode_range bs : 0 ≤ le_decode bs < 256 ^ zlen bs.
Proof.
  induction bs as [|b bs IH]; cbn [le_decode length]; [lia|].
  pose proof (byte_to_Z_range b). rewrite Nat2Z.inj_succ, Z.pow_succ_r by lia. lia.
Qed.
Lemma le_decode_encode n z : le_decode (le_encode n z) = z mod 256 ^ Z.of_nat n.
Proof.
  revert z. induction n as [|n IH]; intros z; cbn [le_encode le_decode].
  - by rewrite Z.mod_1_r.
  - rewrite IH, byte_to_of_Z, Nat2Z.inj_succ, Z.pow_succ_r by lia.
    rewrite Z.rem_mul_r; lia.
Qed.
Lemma le_encode_decode bs n : n = length bs → le_encode n (le_decode bs) = bs.
Proof.
  intros ->. induction bs as [|b bs IH]; [done|]. cbn [le_decode le_encode length].
  pose proof (byte_to_Z_range b).
  replace ((byte_to_Z b + 256 * le_decode bs) / 256) with (le_decode bs)
    by (Z.div_mod_to_equations; lia).
  rewrite IH. f_equal. rewrite <- (byte_of_to_Z b) at 2.
  unfold byte_of_Z. do 2 f_equal.
  rewrite (Z.mul_comm 256), Z.mod_add by lia. done.
Qed.
Lemma le_decode_encode_small n z :
  0 ≤ z < 256 ^ Z.of_nat n → le_decode (le_encode n z) = z.
Proof. intros. rewrite le_decode_encode. by apply Z.mod_small. Qed.

#[global] Arguments le_encode : simpl never.
#[global] Arguments le_decode : simpl never.

(** Unsigned 32-bit and signed 64-bit values. *)
Definition u32 (z : Z) : Z := z mod 2 ^ 32.
Definition u32_ok (z : Z) : Prop := 0 ≤ z < 2 ^ 32.
Definition to_signed (w z : Z) : Z :=
  let m := z mod 2 ^ w in if decide (2 ^ (w - 1) ≤ m) then m - 2 ^ w else m.
Definition i64_ok (z : Z) : Prop := - 2 ^ 63 ≤ z < 2 ^ 63.
Definition i32_ok (z : Z) : Prop := - 2 ^ 31 ≤ z < 2 ^ 31.
#[export] Instance u32_ok_dec z : Decision (u32_ok z).
Proof. unfold u32_ok. apply _. Defined.
#[export] Instance i64_ok_dec z : Decision (i64_ok z).
Proof. unfold i64_ok. apply _. Defined.
#[export] Instance i32_ok_dec z : Decision (i32_ok z).
Proof. unfold i32_ok. apply _. Defined.

Lemma u32_small z : u32_ok z → u32 z = z.
Proof. apply Z.mod_small. Qed.
Lemma to_signed_range w z : 0 < w → - 2 ^ (w - 1) ≤ to_signed w z < 2 ^ (w - 1).
Proof.
  intros Hw. unfold to_signed. assert (2 ^ w = 2 * 2 ^ (w - 1)) as Hp.
  { rewrite <- Z.pow_succ_r by lia. f_equal. lia. }
  assert (0 < 2 ^ (w - 1)) by (apply Z.pow_pos_nonneg; lia).
  pose proof (Z.mod_pos_bound z (2 ^ w) ltac:(lia)). case_decide; lia.
Qed.
Lemma to_signed_id (w : positive) z : - 2 ^ (Z.pos w - 1) ≤ z < 2 ^ (Z.pos w - 1) →
  to_signed (Z.pos w) (z mod 2 ^ Z.pos w) = z.
Proof.
  intros Hz. unfold to_signed.
  assert (Hw : 2 ^ Z.pos w = 2 * 2 ^ (Z.pos w - 1)).
  { rewrite <- Z.pow_succ_r by lia. f_equal. lia. }
  rewrite Zmod_mod. destruct (decide (0 ≤ z)).
  - rewrite Z.mod_small by lia. rewrite decide_False by lia. done.
  - assert (z mod 2 ^ Z.pos w = z + 2 ^ Z.pos w) as ->.
    { rewrite <- (Z.mod_add z 1) by lia. rewrite Z.mul_1_l. apply Z.mod_small. lia. }
    rewrite decide_True by lia. lia.
Qed.

(** ** Integer fields of a buffer *)
Definition rd32 (o : Z) (l : list byte) : Z := le_decode (slice o 4 l).
Definition wr32 (o v : Z) (l : list byte) : list byte := splice o (le_encode 4 v) l.

Lemma zlen_wr32 o v l : 0 ≤ o → o + 4 ≤ zlen l → zlen (wr32 o v l) = zlen l.
Proof. intros. unfold wr32. apply zlen_splice; rewrite ?length_le_encode; lia. Qed.
Lemma rd32_ok o l : 0 ≤ o → o + 4 ≤ zlen l → u32_ok (rd32 o l).
Proof.
  intros. unfold rd32, u32_ok. pose proof (le_decode_range (slice o 4 l)) as Hr.
  rewrite zlen_slice in Hr by lia. lia.
Qed.
Lemma rd32_wr32_eq o v l : 0 ≤ o → o + 4 ≤ zlen l → u32_ok v → rd32 o (wr32 o v l) = v.
Proof.
  intros. unfold rd32, wr32.
  rewrite slice_splice_eq by (rewrite ?length_le_encode; lia).
  by apply le_decode_encode_small.
Qed.
Lemma rd32_wr32_ne o o' v l : 0 ≤ o → 0 ≤ o' → o + 4 ≤ zlen l →
  o' + 4 ≤ o ∨ o + 4 ≤ o' → rd32 o' (wr32 o v l) = rd32 o' l.
Proof.
  intros. unfold rd32, wr32. by rewrite slice_splice_ne by (rewrite ?length_le_encode; lia).
Qed.
Lemma slice_wr32_ne o o' n v l : 0 ≤ o → 0 ≤ o' → o + 4 ≤ zlen l →
  o' + n ≤ o ∨ o + 4 ≤ o' → slice o' n (wr32 o v l) = slice o' n l.
Proof. intros. apply slice_splice_ne; rewrite ?length_le_encode; lia. Qed.
Lemma rd32_slice o n o' f : 0 ≤ o → 0 ≤ o' → o' + 4 ≤ n →
  rd32 o' (slice o n f) = rd32 (o + o') f.
Proof. intros. unfold rd32. by rewrite slice_slice by lia. Qed.
Lemma rd32_splice_ne o o' d f : 0 ≤ o → 0 ≤ o' → o + zlen d ≤ zlen f →
  o' + 4 ≤ o ∨ o + zlen d ≤ o' → rd32 o' (splice o d f) = rd32 o' f.
Proof. intros. unfold rd32. by rewrite slice_splice_ne. Qed.
Lemma rd32_splice_eq o d f : 0 ≤ o → o + zlen d ≤ zlen f → 4 ≤ zlen d →
  rd32 o (splice o d f) = rd32 0 d.
Proof.
  intros. unfold rd32. f_equal.
  rewrite <- (slice_splice_eq o d f (zlen d)) at 2 by lia.
  rewrite slice_slice by lia. f_equal. lia.
Qed.
Lemma rd32_app_l o f d : 0 ≤ o → o + 4 ≤ zlen f → rd32 o (f ++ d) = rd32 o f.
Proof.
  intros. unfold rd32. f_equal. apply list_eq. intros k. rewrite !lookup_slice.
  case_decide; [|done]. apply lookup_app_l. lia.
Qed.
Lemma slice_app_l_in o n (f d : list byte) : 0 ≤ o → o + n ≤ zlen f →
  slice o n (f ++ d) = slice o n f.
Proof.
  intros. apply list_eq. intros k. rewrite !lookup_slice.
  case_decide; [|done]. apply lookup_app_l. lia.
Qed.

(** Lengths of updated buffers, and the fields of an updated buffer: decide by
    arithmetic whether a read falls on the last write or beside it. *)
Ltac buf_len :=
  lazymatch goal with
  | |- context [zlen (wr32 ?o ?v ?l)] =>
      rewrite (zlen_wr32 o v l) by buf_len; buf_len
  | |- context [zlen (splice ?o ?d ?l)] =>
      rewrite (zlen_splice o d l) by buf_len; buf_len
  | _ => first [assumption | rewrite ?length_le_encode; lia]
  end.
Ltac buf_step :=
  match goal with
  | |- context [rd32 ?o (wr32 ?o ?v ?l)] => rewrite (rd32_wr32_eq o v l) by buf_len
  | |- context [rd32 ?p (wr32 ?o ?v ?l)] => rewrite (rd32_wr32_ne o p v l) by buf_len
  | |- context [rd32 ?p (splice ?o ?d ?l)] => rewrite (rd32_splice_ne o p d l) by buf_len
  | |- context [slice ?p ?n (wr32 ?o ?v ?l)] => rewrite (slice_wr32_ne o p n v l) by buf_len
  | |- context [slice ?o ?n (splice ?o ?d ?l)] => rewrite (slice_splice_eq o d l n) by buf_len
  | |- context [slice ?p ?n (splice ?o ?d ?l)] => rewrite (slice_splice_ne o p n d l) by buf_len
  end.
Ltac buf_simpl := repeat buf_step.

(** ** Raw memory

    [memcpy] out of and into a buffer; [None] is an access outside it. *)
Definition mem_read (o n : Z) (buf : list byte) : option (list byte) :=
  if decide (0 ≤ o ∧ 0 ≤ n ∧ o + n ≤ zlen buf) then Some (slice o n buf) else None.
Definition mem_write (o : Z) (d buf : list byte) : option (list byte) :=
  if decide (0 ≤ o ∧ o + zlen d ≤ zlen buf) then Some (splice o d buf) else None.

Lemma mem_read_Some o n buf : 0 ≤ o → 0 ≤ n → o + n ≤ zlen buf →
  mem_read o n buf = Some (slice o n buf).
Proof. intros. unfold mem_read. by rewrite decide_True. Qed.
Lemma mem_read_inv o n buf d : mem_read o n buf = Some d → 0 ≤ o ∧ 0 ≤ n ∧ o + n ≤ zlen buf ∧ zlen d = n.
Proof.
  unfold mem_read. case_decide as H; [|done]. intros [= <-]. destruct H as (? & ? & ?). rewrite zlen_slice by lia. lia.
Qed.
Lemma mem_write_Some o d buf : 0 ≤ o → o + zlen d ≤ zlen buf →
  mem_write o d buf = Some (splice o d buf).
Proof. intros. unfold mem_write. by rewrite decide_True. Qed.

(** Consecutive writes are one write. *)
Lemma splice_splice_next o d e (buf : list byte) : 0 ≤ o → o + zlen d + zlen e ≤ zlen buf →
  splice (o + zlen d) e (splice o d buf) = splice o (d ++ e) buf.
Proof.
  intros. apply list_eq. intros k. rewrite lookup_splice by (rewrite ?zlen_splice; lia).
  rewrite !lookup_splice by (rewrite ?length_app; lia). rewrite length_app.
  repeat case_decide; try lia; try done.
  - rewrite lookup_app_r by lia. f_equal. lia.
  - rewrite lookup_app_l by lia. done.
Qed.
Lemma splice_nil o (buf : list byte) : splice o [] buf = buf.
Proof. unfold splice. cbn. rewrite Nat.add_0_r. apply take_drop. Qed.

(** ** Counted loops

    [loop_up lo hi body] is [for (int i = lo; i < hi; ++i) body],
    [loop_down hi lo body] is [for (int i = hi; i > lo; --i) body]; the body
    returns [None] when it accesses an array out of bounds.  [find_up] is the
    search loop [for (i = lo; i < hi; ++i) if (p) { ...; break; }]. *)
Section loops.
Context {S : Type}.
Implicit Types (body : Z → S → option S) (s : S).

Fixpoint iter_up body (i : Z) (n : nat) s : option S :=
  match n with
  | O => Some s
  | Datatypes.S n => s' ← body i s; iter_up body (i + 1) n s'
  end.
Fixpoint iter_down body (i : Z) (n : nat) s : option S :=
  match n with
  | O => Some s
  | Datatypes.S n => s' ← body i s; iter_down body (i - 1) n s'
  end.
Definition loop_up (lo hi : Z) body s := iter_up body lo (Z.to_nat (hi - lo)) s.
Definition loop_down (hi lo : Z) body s := iter_down body hi (Z.to_nat (hi - lo)) s.

Lemma loop_up_inv (I : Z → S → Prop) lo hi body s : lo ≤ hi → I lo s →
  (∀ i s, lo ≤ i < hi → I i s → ∃ s', body i s = Some s' ∧ I (i + 1) s') →
  ∃ s', loop_up lo hi body s = Some s' ∧ I hi s'.
Proof.
  unfold loop_up. intros Hle H0 Hstep.
  assert (G : ∀ n i s, lo ≤ i → i + Z.of_nat n = hi → I i s →
    ∃ s', iter_up body i n s = Some s' ∧ I hi s').
  { induction n as [|n IH]; intros i s1 ? ? Hs; cbn [iter_up].
    - exists s1. replace hi with i by lia. done.
    - destruct (Hstep i s1) as (s2 & -> & ?); [lia|done|]. cbn. apply IH; [lia..|done]. }
  apply G; [lia..|done].
Qed.
Lemma loop_down_inv (I : Z → S → Prop) lo hi body s : lo ≤ hi → I hi s →
  (∀ i s, lo < i ≤ hi → I i s → ∃ s', body i s = Some s' ∧ I (i - 1) s') →
  ∃ s', loop_down hi lo body s = Some s' ∧ I lo s'.
Proof.
  unfold loop_down. intros Hle H0 Hstep.
  assert (G : ∀ n i s, i ≤ hi → i - Z.of_nat n = lo → I i s →
    ∃ s', iter_down body i n s = Some s' ∧ I lo s').
  { induction n as [|n IH]; intros i s1 ? ? Hs; cbn [iter_down].
    - exists s1. replace lo with i by lia. done.
    - destruct (Hstep i s1) as (s2 & -> & ?); [lia|done|]. cbn. apply IH; [lia..|done]. }
  apply G; [lia..|done].
Qed.
(** What every execution of the body preserves. *)
Lemma loop_up_pres (I : S → Prop) lo hi body s s' :
  (∀ i s s', I s → body i s = Some s' → I s') → I s → loop_up lo hi body s = Some s' → I s'.
Proof.
  intros Hb. unfold loop_up. generalize (Z.to_nat (hi - lo)) as n. intros n. revert lo s.
  induction n as [|n IH]; intros lo s Hs; cbn [iter_up]; [by intros [= <-]|].
  destruct (body lo s) as [s1|] eqn:H1; [|done]. cbn. eauto.
Qed.
Lemma loop_down_pres (I : S → Prop) hi lo body s s' :
  (∀ i s s', I s → body i s = Some s' → I s') → I s → loop_down hi lo body s = Some s' → I s'.
Proof.
  intros Hb. unfold loop_down. generalize (Z.to_nat (hi - lo)) as n. intros n. revert hi s.
  induction n as [|n IH]; intros hi s Hs; cbn [iter_down]; [by intros [= <-]|].
  destruct (body hi s) as [s1|] eqn:H1; [|done]. cbn. eauto.
Qed.
End loops.

Fixpoint find_iter (p : Z → option bool) (i : Z) (n : nat) : option (option Z) :=
  match n with
  | O => Some None
  | S n => b ← p i; if (b : bool) then Some (Some i) else find_iter p (i + 1) n
  end.
Definition find_up (lo hi : Z) (p : Z → option bool) : option (option Z) :=
  find_iter p lo (Z.to_nat (hi - lo)).

Lemma find_up_spec lo hi p : lo ≤ hi →
  (∀ i, lo ≤ i < hi → is_Some (p i)) →
  (∃ i, find_up lo hi p = Some (Some i) ∧ lo ≤ i < hi ∧ p i = Some true ∧
        ∀ j, lo ≤ j < i → p j = Some false) ∨
  (find_up lo hi p = Some None ∧ ∀ j, lo ≤ j < hi → p j = Some false).
Proof.
  unfold find_up. intros Hle Hp.
  assert (G : ∀ n i, lo ≤ i → i + Z.of_nat n = hi → (∀ j, lo ≤ j < i → p j = Some false) →
    (∃ k, find_iter p i n = Some (Some k) ∧ lo ≤ k < hi ∧ p k = Some true ∧
          ∀ j, lo ≤ j < k → p j = Some false) ∨
    (find_iter p i n = Some None ∧ ∀ j, lo ≤ j < hi → p j = Some false)).
  { induction n as [|n IH]; intros i ? ? Hlt; cbn [find_iter].
    - right. split; [done|]. intros. apply Hlt. lia.
    - destruct (Hp i) as [[] Hpi]; [lia| |]; rewrite Hpi; cbn.
      + left. exists i. split_and!; [done|lia|lia|done|]. intros. apply Hlt. lia.
      + apply IH; [lia..|]. intros j ?. destruct (decide (j = i)) as [->|]; [done|].
        apply Hlt. lia. }
  apply G; [lia..|]. intros. lia.
Qed.

(** Case analysis on the tests of the code. *)
Ltac case_tests :=
  repeat match goal with
  | |- context [if decide ?P then _ else _] => destruct (decide P)
  | |- context [if bool_decide ?P then _ else _] => destruct (bool_decide_reflect P)
  end.
#[export] Hint Rewrite @length_app @length_take @length_drop @length_insert
  @length_replicate length_le_encode : zlen.
Ltac zlen := autorewrite with zlen in *; try lia.
