(* ===== verification/Types.v ===== *)
(** Core types and constants shared by the engine ([common/types.hpp]). *)
From Stdlib Require Import ZArith Lia.
From stdpp Require Import base list gmap.
From S2P Require Import Prelude.
Open Scope Z_scope.

(** [page_id_t] is [uint32_t]; a value is a [Z] with [u32_ok]. *)
Abbreviation page_id_t := Z.

Definition PAGE_SIZE : Z := 4096.
Definition INVALID_PAGE_ID : page_id_t := 0xFFFFFFFF.

(** Record identifiers. *)
Record RID := mkRID { rid_page_id : page_id_t; rid_slot_num : Z }.

(** The value of a default-constructed [RID]. *)
Definition RID_default : RID := mkRID INVALID_PAGE_ID 0.

Definition RID_eq (a b : RID) : bool :=
  (rid_page_id a =? rid_page_id b) && (rid_slot_num a =? rid_slot_num b).

#[export] Instance RID_eq_dec : EqDecision RID.
Proof. solve_decision. Defined.

Lemma RID_eq_spec a b : RID_eq a b = true ↔ a = b.
Proof.
  destruct a, b. unfold RID_eq. cbn. rewrite andb_true_iff, !Z.eqb_eq. naive_solver.
Qed.

(** A page of zero bytes ([std::memset(p, 0, PAGE_SIZE)]). *)
Definition zero_page : list byte := replicate (Z.to_nat PAGE_SIZE) Byte.x00.
Lemma zlen_zero_page : zlen zero_page = PAGE_SIZE.
Proof. unfold zero_page. rewrite length_replicate. unfold PAGE_SIZE. lia. Qed.
#[global] Arguments zero_page : simpl never.
#[global] Opaque zero_page.

(** Arithmetic with the constants unfolded. *)
Ltac plia := cbv delta [PAGE_SIZE INVALID_PAGE_ID u32_ok] in *; cbv beta in *; lia.
