(* ===== verification/DiskManager.v ===== *)
(** The disk manager ([disk_manager.hpp], [disk_manager.cpp]): the database file
    as a list of bytes, the cached metadata, page I/O, and the free list threaded
    through the deallocated pages.  The theorems relate it to an abstract page
    allocator. *)
From Stdlib Require Import ZArith Lia.
From Stdlib Require Strings.Byte.
From stdpp Require Import base list gmap.
From S2P Require Import Prelude Types.
Open Scope Z_scope.

(** ** The file behind [std::fstream] *)

(** Reading [n] bytes at [off]; [None] is a short read (failbit set). *)
Definition file_read (off n : Z) (f : list byte) : option (list byte) :=
  if decide (off + n ≤ zlen f) then Some (slice off n f) else None.

(** Writing at [off]; a gap past the end of the file reads as zeros. *)
Definition file_write (off : Z) (d f : list byte) : list byte :=
  splice off d (f ++ replicate (Z.to_nat (off + zlen d - zlen f)) Byte.x00).

(** ** State *)
Record DiskManager := mkDiskManager {
  db_file : list byte;            (* contents of the file under [db_io_] *)
  db_is_open : bool;              (* [db_io_.is_open()] *)
  free_list_head_ : page_id_t;
  num_pages_ : Z;                 (* [uint32_t] *)
}.

Definition set_file (f : list byte) (dm : DiskManager) :=
  mkDiskManager f (db_is_open dm) (free_list_head_ dm) (num_pages_ dm).
Definition set_free_list_head (h : page_id_t) (dm : DiskManager) :=
  mkDiskManager (db_file dm) (db_is_open dm) h (num_pages_ dm).
Definition set_num_pages (n : Z) (dm : DiskManager) :=
  mkDiskManager (db_file dm) (db_is_open dm) (free_list_head_ dm) n.

(** [db_io_.seekg(off); db_io_.read(..., n)]: fails on a closed stream. *)
Definition stream_read (off n : Z) : M DiskManager (option (list byte)) :=
  gets (λ dm, if db_is_open dm then file_read off n (db_file dm) else None).
(** [db_io_.seekp(off); db_io_.write(d); db_io_.flush()]. *)
Definition stream_write (off : Z) (d : list byte) : M DiskManager unit :=
  modify (λ dm, if db_is_open dm then set_file (file_write off d (db_file dm)) dm else dm).

(** [static_cast<std::streamoff>(page_id) * PAGE_SIZE]. *)
Definition page_off (page_id : page_id_t) : Z := page_id * PAGE_SIZE.

(** ** Operations *)
Definition ReadMetadata : M DiskManager unit :=
  r ← stream_read 0 4;
  match r with
  | None => throw RuntimeError
  | Some b =>
      _ ← modify (set_free_list_head (le_decode b));
      r ← stream_read 4 4;
      match r with
      | None => throw RuntimeError
      | Some b => modify (set_num_pages (le_decode b))
      end
  end.

Definition WriteMetadata : M DiskManager unit :=
  h ← gets free_list_head_;
  _ ← stream_write 0 (le_encode 4 h);
  n ← gets num_pages_;
  stream_write 4 (le_encode 4 n).

(** What the operating system makes of the three calls of [open] in the constructor:
    opening the file for reading and writing (it must exist as well), creating or
    truncating it, and opening it again. *)
Record fs_access := mkAccess { can_open : bool; can_create : bool; can_reopen : bool }.
Definition full_access : fs_access := mkAccess true true true.

(** These calls, on the file [existing] under the name ([None]: there is none): the
    file as they leave it, and the contents of the stream, with whether the file
    is new.  A file that cannot be opened is taken for one that is not there. *)
Definition open_db (existing : option (list byte)) (ac : fs_access) : option (list byte) * outcome (list byte * bool) :=
  match existing, can_open ac with
  | Some f, true => (Some f, Ret (f, false))
  | _, _ =>
      if can_create ac then
        if can_reopen ac then (Some [], Ret ([], true)) else (Some [], Throw RuntimeError)
      else (existing, Throw RuntimeError)
  end.

(** The constructor. *)
Definition DiskManager_new (existing : option (list byte)) (ac : fs_access) : DiskManager * outcome unit :=
  match open_db existing ac with
  | (_, Ret (f, true)) =>
      let dm := mkDiskManager f true INVALID_PAGE_ID 1 in
      let metadata_page :=
        splice 4 (le_encode 4 (num_pages_ dm))
          (splice 0 (le_encode 4 (free_list_head_ dm)) zero_page) in
      stream_write 0 metadata_page dm
  | (_, Ret (f, false)) => ReadMetadata (mkDiskManager f true INVALID_PAGE_ID 0)
  | (_, Throw e) => (mkDiskManager [] false INVALID_PAGE_ID 0, Throw e)
  | (_, UB) => (mkDiskManager [] false INVALID_PAGE_ID 0, UB)
  end.

Definition Close : M DiskManager unit :=
  modify (λ dm, mkDiskManager (db_file dm) false (free_list_head_ dm) (num_pages_ dm)).

(** [ReadPage] returns what it leaves in [out_buffer]. *)
Definition ReadPage (page_id : page_id_t) : M DiskManager (list byte) :=
  n ← gets num_pages_;
  if decide (n ≤ page_id) then throw OutOfRange else
  r ← stream_read (page_off page_id) PAGE_SIZE;
  mret (match r with Some b => b | None => zero_page end).

Definition WritePage (page_id : page_id_t) (data : list byte) : M DiskManager unit :=
  n ← gets num_pages_;
  if decide (n ≤ page_id) then throw OutOfRange else
  stream_write (page_off page_id) data.

Definition AllocatePage : M DiskManager page_id_t :=
  head ← gets free_list_head_;
  if decide (head ≠ INVALID_PAGE_ID) then
    let allocated_id := head in
    r ← stream_read (page_off allocated_id) 4;
    match r with
    | None => throw RuntimeError
    | Some b =>
        _ ← modify (set_free_list_head (le_decode b));
        _ ← WriteMetadata;
        mret allocated_id
    end
  else
    allocated_id ← gets num_pages_;
    _ ← modify (set_num_pages (u32 (allocated_id + 1)));
    _ ← WriteMetadata;
    _ ← stream_write (page_off allocated_id) zero_page;
    mret allocated_id.

Definition DeallocatePage (page_id : page_id_t) : M DiskManager unit :=
  n ← gets num_pages_;
  if decide (n ≤ page_id ∨ page_id = 0) then mret () else
  head ← gets free_list_head_;
  let page_data := splice 0 (le_encode 4 head) zero_page in
  _ ← stream_write (page_off page_id) page_data;
  _ ← modify (set_free_list_head page_id);
  WriteMetadata.

Definition GetNumPages : M DiskManager Z := gets num_pages_.

(** ** The well-formed database

    [dm_wf dm l]: the stream is open, the file holds exactly [num_pages_] pages,
    page 0 holds the cached metadata, and following the links in the first four
    bytes of the free pages from [free_list_head_] yields the list [l]. *)
Fixpoint chain (f : list byte) (n : Z) (head : page_id_t) (l : list page_id_t) : Prop :=
  match l with
  | [] => head = INVALID_PAGE_ID
  | p :: l' => head = p ∧ 1 ≤ p < n ∧ chain f n (rd32 (page_off p) f) l'
  end.

Record dm_wf (dm : DiskManager) (l : list page_id_t) : Prop := {
  wf_open : db_is_open dm = true;
  wf_num : 1 ≤ num_pages_ dm ≤ INVALID_PAGE_ID;
  wf_len : zlen (db_file dm) = num_pages_ dm * PAGE_SIZE;
  wf_meta_head : rd32 0 (db_file dm) = free_list_head_ dm;
  wf_meta_num : rd32 4 (db_file dm) = num_pages_ dm;
  wf_nodup : NoDup l;
  wf_chain : chain (db_file dm) (num_pages_ dm) (free_list_head_ dm) l;
}.

(** The contents of page [p] of the file. *)
Definition page_data (dm : DiskManager) (p : page_id_t) : list byte :=
  slice (page_off p) PAGE_SIZE (db_file dm).

(** Arithmetic on offsets. *)
Ltac dlia := cbv delta [page_off PAGE_SIZE INVALID_PAGE_ID u32_ok] in *; cbv beta in *; lia.

(** ** File lemmas *)
Lemma file_write_in off d f : 0 ≤ off → off + zlen d ≤ zlen f →
  file_write off d f = splice off d f.
Proof.
  intros. unfold file_write.
  replace (Z.to_nat (off + zlen d - zlen f)) with 0%nat by lia. cbn. by rewrite app_nil_r.
Qed.
Lemma file_write_end d f : file_write (zlen f) d f = f ++ d.
Proof.
  unfold file_write, splice. rewrite Nat2Z.id, take_app_length.
  replace (Z.to_nat (zlen f + zlen d - zlen f)) with (length d) by lia.
  rewrite drop_ge; [by rewrite app_nil_r|]. rewrite length_app, length_replicate. lia.
Qed.

Lemma page_disjoint p q : p ≠ q → 0 ≤ p → 0 ≤ q →
  page_off q + PAGE_SIZE ≤ page_off p ∨ page_off p + PAGE_SIZE ≤ page_off q.
Proof. dlia. Qed.

(** ** Free chain lemmas *)
Lemma chain_bound f n h l p : chain f n h l → p ∈ l → 1 ≤ p < n.
Proof.
  revert h. induction l as [|q l IH]; intros h; cbn [chain].
  - intros _ []%not_elem_of_nil.
  - intros (-> & ? & ?) [->|?]%elem_of_cons; eauto.
Qed.
Lemma chain_ext f f' n n' h l : n ≤ n' →
  (∀ p, p ∈ l → rd32 (page_off p) f' = rd32 (page_off p) f) →
  chain f n h l → chain f' n' h l.
Proof.
  intros Hn. revert h. induction l as [|q l IH]; intros h Hf; cbn [chain]; [done|].
  intros (-> & ? & ?). split_and!; [done|lia..|].
  rewrite Hf by set_solver. apply IH; [|done]. set_solver.
Qed.
(** The list of free pages is a function of the file. *)
Lemma chain_head_ok f n h l : n ≤ INVALID_PAGE_ID → chain f n h l → u32_ok h.
Proof. destruct l; cbn [chain]; dlia. Qed.

(** ** Metadata *)
Definition meta_file (h n : Z) (f : list byte) : list byte := wr32 4 n (wr32 0 h f).

Section meta_file.
Context (h n : Z) (f : list byte) (Hlen : 8 ≤ zlen f).

Lemma zlen_meta_file : zlen (meta_file h n f) = zlen f.
Proof. unfold meta_file. rewrite !zlen_wr32; rewrite ?zlen_wr32; lia. Qed.
Lemma meta_file_head : u32_ok h → rd32 0 (meta_file h n f) = h.
Proof.
  intros. unfold meta_file. rewrite rd32_wr32_ne by (rewrite ?zlen_wr32; lia).
  apply rd32_wr32_eq; lia || done.
Qed.
Lemma meta_file_num : u32_ok n → rd32 4 (meta_file h n f) = n.
Proof. intros. apply rd32_wr32_eq; rewrite ?zlen_wr32; lia || done. Qed.
Lemma meta_file_slice o k : 8 ≤ o → slice o k (meta_file h n f) = slice o k f.
Proof.
  intros. unfold meta_file. rewrite !slice_wr32_ne; rewrite ?zlen_wr32; try lia; done.
Qed.
Lemma meta_file_page p : 1 ≤ p → slice (page_off p) PAGE_SIZE (meta_file h n f) =
  slice (page_off p) PAGE_SIZE f.
Proof. intros. apply meta_file_slice. dlia. Qed.
Lemma meta_file_link p : 1 ≤ p → rd32 (page_off p) (meta_file h n f) = rd32 (page_off p) f.
Proof. intros. unfold rd32. rewrite meta_file_slice by dlia. done. Qed.
Lemma meta_file_chain hd m l : chain f m hd l → chain (meta_file h n f) m hd l.
Proof.
  intros Hc. eapply chain_ext; [reflexivity| |done].
  intros p Hp. apply meta_file_link. eapply chain_bound in Hp; [|done]. lia.
Qed.
End meta_file.

Lemma WriteMetadata_eq dm : db_is_open dm = true → 8 ≤ zlen (db_file dm) →
  WriteMetadata dm =
    (set_file (meta_file (free_list_head_ dm) (num_pages_ dm) (db_file dm)) dm, Ret tt).
Proof.
  destruct dm as [f o h n]. cbn. intros -> Hlen.
  unfold WriteMetadata, stream_write. msimpl. cbn.
  rewrite (file_write_in 0) by (rewrite ?length_le_encode; lia).
  rewrite file_write_in by (rewrite ?zlen_splice, ?length_le_encode; rewrite ?length_le_encode; lia).
  done.
Qed.

(** The metadata of a database whose file already has its final length. *)
Lemma WriteMetadata_wf dm l :
  db_is_open dm = true → 1 ≤ num_pages_ dm ≤ INVALID_PAGE_ID →
  zlen (db_file dm) = num_pages_ dm * PAGE_SIZE → NoDup l →
  chain (db_file dm) (num_pages_ dm) (free_list_head_ dm) l →
  ∃ dm', WriteMetadata dm = (dm', Ret tt) ∧ dm_wf dm' l ∧
    num_pages_ dm' = num_pages_ dm ∧
    ∀ p, 1 ≤ p → page_data dm' p = page_data dm p.
Proof.
  intros Ho Hn Hlen Hnd Hc.
  assert (8 ≤ zlen (db_file dm)) by dlia.
  eexists. split; [by apply WriteMetadata_eq|]. split_and!; [|done|].
  - split; cbn; try done.
    + by rewrite zlen_meta_file.
    + apply meta_file_head; [done|]. eapply chain_head_ok; [|done]. lia.
    + apply meta_file_num; [done|dlia].
    + by apply meta_file_chain.
  - intros p Hp. by apply meta_file_page.
Qed.

Lemma dm_wf_len8 dm l : dm_wf dm l → 8 ≤ zlen (db_file dm).
Proof. intros []. dlia. Qed.
Lemma dm_wf_page_in dm l p : dm_wf dm l → 0 ≤ p < num_pages_ dm →
  0 ≤ page_off p ∧ page_off p + PAGE_SIZE ≤ zlen (db_file dm).
Proof. intros [] ?. dlia. Qed.
Lemma zlen_page_data dm l p : dm_wf dm l → 0 ≤ p < num_pages_ dm →
  zlen (page_data dm p) = PAGE_SIZE.
Proof.
  intros Hwf Hp. destruct (dm_wf_page_in _ _ _ Hwf Hp). apply zlen_slice; [done|dlia|done].
Qed.
(** A free page is a page of the file and not page 0. *)
Lemma dm_wf_free dm l p : dm_wf dm l → p ∈ l → 1 ≤ p < num_pages_ dm.
Proof. intros [] Hp. by eapply chain_bound. Qed.

(** ** Page I/O *)
Lemma ReadPage_in dm l p : dm_wf dm l → 0 ≤ p < num_pages_ dm →
  ReadPage p dm = (dm, Ret (page_data dm p)).
Proof.
  intros Hwf Hp. unfold ReadPage, stream_read. msimpl.
  rewrite decide_False by lia.
  rewrite (wf_open _ _ Hwf). unfold file_read.
  rewrite decide_True; [done|]. by apply (dm_wf_page_in _ _ _ Hwf Hp).
Qed.
Lemma ReadPage_out dm p : num_pages_ dm ≤ p → ReadPage p dm = (dm, Throw OutOfRange).
Proof. intros. unfold ReadPage. msimpl. by rewrite decide_True. Qed.
Lemma WritePage_out dm p d : num_pages_ dm ≤ p → WritePage p d dm = (dm, Throw OutOfRange).
Proof. intros. unfold WritePage. msimpl. by rewrite decide_True. Qed.

Lemma WritePage_eq dm l p d : dm_wf dm l → 0 ≤ p < num_pages_ dm → zlen d = PAGE_SIZE →
  WritePage p d dm = (set_file (splice (page_off p) d (db_file dm)) dm, Ret tt).
Proof.
  intros Hwf Hp Hd. unfold WritePage, stream_write. msimpl.
  rewrite decide_False by lia. rewrite (wf_open _ _ Hwf).
  destruct (dm_wf_page_in _ _ _ Hwf Hp). rewrite file_write_in by lia. done.
Qed.

(** Writing a page that is in use. *)
Lemma WritePage_wf dm l p d : dm_wf dm l → 1 ≤ p < num_pages_ dm → p ∉ l →
  zlen d = PAGE_SIZE →
  ∃ dm', WritePage p d dm = (dm', Ret tt) ∧ dm_wf dm' l ∧
    num_pages_ dm' = num_pages_ dm ∧ page_data dm' p = d ∧
    ∀ q, 1 ≤ q → q ≠ p → page_data dm' q = page_data dm q.
Proof.
  intros Hwf Hp Hpl Hd. destruct (dm_wf_page_in _ _ p Hwf ltac:(lia)).
  eexists. split; [by eapply WritePage_eq; [done|lia|]|].
  split_and!; [|done|cbn; unfold page_data; cbn; apply slice_splice_eq; lia|].
  - destruct Hwf. split; cbn; try done.
    + rewrite zlen_splice; lia.
    + rewrite rd32_splice_ne; lia || dlia || done.
    + rewrite rd32_splice_ne; lia || dlia || done.
    + eapply chain_ext; [reflexivity| |done]. intros q Hq.
      assert (1 ≤ q < num_pages_ dm) by by eapply chain_bound.
      assert (p ≠ q) by (by intros ->).
      pose proof (page_disjoint p q). rewrite rd32_splice_ne; dlia || done.
  - intros q Hq Hqp. unfold page_data. cbn. pose proof (page_disjoint p q).
    apply slice_splice_ne; dlia.
Qed.

(** ** Allocation and deallocation *)
Lemma AllocatePage_pop dm p l : dm_wf dm (p :: l) →
  ∃ dm', AllocatePage dm = (dm', Ret p) ∧ dm_wf dm' l ∧
    num_pages_ dm' = num_pages_ dm ∧
    ∀ q, 1 ≤ q → page_data dm' q = page_data dm q.
Proof.
  intros Hwf. pose proof (wf_chain _ _ Hwf) as (Hh & Hp & Hc).
  pose proof (wf_num _ _ Hwf) as Hn. pose proof (wf_nodup _ _ Hwf) as [? ?]%NoDup_cons.
  destruct (dm_wf_page_in _ _ p Hwf ltac:(lia)).
  destruct (WriteMetadata_wf (set_free_list_head (rd32 (page_off p) (db_file dm)) dm) l)
    as (dm' & Hw & ? & ? & ?); [by destruct Hwf..|done|done|].
  exists dm'. split_and!; [|done..].
  unfold AllocatePage, stream_read. msimpl. rewrite Hh.
  rewrite decide_True by dlia. rewrite (wf_open _ _ Hwf). unfold file_read.
  rewrite decide_True by dlia. fold (rd32 (page_off p) (db_file dm)). by rewrite Hw.
Qed.

Lemma AllocatePage_grow dm : dm_wf dm [] → num_pages_ dm < INVALID_PAGE_ID →
  ∃ dm', AllocatePage dm = (dm', Ret (num_pages_ dm)) ∧ dm_wf dm' [] ∧
    num_pages_ dm' = num_pages_ dm + 1 ∧
    page_data dm' (num_pages_ dm) = zero_page ∧
    ∀ q, 1 ≤ q < num_pages_ dm → page_data dm' q = page_data dm q.
Proof.
  intros Hwf Hn. pose proof (dm_wf_len8 _ _ Hwf) as H8. destruct Hwf as [Ho ? Hlen _ _ _ Hc].
  set (n := num_pages_ dm) in *. cbn [chain] in Hc.
  set (f := meta_file INVALID_PAGE_ID (n + 1) (db_file dm)).
  assert (Hf : zlen f = n * PAGE_SIZE) by (unfold f; by rewrite zlen_meta_file).
  exists (mkDiskManager (f ++ zero_page) true INVALID_PAGE_ID (n + 1)).
  assert (Hlen' : zlen (f ++ zero_page) = (n + 1) * PAGE_SIZE).
  { rewrite length_app. pose proof zlen_zero_page. dlia. }
  split_and!; [| |done| |].
  - unfold AllocatePage. msimpl. rewrite decide_False by naive_solver.
    fold n. rewrite WriteMetadata_eq by done. cbn. rewrite Ho, Hc, u32_small by dlia.
    fold f. unfold stream_write. msimpl. cbn.
    replace (page_off n) with (zlen f) by dlia.
    rewrite file_write_end. unfold set_file. cbn. by rewrite Ho, Hc.
  - split; cbn [db_is_open num_pages_ db_file free_list_head_ chain].
    + done.
    + dlia.
    + done.
    + rewrite rd32_app_l by dlia. apply (meta_file_head _ (n + 1) (db_file dm)); [done|dlia].
    + rewrite rd32_app_l by dlia.
      apply (meta_file_num INVALID_PAGE_ID _ (db_file dm)); [done|dlia].
    + constructor.
    + done.
  - unfold page_data. cbn. rewrite slice_app_r by dlia.
    replace (page_off n - zlen f) with 0 by dlia. apply slice_full.
    by rewrite zlen_zero_page.
  - intros q Hq. unfold page_data. cbn. rewrite slice_app_l_in by dlia.
    apply meta_file_page; [done|lia].
Qed.

(** What [DeallocatePage] leaves in the page. *)
Definition free_page (head : page_id_t) : list byte := splice 0 (le_encode 4 head) zero_page.
Lemma zlen_free_page h : zlen (free_page h) = PAGE_SIZE.
Proof.
  unfold free_page. rewrite zlen_splice; rewrite ?length_le_encode, ?zlen_zero_page; dlia.
Qed.

Lemma DeallocatePage_push dm p l : dm_wf dm l → 1 ≤ p < num_pages_ dm → p ∉ l →
  ∃ dm', DeallocatePage p dm = (dm', Ret tt) ∧ dm_wf dm' (p :: l) ∧
    num_pages_ dm' = num_pages_ dm ∧
    page_data dm' p = free_page (free_list_head_ dm) ∧
    ∀ q, 1 ≤ q → q ≠ p → page_data dm' q = page_data dm q.
Proof.
  intros Hwf Hp Hpl. pose proof (zlen_free_page (free_list_head_ dm)) as Hz.
  set (d := free_page (free_list_head_ dm)) in *.
  destruct (WritePage_wf dm l p d) as (dm1 & Hw & Hwf1 & Hn1 & Hd1 & Ho1); [done..|].
  rewrite (WritePage_eq dm l p d Hwf ltac:(lia) Hz) in Hw. injection Hw as Hdm1.
  destruct (WriteMetadata_wf (set_free_list_head p dm1) (p :: l))
    as (dm2 & Hw2 & Hwf2 & Hn2 & Hd2).
  { by destruct Hwf1. } { by destruct Hwf1. } { by destruct Hwf1. }
  { constructor; [done|]. by destruct Hwf1. }
  { split_and!; [done|cbn; lia..|]. cbn.
    assert (rd32 (page_off p) (db_file dm1) = free_list_head_ dm1) as ->;
      [|by destruct Hwf1].
    replace (free_list_head_ dm1) with (free_list_head_ dm) by by rewrite <- Hdm1.
    unfold page_data in Hd1.
    rewrite <- (Z.add_0_r (page_off p)).
    rewrite <- (rd32_slice (page_off p) PAGE_SIZE 0) by dlia. rewrite Hd1.
    unfold d, free_page. apply rd32_wr32_eq; [done|by rewrite zlen_zero_page|].
    destruct Hwf. eapply chain_head_ok; [|done]. lia. }
  cbn in Hn2. exists dm2. split_and!; [|done|lia| |].
  - unfold DeallocatePage, stream_write. msimpl.
    rewrite decide_False by lia. rewrite (wf_open _ _ Hwf).
    destruct (dm_wf_page_in _ _ p Hwf ltac:(lia)).
    fold (free_page (free_list_head_ dm)). fold d.
    rewrite file_write_in by dlia. rewrite Hdm1. done.
  - rewrite Hd2 by lia. done.
  - intros q ? ?. rewrite Hd2 by lia. by rewrite <- Ho1 by done.
Qed.

Lemma DeallocatePage_guard dm p : num_pages_ dm ≤ p ∨ p = 0 →
  DeallocatePage p dm = (dm, Ret tt).
Proof. intros. unfold DeallocatePage. msimpl. by rewrite decide_True. Qed.

(** ** The abstract page allocator

    What the disk manager promises: a number of pages, a stack of free pages,
    and the contents of the live ones (page 0 is neither free nor live).  The
    contents of a recycled page are unspecified, those of a fresh one are zeros. *)
Record alloc_state := mkAlloc {
  al_num : Z;
  al_free : list page_id_t;
  al_live : gmap Z (list byte);
}.

Inductive disk_op :=
| OpRead (p : page_id_t)
| OpWrite (p : page_id_t) (d : list byte)
| OpAlloc
| OpDealloc (p : page_id_t).

Inductive disk_res := ResData (d : list byte) | ResPage (p : page_id_t) | ResUnit.

(** The calls of the code. *)
Definition exec_op (op : disk_op) : M DiskManager disk_res :=
  match op with
  | OpRead p => d ← ReadPage p; mret (ResData d)
  | OpWrite p d => _ ← WritePage p d; mret ResUnit
  | OpAlloc => p ← AllocatePage; mret (ResPage p)
  | OpDealloc p => _ ← DeallocatePage p; mret ResUnit
  end.

Inductive alloc_step (a : alloc_state) : disk_op → alloc_state → outcome disk_res → Prop :=
| step_read p d :
    al_live a !! p = Some d → alloc_step a (OpRead p) a (Ret (ResData d))
| step_write p d :
    is_Some (al_live a !! p) → zlen d = PAGE_SIZE →
    alloc_step a (OpWrite p d) (mkAlloc (al_num a) (al_free a) (<[p := d]> (al_live a)))
      (Ret ResUnit)
| step_read_out p : al_num a ≤ p → alloc_step a (OpRead p) a (Throw OutOfRange)
| step_write_out p d : al_num a ≤ p → alloc_step a (OpWrite p d) a (Throw OutOfRange)
| step_reuse p l d :
    al_free a = p :: l → zlen d = PAGE_SIZE → al_live a !! p = None →
    alloc_step a OpAlloc (mkAlloc (al_num a) l (<[p := d]> (al_live a))) (Ret (ResPage p))
| step_grow :
    al_free a = [] → al_num a < INVALID_PAGE_ID → al_live a !! al_num a = None →
    alloc_step a OpAlloc
      (mkAlloc (al_num a + 1) [] (<[al_num a := zero_page]> (al_live a)))
      (Ret (ResPage (al_num a)))
| step_dealloc p :
    is_Some (al_live a !! p) →
    alloc_step a (OpDealloc p) (mkAlloc (al_num a) (p :: al_free a) (delete p (al_live a)))
      (Ret ResUnit)
| step_dealloc_guard p :
    al_num a ≤ p ∨ p = 0 → alloc_step a (OpDealloc p) a (Ret ResUnit).

(** The calls a client may make: I/O and deallocation of live pages (or of ids
    out of range, which the code refuses), allocation while ids are left. *)
Definition legal (a : alloc_state) (op : disk_op) : Prop :=
  match op with
  | OpRead p => is_Some (al_live a !! p) ∨ al_num a ≤ p
  | OpWrite p d => (is_Some (al_live a !! p) ∧ zlen d = PAGE_SIZE) ∨ al_num a ≤ p
  | OpAlloc => al_free a ≠ [] ∨ al_num a < INVALID_PAGE_ID
  | OpDealloc p => is_Some (al_live a !! p) ∨ al_num a ≤ p ∨ p = 0
  end.

Record disk_rel (dm : DiskManager) (a : alloc_state) : Prop := {
  rel_wf : dm_wf dm (al_free a);
  rel_num : num_pages_ dm = al_num a;
  rel_live : ∀ p, is_Some (al_live a !! p) ↔ 1 ≤ p < al_num a ∧ p ∉ al_free a;
  rel_data : ∀ p d, al_live a !! p = Some d → page_data dm p = d;
}.

Lemma disk_rel_live dm a p : disk_rel dm a → is_Some (al_live a !! p) →
  1 ≤ p < num_pages_ dm ∧ p ∉ al_free a.
Proof. intros [] Hp. rewrite rel_num0. by apply rel_live0. Qed.

Lemma sim_alloc dm a : disk_rel dm a → legal a OpAlloc →
  ∃ dm' a' r, exec_op OpAlloc dm = (dm', r) ∧ alloc_step a OpAlloc a' r ∧ disk_rel dm' a'.
Proof.
  destruct a as [n free live]. intros Hrel Hleg. pose proof Hrel as [Hwf Hn Hl Hd].
  cbn in *. unfold exec_op. destruct free as [|p l].
  - destruct Hleg as [|Hlt]; [done|].
    destruct (AllocatePage_grow dm Hwf) as (dm' & Hex & Hwf' & Hn' & Hz & Ho); [by rewrite Hn|].
    exists dm'. do 2 eexists. msimpl. rewrite Hex. split; [done|]. rewrite Hn in *.
    assert (Hnone : live !! n = None).
    { apply eq_None_not_Some. rewrite Hl. lia. }
    split; [by apply step_grow|]. pose proof (wf_num _ _ Hwf). split; cbn; [done|lia|..].
    + intros p. rewrite lookup_insert. case_decide; subst.
      * split; [|by eauto]. intros _. split; [lia|]. set_solver.
      * rewrite Hl. split; intros [? ?]; split; (lia || done).
    + intros p d. rewrite lookup_insert. case_decide; subst; intros ?; simplify_eq; [done|].
      rewrite Ho; [by apply Hd|]. apply Hl. eauto.
  - destruct (AllocatePage_pop dm p l Hwf) as (dm' & Hex & Hwf' & Hn' & Ho).
    pose proof (dm_wf_free _ _ p Hwf ltac:(set_solver)) as Hp.
    exists dm'. do 2 eexists. msimpl. rewrite Hex. split; [done|].
    pose proof (wf_nodup _ _ Hwf) as [Hpl ?]%NoDup_cons.
    split; [apply (step_reuse (mkAlloc n (p :: l) live) p l (page_data dm' p)); [done| |]|].
    + eapply zlen_page_data; [done|]. rewrite Hn'. lia.
    + apply eq_None_not_Some. cbn. rewrite Hl. set_solver.
    + split; cbn; [done|lia|..].
      * intros q. rewrite lookup_insert. case_decide; subst.
        -- split; [|by eauto]. intros _. split; [lia|done].
        -- rewrite Hl. set_solver.
      * intros q d. rewrite lookup_insert. case_decide; subst; intros Hq; simplify_eq; [done|].
        rewrite Ho; [by apply Hd|]. assert (is_Some (live !! q)) as Hq' by eauto.
        apply Hl in Hq'. lia.
Qed.

Lemma sim_dealloc dm a p : disk_rel dm a → legal a (OpDealloc p) →
  ∃ dm' a' r, exec_op (OpDealloc p) dm = (dm', r) ∧
    alloc_step a (OpDealloc p) a' r ∧ disk_rel dm' a'.
Proof.
  intros Hrel [Hlive|Hg].
  - destruct (disk_rel_live _ _ _ Hrel Hlive) as [Hp Hf]. destruct Hrel as [Hwf Hn Hl Hd].
    destruct (DeallocatePage_push dm p _ Hwf Hp Hf) as (dm' & Hex & Hwf' & Hn' & _ & Ho).
    exists dm'. do 2 eexists. unfold exec_op. msimpl. rewrite Hex.
    split_and!; [done|by apply step_dealloc|]. split; cbn; [done|lia|..].
    + intros q. rewrite lookup_delete. case_decide; subst.
      * rewrite is_Some_alt. set_solver.
      * rewrite Hl. set_solver.
    + intros q d. rewrite lookup_delete. case_decide; [done|]. intros Hq.
      assert (is_Some (al_live a !! q)) as Hq' by eauto. apply Hl in Hq'.
      rewrite Ho; [by apply Hd|lia|done].
  - exists dm, a, (Ret ResUnit). unfold exec_op. msimpl.
    rewrite DeallocatePage_guard by (rewrite (rel_num _ _ Hrel); done).
    split_and!; [done|by apply step_dealloc_guard|done].
Qed.

Lemma disk_sim_read dm a p : disk_rel dm a → legal a (OpRead p) →
  ∃ dm' a' r, exec_op (OpRead p) dm = (dm', r) ∧
    alloc_step a (OpRead p) a' r ∧ disk_rel dm' a'.
Proof.
  intros Hrel Hleg. exists dm, a. unfold exec_op. msimpl. destruct Hleg as [Hlive|Hout].
  - destruct (disk_rel_live _ _ _ Hrel Hlive) as [Hp _]. destruct Hlive as [d Hd].
    eexists. erewrite ReadPage_in by (apply Hrel || lia).
    rewrite (rel_data _ _ Hrel _ _ Hd). split_and!; [done|by apply step_read|done].
  - eexists. rewrite ReadPage_out by (rewrite (rel_num _ _ Hrel); done).
    split_and!; [done|by apply step_read_out|done].
Qed.

Lemma disk_sim_write dm a p d : disk_rel dm a → legal a (OpWrite p d) →
  ∃ dm' a' r, exec_op (OpWrite p d) dm = (dm', r) ∧
    alloc_step a (OpWrite p d) a' r ∧ disk_rel dm' a'.
Proof.
  intros Hrel Hleg. unfold exec_op. msimpl. destruct Hleg as [[Hlive Hlen]|Hout].
  - destruct (disk_rel_live _ _ _ Hrel Hlive) as [Hp Hf].
    destruct (WritePage_wf dm _ p d (rel_wf _ _ Hrel) Hp Hf Hlen)
      as (dm' & Hex & Hwf' & Hn' & Hd' & Ho).
    exists dm'. do 2 eexists. rewrite Hex.
    split_and!; [done|by apply step_write|]. destruct Hrel as [Hwf Hn Hl Hd].
    split; cbn; [done|lia|..].
    + intros q. rewrite lookup_insert. case_decide; subst; [|by apply Hl].
      split; [|by eauto]. intros _. split; [lia|done].
    + intros q d'. rewrite lookup_insert. case_decide; subst; intros Hq; simplify_eq; [done|].
      assert (is_Some (al_live a !! q)) as Hq' by eauto. apply Hl in Hq'.
      rewrite Ho; [by apply Hd|lia|done].
  - exists dm, a. eexists. rewrite WritePage_out by (rewrite (rel_num _ _ Hrel); done).
    split_and!; [done|by apply step_write_out|done].
Qed.

Lemma disk_sim dm a op : disk_rel dm a → legal a op →
  ∃ dm' a' r, exec_op op dm = (dm', r) ∧ alloc_step a op a' r ∧ disk_rel dm' a'.
Proof. destruct op; eauto using disk_sim_read, disk_sim_write, sim_alloc, sim_dealloc. Qed.

(** Sequences of calls; an exception is returned to the caller, who goes on. *)
Fixpoint exec_ops (ops : list disk_op) (dm : DiskManager) : DiskManager * list (outcome disk_res) :=
  match ops with
  | [] => (dm, [])
  | op :: ops =>
      let '(dm1, r) := exec_op op dm in
      let '(dm2, rs) := exec_ops ops dm1 in (dm2, r :: rs)
  end.

Inductive alloc_trace : alloc_state → list disk_op → list (outcome disk_res) → alloc_state → Prop :=
| trace_nil a : alloc_trace a [] [] a
| trace_cons a op a1 r ops rs a2 :
    alloc_step a op a1 r → alloc_trace a1 ops rs a2 → alloc_trace a (op :: ops) (r :: rs) a2.

Fixpoint legal_seq (a : alloc_state) (ops : list disk_op) : Prop :=
  match ops with
  | [] => True
  | op :: ops => legal a op ∧ ∀ a' r, alloc_step a op a' r → legal_seq a' ops
  end.

Lemma disk_sim_seq ops dm a : disk_rel dm a → legal_seq a ops →
  ∃ dm' rs a', exec_ops ops dm = (dm', rs) ∧ alloc_trace a ops rs a' ∧ disk_rel dm' a'.
Proof.
  revert dm a. induction ops as [|op ops IH]; intros dm a Hrel; cbn [legal_seq exec_ops].
  - intros _. exists dm, [], a. eauto using alloc_trace.
  - intros [Hl Hnext]. destruct (disk_sim _ _ _ Hrel Hl) as (dm1 & a1 & r & -> & Hst & Hrel1).
    destruct (IH dm1 a1 Hrel1 (Hnext _ _ Hst)) as (dm2 & rs & a2 & -> & ? & ?).
    exists dm2, (r :: rs), a2. eauto using alloc_trace.
Qed.

(** The database file right after its creation. *)
Definition new_db : DiskManager :=
  mkDiskManager (splice 4 (le_encode 4 1) (splice 0 (le_encode 4 INVALID_PAGE_ID) zero_page))
    true INVALID_PAGE_ID 1.

Lemma new_db_eq : DiskManager_new None full_access = (new_db, Ret tt).
Proof. vm_compute. reflexivity. Qed.
Lemma new_db_rel : disk_rel new_db (mkAlloc 1 [] ∅).
Proof.
  split; cbn; [|done| |].
  - split; cbn [db_is_open num_pages_ db_file free_list_head_ chain]; try done.
    + constructor.
  - intros p. rewrite lookup_empty, is_Some_alt. lia.
  - intros p d. rewrite lookup_empty. done.
Qed.

(** A database that exists but cannot be opened is lost: the constructor takes it for
    a missing one and truncates it. *)
Lemma unopened_new existing ac : can_open ac = false → can_create ac = true → can_reopen ac = true →
  DiskManager_new existing ac = (new_db, Ret tt).
Proof.
  intros H1 H2 H3. unfold DiskManager_new, open_db. rewrite H1, H2, H3. destruct existing; vm_compute; reflexivity.
Qed.

(** After a second deallocation of [p] the free list is the self-loop at [p]. *)
Record self_linked (p : page_id_t) (dm : DiskManager) : Prop := {
  sl_open : db_is_open dm = true;
  sl_len : page_off p + 4 ≤ zlen (db_file dm);
  sl_page : 1 ≤ p < INVALID_PAGE_ID;
  sl_head : free_list_head_ dm = p;
  sl_link : rd32 (page_off p) (db_file dm) = p;
}.

Lemma AllocatePage_self_linked p dm : self_linked p dm →
  ∃ dm', AllocatePage dm = (dm', Ret p) ∧ self_linked p dm'.
Proof.
  intros [Ho Hlen Hp Hh Hl]. unfold AllocatePage, stream_read. msimpl.
  rewrite Hh. rewrite decide_True by dlia. rewrite Ho. unfold file_read. rewrite decide_True by done.
  fold (rd32 (page_off p) (db_file dm)). rewrite Hl.
  rewrite WriteMetadata_eq by (cbn; done || dlia). eexists. split; [done|].
  split; cbn [set_free_list_head set_file db_is_open db_file free_list_head_]; try done.
  - rewrite zlen_meta_file; dlia.
  - rewrite meta_file_link by dlia. done.
Qed.

Fixpoint alloc_n (n : nat) : M DiskManager (list page_id_t) :=
  match n with
  | O => mret []
  | S n => p ← AllocatePage; ps ← alloc_n n; mret (p :: ps)
  end.

Lemma alloc_n_self_linked n p dm : self_linked p dm →
  ∃ dm', alloc_n n dm = (dm', Ret (replicate n p)) ∧ self_linked p dm'.
Proof.
  revert dm. induction n as [|n IH]; intros dm Hs; cbn [alloc_n replicate]; [by eauto|].
  destruct (AllocatePage_self_linked p dm Hs) as (dm1 & Ha & Hs1).
  destruct (IH dm1 Hs1) as (dm2 & Hn & ?).
  exists dm2. msimpl. rewrite Ha, Hn. done.
Qed.

Lemma DeallocatePage_again dm p l : dm_wf dm (p :: l) →
  ∃ dm', DeallocatePage p dm = (dm', Ret tt) ∧ self_linked p dm'.
Proof.
  intros Hwf. pose proof (dm_wf_free _ _ p Hwf ltac:(set_solver)) as Hp.
  pose proof (wf_num _ _ Hwf). pose proof (wf_chain _ _ Hwf) as (Hh & _).
  destruct (dm_wf_page_in _ _ p Hwf ltac:(lia)) as [Hp0 Hp1].
  pose proof (zlen_free_page p) as Hz. pose proof (dm_wf_len8 _ _ Hwf).
  unfold DeallocatePage, stream_write. msimpl. rewrite decide_False by lia.
  rewrite Hh. fold (free_page p). rewrite (wf_open _ _ Hwf).
  rewrite file_write_in by dlia.
  rewrite WriteMetadata_eq; [|by apply Hwf|cbn; rewrite zlen_splice; lia].
  eexists. split; [done|].
  split; cbn [set_free_list_head set_file db_is_open db_file free_list_head_ num_pages_].
  - by apply Hwf.
  - rewrite zlen_meta_file; rewrite zlen_splice; dlia.
  - dlia.
  - done.
  - rewrite meta_file_link; [|rewrite zlen_splice; lia|lia].
    rewrite rd32_splice_eq by dlia. unfold free_page.
    apply rd32_wr32_eq; rewrite ?zlen_zero_page; dlia.
Qed.

(** ** Properties *)

(** C4 (refinement). Any legal sequence of [ReadPage], [WritePage],
    [AllocatePage] and [DeallocatePage] calls on a well-formed database behaves
    as the abstract page allocator does: every result, exceptions included, is
    one the allocator allows, and the database ends in a state that represents
    the allocator's.  In particular an allocated page is never one that is live,
    pages keep their contents, and the free list on disk stays the allocator's
    stack. *)
Theorem disk_refines_alloc dm a ops :
  disk_rel dm a → legal_seq a ops →
  ∃ dm' rs a', exec_ops ops dm = (dm', rs) ∧ alloc_trace a ops rs a' ∧ disk_rel dm' a'.
Proof. apply disk_sim_seq. Qed.

(** Discharges [legal_seq] on concrete states, one call after the other. *)
Ltac live_tac := solve [repeat first [rewrite lookup_insert_eq | rewrite lookup_insert_ne by done
                                     | rewrite lookup_delete_ne by done]; eexists; reflexivity].
Ltac legal_tac :=
  repeat match goal with
  | H : alloc_step _ _ _ _ |- _ =>
      inversion H; clear H; cbn [al_num al_free al_live] in *; simplify_eq; try plia
  | |- _ ∧ _ => split
  | |- True => exact I
  | |- legal _ _ => cbn [legal al_num al_free al_live]
  | |- ∀ _, _ => intros
  | |- is_Some _ => live_tac
  | |- is_Some _ ∨ _ => first [left; live_tac | right]
  | |- (is_Some _ ∧ _) ∨ _ => first [left; split; [live_tac|reflexivity] | right]
  | |- _ ≠ _ ∨ _ => right
  | |- _ ≤ _ ∨ _ = 0 => lia
  | |- _ ≤ _ => lia
  | |- _ < _ => plia
  end.

Lemma disk_refines_alloc_witness :
  ∃ dm' rs a',
    exec_ops [OpAlloc; OpRead 1; OpAlloc; OpDealloc 1; OpAlloc; OpWrite 2 zero_page; OpRead 9; OpDealloc 0]
      new_db = (dm', rs) ∧
    alloc_trace (mkAlloc 1 [] ∅)
      [OpAlloc; OpRead 1; OpAlloc; OpDealloc 1; OpAlloc; OpWrite 2 zero_page; OpRead 9; OpDealloc 0] rs a' ∧
    disk_rel dm' a'.
Proof.
  apply disk_refines_alloc; [apply new_db_rel|].
  cbn [legal_seq]. legal_tac.
Defined.

(** Creating the database file makes a well-formed database of
    one page with no free page and no live page. *)
Theorem create_new_db :
  ∃ dm, DiskManager_new None full_access = (dm, Ret tt) ∧ disk_rel dm (mkAlloc 1 [] ∅).
Proof. exists new_db. split; [apply new_db_eq|apply new_db_rel]. Qed.

Lemma reopen_eq dm l ac : dm_wf dm l → can_open ac = true → DiskManager_new (Some (db_file dm)) ac = (dm, Ret tt).
Proof.
  intros Hwf Hac. unfold DiskManager_new, open_db. rewrite Hac. pose proof (dm_wf_len8 _ _ Hwf). destruct Hwf as [Ho Hn Hlen Hmh Hmn _ _].
  unfold ReadMetadata, stream_read. msimpl. unfold file_read. cbn.
  rewrite decide_True by lia. cbn. rewrite decide_True by lia. unfold set_num_pages. cbn.
  fold (rd32 0 (db_file dm)) (rd32 4 (db_file dm)). rewrite Hmh, Hmn. by destruct dm; cbn in *; subst.
Qed.

(** Closing a well-formed database and constructing a
    [DiskManager] on the file it leaves restores exactly the state it had: page
    count, free list head and every page. *)
Theorem reopen_roundtrip dm l ac : dm_wf dm l → can_open ac = true →
  ∃ closed, Close dm = (closed, Ret tt) ∧
    DiskManager_new (Some (db_file closed)) ac = (dm, Ret tt).
Proof.
  intros Hwf Hac. eexists. split; [done|]. by eapply (reopen_eq dm).
Qed.
Lemma reopen_roundtrip_witness :
  ∃ closed, Close new_db = (closed, Ret tt) ∧
    DiskManager_new (Some (db_file closed)) full_access = (new_db, Ret tt).
Proof. apply (reopen_roundtrip new_db [] full_access); [apply new_db_rel|done]. Defined.

(** C34 (safety). [DeallocatePage] has no guard against a page that is already
    free: deallocating the head of the free list again makes the page its own
    successor, the other free pages are lost, and from then on every call of
    [AllocatePage] returns that same page, however many clients ask. *)
Theorem double_free_duplicates dm p l n : dm_wf dm (p :: l) →
  ∃ dm1 dm2, DeallocatePage p dm = (dm1, Ret tt) ∧
    alloc_n n dm1 = (dm2, Ret (replicate n p)).
Proof.
  intros Hwf. destruct (DeallocatePage_again dm p l Hwf) as (dm1 & Hd & Hs).
  destruct (alloc_n_self_linked n p dm1 Hs) as (dm2 & Ha & _). eauto.
Qed.

(** A database with the pages 1 and 2, of which page 1 is free. *)
Definition sample_db : DiskManager := fst (exec_ops [OpAlloc; OpAlloc; OpDealloc 1] new_db).
Lemma sample_db_wf : dm_wf sample_db [1].
Proof.
  split; [..|apply NoDup_singleton|]; vm_compute; done.
Qed.
Lemma double_free_duplicates_witness :
  ∃ dm1 dm2, DeallocatePage 1 sample_db = (dm1, Ret tt) ∧
    alloc_n 3 dm1 = (dm2, Ret (replicate 3 1)).
Proof. apply (double_free_duplicates sample_db 1 []), sample_db_wf. Defined.
