(* ===== verification/Replacer.v ===== *)
(** The replacement policies ([replacer.hpp], [replacer.cpp]): the interface
    [Replacer] as a class of operations with its laws, and its two
    implementations, the LRU list and the clock. *)
From Stdlib Require Import ZArith Lia.
From stdpp Require Import base list gmap.
From S2P Require Import Prelude.
Open Scope Z_scope.

(** [frame_id_t] is [int32_t]. *)
Abbreviation frame_id_t := Z.

(** ** The abstract base class *)

(** [Victim] returns the frame stored through the pointer, or [None] for [false]. *)
Class Replacer (R : Type) := {
  Victim : R → option frame_id_t * R;
  Pin : frame_id_t → R → R;
  Unpin : frame_id_t → R → R;
  Size : R → Z;
}.

(** What the buffer pool relies on: a replacer is a set of evictable frames. *)
Class ReplacerLaws (R : Type) `{Replacer R} := {
  rep_wf : R → Prop;
  rep_cap : R → Z;
  rep_set : R → gset frame_id_t;
  rep_range r f : rep_wf r → f ∈ rep_set r → 0 ≤ f < rep_cap r;
  victim_some r f r' : rep_wf r → Victim r = (Some f, r') →
    f ∈ rep_set r ∧ rep_wf r' ∧ rep_cap r' = rep_cap r ∧ rep_set r' = rep_set r ∖ {[f]};
  victim_none r r' : rep_wf r → Victim r = (None, r') → r' = r ∧ rep_set r = ∅;
  pin_spec r f : rep_wf r →
    rep_wf (Pin f r) ∧ rep_cap (Pin f r) = rep_cap r ∧ rep_set (Pin f r) = rep_set r ∖ {[f]};
  unpin_spec r f : rep_wf r →
    rep_wf (Unpin f r) ∧ rep_cap (Unpin f r) = rep_cap r ∧
    rep_set (Unpin f r) =
      (if decide (0 ≤ f < rep_cap r) then {[f]} ∪ rep_set r else rep_set r);
  size_spec r : rep_wf r → Size r = Z.of_nat (size (rep_set r));
}.

(** ** LRUReplacer *)
Module LRU.

(** A node of [std::list] is an address and the frame it holds; an iterator
    stored in [lru_map_] is the address of a node. *)
Record LRUReplacer := mkLRU {
  num_frames_ : Z;
  lru_list_ : list (nat * frame_id_t);
  lru_map_ : gmap frame_id_t nat;
  next_node : nat;    (* the allocator of list nodes *)
}.

Definition LRUReplacer_new (num_frames : Z) : LRUReplacer := mkLRU num_frames [] ∅ 0.

(** [std::list::erase(iter)]. *)
Definition list_erase (a : nat) (l : list (nat * frame_id_t)) := filter (λ n, n.1 ≠ a) l.

Definition LRU_Victim (r : LRUReplacer) : option frame_id_t * LRUReplacer :=
  match lru_list_ r with
  | [] => (None, r)
  | (_, f) :: l => (Some f, mkLRU (num_frames_ r) l (delete f (lru_map_ r)) (next_node r))
  end.

Definition LRU_Pin (f : frame_id_t) (r : LRUReplacer) : LRUReplacer :=
  match lru_map_ r !! f with
  | Some a => mkLRU (num_frames_ r) (list_erase a (lru_list_ r)) (delete f (lru_map_ r)) (next_node r)
  | None => r
  end.

Definition LRU_Unpin (f : frame_id_t) (r : LRUReplacer) : LRUReplacer :=
  if decide (f < 0 ∨ num_frames_ r ≤ f) then r else
  match lru_map_ r !! f with
  | Some _ => r
  | None =>
      let a := next_node r in
      mkLRU (num_frames_ r) (lru_list_ r ++ [(a, f)]) (<[f := a]> (lru_map_ r)) (S a)
  end.

Definition LRU_Size (r : LRUReplacer) : Z := zlen (lru_list_ r).

#[global] Instance LRU_replacer : Replacer LRUReplacer := {
  Victim := LRU_Victim; Pin := LRU_Pin; Unpin := LRU_Unpin; Size := LRU_Size;
}.

(** The frames in eviction order. *)
Definition queue (r : LRUReplacer) : list frame_id_t := (lru_list_ r).*2.

#[global] Arguments queue : simpl never.

(** The map points every queued frame at its own node. *)
Record wf (r : LRUReplacer) : Prop := {
  wf_addr : NoDup (lru_list_ r).*1;
  wf_frame : NoDup (queue r);
  wf_map : ∀ f a, lru_map_ r !! f = Some a ↔ (a, f) ∈ lru_list_ r;
  wf_fresh : ∀ a f, (a, f) ∈ lru_list_ r → (a < next_node r)%nat;
  wf_range : ∀ f, f ∈ queue r → 0 ≤ f < num_frames_ r;
}.

Lemma elem_of_queue r f : f ∈ queue r ↔ ∃ a, (a, f) ∈ lru_list_ r.
Proof.
  unfold queue. rewrite list_elem_of_fmap. split.
  - intros ([a g] & -> & ?). eauto.
  - intros (a & ?). by exists (a, f).
Qed.
Lemma map_None_queue r f : wf r → lru_map_ r !! f = None ↔ f ∉ queue r.
Proof.
  intros Hwf. rewrite elem_of_queue, eq_None_not_Some. split; intros Hn H; apply Hn.
  - destruct H as [a ?]. exists a. by apply (wf_map _ Hwf).
  - destruct H as [a ?%(wf_map _ Hwf)]. eauto.
Qed.

(** Erasing the node of a frame erases the frame. *)
Lemma list_erase_frame l a f : NoDup l.*1 → NoDup l.*2 → (a, f) ∈ l →
  list_erase a l = filter (λ n, n.2 ≠ f) l.
Proof.
  unfold list_erase. induction l as [|[b g] l IH]; [by intros _ _ ?%not_elem_of_nil|].
  cbn [fmap list_fmap]. intros [Hb ?]%NoDup_cons [Hg ?]%NoDup_cons [Heq|Hin]%elem_of_cons.
  - simplify_eq. rewrite !filter_cons_False by (cbn; naive_solver).
    rewrite !filter_all; [done|intros [c h] Hc; cbn; intros ->..].
    + apply Hg. apply list_elem_of_fmap. by exists (c, g).
    + apply Hb. apply list_elem_of_fmap. by exists (b, h).
  - assert (a ≠ b). { intros ->. apply Hb. apply list_elem_of_fmap. by exists (b, f). }
    assert (f ≠ g). { intros ->. apply Hg. apply list_elem_of_fmap. by exists (a, g). }
    rewrite !filter_cons_True by (cbn; naive_solver). f_equal. auto.
Qed.
Lemma filter_frame_queue (l : list (nat * frame_id_t)) f :
  (filter (λ n, n.2 ≠ f) l).*2 = filter (λ g, g ≠ f) l.*2.
Proof.
  induction l as [|[a g] l IH]; [done|]. cbn [fmap list_fmap]. rewrite !filter_cons. cbn.
  case_decide; cbn; by rewrite ?IH.
Qed.

(** *** Effect of each operation on the queue *)
Lemma queue_victim r f r' : LRU_Victim r = (Some f, r') → queue r = f :: queue r'.
Proof. unfold LRU_Victim, queue. destruct (lru_list_ r) as [|[a g] l]; naive_solver. Qed.
Lemma queue_victim_none r r' : LRU_Victim r = (None, r') → r' = r ∧ queue r = [].
Proof. unfold LRU_Victim, queue. destruct (lru_list_ r) as [|[a g] l]; naive_solver. Qed.
Lemma queue_pin r f : wf r → queue (LRU_Pin f r) = filter (λ g, g ≠ f) (queue r).
Proof.
  intros Hwf. unfold LRU_Pin. destruct (lru_map_ r !! f) as [a|] eqn:Hf.
  - apply (wf_map _ Hwf) in Hf. unfold queue. cbn.
    rewrite (list_erase_frame _ a f) by (done || apply Hwf). apply filter_frame_queue.
  - apply map_None_queue in Hf; [|done]. symmetry. apply filter_all. naive_solver.
Qed.
Lemma queue_unpin r f : wf r → queue (LRU_Unpin f r) =
  if decide (0 ≤ f < num_frames_ r ∧ f ∉ queue r) then queue r ++ [f] else queue r.
Proof.
  intros Hwf. unfold LRU_Unpin. pose proof (map_None_queue r f Hwf).
  destruct (decide (f < 0 ∨ _)); [rewrite decide_False by lia; done|].
  destruct (lru_map_ r !! f) eqn:Hf.
  - rewrite decide_False; [done|]. naive_solver.
  - rewrite decide_True by (split; [lia|naive_solver]). unfold queue. cbn.
    by rewrite fmap_app.
Qed.

(** *** Preservation of the invariant *)
Lemma lru_wf_new n : wf (LRUReplacer_new n).
Proof. split; cbn; try set_solver. all: apply NoDup_nil_2. Qed.
Lemma wf_victim r f r' : wf r → LRU_Victim r = (Some f, r') → wf r'.
Proof.
  intros [Ha Hf Hm Hn Hr]. unfold LRU_Victim, queue in *.
  destruct (lru_list_ r) as [|[a g] l]; [done|]. intros [= -> <-].
  cbn in Ha, Hf. apply NoDup_cons in Ha as [Ha1 ?], Hf as [Hf1 ?].
  split; cbn; [done|done| | |]; [|set_solver|set_solver].
  intros h b. rewrite lookup_delete. case_decide; subst.
  - split; [done|]. intros Hin. destruct Hf1. apply list_elem_of_fmap. by exists (b, h).
  - rewrite Hm, elem_of_cons. naive_solver.
Qed.
Lemma wf_pin r f : wf r → wf (LRU_Pin f r).
Proof.
  intros Hwf. pose proof (queue_pin r f Hwf) as Hq. revert Hq. unfold LRU_Pin.
  destruct (lru_map_ r !! f) as [a|] eqn:Hfa; [|done].
  apply (wf_map _ Hwf) in Hfa. pose proof Hwf as [Ha Hf Hm Hn Hr].
  rewrite (list_erase_frame _ a f) by done. intros Hq. split; cbn.
  - by apply NoDup_fmap_filter.
  - rewrite Hq. by apply NoDup_filter.
  - intros g b. rewrite list_elem_of_filter, lookup_delete, <- Hm. cbn. case_decide; naive_solver.
  - intros b g. rewrite list_elem_of_filter. naive_solver.
  - intros g. rewrite Hq, list_elem_of_filter. naive_solver.
Qed.
Lemma wf_unpin r f : wf r → wf (LRU_Unpin f r).
Proof.
  intros Hwf. pose proof (queue_unpin r f Hwf) as Hq. revert Hq. unfold LRU_Unpin.
  destruct (decide (f < 0 ∨ _)); [done|].
  destruct (lru_map_ r !! f) as [a|] eqn:Hfa; [done|].
  apply map_None_queue in Hfa; [|done]. rewrite decide_True by (split; [lia|done]).
  intros Hq. pose proof Hwf as [Ha Hf Hm Hn Hr]. split; cbn.
  - rewrite fmap_app. apply NoDup_snoc; [done|].
    intros ([b g] & Hb & Hin)%list_elem_of_fmap. cbn in Hb. apply Hn in Hin. lia.
  - rewrite Hq. by apply NoDup_snoc.
  - intros g b. rewrite elem_of_app, list_elem_of_singleton, <- Hm, lookup_insert.
    case_decide; subst; [|naive_solver].
    assert (lru_map_ r !! g = None) as -> by by apply map_None_queue. naive_solver.
  - intros b g [?%Hn|?%list_elem_of_singleton]%elem_of_app; [lia|naive_solver].
  - intros g. rewrite Hq, elem_of_app, list_elem_of_singleton. intros [?| ->]; [auto|lia].
Qed.

(** No operation changes the capacity. *)
Lemma cap_pin r f : num_frames_ (LRU_Pin f r) = num_frames_ r.
Proof. unfold LRU_Pin. by destruct (lru_map_ r !! f). Qed.
Lemma cap_unpin r f : num_frames_ (LRU_Unpin f r) = num_frames_ r.
Proof. unfold LRU_Unpin. case_decide; [done|]. by destruct (lru_map_ r !! f). Qed.

(** *** The laws *)
#[global] #[refine] Instance LRU_laws : ReplacerLaws LRUReplacer := {
  rep_wf := wf; rep_cap := num_frames_; rep_set r := list_to_set (queue r);
}.
Proof.
  - intros r f Hwf. rewrite elem_of_list_to_set. apply Hwf.
  - intros r f r' Hwf Hv. pose proof (queue_victim _ _ _ Hv) as Hq.
    pose proof (wf_frame _ Hwf) as Hnd. rewrite Hq in *. apply NoDup_cons in Hnd as [? _].
    split_and!; [set_solver|by eapply wf_victim| |set_solver].
    cbn in Hv. unfold LRU_Victim in Hv. destruct (lru_list_ r) as [|[]]; naive_solver.
  - intros r r' _ Hv. destruct (queue_victim_none _ _ Hv) as [-> ->]. done.
  - intros r f Hwf. split_and!; [by apply wf_pin|apply cap_pin|].
    cbn. rewrite queue_pin by done. apply set_eq. intros g.
    rewrite elem_of_list_to_set, list_elem_of_filter. set_solver.
  - intros r f Hwf. split_and!; [by apply wf_unpin|apply cap_unpin|].
    change (Unpin f r) with (LRU_Unpin f r). rewrite queue_unpin by done.
    destruct (decide (0 ≤ f < num_frames_ r)) as [Hr|Hr].
    + destruct (decide (f ∈ queue r)).
      * rewrite decide_False by (intros []; done). set_solver.
      * rewrite decide_True by done. set_solver.
    + rewrite decide_False by (intros []; done). done.
  - intros r Hwf. cbn. rewrite size_list_to_set by apply Hwf.
    unfold LRU_Size, queue. by rewrite length_fmap.
Defined.
End LRU.

(** ** ClockReplacer *)
Module Clock.

Record ClockReplacer := mkClock {
  num_frames_ : Z;
  ref_flags_ : list bool;
  in_replacer_ : list bool;
  clock_hand_ : Z;
  size_ : Z;
}.

Definition ClockReplacer_new (num_frames : Z) : ClockReplacer :=
  mkClock num_frames (replicate (Z.to_nat num_frames) false)
    (replicate (Z.to_nat num_frames) false) 0 0.

Definition advance (r : ClockReplacer) : Z := (clock_hand_ r + 1) mod num_frames_ r.

(** One iteration of the loop of [Victim]: the hand moves on ([inl]) or a victim
    is found ([inr]); [None] is an access outside the vectors. *)
Definition clock_iter (r : ClockReplacer)
    : option (ClockReplacer + frame_id_t * ClockReplacer) :=
  let h := clock_hand_ r in
  in_rep ← zget (in_replacer_ r) h;
  if (in_rep : bool) then
    ref ← zget (ref_flags_ r) h;
    if (ref : bool) then
      refs ← zset (ref_flags_ r) h false;
      Some (inl (mkClock (num_frames_ r) refs (in_replacer_ r) (advance r) (size_ r)))
    else
      ins ← zset (in_replacer_ r) h false;
      Some (inr (h, mkClock (num_frames_ r) (ref_flags_ r) ins (advance r) (size_ r - 1)))
  else
    Some (inl (mkClock (num_frames_ r) (ref_flags_ r) (in_replacer_ r) (advance r) (size_ r))).

(** [while (true)], with fuel; [clock_loop_finds] shows that two sweeps suffice. *)
Fixpoint clock_loop (fuel : nat) (r : ClockReplacer) : option (frame_id_t * ClockReplacer) :=
  match fuel with
  | O => None
  | S fuel =>
      step ← clock_iter r;
      match step with
      | inl r' => clock_loop fuel r'
      | inr v => Some v
      end
  end.

Definition Clock_Victim (r : ClockReplacer) : option frame_id_t * ClockReplacer :=
  if decide (size_ r = 0) then (None, r) else
  match clock_loop (Z.to_nat (2 * num_frames_ r)) r with
  | Some (f, r') => (Some f, r')
  | None => (None, r)
  end.

Definition Clock_Pin (f : frame_id_t) (r : ClockReplacer) : ClockReplacer :=
  if decide (f < 0 ∨ num_frames_ r ≤ f) then r else
  match zget (in_replacer_ r) f, zset (in_replacer_ r) f false with
  | Some true, Some ins => mkClock (num_frames_ r) (ref_flags_ r) ins (clock_hand_ r) (size_ r - 1)
  | _, _ => r
  end.

Definition Clock_Unpin (f : frame_id_t) (r : ClockReplacer) : ClockReplacer :=
  if decide (f < 0 ∨ num_frames_ r ≤ f) then r else
  match zget (in_replacer_ r) f, zset (in_replacer_ r) f true, zset (ref_flags_ r) f true with
  | Some false, Some ins, Some refs => mkClock (num_frames_ r) refs ins (clock_hand_ r) (size_ r + 1)
  | _, _, _ => r
  end.

Definition Clock_Size (r : ClockReplacer) : Z := size_ r.

#[global] Instance Clock_replacer : Replacer ClockReplacer := {
  Victim := Clock_Victim; Pin := Clock_Pin; Unpin := Clock_Unpin; Size := Clock_Size;
}.

(** The frames whose [in_replacer_] flag is set. *)
Definition evictable (r : ClockReplacer) : gset frame_id_t :=
  list_to_set (filter (λ f, zget (in_replacer_ r) f = Some true) (seqZ 0 (zlen (in_replacer_ r)))).

Record wf (r : ClockReplacer) : Prop := {
  wf_refs : zlen (ref_flags_ r) = num_frames_ r;
  wf_ins : zlen (in_replacer_ r) = num_frames_ r;
  wf_hand : 0 < num_frames_ r → 0 ≤ clock_hand_ r < num_frames_ r;
  wf_size : size_ r = Z.of_nat (size (evictable r));
}.

Lemma elem_of_evictable r f : f ∈ evictable r ↔ zget (in_replacer_ r) f = Some true.
Proof.
  unfold evictable. rewrite elem_of_list_to_set, list_elem_of_filter, elem_of_seqZ.
  split; [naive_solver|]. intros Hf. apply zget_Some_bound in Hf as Hb. naive_solver lia.
Qed.
#[global] Arguments evictable : simpl never.

Lemma evictable_insert n refs l l' h s f (b : bool) r :
  in_replacer_ r = l → zset l f b = Some l' →
  evictable (mkClock n refs l' h s) =
    if b then {[f]} ∪ evictable r else evictable r ∖ {[f]}.
Proof.
  intros <- Hz. apply set_eq. intros g. destruct b;
    rewrite ?elem_of_union, ?elem_of_difference, elem_of_singleton, !elem_of_evictable; cbn;
    rewrite (zget_zset _ _ _ _ _ Hz); case_decide; naive_solver.
Qed.

(** The frame [k] places after the hand. *)
Definition slot (r : ClockReplacer) (k : Z) : frame_id_t := (clock_hand_ r + k) mod num_frames_ r.
Definition cand (r : ClockReplacer) (k : Z) : Prop := zget (in_replacer_ r) (slot r k) = Some true.
Definition clean (r : ClockReplacer) (k : Z) : Prop :=
  cand r k ∧ zget (ref_flags_ r) (slot r k) = Some false.
#[global] Instance cand_dec r k : Decision (cand r k).
Proof. unfold cand. apply _. Defined.
#[global] Instance clean_dec r k : Decision (clean r k).
Proof. unfold clean. apply _. Defined.

Lemma slot_range r k : 0 < num_frames_ r → 0 ≤ slot r k < num_frames_ r.
Proof. intros. apply Z.mod_pos_bound. lia. Qed.
Lemma slot_inj r j k : 0 ≤ j < num_frames_ r → 0 ≤ k < num_frames_ r → slot r j = slot r k → j = k.
Proof.
  unfold slot. set (n := num_frames_ r). set (h := clock_hand_ r). intros Hj Hk H.
  pose proof (Z.div_mod (h + j) n ltac:(lia)) as E1. pose proof (Z.div_mod (h + k) n ltac:(lia)) as E2.
  rewrite H in E1.
  assert (j - k = n * ((h + j) / n - (h + k) / n)) by lia.
  assert ((h + j) / n - (h + k) / n = 0) by nia. lia.
Qed.
Lemma slot_surj r f : 0 ≤ f < num_frames_ r → ∃ k, 0 ≤ k < num_frames_ r ∧ f = slot r k.
Proof.
  intros. exists ((f - clock_hand_ r) mod num_frames_ r). split; [apply Z.mod_pos_bound; lia|].
  unfold slot. rewrite Zplus_mod_idemp_r.
  replace (clock_hand_ r + (f - clock_hand_ r)) with f by lia. by rewrite Z.mod_small.
Qed.
Lemma slot_0 r : wf r → 0 < num_frames_ r → slot r 0 = clock_hand_ r.
Proof. intros [_ _ Hh _] ?. unfold slot. rewrite Z.add_0_r. apply Z.mod_small. auto. Qed.

(** The hand has passed [m] frames without finding a victim. *)
Record passed (r : ClockReplacer) (m : Z) (r' : ClockReplacer) : Prop := {
  ps_num : num_frames_ r' = num_frames_ r;
  ps_ins : in_replacer_ r' = in_replacer_ r;
  ps_size : size_ r' = size_ r;
  ps_hand : clock_hand_ r' = slot r m;
  ps_len : length (ref_flags_ r') = length (ref_flags_ r);
  ps_behind : ∀ k, 0 ≤ k < m → cand r k → zget (ref_flags_ r') (slot r k) = Some false;
  ps_ahead : ∀ k, m ≤ k < num_frames_ r →
    zget (ref_flags_ r') (slot r k) = zget (ref_flags_ r) (slot r k);
}.

Lemma pass_one r m r' : wf r → 0 ≤ m < num_frames_ r → passed r m r' → ¬ clean r m →
  ∃ r'', clock_iter r' = Some (inl r'') ∧ passed r (m + 1) r''.
Proof.
  intros Hwf Hm [Hn Hi Hs Hh Hl Hb Ha] Hncl.
  pose proof (slot_range r m ltac:(lia)) as Hsl.
  unfold clock_iter, advance. rewrite Hh, Hi, Hn, Hs.
  assert (Hadv : (slot r m + 1) mod num_frames_ r = slot r (m + 1)).
  { unfold slot. rewrite Zplus_mod_idemp_l. f_equal. lia. }
  rewrite Hadv.
  destruct (zget_is_Some (in_replacer_ r) (slot r m)) as [b Hin]; [rewrite (wf_ins _ Hwf); lia|].
  rewrite Hin. cbn. destruct b.
  - assert (Href : zget (ref_flags_ r') (slot r m) = Some true).
    { destruct (zget_is_Some (ref_flags_ r') (slot r m)) as [[] Hr]; [|done|].
      { rewrite Hl, (wf_refs _ Hwf). lia. }
      destruct Hncl. split; [done|]. rewrite <- Ha by lia. done. }
    rewrite Href. cbn.
    destruct (zset_total (ref_flags_ r') (slot r m) false) as (refs & -> & Hlr & Hg).
    { rewrite Hl, (wf_refs _ Hwf). lia. }
    cbn. eexists. split; [done|]. split; cbn; try done; [lia|..].
    + intros k ? ?. rewrite Hg. case_decide; [done|]. apply Hb; [|done].
      assert (k ≠ m) by by intros ->. lia.
    + intros k ?. rewrite Hg, decide_False; [apply Ha; lia|].
      intros Heq%slot_inj; lia.
  - cbn. eexists. split; [done|]. split; cbn; try done.
    + intros k ? Hk. apply Hb; [|done]. assert (k ≠ m); [|lia].
      intros ->. unfold cand in Hk. congruence.
    + intros k ?. apply Ha. lia.
Qed.

Lemma pass_many r (m : nat) fuel : wf r → Z.of_nat m ≤ num_frames_ r → 0 < num_frames_ r →
  (∀ k, 0 ≤ k < Z.of_nat m → ¬ clean r k) →
  ∃ r', clock_loop (m + fuel) r = clock_loop fuel r' ∧ passed r (Z.of_nat m) r'.
Proof.
  intros Hwf Hm Hpos. revert fuel. induction m as [|m IH]; intros fuel Hncl.
  - exists r. split; [done|]. split; try done; [by rewrite slot_0|lia].
  - destruct (IH ltac:(lia) (S fuel)) as (r1 & Hl1 & Hp1); [intros; apply Hncl; lia|].
    destruct (pass_one r (Z.of_nat m) r1) as (r2 & Hit & Hp2); [done|lia|done|apply Hncl; lia|].
    exists r2. split.
    + replace (S m + fuel)%nat with (m + S fuel)%nat by lia. rewrite Hl1.
      cbn [clock_loop]. by rewrite Hit.
    + by replace (Z.of_nat (S m)) with (Z.of_nat m + 1) by lia.
Qed.

(** A victim and the state it leaves. *)
Definition takes (r : ClockReplacer) (f : frame_id_t) (r' : ClockReplacer) : Prop :=
  wf r' ∧ num_frames_ r' = num_frames_ r ∧ evictable r' = evictable r ∖ {[f]} ∧
  clock_hand_ r' = (f + 1) mod num_frames_ r.

Lemma found r r' : wf r' → 0 < num_frames_ r' →
  zget (in_replacer_ r') (clock_hand_ r') = Some true →
  zget (ref_flags_ r') (clock_hand_ r') = Some false →
  num_frames_ r' = num_frames_ r → evictable r' = evictable r →
  ∃ r'', clock_iter r' = Some (inr (clock_hand_ r', r'')) ∧ takes r (clock_hand_ r') r''.
Proof.
  intros Hwf Hpos Hin Href Hn He. pose proof Hwf as [Hwr Hwi Hwh Hws].
  unfold clock_iter, advance. rewrite Hin. cbn. rewrite Href. cbn.
  destruct (zset_total (in_replacer_ r') (clock_hand_ r') false) as (ins & Hz & Hl & _).
  { rewrite Hwi. auto. }
  rewrite Hz. cbn. eexists. split; [done|].
  pose proof (evictable_insert (num_frames_ r') (ref_flags_ r') _ _
    ((clock_hand_ r' + 1) mod num_frames_ r') (size_ r' - 1) _ _ r' eq_refl Hz) as Hev.
  apply elem_of_evictable in Hin.
  rewrite Hn in *. unfold takes. cbn. split_and!; [|done|by rewrite Hev, He|done].
  split; cbn.
  - lia.
  - lia.
  - intros _. apply Z.mod_pos_bound. lia.
  - rewrite Hev, Hws, size_difference by set_solver. rewrite size_singleton.
    assert (size (evictable r') ≠ 0%nat); [|lia].
    rewrite size_non_empty_iff. set_solver.
Qed.

Lemma passed_evictable r m r' : passed r m r' → evictable r' = evictable r.
Proof.
  intros [_ Hi _ _ _ _ _]. apply set_eq. intros f. by rewrite !elem_of_evictable, Hi.
Qed.
Lemma passed_wf r m r' : wf r → 0 < num_frames_ r → passed r m r' → wf r'.
Proof.
  intros Hwf Hpos Hp. pose proof (passed_evictable _ _ _ Hp) as He.
  destruct Hwf, Hp. split; [congruence|congruence| |congruence].
  rewrite ps_num0, ps_hand0. intros _. by apply slot_range.
Qed.

(** Stop at place [m] after passing the places before it. *)
Lemma pass_then_find r (m fuel : nat) : wf r → Z.of_nat m < num_frames_ r →
  (∀ k, 0 ≤ k < Z.of_nat m → ¬ clean r k) → clean r (Z.of_nat m) →
  ∃ r', clock_loop (m + S fuel) r = Some (slot r (Z.of_nat m), r') ∧
    takes r (slot r (Z.of_nat m)) r'.
Proof.
  intros Hwf Hm Hncl [Hc Hcl].
  destruct (pass_many r m (S fuel) Hwf) as (r1 & -> & Hp); [lia..|done|].
  pose proof (passed_evictable _ _ _ Hp) as He. pose proof Hp as [Hn Hi _ Hh _ _ Ha].
  destruct (found r r1) as (r2 & Hit & Ht).
  - by eapply passed_wf; [done|lia|].
  - lia.
  - by rewrite Hh, Hi.
  - by rewrite Hh, Ha by lia.
  - done.
  - done.
  - exists r2. cbn [clock_loop]. rewrite Hit, Hh in *. done.
Qed.

(** The frame the policy chooses, counted in places from the hand: the first
    evictable frame without its second chance, or, when every evictable frame
    has one, the first evictable frame. *)
Definition chosen (r : ClockReplacer) (k : Z) : Prop :=
  0 ≤ k < num_frames_ r ∧
  ((clean r k ∧ ∀ j, 0 ≤ j < k → ¬ clean r j) ∨
   ((∀ j, 0 ≤ j < num_frames_ r → ¬ clean r j) ∧ cand r k ∧ ∀ j, 0 ≤ j < k → ¬ cand r j)).

Lemma first_or_none (P : Z → Prop) `{!∀ k, Decision (P k)} n : 0 ≤ n →
  (∃ k, 0 ≤ k < n ∧ P k ∧ ∀ j, 0 ≤ j < k → ¬ P j) ∨ (∀ k, 0 ≤ k < n → ¬ P k).
Proof.
  intros Hn. destruct (find_up_spec 0 n (λ k, Some (bool_decide (P k)))) as
    [(k & _ & Hk & HP & Hlt)|[_ Hlt]]; [done|by eauto|left|right].
  - exists k. split_and!; [lia..| |].
    + injection HP. apply bool_decide_eq_true_1.
    + intros j Hj. specialize (Hlt j Hj). injection Hlt. apply bool_decide_eq_false_1.
  - intros k Hk. specialize (Hlt k Hk). injection Hlt. apply bool_decide_eq_false_1.
Qed.

Lemma num_pos_of_size r : wf r → size_ r ≠ 0 → 0 < num_frames_ r.
Proof.
  intros [_ Hi _ Hs] Hne. destruct (size_pos_elem_of (evictable r)) as [f Hf]; [lia|].
  apply elem_of_evictable, zget_Some_bound in Hf. lia.
Qed.

(** Two sweeps find the chosen frame. *)
Lemma clock_loop_finds r : wf r → size_ r ≠ 0 →
  ∃ k r', clock_loop (Z.to_nat (2 * num_frames_ r)) r = Some (slot r k, r') ∧
    chosen r k ∧ takes r (slot r k) r'.
Proof.
  intros Hwf Hsz. pose proof (num_pos_of_size r Hwf Hsz) as Hpos.
  destruct (first_or_none (clean r) (num_frames_ r)) as [(k & Hk & Hcl & Hlt)|Hnone]; [lia| |].
  - destruct (pass_then_find r (Z.to_nat k) (Z.to_nat (2 * num_frames_ r - k - 1)) Hwf)
      as (r' & Hl & Ht); rewrite ?Z2Nat.id by lia; [lia|done..|].
    rewrite Z2Nat.id in Hl, Ht by lia.
    exists k, r'. split_and!; [|split; [lia|by left]|done].
    rewrite <- Hl. f_equal. lia.
  - set (n := num_frames_ r) in *.
    destruct (pass_many r (Z.to_nat n) (Z.to_nat n) Hwf) as (r1 & Hl1 & Hp); [fold n; lia..| |].
    { intros k ?. apply Hnone. lia. }
    rewrite Z2Nat.id in Hp by lia. pose proof (passed_wf _ _ _ Hwf Hpos Hp) as Hwf1.
    pose proof (passed_evictable _ _ _ Hp) as He. pose proof Hp as [Hn1 Hi1 _ Hh1 _ Hb1 _].
    assert (Hslot : ∀ k, slot r1 k = slot r k).
    { intros k. unfold slot at 1. rewrite Hn1, Hh1. unfold slot.
      rewrite Zplus_mod_idemp_l. fold n.
      replace (clock_hand_ r + n + k) with (clock_hand_ r + k + 1 * n) by lia.
      apply Z.mod_add. lia. }
    assert (Hcand : ∀ k, cand r1 k ↔ cand r k) by (intros; unfold cand; by rewrite Hslot, Hi1).
    assert (Hclean : ∀ k, 0 ≤ k < n → clean r1 k ↔ cand r k).
    { intros k ?. unfold clean. rewrite Hcand, Hslot. split; [tauto|]. auto. }
    destruct (first_or_none (cand r) n) as [(k & Hk & Hc & Hlt)|Hno]; [lia| |].
    + destruct (pass_then_find r1 (Z.to_nat k) (Z.to_nat (n - k - 1)) Hwf1)
        as (r' & Hl & Ht); rewrite ?Z2Nat.id by lia; [lia| |by apply Hclean|].
      { intros j ?. rewrite Hclean by lia. auto. }
      rewrite Z2Nat.id, Hslot in Hl, Ht by lia.
      exists k, r'. split_and!.
      * replace (Z.to_nat (2 * n)) with (Z.to_nat n + Z.to_nat n)%nat by lia.
        rewrite Hl1, <- Hl. f_equal. lia.
      * split; [done|]. right. done.
      * unfold takes in *. rewrite He, Hn1 in Ht. done.
    + destruct (size_pos_elem_of (evictable r)) as [f Hf].
      { pose proof (wf_size _ Hwf). lia. }
      apply elem_of_evictable in Hf. pose proof (zget_Some_bound _ _ _ Hf) as Hfr.
      rewrite (wf_ins _ Hwf) in Hfr. destruct (slot_surj r f Hfr) as (k & Hk & ->).
      destruct (Hno k Hk). done.
Qed.

Lemma clock_wf_new n : 0 ≤ n → wf (ClockReplacer_new n).
Proof.
  intros Hn. assert (evictable (ClockReplacer_new n) = ∅) as E.
  { apply set_eq. intros f. rewrite elem_of_evictable. split; [|set_solver].
    unfold zget. cbn. case_decide; [|done]. intros Hl%lookup_replicate. naive_solver. }
  split; [..|by rewrite E]; cbn; rewrite ?length_replicate; lia.
Qed.

Lemma victim_eq r : wf r → size_ r ≠ 0 →
  ∃ k r', Clock_Victim r = (Some (slot r k), r') ∧ chosen r k ∧ takes r (slot r k) r'.
Proof.
  intros Hwf Hsz. destruct (clock_loop_finds r Hwf Hsz) as (k & r' & Hl & ? & ?).
  exists k, r'. unfold Clock_Victim. by rewrite decide_False, Hl by done.
Qed.

Lemma pin_eq r f : wf r →
  wf (Clock_Pin f r) ∧ num_frames_ (Clock_Pin f r) = num_frames_ r ∧
  evictable (Clock_Pin f r) = evictable r ∖ {[f]}.
Proof.
  intros Hwf. pose proof Hwf as [Hr Hi Hh Hs]. unfold Clock_Pin.
  assert (Hout : zget (in_replacer_ r) f ≠ Some true → evictable r = evictable r ∖ {[f]}).
  { rewrite <- elem_of_evictable. set_solver. }
  case_decide as Hf.
  { split_and!; [done|done|]. apply Hout. rewrite zget_None by lia. done. }
  destruct (zget (in_replacer_ r) f) as [[]|] eqn:Hg; [|by split_and!; try apply Hout..].
  destruct (zset_total (in_replacer_ r) f false) as (ins & Hz & Hl & _); [lia|].
  rewrite Hz.
  pose proof (evictable_insert (num_frames_ r) (ref_flags_ r) _ _ (clock_hand_ r) (size_ r - 1)
    _ _ r eq_refl Hz) as Hev.
  apply elem_of_evictable in Hg.
  split_and!; [|done|done]. split; cbn; [done|lia|done|].
  rewrite Hev, Hs, size_difference by set_solver. rewrite size_singleton.
  assert (size (evictable r) ≠ 0%nat); [|lia]. rewrite size_non_empty_iff. set_solver.
Qed.

Lemma unpin_eq r f : wf r →
  wf (Clock_Unpin f r) ∧ num_frames_ (Clock_Unpin f r) = num_frames_ r ∧
  evictable (Clock_Unpin f r) =
    (if decide (0 ≤ f < num_frames_ r) then {[f]} ∪ evictable r else evictable r).
Proof.
  intros Hwf. pose proof Hwf as [Hr Hi Hh Hs]. unfold Clock_Unpin.
  case_decide as Hf; [by rewrite decide_False by lia|].
  rewrite decide_True by lia.
  destruct (zset_total (in_replacer_ r) f true) as (ins & Hz & Hl & _); [lia|].
  destruct (zset_total (ref_flags_ r) f true) as (refs & Hz' & Hl' & _); [lia|].
  destruct (zget_is_Some (in_replacer_ r) f) as [b Hg]; [lia|].
  rewrite Hg, Hz, Hz'. destruct b.
  - apply elem_of_evictable in Hg. split_and!; [done..|]. set_solver.
  - assert (f ∉ evictable r). { rewrite elem_of_evictable. by rewrite Hg. }
    pose proof (evictable_insert (num_frames_ r) refs _ _ (clock_hand_ r) (size_ r + 1)
      _ _ r eq_refl Hz) as Hev.
    split_and!; [|done|done]. split; cbn; [lia|lia|done|].
    rewrite Hev, Hs, size_union by set_solver. rewrite size_singleton. lia.
Qed.

#[global] #[refine] Instance Clock_laws : ReplacerLaws ClockReplacer := {
  rep_wf := wf; rep_cap := num_frames_; rep_set := evictable;
}.
Proof.
  - intros r f Hwf Hf%elem_of_evictable%zget_Some_bound. by rewrite (wf_ins _ Hwf) in Hf.
  - intros r f r' Hwf Hv. cbn in Hv.
    destruct (decide (size_ r = 0)) as [Hz|Hz]; [unfold Clock_Victim in Hv; by case_decide|].
    destruct (victim_eq r Hwf Hz) as (k & r1 & Hv' & Hch & Hw & Hn & He & _).
    rewrite Hv in Hv'. simplify_eq. split_and!; [|done..].
    apply elem_of_evictable. destruct Hch as (_ & [[[? _] _]|(_ & ? & _)]); done.
  - intros r r' Hwf Hv. cbn in Hv. destruct (decide (size_ r = 0)) as [Hz|Hz].
    + unfold Clock_Victim in Hv. rewrite decide_True in Hv by done. simplify_eq. split; [done|].
      pose proof (wf_size _ Hwf). apply leibniz_equiv, size_empty_iff. lia.
    + destruct (victim_eq r Hwf Hz) as (k & r1 & Hv' & _). by rewrite Hv in Hv'.
  - intros r f Hwf. by apply pin_eq.
  - intros r f Hwf. by apply unpin_eq.
  - intros r Hwf. apply Hwf.
Defined.
End Clock.

(** ** Properties *)

(** The calls of the interface, and what they return. *)
Inductive rep_op := RVictim | RPin (f : frame_id_t) | RUnpin (f : frame_id_t) | RSize.
Inductive rep_res := RFrame (o : option frame_id_t) | RVoid | RCount (n : Z).

Definition rep_exec {R} `{Replacer R} (op : rep_op) (r : R) : rep_res * R :=
  match op with
  | RVictim => let '(o, r') := Victim r in (RFrame o, r')
  | RPin f => (RVoid, Pin f r)
  | RUnpin f => (RVoid, Unpin f r)
  | RSize => (RCount (Size r), r)
  end.
Fixpoint rep_run {R} `{Replacer R} (ops : list rep_op) (r : R) : list rep_res :=
  match ops with
  | [] => []
  | op :: ops => let '(x, r') := rep_exec op r in x :: rep_run ops r'
  end.

(** The LRU policy: a queue of distinct frames of capacity [n]. *)
Record fifo := mkFifo { fifo_cap : Z; fifo_frames : list frame_id_t }.
#[export] Instance fifo_replacer : Replacer fifo := {
  Victim q := match fifo_frames q with
              | [] => (None, q)
              | f :: l => (Some f, mkFifo (fifo_cap q) l)
              end;
  Pin f q := mkFifo (fifo_cap q) (filter (λ g, g ≠ f) (fifo_frames q));
  Unpin f q := if decide (0 ≤ f < fifo_cap q ∧ f ∉ fifo_frames q)
               then mkFifo (fifo_cap q) (fifo_frames q ++ [f]) else q;
  Size q := zlen (fifo_frames q);
}.

Lemma lru_sim op r : LRU.wf r →
  ∃ x r', rep_exec op r = (x, r') ∧ LRU.wf r' ∧
    rep_exec op (mkFifo (LRU.num_frames_ r) (LRU.queue r)) =
      (x, mkFifo (LRU.num_frames_ r') (LRU.queue r')).
Proof.
  intros Hwf. destruct op as [|f|f|]; cbn -[LRU.LRU_Pin LRU.LRU_Unpin].
  - destruct (LRU.LRU_Victim r) as [[f|] r'] eqn:Hv; do 2 eexists; (split; [done|]).
    + pose proof (LRU.queue_victim _ _ _ Hv) as Hq. split; [by eapply LRU.wf_victim|].
      rewrite Hq. replace (LRU.num_frames_ r') with (LRU.num_frames_ r); [done|].
      unfold LRU.LRU_Victim in Hv. destruct (LRU.lru_list_ r) as [|[]]; naive_solver.
    + destruct (LRU.queue_victim_none _ _ Hv) as [-> Hq]. by rewrite Hq.
  - do 2 eexists. split; [done|]. split; [by apply LRU.wf_pin|].
    by rewrite LRU.cap_pin, LRU.queue_pin.
  - do 2 eexists. split; [done|]. split; [by apply LRU.wf_unpin|].
    rewrite LRU.cap_unpin, LRU.queue_unpin by done. by case_decide.
  - do 2 eexists. split; [done|]. split; [done|]. unfold LRU.LRU_Size, LRU.queue.
    by rewrite length_fmap.
Qed.

(** C23 (refinement). Whatever the sequence of calls, a new [LRUReplacer] returns
    what a queue of distinct frames returns: [Unpin] appends a frame of the range
    that is not queued, [Pin] removes it wherever it stands, [Victim] takes the
    frame unpinned longest ago.  The list and the map of iterators into it never
    disagree. *)
Theorem lru_refines_queue n ops :
  rep_run ops (LRU.LRUReplacer_new n) = rep_run ops (mkFifo n []).
Proof.
  assert (G : ∀ r, LRU.wf r →
    rep_run ops r = rep_run ops (mkFifo (LRU.num_frames_ r) (LRU.queue r))).
  { induction ops as [|op ops' IH]; intros r Hwf; [done|]. cbn [rep_run].
    destruct (lru_sim op r Hwf) as (x & r' & -> & Hwf' & ->). by rewrite IH. }
  apply (G (LRU.LRUReplacer_new n)), LRU.lru_wf_new.
Qed.

(** C24 (termination). The unbounded loop of [ClockReplacer::Victim] terminates:
    when some frame is evictable, at most two sweeps of the hand choose the frame
    the second-chance policy names - the first evictable frame from the hand on
    whose reference flag is clear, or, when all are set, the first evictable
    frame - and only that frame leaves the replacer. *)
Theorem clock_victim_second_chance r : Clock.wf r → Clock.size_ r ≠ 0 →
  ∃ k r', Victim r = (Some (Clock.slot r k), r') ∧ Clock.chosen r k ∧
    Clock.takes r (Clock.slot r k) r'.
Proof. apply Clock.victim_eq. Qed.

(** The replacer of the unit test: frames 0, 1 and 3 unpinned, frame 2 pinned. *)
Definition clock_sample : Clock.ClockReplacer :=
  Pin 2 (Unpin 3 (Unpin 2 (Unpin 1 (Unpin 0 (Clock.ClockReplacer_new 4))))).
Lemma clock_sample_wf : Clock.wf clock_sample.
Proof.
  unfold clock_sample. repeat first [apply Clock.pin_eq | apply Clock.unpin_eq].
  by apply Clock.clock_wf_new.
Qed.
Lemma clock_victim_second_chance_witness :
  ∃ k r', Victim clock_sample = (Some (Clock.slot clock_sample k), r') ∧
    Clock.chosen clock_sample k ∧ Clock.takes clock_sample (Clock.slot clock_sample k) r'.
Proof. apply clock_victim_second_chance; [apply clock_sample_wf|vm_compute; discriminate]. Defined.

(** The run of the unit test [ClockReplacerSequence]. *)
Example clock_run :
  rep_run [RUnpin 0; RUnpin 1; RUnpin 2; RUnpin 3; RSize; RPin 2; RVictim; RVictim; RUnpin 0;
           RVictim; RVictim; RSize; RVictim] (Clock.ClockReplacer_new 4) =
  [RVoid; RVoid; RVoid; RVoid; RCount 4; RVoid; RFrame (Some 0); RFrame (Some 1); RVoid;
   RFrame (Some 3); RFrame (Some 0); RCount 0; RFrame None].
Proof. vm_compute. reflexivity. Qed.
