(* ===== verification/BufferPool.v ===== *)
(** The buffer pool ([page.hpp], [buffer_pool_manager.hpp],
    [buffer_pool_manager.cpp]): page frames over the disk manager, with any
    replacement policy that satisfies [ReplacerLaws].  The theorems relate it to
    an abstract store of pages with pin counts. *)
From Stdlib Require Import ZArith Lia.
From Stdlib Require Strings.Byte.
From stdpp Require Import base list gmap.
From S2P Require Import Prelude Types DiskManager Replacer.
Open Scope Z_scope.

(** ** Page frames *)
Record Page := mkPage {
  data_ : list byte;          (* [char data_[PAGE_SIZE]] *)
  page_id_ : page_id_t;
  pin_count_ : Z;
  is_dirty_ : bool;
}.

(** [ResetMemory], also the state of a new frame. *)
Definition reset_page : Page := mkPage zero_page INVALID_PAGE_ID 0 false.
Definition SetDirty (d : bool) (pg : Page) : Page :=
  mkPage (data_ pg) (page_id_ pg) (pin_count_ pg) d.
Definition add_pin (n : Z) (pg : Page) : Page :=
  mkPage (data_ pg) (page_id_ pg) (pin_count_ pg + n) (is_dirty_ pg).
Definition set_data (d : list byte) (pg : Page) : Page :=
  mkPage d (page_id_ pg) (pin_count_ pg) (is_dirty_ pg).

(** ** The pool

    A [Page*] into the pool is the index of its frame; [nullptr] is [None]. *)
Record BufferPoolManager (R : Type) := mkPool {
  pool_size_ : Z;
  disk_manager_ : DiskManager;
  replacer_ : R;
  pages_ : list Page;
  page_table_ : gmap page_id_t frame_id_t;
  free_list_ : list frame_id_t;
}.
Arguments mkPool {R}.
Arguments pool_size_ {R}.
Arguments disk_manager_ {R}.
Arguments replacer_ {R}.
Arguments pages_ {R}.
Arguments page_table_ {R}.
Arguments free_list_ {R}.

Section operations.
Context {R : Type} `{Replacer R}.
Abbreviation Pool := (BufferPoolManager R).
Abbreviation MP := (M Pool).

Definition set_disk (dm : DiskManager) (b : Pool) : Pool :=
  mkPool (pool_size_ b) dm (replacer_ b) (pages_ b) (page_table_ b) (free_list_ b).
Definition set_replacer (r : R) (b : Pool) : Pool :=
  mkPool (pool_size_ b) (disk_manager_ b) r (pages_ b) (page_table_ b) (free_list_ b).
Definition set_pages (ps : list Page) (b : Pool) : Pool :=
  mkPool (pool_size_ b) (disk_manager_ b) (replacer_ b) ps (page_table_ b) (free_list_ b).
Definition set_table (t : gmap page_id_t frame_id_t) (b : Pool) : Pool :=
  mkPool (pool_size_ b) (disk_manager_ b) (replacer_ b) (pages_ b) t (free_list_ b).
Definition set_free (l : list frame_id_t) (b : Pool) : Pool :=
  mkPool (pool_size_ b) (disk_manager_ b) (replacer_ b) (pages_ b) (page_table_ b) l.

Definition on_disk {A} (m : M DiskManager A) : MP A := zoom disk_manager_ set_disk m.
Definition replacer_pin (f : frame_id_t) : MP unit :=
  modify (λ b, set_replacer (Pin f (replacer_ b)) b).
Definition replacer_unpin (f : frame_id_t) : MP unit :=
  modify (λ b, set_replacer (Unpin f (replacer_ b)) b).

(** [pages_[f]], read and updated in place. *)
Definition get_page (f : frame_id_t) : MP Page :=
  o ← gets (λ b, zget (pages_ b) f); from_opt o.
Definition put_page (f : frame_id_t) (pg : Page) : MP unit :=
  o ← gets (λ b, zset (pages_ b) f pg); ps ← from_opt o; modify (set_pages ps).
Definition upd_page (f : frame_id_t) (g : Page → Page) : MP unit :=
  pg ← get_page f; put_page f (g pg).

(** The constructor. *)
Definition BufferPoolManager_new (pool_size : Z) (dm : DiskManager) (r : R) : Pool :=
  mkPool pool_size dm r (replicate (Z.to_nat pool_size) reset_page) ∅ (seqZ 0 pool_size).

(** Write back a frame if it is dirty: the step that eviction, [FlushPage] and
    [FlushAllPages] have in common. *)
Definition flush_frame (f : frame_id_t) : MP unit :=
  page ← get_page f;
  if is_dirty_ page then
    _ ← on_disk (WritePage (page_id_ page) (data_ page));
    upd_page f (SetDirty false)
  else mret ().

(** Step "find a replacement frame" of [FetchPage] and [NewPage]: a frame of
    the free list, or a victim, written back if dirty. *)
Definition select_frame : MP (option frame_id_t) :=
  fl ← gets free_list_;
  match fl with
  | f :: fl' => _ ← modify (set_free fl'); mret (Some f)
  | [] =>
      v ← gets (λ b, Victim (replacer_ b));
      let '(o, r') := v in
      _ ← modify (set_replacer r');
      match o with
      | None => mret None
      | Some f =>
          victim_page ← get_page f;
          let victim_page_id := page_id_ victim_page in
          _ ← flush_frame f;
          _ ← modify (λ b, set_table (delete victim_page_id (page_table_ b)) b);
          mret (Some f)
      end
  end.

Definition FetchPage (page_id : page_id_t) : MP (option frame_id_t) :=
  if decide (page_id = INVALID_PAGE_ID) then mret None else
  t ← gets page_table_;
  match t !! page_id with
  | Some f =>
      _ ← upd_page f (add_pin 1);
      _ ← replacer_pin f;
      mret (Some f)
  | None =>
      o ← select_frame;
      match o with
      | None => mret None
      | Some f =>
          _ ← put_page f (mkPage zero_page page_id 1 false);
          d ← on_disk (ReadPage page_id);
          _ ← upd_page f (set_data d);
          _ ← modify (λ b, set_table (<[page_id := f]> (page_table_ b)) b);
          _ ← replacer_pin f;
          mret (Some f)
      end
  end.

Definition UnpinPage (page_id : page_id_t) (is_dirty : bool) : MP bool :=
  t ← gets page_table_;
  match t !! page_id with
  | None => mret false
  | Some f =>
      page ← get_page f;
      if decide (pin_count_ page ≤ 0) then mret false else
      _ ← (if is_dirty then upd_page f (SetDirty true) else mret ());
      _ ← upd_page f (add_pin (-1));
      page ← get_page f;
      _ ← (if decide (pin_count_ page = 0) then replacer_unpin f else mret ());
      mret true
  end.

Definition FlushPage (page_id : page_id_t) : MP bool :=
  t ← gets page_table_;
  match t !! page_id with
  | None => mret false
  | Some f => _ ← flush_frame f; mret true
  end.

(** [NewPage] returns what it stores through [page_id] and the page. *)
Definition NewPage : MP (page_id_t * option frame_id_t) :=
  o ← select_frame;
  match o with
  | None => mret (INVALID_PAGE_ID, None)
  | Some f =>
      page_id ← on_disk AllocatePage;
      _ ← put_page f (mkPage zero_page page_id 1 false);
      _ ← modify (λ b, set_table (<[page_id := f]> (page_table_ b)) b);
      _ ← replacer_pin f;
      mret (page_id, Some f)
  end.

Definition DeletePage (page_id : page_id_t) : MP bool :=
  t ← gets page_table_;
  match t !! page_id with
  | None => _ ← on_disk (DeallocatePage page_id); mret true
  | Some f =>
      page ← get_page f;
      if decide (0 < pin_count_ page) then mret false else
      _ ← replacer_pin f;
      _ ← modify (λ b, set_table (delete page_id (page_table_ b)) b);
      _ ← put_page f reset_page;
      _ ← modify (λ b, set_free (free_list_ b ++ [f]) b);
      _ ← on_disk (DeallocatePage page_id);
      mret true
  end.

(** The loop of [FlushAllPages] over the entries of the table, in the order
    the hash map yields them. *)
Fixpoint flush_frames (fs : list frame_id_t) : MP unit :=
  match fs with
  | [] => mret ()
  | f :: fs => _ ← flush_frame f; flush_frames fs
  end.
Definition FlushAllPages : MP unit :=
  t ← gets page_table_;
  flush_frames (map_to_list t).*2.

Definition GetPinCount (page_id : page_id_t) : MP Z :=
  t ← gets page_table_;
  match t !! page_id with
  | None => mret (-1)
  | Some f => page ← get_page f; mret (pin_count_ page)
  end.
Definition IsCached (page_id : page_id_t) : MP bool :=
  gets (λ b, bool_decide (is_Some (page_table_ b !! page_id))).

(** A client writing through the pointer it holds ([page->GetData()]). *)
Definition GetData (f : frame_id_t) : MP (list byte) := pg ← get_page f; mret (data_ pg).
Definition WriteData (f : frame_id_t) (d : list byte) : MP unit := upd_page f (set_data d).
End operations.

(** ** The invariant of the pool *)

(** A page of the abstract store gets new contents. *)
Definition set_live (p : page_id_t) (d : list byte) (a : alloc_state) : alloc_state :=
  mkAlloc (al_num a) (al_free a) (<[p := d]> (al_live a)).
Lemma set_live_id p d a : al_live a !! p = Some d → set_live p d a = a.
Proof. intros. destruct a. unfold set_live. cbn in *. by rewrite insert_id. Qed.

(** Array update of one frame. *)
Record frame_upd (ps : list Page) (f : frame_id_t) (pg : Page) (ps' : list Page) : Prop := {
  fu_len : length ps' = length ps;
  fu_eq : zget ps' f = Some pg;
  fu_ne : ∀ g, g ≠ f → zget ps' g = zget ps g;
}.
Lemma frame_upd_trans ps f x ps1 y ps2 :
  frame_upd ps f x ps1 → frame_upd ps1 f y ps2 → frame_upd ps f y ps2.
Proof.
  intros [? ? Hn1] [? ? Hn2]. split; [congruence|done|].
  intros g ?. by rewrite Hn2, Hn1.
Qed.

Section invariant.
Context {R : Type} `{HR : Replacer R} `{!ReplacerLaws R}.
Abbreviation Pool := (BufferPoolManager R).
Implicit Types (b : Pool) (a : alloc_state) (W : gset page_id_t).

(** What the frame of page [p] holds.  [W] is the set of pages whose frames
    were written without the dirty flag being set yet: their holder must unpin
    them as dirty. *)
Record frame_ok (dm : DiskManager) a W (p : page_id_t) (pg : Page) : Prop := {
  fo_id : page_id_ pg = p;
  fo_pin : 0 ≤ pin_count_ pg;
  fo_live : al_live a !! p = Some (data_ pg);
  fo_clean : is_dirty_ pg = false → p ∉ W → page_data dm p = data_ pg;
  fo_W : p ∈ W → 0 < pin_count_ pg;
}.

(** The pool, without the replacer, represents the store [a]. *)
Record core b a W : Prop := {
  c_wf : dm_wf (disk_manager_ b) (al_free a);
  c_num : num_pages_ (disk_manager_ b) = al_num a;
  c_live p : is_Some (al_live a !! p) ↔ 1 ≤ p < al_num a ∧ p ∉ al_free a;
  c_zlen p d : al_live a !! p = Some d → zlen d = PAGE_SIZE;
  c_pages : zlen (pages_ b) = pool_size_ b;
  c_frame p f : page_table_ b !! p = Some f →
    ∃ pg, zget (pages_ b) f = Some pg ∧ frame_ok (disk_manager_ b) a W p pg;
  c_W p : p ∈ W → is_Some (page_table_ b !! p);
  c_disk p d : al_live a !! p = Some d → page_table_ b !! p = None →
    page_data (disk_manager_ b) p = d;
  c_free_nodup : NoDup (free_list_ b);
  c_free f : f ∈ free_list_ b → 0 ≤ f < pool_size_ b ∧ ∀ p, page_table_ b !! p ≠ Some f;
}.

Definition pin_of b (p : page_id_t) : Z :=
  match page_table_ b !! p with
  | Some f => match zget (pages_ b) f with Some pg => pin_count_ pg | None => 0 end
  | None => 0
  end.

(** The replacer holds exactly the frames of the unpinned cached pages. *)
Record rep_inv b : Prop := {
  ri_wf : rep_wf (replacer_ b);
  ri_cap : rep_cap (replacer_ b) = pool_size_ b;
  ri_set f : f ∈ rep_set (replacer_ b) ↔
    ∃ p, page_table_ b !! p = Some f ∧ pin_of b p = 0;
}.

Record pool_inv b a W : Prop := { pi_core : core b a W; pi_rep : rep_inv b }.

(** A frame that holds no page and is in nobody's hands. *)
Record detached b (f : frame_id_t) : Prop := {
  dt_range : 0 ≤ f < pool_size_ b;
  dt_free : f ∉ free_list_ b;
  dt_table p : page_table_ b !! p ≠ Some f;
  dt_rep : f ∉ rep_set (replacer_ b);
}.

(** The number of frames that hold a page or are free. *)
Definition frames_left b : Z := Z.of_nat (size (page_table_ b)) + zlen (free_list_ b).

(** *** Consequences *)
Lemma cached_live b a W p f : core b a W → page_table_ b !! p = Some f →
  1 ≤ p < num_pages_ (disk_manager_ b) ∧ p ∉ al_free a.
Proof.
  intros Hc Hp. destruct (c_frame _ _ _ Hc _ _ Hp) as (pg & _ & Hok).
  rewrite (c_num _ _ _ Hc). apply (c_live _ _ _ Hc). rewrite (fo_live _ _ _ _ _ Hok). eauto.
Qed.
Lemma table_inj b a W p q f : core b a W →
  page_table_ b !! p = Some f → page_table_ b !! q = Some f → p = q.
Proof.
  intros Hc Hp Hq. destruct (c_frame _ _ _ Hc _ _ Hp) as (pg & Hg & Hok).
  destruct (c_frame _ _ _ Hc _ _ Hq) as (pg' & Hg' & Hok').
  destruct Hok, Hok'. congruence.
Qed.
Lemma pin_of_frame b p f pg : page_table_ b !! p = Some f → zget (pages_ b) f = Some pg →
  pin_of b p = pin_count_ pg.
Proof. intros Hp Hg. unfold pin_of. by rewrite Hp, Hg. Qed.
Lemma pin_of_nonneg b a W p : core b a W → 0 ≤ pin_of b p.
Proof.
  intros Hc. unfold pin_of. destruct (page_table_ b !! p) as [f|] eqn:Hp; [|done].
  destruct (c_frame _ _ _ Hc _ _ Hp) as (pg & -> & Hok). apply Hok.
Qed.
Lemma pin_of_cached b p : pin_of b p ≠ 0 → is_Some (page_table_ b !! p).
Proof. unfold pin_of. destruct (page_table_ b !! p); naive_solver. Qed.

(** *** Updates *)
Lemma put_page_eq b f pg : 0 ≤ f < zlen (pages_ b) →
  ∃ ps, put_page f pg b = (set_pages ps b, Ret tt) ∧ frame_upd (pages_ b) f pg ps.
Proof.
  intros Hf. destruct (zset_total (pages_ b) f pg Hf) as (ps & Hz & Hl & Hg).
  exists ps. split; [unfold put_page; msimpl; by rewrite Hz|].
  split; [done|rewrite Hg; by case_decide|]. intros g ?. rewrite Hg. by case_decide.
Qed.
Lemma get_page_eq b f pg : zget (pages_ b) f = Some pg → get_page f b = (b, Ret pg).
Proof. intros Hg. unfold get_page. msimpl. by rewrite Hg. Qed.
Lemma upd_page_eq b f pg g : zget (pages_ b) f = Some pg →
  ∃ ps, upd_page f g b = (set_pages ps b, Ret tt) ∧ frame_upd (pages_ b) f (g pg) ps.
Proof.
  intros Hg. unfold upd_page. rewrite (bind_Ret _ _ _ _ _ (get_page_eq _ _ _ Hg)).
  apply put_page_eq. by eapply zget_Some_bound.
Qed.

Lemma on_disk_eq {A} (m : M DiskManager A) b dm' r :
  m (disk_manager_ b) = (dm', r) → on_disk m b = (set_disk dm' b, r).
Proof. apply zoom_eq. Qed.

(** One frame changes: its page may get new contents, and enter or leave [W]. *)
Lemma core_set_frame b a W W' p f pg ps : core b a W →
  page_table_ b !! p = Some f → frame_upd (pages_ b) f pg ps →
  page_id_ pg = p → 0 ≤ pin_count_ pg → zlen (data_ pg) = PAGE_SIZE →
  (∀ q, q ≠ p → q ∈ W' ↔ q ∈ W) → (p ∈ W' → 0 < pin_count_ pg) →
  (is_dirty_ pg = false → p ∉ W' → page_data (disk_manager_ b) p = data_ pg) →
  core (set_pages ps b) (set_live p (data_ pg) a) W'.
Proof.
  intros Hc Hp [Hl He Hn] Hid Hpin Hz HW HWp Hcl.
  assert (Hlive : is_Some (al_live a !! p)).
  { apply (c_live _ _ _ Hc). rewrite <- (c_num _ _ _ Hc). by eapply cached_live. }
  split; cbn; try apply Hc.
  - intros q. rewrite lookup_insert. case_decide; subst; [|apply (c_live _ _ _ Hc)].
    split; [intros _|by eauto]. by apply (c_live _ _ _ Hc).
  - intros q d. rewrite lookup_insert. case_decide; [naive_solver|]. apply (c_zlen _ _ _ Hc).
  - rewrite Hl. apply Hc.
  - intros q g Hq. destruct (decide (q = p)) as [->|Hqp].
    + assert (g = f) as -> by congruence. exists pg. split; [done|].
      split; cbn; try done. by rewrite lookup_insert_eq.
    + assert (g ≠ f). { intros ->. apply Hqp. by eapply table_inj. }
      rewrite Hn by done. destruct (c_frame _ _ _ Hc _ _ Hq) as (pg' & Hg' & []).
      exists pg'. split; [done|]. split; cbn; try done.
      * by rewrite lookup_insert_ne.
      * by rewrite HW.
      * by rewrite HW.
  - intros q Hq. destruct (decide (q = p)) as [->|]; [by eauto|].
    apply (c_W _ _ _ Hc). by apply HW.
  - intros q d. rewrite lookup_insert. case_decide; [congruence|]. apply (c_disk _ _ _ Hc).
Qed.

Lemma pin_of_set_frame b a W f pg ps p q : core b a W → page_table_ b !! p = Some f →
  frame_upd (pages_ b) f pg ps →
  pin_of (set_pages ps b) q = if decide (q = p) then pin_count_ pg else pin_of b q.
Proof.
  intros Hc Hp [_ He Hn]. unfold pin_of. cbn. case_decide as Hqp; [subst; by rewrite Hp, He|].
  destruct (page_table_ b !! q) as [g|] eqn:Hq; [|done].
  rewrite Hn; [done|]. intros ->. apply Hqp. by eapply table_inj.
Qed.

(** The page of a live page on disk is brought up to date. *)
Lemma core_set_disk b a W p d dm' : core b a W → al_live a !! p = Some d →
  dm_wf dm' (al_free a) → num_pages_ dm' = num_pages_ (disk_manager_ b) →
  page_data dm' p = d →
  (∀ q, 1 ≤ q → q ≠ p → page_data dm' q = page_data (disk_manager_ b) q) →
  core (set_disk dm' b) a W.
Proof.
  intros Hc Hp Hwf Hn Hd Ho. split; cbn; try apply Hc; [done|rewrite Hn; apply Hc| |].
  - intros q f Hq. destruct (c_frame _ _ _ Hc _ _ Hq) as (pg & Hg & Hok).
    exists pg. split; [done|]. destruct Hok. split; try done.
    intros ? ?. destruct (decide (q = p)) as [->|]; [congruence|].
    rewrite Ho; [auto| |done]. by eapply cached_live.
  - intros q e Hq Hnone. destruct (decide (q = p)) as [->|]; [congruence|].
    rewrite Ho; [by apply (c_disk _ _ _ Hc)| |done].
    assert (is_Some (al_live a !! q)) as Hl%(c_live _ _ _ Hc) by eauto. lia.
Qed.

(** The parts of the pool that page I/O leaves alone. *)
Record same_meta b b' : Prop := {
  sm_table : page_table_ b' = page_table_ b;
  sm_free : free_list_ b' = free_list_ b;
  sm_rep : replacer_ b' = replacer_ b;
  sm_size : pool_size_ b' = pool_size_ b;
  sm_pin p : pin_of b' p = pin_of b p;
}.
Lemma same_meta_rep b b' : same_meta b b' → rep_inv b → rep_inv b'.
Proof.
  intros [Ht _ Hr Hs Hp] [? ? Hset]. split; rewrite ?Hr, ?Hs; [done..|].
  intros f. rewrite Hset, Ht. by setoid_rewrite Hp.
Qed.

Lemma flush_frame_eq b a W p f pg : core b a W →
  page_table_ b !! p = Some f → zget (pages_ b) f = Some pg →
  ∃ b' pg', flush_frame f b = (b', Ret tt) ∧ core b' a W ∧ same_meta b b' ∧
    zget (pages_ b') f = Some pg' ∧ is_dirty_ pg' = false ∧ page_id_ pg' = p ∧
    (∀ g pg2, zget (pages_ b') g = Some pg2 → is_dirty_ pg2 = true →
       g ≠ f ∧ zget (pages_ b) g = Some pg2).
Proof.
  intros Hc Hp Hg. destruct (cached_live _ _ _ _ _ Hc Hp) as [Hr Hfree].
  destruct (c_frame _ _ _ Hc _ _ Hp) as (pg0 & Hg0 & [Hid Hpin Hlv Hcl HW]).
  assert (pg0 = pg) as -> by congruence. clear Hg0.
  unfold flush_frame. rewrite (bind_Ret _ _ _ _ _ (get_page_eq _ _ _ Hg)).
  destruct (is_dirty_ pg) eqn:Hdirty.
  - pose proof (c_zlen _ _ _ Hc _ _ Hlv) as Hz.
    destruct (WritePage_wf _ _ p (data_ pg) (c_wf _ _ _ Hc) Hr Hfree Hz)
      as (dm' & Hw & Hwf' & Hn' & Hd' & Ho').
    rewrite Hid. rewrite (bind_Ret _ _ b (set_disk dm' b) tt) by by apply zoom_eq.
    pose proof (core_set_disk _ _ _ _ _ _ Hc Hlv Hwf' Hn' Hd' Ho') as Hc1.
    destruct (upd_page_eq (set_disk dm' b) f pg (SetDirty false) Hg) as (ps & -> & Hu).
    do 2 eexists. split; [done|].
    pose proof (core_set_frame _ _ W W p f _ _ Hc1 Hp Hu) as Hc2. cbn in Hc2.
    rewrite set_live_id in Hc2 by done.
    split; [by apply Hc2|]. split; [split; try done|].
    + intros q. rewrite (pin_of_set_frame _ _ _ _ _ _ p q Hc1 Hp Hu).
      case_decide; [subst q; by rewrite (pin_of_frame _ _ _ _ Hp Hg)|done].
    + split_and!; [apply Hu|done..|]. intros g pg2 Hg2 Hd2. destruct (decide (g = f)) as [->|].
      * pose proof (fu_eq _ _ _ _ Hu). cbn in *. by simplify_eq.
      * split; [done|]. by rewrite <- (fu_ne _ _ _ _ Hu).
  - exists b, pg. split_and!; try done. intros g pg2 Hg2 Hd2. split; [|done]. congruence.
Qed.

(** A clean unpinned page leaves the table. *)
Lemma core_evict b a W p f pg : core b a W →
  page_table_ b !! p = Some f → zget (pages_ b) f = Some pg →
  is_dirty_ pg = false → p ∉ W →
  core (set_table (delete p (page_table_ b)) b) a W.
Proof.
  intros Hc Hp Hg Hcl HW. split; cbn; try apply Hc.
  - intros q g. rewrite lookup_delete. case_decide; [done|]. apply (c_frame _ _ _ Hc).
  - intros q Hq. rewrite lookup_delete_ne; [by apply (c_W _ _ _ Hc)|]. by intros ->.
  - intros q d Hq. rewrite lookup_delete. case_decide; [subst|by apply (c_disk _ _ _ Hc)].
    intros _. destruct (c_frame _ _ _ Hc _ _ Hp) as (pg' & ? & []). simplify_eq.
    rewrite fo_clean0 by done. congruence.
  - intros g Hf. split; [by apply (c_free _ _ _ Hc)|]. intros q.
    rewrite lookup_delete. case_decide; [done|]. by apply (c_free _ _ _ Hc).
Qed.
Lemma pin_of_evict b p q : pin_of b p = 0 →
  pin_of (set_table (delete p (page_table_ b)) b) q = pin_of b q.
Proof.
  intros Hz. unfold pin_of in *. cbn. rewrite lookup_delete. case_decide; by subst.
Qed.

Lemma core_set_replacer b a W r : core b a W → core (set_replacer r b) a W.
Proof. intros []. by split. Qed.
Lemma core_pop_free b a W f fl : core b a W → free_list_ b = f :: fl →
  core (set_free fl b) a W ∧ 0 ≤ f < pool_size_ b.
Proof.
  intros Hc Hfl. pose proof (c_free_nodup _ _ _ Hc) as Hnd. rewrite Hfl in Hnd.
  apply NoDup_cons in Hnd as [? ?]. split.
  - split; cbn; try apply Hc; [done|]. intros g Hg. apply (c_free _ _ _ Hc).
    rewrite Hfl. by right.
  - apply (c_free _ _ _ Hc). rewrite Hfl. by left.
Qed.

(** The pool has no frame to give: none is free and every page is pinned. *)
Definition no_frame b : Prop :=
  free_list_ b = [] ∧ ∀ p, is_Some (page_table_ b !! p) → 0 < pin_of b p.

(** The eviction of the frame [Victim] names. *)
Lemma select_victim b a W f r' : pool_inv b a W → free_list_ b = [] →
  Victim (replacer_ b) = (Some f, r') →
  ∃ b' f',
    (victim_page ← get_page f;
     _ ← flush_frame f;
     _ ← modify (λ b, set_table (delete (page_id_ victim_page) (page_table_ b)) b);
     mret (Some f)) (set_replacer r' b) = (b', Ret (Some f')) ∧
    pool_inv b' a W ∧ detached b' f' ∧
    pool_size_ b' = pool_size_ b ∧
    num_pages_ (disk_manager_ b') = num_pages_ (disk_manager_ b) ∧
    frames_left b' + 1 = frames_left b ∧
    (∀ q, pin_of b' q = pin_of b q) ∧
    (∀ q, 0 < pin_of b q → page_table_ b' !! q = page_table_ b !! q) ∧
    (∀ q, page_table_ b !! q = None → page_table_ b' !! q = None) ∧ ¬ no_frame b.
Proof.
  intros [Hc Hri] Hfl Hv.
  destruct (victim_some _ _ _ (ri_wf _ Hri) Hv) as (Hf & Hwf' & Hcap & Hset).
  pose proof (rep_range _ _ (ri_wf _ Hri) Hf) as Hrange. rewrite (ri_cap _ Hri) in Hrange.
  apply (ri_set _ Hri) in Hf as (p & Hp & Hpin).
  destruct (c_frame _ _ _ Hc _ _ Hp) as (pg & Hg & Hok).
  assert (HpW : p ∉ W).
  { intros HpW. pose proof (fo_W _ _ _ _ _ Hok HpW).
    rewrite (pin_of_frame _ _ _ _ Hp Hg) in Hpin. lia. }
  pose proof (core_set_replacer _ _ _ r' Hc) as Hc0.
  destruct (flush_frame_eq _ _ _ p f pg Hc0 Hp Hg)
    as (b1 & pg1 & Hfl1 & Hc1 & Hsm & Hg1 & Hd1 & Hid1 & _).
  pose proof Hsm as [Ht Hfr Hrp Hsz Hpn]. cbn in Ht, Hfr, Hrp, Hsz.
  rewrite <- Ht in Hp. pose proof (core_evict _ _ _ _ _ _ Hc1 Hp Hg1 Hd1 HpW) as Hc2.
  set (b2 := set_table (delete p (page_table_ b1)) b1) in *.
  assert (Hpin1 : pin_of b1 p = 0) by (rewrite Hpn; exact Hpin).
  assert (Hpin2 : ∀ q, pin_of b2 q = pin_of b q).
  { intros q. unfold b2. rewrite pin_of_evict by done. apply Hpn. }
  exists b2, f. split_and!.
  - rewrite (bind_Ret _ _ _ _ _ (get_page_eq (set_replacer r' b) f pg Hg)).
    rewrite (bind_Ret _ _ _ _ _ Hfl1). msimpl. by rewrite (fo_id _ _ _ _ _ Hok).
  - split; [done|]. split; cbn; rewrite ?Hrp, ?Hsz; [done|by rewrite Hcap, (ri_cap _ Hri)|].
    intros g. rewrite Hset, elem_of_difference, elem_of_singleton, (ri_set _ Hri).
    setoid_rewrite Hpin2. split.
    + intros [(q & Hq & ?) Hgf]. exists q. rewrite lookup_delete_ne, Ht by congruence. done.
    + intros (q & Hq & ?). rewrite lookup_delete in Hq. case_decide as Hqp; [done|].
      rewrite Ht in Hq, Hp. split; [by eauto|]. intros ->. apply Hqp.
      by eapply (table_inj b).
  - split; cbn; rewrite ?Hfr, ?Hfl, ?Hrp, ?Hsz, ?Hset; [done|set_solver| |set_solver].
    intros q. rewrite lookup_delete. case_decide as Hqp; [done|]. intros Hq. apply Hqp.
    by eapply (table_inj b1).
  - by cbn.
  - cbn. rewrite (c_num _ _ _ Hc1), (c_num _ _ _ Hc). done.
  - unfold frames_left. cbn. rewrite Hfr, Ht.
    rewrite Ht in Hp. rewrite map_size_delete_Some by eauto.
    assert (size (page_table_ b) ≠ 0%nat); [|lia].
    intros Hz%map_size_empty_iff. rewrite Hz in Hp. done.
  - done.
  - intros q Hq. cbn. rewrite lookup_delete_ne, Ht; [done|]. intros ->. lia.
  - intros q Hq. cbn. rewrite Ht, lookup_delete. by case_decide.
  - intros [_ Hall]. rewrite Ht in Hp. specialize (Hall p ltac:(eauto)). lia.
Qed.

(** What [select_frame] does: nothing when every frame is pinned, else it
    yields a detached frame and the store is as before. *)
Lemma select_frame_spec b a W : pool_inv b a W →
  (select_frame b = (b, Ret None) ∧ no_frame b) ∨
  (∃ b' f, select_frame b = (b', Ret (Some f)) ∧ pool_inv b' a W ∧ detached b' f ∧
     pool_size_ b' = pool_size_ b ∧ num_pages_ (disk_manager_ b') = num_pages_ (disk_manager_ b) ∧
     frames_left b' + 1 = frames_left b ∧
     (∀ q, pin_of b' q = pin_of b q) ∧
     (∀ q, 0 < pin_of b q → page_table_ b' !! q = page_table_ b !! q) ∧
     (∀ q, page_table_ b !! q = None → page_table_ b' !! q = None) ∧ ¬ no_frame b).
Proof.
  intros [Hc Hri]. unfold select_frame. msimpl. destruct (free_list_ b) as [|f fl] eqn:Hfl.
  - destruct (Victim (replacer_ b)) as [[f|] r'] eqn:Hv.
    + right. by eapply select_victim.
    + left. destruct (victim_none _ _ (ri_wf _ Hri) Hv) as [-> Hempty].
      split; [by destruct b|]. split; [done|]. intros p [f Hp].
      pose proof (pin_of_nonneg _ _ _ p Hc). assert (pin_of b p ≠ 0); [|lia].
      intros Hz. assert (f ∈ rep_set (replacer_ b)); [|set_solver].
      apply (ri_set _ Hri). eauto.
  - right. eexists _, f. split; [done|]. destruct (core_pop_free _ _ _ _ _ Hc Hfl) as [Hc' Hin].
    assert (Hnt : ∀ p, page_table_ b !! p ≠ Some f).
    { apply (c_free _ _ _ Hc). rewrite Hfl. by left. }
    split_and!; [split; [done|by destruct Hri]| |done|done|
      unfold frames_left; cbn; rewrite Hfl; cbn [length]; lia|done|done|done|
      intros [? _]; congruence].
    pose proof (c_free_nodup _ _ _ Hc) as Hnd. rewrite Hfl in Hnd.
    apply NoDup_cons in Hnd as [? _]. split; cbn; [done..|].
    rewrite (ri_set _ Hri). intros (p & Hp & _). by eapply Hnt.
Qed.

(** *** Loading a page into a detached frame *)
Definition load_frame (p : page_id_t) (f : frame_id_t) (ps : list Page) b : Pool :=
  set_replacer (Pin f (replacer_ b)) (set_table (<[p := f]> (page_table_ b)) (set_pages ps b)).

Lemma pin_of_load b p f pg ps q : detached b f → frame_upd (pages_ b) f pg ps →
  pin_of (load_frame p f ps b) q = if decide (q = p) then pin_count_ pg else pin_of b q.
Proof.
  intros Hd [_ He Hn]. unfold pin_of. cbn. rewrite lookup_insert.
  repeat case_decide; subst; try done; [by rewrite He|].
  destruct (page_table_ b !! q) as [g|] eqn:Hq; [|done].
  rewrite Hn; [done|]. intros ->. by eapply (dt_table _ _ Hd).
Qed.

Lemma core_load b a W W' p f pg ps : core b a W → detached b f →
  page_table_ b !! p = None → is_Some (al_live a !! p) → frame_upd (pages_ b) f pg ps →
  zlen (data_ pg) = PAGE_SIZE →
  frame_ok (disk_manager_ b) (set_live p (data_ pg) a) W' p pg →
  (∀ q, q ≠ p → q ∈ W' ↔ q ∈ W) →
  core (load_frame p f ps b) (set_live p (data_ pg) a) W'.
Proof.
  intros Hc Hd Hp Hlive [Hl He Hn] Hz Hok HW. split; cbn; try apply Hc.
  - intros q. rewrite lookup_insert. case_decide; [subst|apply (c_live _ _ _ Hc)].
    split; [intros _|by eauto]. by apply (c_live _ _ _ Hc).
  - intros q d. rewrite lookup_insert. case_decide; [naive_solver|apply (c_zlen _ _ _ Hc)].
  - rewrite Hl. apply Hc.
  - intros q g. rewrite lookup_insert. case_decide as Hqp.
    + subst q. intros [= <-]. eauto.
    + intros Hq. rewrite Hn by (intros ->; by eapply (dt_table _ _ Hd)).
      destruct (c_frame _ _ _ Hc _ _ Hq) as (pg' & Hg' & []). exists pg'. split; [done|].
      split; cbn; rewrite ?HW by done; try done. by rewrite lookup_insert_ne.
  - intros q Hq. rewrite lookup_insert. case_decide; [eauto|].
    apply (c_W _ _ _ Hc). by apply HW.
  - intros q d. rewrite !lookup_insert. case_decide; [done|]. apply (c_disk _ _ _ Hc).
  - intros g Hg. split; [by apply (c_free _ _ _ Hc)|]. intros q. rewrite lookup_insert.
    case_decide; [|by apply (c_free _ _ _ Hc)].
    intros [= ->]. by apply (dt_free _ _ Hd).
Qed.

Lemma rep_inv_load b p f pg ps : rep_inv b → detached b f →
  page_table_ b !! p = None → frame_upd (pages_ b) f pg ps → 0 < pin_count_ pg →
  rep_inv (load_frame p f ps b).
Proof.
  intros Hri Hd Hp Hu Hpin. destruct (pin_spec _ f (ri_wf _ Hri)) as (Hwf & Hcap & Hset).
  split; [done|cbn; by rewrite Hcap, (ri_cap _ Hri)|]. intros g.
  setoid_rewrite (pin_of_load b p f pg ps _ Hd Hu). cbn. pose proof (dt_rep _ _ Hd).
  rewrite Hset, difference_disjoint_L by set_solver. rewrite (ri_set _ Hri). split.
  - intros (q & Hq & Hz). exists q. assert (q ≠ p) by congruence.
    rewrite lookup_insert_ne, decide_False by done. done.
  - intros (q & Hq & Hz). rewrite lookup_insert in Hq. exists q.
    repeat case_decide; naive_solver lia.
Qed.

(** The frames another holder can see are untouched. *)
Definition others_kept b b' (p : page_id_t) : Prop :=
  (∀ q, q ≠ p → pin_of b' q = pin_of b q) ∧
  (∀ q, 0 < pin_of b q → page_table_ b' !! q = page_table_ b !! q).

Lemma frames_left_load b p f ps : page_table_ b !! p = None →
  frames_left (load_frame p f ps b) = frames_left b + 1.
Proof.
  intros Hp. unfold frames_left. cbn. rewrite map_size_insert_None by done. lia.
Qed.

(** *** FetchPage *)
Lemma fetch_hit b a W p f : pool_inv b a W → p ≠ INVALID_PAGE_ID →
  page_table_ b !! p = Some f →
  ∃ b', FetchPage p b = (b', Ret (Some f)) ∧ pool_inv b' a W ∧
    page_table_ b' = page_table_ b ∧ others_kept b b' p ∧ pin_of b' p = pin_of b p + 1 ∧
    frames_left b' = frames_left b.
Proof.
  intros [Hc Hri] Hinv Hp. destruct (c_frame _ _ _ Hc _ _ Hp) as (pg & Hg & Hok).
  destruct (upd_page_eq b f pg (add_pin 1) Hg) as (ps & Hu & Hfu).
  pose proof (core_set_frame _ _ W W p f _ _ Hc Hp Hfu) as Hc'.
  pose proof Hok as [Hid Hpin Hlv Hcl HW].
  assert (Hpins : ∀ q, pin_of (set_pages ps b) q =
            if decide (q = p) then pin_count_ pg + 1 else pin_of b q).
  { intros q. rewrite (pin_of_set_frame _ _ _ _ _ _ p q Hc Hp Hfu). done. }
  eexists. split_and!.
  - unfold FetchPage. rewrite decide_False by done. msimpl. rewrite Hp, Hu. cbn. done.
  - split.
    + apply core_set_replacer. rewrite <- (set_live_id p (data_ pg) a Hlv).
      apply Hc'; cbn; try done; [lia|by eapply (c_zlen _ _ _ Hc)|]. intros ?%HW. lia.
    + destruct (pin_spec _ f (ri_wf _ Hri)) as (Hwf & Hcap & Hset).
      split; cbn; [done|by rewrite Hcap, (ri_cap _ Hri)|]. intros g.
      rewrite Hset, elem_of_difference, elem_of_singleton, (ri_set _ Hri). split.
      * intros [(q & Hq & Hz) Hgf]. exists q. split; [done|].
        change (pin_of (set_pages ps b) q = 0). rewrite Hpins, decide_False; congruence.
      * intros (q & Hq & Hz). change (pin_of (set_pages ps b) q = 0) in Hz.
        rewrite Hpins in Hz. case_decide as Hqp; [lia|].
        split; [by eauto|]. intros ->. apply Hqp. by eapply table_inj.
  - done.
  - split; [|done]. intros q Hqp. change (pin_of (set_pages ps b) q = pin_of b q).
    rewrite Hpins. by rewrite decide_False.
  - change (pin_of (set_pages ps b) p = pin_of b p + 1).
    rewrite Hpins, decide_True by done. by rewrite (pin_of_frame _ _ _ _ Hp Hg).
  - done.
Qed.

Lemma fetch_miss b a W p : pool_inv b a W → page_table_ b !! p = None →
  is_Some (al_live a !! p) →
  (FetchPage p b = (b, Ret None) ∧ no_frame b) ∨
  (∃ b' f, FetchPage p b = (b', Ret (Some f)) ∧ pool_inv b' a W ∧
     page_table_ b' !! p = Some f ∧ others_kept b b' p ∧ pin_of b' p = 1 ∧
     frames_left b' = frames_left b ∧ ¬ no_frame b).
Proof.
  intros Hinv Hp Hlive. pose proof (pi_core _ _ _ Hinv) as Hc.
  assert (Hpr : 1 ≤ p < num_pages_ (disk_manager_ b)).
  { rewrite (c_num _ _ _ Hc). by apply (c_live _ _ _ Hc). }
  assert (p ≠ INVALID_PAGE_ID). { pose proof (wf_num _ _ (c_wf _ _ _ Hc)). lia. }
  unfold FetchPage. rewrite decide_False by done. msimpl. rewrite Hp.
  destruct (select_frame_spec b a W Hinv) as
    [(-> & Hnf)|(b1 & f & -> & Hinv1 & Hd & Hsz & Hn & Hleft & Hpins & Hkept & Hnone & Hyes)];
    [by left|right].
  pose proof (pi_core _ _ _ Hinv1) as Hc1. destruct Hlive as [d Hlv].
  destruct (put_page_eq b1 f (mkPage zero_page p 1 false)) as (ps1 & -> & Hu1).
  { rewrite (c_pages _ _ _ Hc1), Hsz. rewrite <- Hsz. apply Hd. }
  rewrite <- Hn in Hpr.
  rewrite (on_disk_eq _ (set_pages ps1 b1) _ _ (ReadPage_in _ _ p (c_wf _ _ _ Hc1) ltac:(lia))).
  rewrite (c_disk _ _ _ Hc1 _ _ Hlv) by auto.
  match goal with |- context [upd_page f _ ?B] =>
    destruct (upd_page_eq B f (mkPage zero_page p 1 false) (set_data d)) as (ps2 & -> & Hu2);
    [cbn; apply Hu1|] end.
  cbn in Hu2. pose proof (frame_upd_trans _ _ _ _ _ _ Hu1 Hu2) as Hu.
  assert (Hok : frame_ok (disk_manager_ b1) a W p (mkPage d p 1 false)).
  { split; cbn; try done. intros _ _. by apply (c_disk _ _ _ Hc1); auto. }
  pose proof (core_load b1 a W W p f (mkPage d p 1 false) ps2 Hc1 Hd) as Hc2. cbn in Hc2.
  rewrite set_live_id in Hc2 by done.
  assert (zlen d = PAGE_SIZE) by by eapply (c_zlen _ _ _ Hc).
  exists (load_frame p f ps2 b1), f. split_and!.
  - cbn. by destruct b1.
  - split; [apply Hc2; by eauto|].
    eapply rep_inv_load; [apply Hinv1|done|by auto|done|cbn; lia].
  - cbn. by rewrite lookup_insert_eq.
  - split.
    + intros q Hq. rewrite (pin_of_load _ _ _ _ _ _ Hd Hu), decide_False by done. apply Hpins.
    + intros q Hq. cbn. rewrite lookup_insert_ne; [by apply Hkept|].
      intros ->. unfold pin_of in Hq. rewrite Hp in Hq. lia.
  - rewrite (pin_of_load _ _ _ _ _ _ Hd Hu), decide_True by done. done.
  - rewrite frames_left_load by auto. lia.
  - done.
Qed.

(** A frame that holds no page may be overwritten. *)
Lemma core_set_detached b a W f pg ps : core b a W → (∀ p, page_table_ b !! p ≠ Some f) →
  frame_upd (pages_ b) f pg ps → core (set_pages ps b) a W.
Proof.
  intros Hc Hd [Hl _ Hn]. split; cbn; try apply Hc; [rewrite Hl; apply Hc|].
  intros p g Hp. rewrite Hn by (intros ->; by eapply Hd). by apply (c_frame _ _ _ Hc).
Qed.
Lemma pin_of_set_detached b f pg ps q : (∀ p, page_table_ b !! p ≠ Some f) →
  frame_upd (pages_ b) f pg ps → pin_of (set_pages ps b) q = pin_of b q.
Proof.
  intros Hd [_ _ Hn]. unfold pin_of. cbn. destruct (page_table_ b !! q) as [g|] eqn:Hq; [|done].
  rewrite Hn; [done|]. intros ->. by eapply Hd.
Qed.

(** Fetching an id beyond the end of the file throws after a frame was taken:
    the frame is neither free nor cached nor evictable any more. *)
Lemma fetch_out b a W p : pool_inv b a W → num_pages_ (disk_manager_ b) ≤ p →
  p ≠ INVALID_PAGE_ID →
  (FetchPage p b = (b, Ret None) ∧ no_frame b) ∨
  (∃ b', FetchPage p b = (b', Throw OutOfRange) ∧ pool_inv b' a W ∧
     num_pages_ (disk_manager_ b') = num_pages_ (disk_manager_ b) ∧
     (∀ q, pin_of b' q = pin_of b q) ∧
     (∀ q, 0 < pin_of b q → page_table_ b' !! q = page_table_ b !! q) ∧
     frames_left b' + 1 = frames_left b ∧ ¬ no_frame b).
Proof.
  intros Hinv Hout Hne. pose proof (pi_core _ _ _ Hinv) as Hc.
  assert (Hp : page_table_ b !! p = None).
  { apply eq_None_not_Some. intros [f Hp]. destruct (cached_live _ _ _ _ _ Hc Hp). lia. }
  unfold FetchPage. rewrite decide_False by done. msimpl. rewrite Hp.
  destruct (select_frame_spec b a W Hinv) as
    [(-> & Hnf)|(b1 & f & -> & [Hc1 Hri1] & Hd & Hsz & Hn & Hleft & Hpins & Hkept & Hnone & Hyes)];
    [by left|right].
  destruct (put_page_eq b1 f (mkPage zero_page p 1 false)) as (ps1 & -> & Hu1).
  { rewrite (c_pages _ _ _ Hc1). apply Hd. }
  rewrite (on_disk_eq _ (set_pages ps1 b1) _ _ (ReadPage_out (disk_manager_ b1) p ltac:(lia))).
  pose proof (dt_table _ _ Hd) as Hdt.
  assert (Hpins1 : ∀ q, pin_of (set_pages ps1 b1) q = pin_of b1 q).
  { intros q. by eapply pin_of_set_detached. }
  exists (set_pages ps1 b1). split_and!; [by destruct b1| |done| |done|done|done].
  - split; [by eapply core_set_detached|]. destruct Hri1 as [? ? Hset]. split; [done..|].
    intros g. rewrite Hset. by setoid_rewrite Hpins1.
  - intros q. rewrite <- Hpins. apply Hpins1.
Qed.

(** *** UnpinPage *)
Definition unpin_W (d : bool) (p : page_id_t) W : gset page_id_t :=
  if d then W ∖ {[p]} else W.

Lemma elem_of_unpin_W d p W q : q ∈ unpin_W d p W ↔ q ∈ W ∧ (d = false ∨ q ≠ p).
Proof.
  destruct d; cbn; [|tauto]. rewrite elem_of_difference, elem_of_singleton.
  split; [|naive_solver]. intros [? ?]. auto.
Qed.

Lemma unpin_fail b a W p d : core b a W → pin_of b p = 0 → UnpinPage p d b = (b, Ret false).
Proof.
  intros Hc Hz. unfold UnpinPage, get_page. msimpl.
  destruct (page_table_ b !! p) as [f|] eqn:Hp; [|done].
  destruct (c_frame _ _ _ Hc _ _ Hp) as (pg & Hg & Hok).
  rewrite (pin_of_frame _ _ _ _ Hp Hg) in Hz. rewrite Hg. by rewrite decide_True by lia.
Qed.

(** The frame after [UnpinPage]. *)
Definition unpinned (d : bool) (pg : Page) : Page :=
  mkPage (data_ pg) (page_id_ pg) (pin_count_ pg - 1) (is_dirty_ pg || d).

Lemma unpin_run b p f pg d : page_table_ b !! p = Some f → zget (pages_ b) f = Some pg →
  0 < pin_count_ pg →
  ∃ ps, frame_upd (pages_ b) f (unpinned d pg) ps ∧
    UnpinPage p d b =
      (if decide (pin_count_ pg = 1)
       then set_replacer (Unpin f (replacer_ b)) (set_pages ps b) else set_pages ps b, Ret true).
Proof.
  intros Hp Hg Hpin. unfold UnpinPage. msimpl. rewrite Hp.
  rewrite (get_page_eq _ _ _ Hg), decide_False by lia.
  assert (∃ ps1, (if d then upd_page f (SetDirty true) else λ s, (s, Ret tt)) b =
                   (set_pages ps1 b, Ret tt) ∧
            frame_upd (pages_ b) f (SetDirty (is_dirty_ pg || d) pg) ps1) as (ps1 & -> & Hu1).
  { destruct d.
    - destruct (upd_page_eq b f pg (SetDirty true) Hg) as (ps1 & ? & ?).
      exists ps1. by rewrite orb_true_r.
    - exists (pages_ b). rewrite orb_false_r. destruct b, pg. split; [done|]. by split. }
  destruct (upd_page_eq (set_pages ps1 b) f _ (add_pin (-1)) (fu_eq _ _ _ _ Hu1)) as (ps2 & -> & Hu2).
  assert (Hu : frame_upd (pages_ b) f (unpinned d pg) ps2).
  { eapply frame_upd_trans; [done|]. exact Hu2. }
  rewrite (get_page_eq (set_pages ps2 (set_pages ps1 b)) f _ (fu_eq _ _ _ _ Hu)).
  exists ps2. split; [done|]. cbn.
  destruct (decide (pin_count_ pg = 1)); [rewrite decide_True by lia|rewrite decide_False by lia];
    done.
Qed.

Lemma unpin_ok b a W p d : pool_inv b a W → 0 < pin_of b p →
  (d = true ∨ p ∉ W ∨ 1 < pin_of b p) →
  ∃ b', UnpinPage p d b = (b', Ret true) ∧ pool_inv b' a (unpin_W d p W) ∧
    page_table_ b' = page_table_ b ∧ (∀ q, q ≠ p → pin_of b' q = pin_of b q) ∧
    pin_of b' p = pin_of b p - 1 ∧ frames_left b' = frames_left b.
Proof.
  intros [Hc Hri] Hpos Hside. destruct (pin_of_cached b p ltac:(lia)) as [f Hp].
  destruct (c_frame _ _ _ Hc _ _ Hp) as (pg & Hg & Hok).
  rewrite (pin_of_frame _ _ _ _ Hp Hg) in *. pose proof Hok as [Hid Hpin Hlv Hcl HW].
  destruct (unpin_run b p f pg d Hp Hg Hpos) as (ps & Hu & Hrun).
  assert (HWq : ∀ q, q ≠ p → q ∈ unpin_W d p W ↔ q ∈ W) 
    by (intros; rewrite elem_of_unpin_W; tauto).
  assert (Hc' : core (set_pages ps b) a (unpin_W d p W)).
  { rewrite <- (set_live_id p (data_ pg) a Hlv).
    apply (core_set_frame _ _ W _ p f _ _ Hc Hp Hu); cbn; try done; [lia|..].
    - by eapply (c_zlen _ _ _ Hc).
    - rewrite elem_of_unpin_W. intros [HpW Hd]. pose proof (HW HpW).
      destruct Hside as [->|[?|?]]; [by destruct Hd|done|lia].
    - intros [Hd ->]%orb_false_iff Hnin. by apply Hcl. }
  assert (Hpins : ∀ q, pin_of (set_pages ps b) q =
            if decide (q = p) then pin_count_ pg - 1 else pin_of b q).
  { intros q. by rewrite (pin_of_set_frame _ _ _ _ _ _ p q Hc Hp Hu). }
  eexists. split; [exact Hrun|]. case_decide as Hone; split_and!; try done;
    try (intros q Hq; etrans; [apply Hpins|by rewrite decide_False]);
    try (etrans; [apply Hpins|by rewrite decide_True]).
  - split; [by apply core_set_replacer|].
    destruct (unpin_spec _ f (ri_wf _ Hri)) as (Hwf & Hcap & Hset).
    split; cbn; [done|by rewrite Hcap, (ri_cap _ Hri)|]. intros g. rewrite Hset, decide_True.
    2: { rewrite (ri_cap _ Hri), <- (c_pages _ _ _ Hc). by eapply zget_Some_bound. }
    rewrite elem_of_union, elem_of_singleton, (ri_set _ Hri).
    change (pin_of (set_replacer _ (set_pages ps b))) with (pin_of (set_pages ps b)).
    setoid_rewrite Hpins. split.
    + intros [->|(q & Hq & Hz)]; [exists p; split; [done|]; rewrite decide_True by done; lia|].
      exists q. split; [done|]. destruct (decide (q = p)) as [->|]; [|done].
      rewrite (pin_of_frame _ _ _ _ Hp Hg) in Hz. lia.
    + intros (q & Hq & Hz). destruct (decide (q = p)) as [->|]; [left; congruence|eauto].
  - split; [done|]. split; [apply Hri..|]. intros g. rewrite (ri_set _ Hri). cbn.
    setoid_rewrite Hpins. split; intros (q & Hq & Hz); exists q; (split; [done|]).
    + destruct (decide (q = p)) as [->|]; [|done].
      rewrite (pin_of_frame _ _ _ _ Hp Hg) in Hz. lia.
    + destruct (decide (q = p)) as [->|]; [lia|done].
Qed.

(** *** NewPage *)

(** The disk gains a live page. *)
Lemma core_new_live b a W dm' p d n' l' : core b a W → dm_wf dm' l' →
  num_pages_ dm' = n' → al_live a !! p = None →
  (∀ q, 1 ≤ q < n' ∧ q ∉ l' ↔ q = p ∨ (1 ≤ q < al_num a ∧ q ∉ al_free a)) →
  page_data dm' p = d → zlen d = PAGE_SIZE →
  (∀ q, is_Some (al_live a !! q) → page_data dm' q = page_data (disk_manager_ b) q) →
  core (set_disk dm' b) (mkAlloc n' l' (<[p := d]> (al_live a))) W.
Proof.
  intros Hc Hwf Hn Hp Hr Hd Hz Ho. split; cbn; try apply Hc; [done|done|..].
  - intros q. rewrite Hr, lookup_insert, <- (c_live _ _ _ Hc).
    destruct (decide (p = q)) as [->|]; [|naive_solver]. split; [by left|by eauto].
  - intros q e. rewrite lookup_insert. case_decide; [naive_solver|apply (c_zlen _ _ _ Hc)].
  - intros q f Hq. destruct (c_frame _ _ _ Hc _ _ Hq) as (pg & Hg & []). exists pg.
    split; [done|]. assert (p ≠ q) by congruence.
    split; cbn; rewrite ?lookup_insert_ne by done; try done.
    intros. rewrite Ho by eauto. auto.
  - intros q e. rewrite lookup_insert. case_decide; [naive_solver|]. intros Hq Hnone.
    rewrite Ho by eauto. by apply (c_disk _ _ _ Hc).
Qed.

(** The store after [NewPage] has made page [p]. *)
Inductive new_page a : page_id_t → alloc_state → Prop :=
| new_reuse p l : al_free a = p :: l → al_live a !! p = None →
    new_page a p (mkAlloc (al_num a) l (<[p := zero_page]> (al_live a)))
| new_grow : al_free a = [] → al_num a < INVALID_PAGE_ID → al_live a !! al_num a = None →
    new_page a (al_num a)
      (mkAlloc (al_num a + 1) [] (<[al_num a := zero_page]> (al_live a))).

Lemma core_alloc b a W : core b a W → legal a OpAlloc →
  ∃ dm' a1 p, AllocatePage (disk_manager_ b) = (dm', Ret p) ∧ al_live a !! p = None ∧
    core (set_disk dm' b) a1 W ∧ is_Some (al_live a1 !! p) ∧
    new_page a p (set_live p zero_page a1).
Proof.
  intros Hc Hleg. pose proof (c_wf _ _ _ Hc) as Hwf. pose proof (c_num _ _ _ Hc) as Hn.
  assert (Hge1 : ∀ q, is_Some (al_live a !! q) → 1 ≤ q < num_pages_ (disk_manager_ b)).
  { intros q Hq. rewrite Hn. by apply (c_live _ _ _ Hc). }
  destruct (al_free a) as [|p l] eqn:Hfree.
  - destruct Hleg as [|Hlt]; [done|].
    destruct (AllocatePage_grow _ Hwf) as (dm' & Hex & Hwf' & Hn' & Hz & Ho); [by rewrite Hn|].
    rewrite Hn in *.
    assert (Hpn : al_live a !! al_num a = None).
    { apply eq_None_not_Some. intros Hs. apply Hge1 in Hs. lia. }
    eexists dm', _, (al_num a). split_and!; [done|done| | |].
    + apply (core_new_live b a W dm' (al_num a) zero_page (al_num a + 1) []); try assumption.
      * intros q. rewrite Hfree. pose proof (wf_num _ _ Hwf). split.
        -- intros [? ?]. destruct (decide (q = al_num a)); [by left|right]. split; [lia|done].
        -- intros [->|[? ?]]; (split; [lia|apply not_elem_of_nil]).
      * apply zlen_zero_page.
      * intros q Hq. apply Ho. by apply Hge1.
    + cbn. rewrite lookup_insert_eq. eauto.
    + unfold set_live. cbn. rewrite insert_insert_eq. by apply new_grow.
  - destruct (AllocatePage_pop _ p l Hwf) as (dm' & Hex & Hwf' & Hn' & Ho).
    pose proof (dm_wf_free _ _ p Hwf ltac:(by left)) as Hp.
    pose proof (wf_nodup _ _ Hwf) as [Hpl _]%NoDup_cons.
    assert (Hpn : al_live a !! p = None).
    { apply eq_None_not_Some. rewrite (c_live _ _ _ Hc), Hfree. intros [_ []]. by left. }
    eexists dm', _, p. split_and!; [done|done| | |].
    + apply (core_new_live b a W dm' p (page_data dm' p) (al_num a) l); try assumption.
      * congruence.
      * intros q. rewrite Hfree, not_elem_of_cons. split.
        -- intros [? ?]. destruct (decide (q = p)); naive_solver.
        -- intros [->|[? [? ?]]]; (split; [lia|done]).
      * done.
      * eapply zlen_page_data; [done|lia].
      * intros q Hq. apply Ho. by apply Hge1.
    + cbn. rewrite lookup_insert_eq. eauto.
    + unfold set_live. cbn. rewrite insert_insert_eq. by apply new_reuse.
Qed.

Lemma NewPage_spec b a W : pool_inv b a W → legal a OpAlloc →
  (NewPage b = (b, Ret (INVALID_PAGE_ID, None)) ∧ no_frame b) ∨
  (∃ b' f p a', NewPage b = (b', Ret (p, Some f)) ∧ new_page a p a' ∧
     pool_inv b' a' ({[p]} ∪ W) ∧ page_table_ b' !! p = Some f ∧ pin_of b p = 0 ∧
     others_kept b b' p ∧ pin_of b' p = 1 ∧ frames_left b' = frames_left b ∧ ¬ no_frame b).
Proof.
  intros Hinv Hleg. unfold NewPage. msimpl.
  destruct (select_frame_spec b a W Hinv) as
    [(-> & Hnf)|(b1 & f & -> & [Hc1 Hri1] & Hd & Hsz & Hn & Hleft & Hpins & Hkept & Hnone & Hyes)];
    [by left|right].
  destruct (core_alloc b1 a W Hc1 Hleg) as (dm' & a1 & p & Hal & Hpn & Hc2 & Hp1 & Hnew).
  rewrite (on_disk_eq _ _ _ _ Hal).
  destruct (put_page_eq (set_disk dm' b1) f (mkPage zero_page p 1 false)) as (ps & -> & Hu).
  { cbn. rewrite (c_pages _ _ _ Hc1). apply Hd. }
  assert (Hpt1 : page_table_ b1 !! p = None).
  { apply eq_None_not_Some. intros [g Hg].
    destruct (c_frame _ _ _ Hc1 _ _ Hg) as (pg & _ & [_ _ Hlv _ _]). congruence. }
  assert (Hd2 : detached (set_disk dm' b1) f) by by destruct Hd.
  assert (Hri2 : rep_inv (set_disk dm' b1)) by by destruct Hri1.
  assert (Hpin : pin_of b p = 0).
  { rewrite <- Hpins. unfold pin_of. by rewrite Hpt1. }
  pose proof (λ q, pin_of_load (set_disk dm' b1) p f _ ps q Hd2 Hu) as Hpl. cbn [pin_count_] in Hpl.
  exists (load_frame p f ps (set_disk dm' b1)), f, p, (set_live p zero_page a1).
  split_and!; [done|done| |cbn; by rewrite lookup_insert_eq|done| | | |].
  - split; [|by eapply rep_inv_load].
    apply (core_load (set_disk dm' b1) a1 W _ p f (mkPage zero_page p 1 false) ps Hc2 Hd2 Hpt1 Hp1 Hu).
    + apply zlen_zero_page.
    + split; cbn; try done; [by rewrite lookup_insert_eq|]. intros _ []. set_solver.
    + intros q Hq. rewrite elem_of_union, elem_of_singleton. naive_solver.
  - split.
    + intros q Hq. rewrite Hpl, decide_False by done. apply Hpins.
    + intros q Hq. cbn. rewrite lookup_insert_ne; [by apply Hkept|].
      intros ->. lia.
  - by rewrite Hpl, decide_True.
  - rewrite frames_left_load by done. unfold frames_left in *. cbn. lia.
  - done.
Qed.

(** *** DeletePage *)
Definition dead_page (p : page_id_t) a : alloc_state :=
  mkAlloc (al_num a) (p :: al_free a) (delete p (al_live a)).

(** A page that is not in the pool is given back to the disk. *)
Lemma core_dealloc b a W p : core b a W → page_table_ b !! p = None →
  is_Some (al_live a !! p) →
  ∃ dm', DeallocatePage p (disk_manager_ b) = (dm', Ret tt) ∧
    core (set_disk dm' b) (dead_page p a) W.
Proof.
  intros Hc Hp Hlive. apply (c_live _ _ _ Hc) in Hlive as [Hr Hf].
  rewrite <- (c_num _ _ _ Hc) in Hr.
  destruct (DeallocatePage_push _ p _ (c_wf _ _ _ Hc) Hr Hf) as (dm' & Hex & Hwf' & Hn' & _ & Ho).
  exists dm'. split; [done|]. split; cbn; try apply Hc; [done|rewrite Hn'; apply Hc|..].
  - intros q. rewrite lookup_delete, not_elem_of_cons. destruct (decide (p = q)) as [->|].
    + split; [by intros []|naive_solver].
    + rewrite (c_live _ _ _ Hc). naive_solver.
  - intros q d. rewrite lookup_delete. case_decide; [done|apply (c_zlen _ _ _ Hc)].
  - intros q f Hq. destruct (c_frame _ _ _ Hc _ _ Hq) as (pg & Hg & []). exists pg.
    split; [done|]. assert (p ≠ q) by congruence.
    split; cbn; rewrite ?lookup_delete_ne by done; try done.
    intros. rewrite Ho; [auto| |done]. by eapply cached_live.
  - intros q d. rewrite lookup_delete. case_decide; [done|]. intros Hq Hnone.
    rewrite Ho; [by apply (c_disk _ _ _ Hc)| |done].
    assert (is_Some (al_live a !! q)) as Hl%(c_live _ _ _ Hc) by eauto. lia.
Qed.

Lemma delete_uncached b a W p : pool_inv b a W → page_table_ b !! p = None →
  is_Some (al_live a !! p) →
  ∃ b', DeletePage p b = (b', Ret true) ∧ pool_inv b' (dead_page p a) W ∧
    page_table_ b' = page_table_ b ∧ (∀ q, pin_of b' q = pin_of b q) ∧
    frames_left b' = frames_left b.
Proof.
  intros [Hc Hri] Hp Hlive. destruct (core_dealloc b a W p Hc Hp Hlive) as (dm' & Hex & Hc').
  exists (set_disk dm' b). unfold DeletePage. msimpl. rewrite Hp, (on_disk_eq _ _ _ _ Hex).
  split_and!; [done|split; [done|by destruct Hri]|done..].
Qed.

Lemma delete_pinned b a W p : core b a W → 0 < pin_of b p → DeletePage p b = (b, Ret false).
Proof.
  intros Hc Hpos. destruct (pin_of_cached b p ltac:(lia)) as [f Hp].
  destruct (c_frame _ _ _ Hc _ _ Hp) as (pg & Hg & _).
  rewrite (pin_of_frame _ _ _ _ Hp Hg) in Hpos.
  unfold DeletePage. msimpl. rewrite Hp, (get_page_eq _ _ _ Hg). by rewrite decide_True.
Qed.

(** The frame of a deleted page is reset and freed, the page given back. *)
Definition free_frame (p : page_id_t) (f : frame_id_t) (ps : list Page) (dm : DiskManager) b : Pool :=
  set_disk dm (set_free (free_list_ b ++ [f])
    (set_pages ps (set_table (delete p (page_table_ b)) (set_replacer (Pin f (replacer_ b)) b)))).

Lemma core_free_frame b a W p f ps : core b a W → page_table_ b !! p = Some f → p ∉ W →
  frame_upd (pages_ b) f reset_page ps →
  ∃ dm', DeallocatePage p (disk_manager_ b) = (dm', Ret tt) ∧
    core (free_frame p f ps dm' b) (dead_page p a) W.
Proof.
  intros Hc Hp HpW [Hl _ Hn]. destruct (cached_live _ _ _ _ _ Hc Hp) as [Hr Hf].
  pose proof (c_num _ _ _ Hc) as Hnum.
  destruct (DeallocatePage_push _ p _ (c_wf _ _ _ Hc) Hr Hf) as (dm' & Hex & Hwf' & Hn' & _ & Ho).
  exists dm'. split; [done|].
  assert (Hnf : f ∉ free_list_ b). { intros [_ Hin]%(c_free _ _ _ Hc). by eapply Hin. }
  assert (Hother : ∀ q, delete p (page_table_ b) !! q ≠ Some f).
  { intros q. rewrite lookup_delete. case_decide as Hqp; [done|]. intros Hq. apply Hqp.
    by eapply table_inj. }
  split; cbn; try apply Hc; [done|rewrite Hn'; apply Hc| | |rewrite Hl; apply Hc|..].
  - intros q. rewrite lookup_delete, not_elem_of_cons. destruct (decide (p = q)) as [->|].
    + split; [by intros []|naive_solver].
    + rewrite (c_live _ _ _ Hc). naive_solver.
  - intros q d. rewrite lookup_delete. case_decide; [done|apply (c_zlen _ _ _ Hc)].
  - intros q g Hq. rewrite Hn by (intros ->; by eapply Hother).
    rewrite lookup_delete in Hq. case_decide; [done|].
    destruct (c_frame _ _ _ Hc _ _ Hq) as (pg & Hg & []). exists pg. split; [done|].
    split; cbn; rewrite ?lookup_delete_ne by done; try done.
    intros. rewrite Ho; [auto| |done]. by eapply cached_live.
  - intros q Hq. rewrite lookup_delete_ne by (by intros ->). by apply (c_W _ _ _ Hc).
  - intros q d. rewrite !lookup_delete. case_decide; [done|]. intros Hq Hnone.
    rewrite Ho; [by apply (c_disk _ _ _ Hc)| |done].
    assert (is_Some (al_live a !! q)) as Hl1%(c_live _ _ _ Hc) by eauto. lia.
  - apply NoDup_snoc; [apply Hc|done].
  - intros g [Hg| ->%list_elem_of_singleton]%elem_of_app.
    + split; [by apply (c_free _ _ _ Hc)|]. intros q. rewrite lookup_delete.
      case_decide; [done|]. by apply (c_free _ _ _ Hc).
    + split; [|done]. destruct (c_frame _ _ _ Hc _ _ Hp) as (pg & Hg & _).
      rewrite <- (c_pages _ _ _ Hc). by eapply zget_Some_bound.
Qed.

Lemma pin_of_free_frame b a W p f ps dm q : core b a W → page_table_ b !! p = Some f →
  pin_of b p = 0 → frame_upd (pages_ b) f reset_page ps →
  pin_of (free_frame p f ps dm b) q = pin_of b q.
Proof.
  intros Hc Hp Hz [_ _ Hn]. destruct (decide (q = p)) as [->|Hqp].
  { rewrite Hz. unfold pin_of. cbn. by rewrite lookup_delete_eq. }
  unfold pin_of. cbn. rewrite lookup_delete_ne by done.
  destruct (page_table_ b !! q) as [g|] eqn:Hq; [|done].
  rewrite Hn; [done|]. intros ->. apply Hqp. by eapply table_inj.
Qed.

Lemma delete_cached b a W p f : pool_inv b a W → page_table_ b !! p = Some f →
  pin_of b p = 0 →
  ∃ b', DeletePage p b = (b', Ret true) ∧ pool_inv b' (dead_page p a) W ∧
    page_table_ b' = delete p (page_table_ b) ∧ (∀ q, pin_of b' q = pin_of b q) ∧
    frames_left b' = frames_left b.
Proof.
  intros [Hc Hri] Hp Hpin. destruct (c_frame _ _ _ Hc _ _ Hp) as (pg & Hg & Hok).
  pose proof Hok as [_ _ Hlv _ HW]. pose proof Hpin as Hpc.
  rewrite (pin_of_frame _ _ _ _ Hp Hg) in Hpc.
  assert (HpW : p ∉ W) by (intros ?%HW; lia).
  pose proof (zget_Some_bound _ _ _ Hg) as Hfr.
  destruct (put_page_eq (set_table (delete p (page_table_ b))
              (set_replacer (Pin f (replacer_ b)) b)) f reset_page Hfr) as (ps & Hput & Hu).
  cbn in Hu. destruct (core_free_frame b a W p f ps Hc Hp HpW Hu) as (dm' & Hex & Hc').
  assert (Hpins : ∀ q, pin_of (free_frame p f ps dm' b) q = pin_of b q)
    by by intros; eapply pin_of_free_frame.
  exists (free_frame p f ps dm' b). split_and!; [| |done|done|].
  - unfold DeletePage. msimpl. rewrite Hp, (get_page_eq _ _ _ Hg), decide_False by lia.
    unfold replacer_pin. msimpl.
    change (page_table_ (set_replacer ?r b)) with (page_table_ b). rewrite Hput.
    match goal with |- context [on_disk _ ?B] => rewrite (on_disk_eq _ B _ _ Hex) end. done.
  - split; [done|]. destruct (pin_spec _ f (ri_wf _ Hri)) as (Hwf & Hcap & Hset).
    split; cbn; [done|by rewrite Hcap, (ri_cap _ Hri)|]. intros g.
    setoid_rewrite Hpins. rewrite Hset, elem_of_difference, elem_of_singleton, (ri_set _ Hri).
    split.
    + intros [(q & Hq & ?) Hgf]. exists q. split; [|done].
      rewrite lookup_delete_ne; [done|]. intros ->. congruence.
    + intros (q & Hq & ?). rewrite lookup_delete in Hq. case_decide as Hqp; [done|].
      split; [by eauto|]. intros ->. apply Hqp. by eapply (table_inj b).
  - unfold frames_left. cbn. rewrite map_size_delete_Some by eauto. rewrite length_app.
    assert (size (page_table_ b) ≠ 0%nat); [|cbn; lia].
    intros Hz%map_size_empty_iff. rewrite Hz in Hp. done.
Qed.

(** [DeletePage] of an id that is not allocated reports success. *)
Lemma delete_guard b p : page_table_ b !! p = None →
  num_pages_ (disk_manager_ b) ≤ p ∨ p = 0 → DeletePage p b = (b, Ret true).
Proof.
  intros Hp Hg. unfold DeletePage. msimpl. rewrite Hp.
  rewrite (on_disk_eq _ _ _ _ (DeallocatePage_guard _ _ Hg)). by destruct b.
Qed.

(** *** FlushPage and FlushAllPages *)

(** The frames that differ from the disk. *)
Definition dirty b (g : frame_id_t) : Prop :=
  ∃ pg, zget (pages_ b) g = Some pg ∧ is_dirty_ pg = true.

Lemma flush_frames_eq b a W fs : core b a W →
  (∀ f, f ∈ fs → ∃ p, page_table_ b !! p = Some f) →
  ∃ b', flush_frames fs b = (b', Ret tt) ∧ core b' a W ∧ same_meta b b' ∧
    ∀ g, dirty b' g → g ∉ fs ∧ dirty b g.
Proof.
  revert b. induction fs as [|f fs IH]; intros b Hc Hfs.
  { exists b. split_and!; try done. intros g ?. split; [apply not_elem_of_nil|done]. }
  destruct (Hfs f ltac:(by left)) as (p & Hp).
  destruct (c_frame _ _ _ Hc _ _ Hp) as (pg & Hg & _).
  destruct (flush_frame_eq b a W p f pg Hc Hp Hg) as (b1 & pg1 & Hex & Hc1 & Hsm & _ & _ & _ & Hd).
  destruct (IH b1 Hc1) as (b2 & Hex2 & Hc2 & Hsm2 & Hd2).
  { intros g Hin. rewrite (sm_table _ _ Hsm). apply Hfs. by right. }
  exists b2. split_and!.
  - cbn [flush_frames]. by rewrite (bind_Ret _ _ _ _ _ Hex).
  - done.
  - destruct Hsm, Hsm2. split; try congruence.
  - intros g Hg2. destruct (Hd2 g Hg2) as (Hnin & pg2 & Hz & Hdirty).
    destruct (Hd g pg2 Hz Hdirty) as (Hne & Hz'). rewrite not_elem_of_cons.
    split; [done|]. by exists pg2.
Qed.

Lemma flush_all_eq b a W : pool_inv b a W →
  ∃ b', FlushAllPages b = (b', Ret tt) ∧ pool_inv b' a W ∧ same_meta b b' ∧
    frames_left b' = frames_left b ∧
    ∀ p, p ∉ W → is_Some (al_live a !! p) → al_live a !! p = Some (page_data (disk_manager_ b') p).
Proof.
  intros [Hc Hri]. unfold FlushAllPages. msimpl.
  destruct (flush_frames_eq b a W (map_to_list (page_table_ b)).*2 Hc) as (b' & Hex & Hc' & Hsm & Hd).
  { intros f ([p g] & -> & Hin)%list_elem_of_fmap. exists p. by apply elem_of_map_to_list. }
  exists b'. split_and!; [done|split; [done|by eapply same_meta_rep]|done|..].
  - unfold frames_left. by rewrite (sm_table _ _ Hsm), (sm_free _ _ Hsm).
  - intros p HpW [d Hlive]. destruct (page_table_ b' !! p) as [f|] eqn:Hp.
    + destruct (c_frame _ _ _ Hc' _ _ Hp) as (pg & Hg & [_ _ Hlv Hcl _]).
      rewrite Hlv, Hcl; [done| |done]. destruct (is_dirty_ pg) eqn:Hdp; [|done].
      destruct (Hd f) as [[] _]; [by exists pg|]. apply list_elem_of_fmap. exists (p, f).
      rewrite (sm_table _ _ Hsm) in Hp. by rewrite elem_of_map_to_list.
    + by rewrite (c_disk _ _ _ Hc' _ _ Hlive Hp).
Qed.

(** *** A holder reading and writing the page it pinned *)
Lemma get_data_eq b a W p f : core b a W → page_table_ b !! p = Some f →
  ∃ d, GetData f b = (b, Ret d) ∧ al_live a !! p = Some d.
Proof.
  intros Hc Hp. destruct (c_frame _ _ _ Hc _ _ Hp) as (pg & Hg & Hok). exists (data_ pg).
  unfold GetData. rewrite (bind_Ret _ _ _ _ _ (get_page_eq _ _ _ Hg)). split; [done|]. apply Hok.
Qed.

Lemma write_data_eq b a W p f d : pool_inv b a W → page_table_ b !! p = Some f →
  0 < pin_of b p → zlen d = PAGE_SIZE →
  ∃ b', WriteData f d b = (b', Ret tt) ∧ pool_inv b' (set_live p d a) ({[p]} ∪ W) ∧
    page_table_ b' = page_table_ b ∧ (∀ q, pin_of b' q = pin_of b q) ∧
    frames_left b' = frames_left b.
Proof.
  intros [Hc Hri] Hp Hpos Hz. destruct (c_frame _ _ _ Hc _ _ Hp) as (pg & Hg & Hok).
  pose proof Hok as [Hid Hpin Hlv Hcl HW].
  destruct (upd_page_eq b f pg (set_data d) Hg) as (ps & Hex & Hu).
  rewrite (pin_of_frame _ _ _ _ Hp Hg) in Hpos.
  assert (Hpins : ∀ q, pin_of (set_pages ps b) q = pin_of b q).
  { intros q. rewrite (pin_of_set_frame _ _ _ _ _ _ p q Hc Hp Hu). case_decide; [|done].
    subst q. by rewrite (pin_of_frame _ _ _ _ Hp Hg). }
  exists (set_pages ps b). split_and!; [done| |done|done|done]. split.
  - apply (core_set_frame _ _ W ({[p]} ∪ W) p f _ _ Hc Hp Hu); cbn; try done; set_solver.
  - destruct Hri as [? ? Hset]. split; [done..|]. intros g. rewrite Hset. by setoid_rewrite Hpins.
Qed.
End invariant.
