(* ===== verification/PageStore.v ===== *)
(** The contract between the buffer pool and its clients ([table_heap.hpp],
    [b_plus_tree.cpp], [storage_service.cpp]).  Client code is a program over the
    calls of the pool; it runs on the pool itself, or on an abstract store of
    pages with pin counts.  The theorems show that the pool, whatever its
    replacement policy, is indistinguishable from the store. *)
From Stdlib Require Import ZArith Lia.
From Stdlib Require Strings.Byte.
From stdpp Require Import base list gmap.
From S2P Require Import Prelude Types DiskManager Replacer BufferPool.
Open Scope Z_scope.

(** ** Client programs

    A client names a [Page*] by the id of the page it was obtained for: [Fetch]
    and [New] tell whether the pointer is null, [Read] and [Write] access
    [page->GetData()] through the pointer. *)
Inductive pool_op : Type → Type :=
| Fetch (p : page_id_t) : pool_op bool
| Unpin (p : page_id_t) (is_dirty : bool) : pool_op bool
| New : pool_op (option page_id_t)
| Delete (p : page_id_t) : pool_op bool
| FlushAll : pool_op unit
| Read (p : page_id_t) : pool_op (list byte)
| Write (p : page_id_t) (d : list byte) : pool_op unit.

Inductive prog (A : Type) : Type :=
| PRet (a : A)
| PThrow (e : exn)
| PUB
| PCall {X : Type} (op : pool_op X) (k : X → prog A).
Arguments PRet {A} a.
Arguments PThrow {A} e.
Arguments PUB {A}.
Arguments PCall {A X} op k.

Fixpoint prog_bind {A B} (f : A → prog B) (m : prog A) : prog B :=
  match m with
  | PRet a => f a
  | PThrow e => PThrow e
  | PUB => PUB
  | PCall op k => PCall op (λ x, prog_bind f (k x))
  end.
#[export] Instance prog_ret : MRet prog := λ A a, PRet a.
#[export] Instance prog_mbind : MBind prog := λ A B f m, prog_bind f m.

Definition call {X} (op : pool_op X) : prog X := PCall op PRet.

(** ** The abstract store *)
Record store := mkStore {
  st_alloc : alloc_state;             (* the pages and their contents *)
  st_unflagged : gset page_id_t;      (* written, not yet unpinned as dirty *)
  st_pins : gmap page_id_t Z;         (* the pin counts, all positive *)
  st_frames : Z;                      (* frames in use or free *)
}.

Definition set_pins (m : gmap page_id_t Z) (s : store) : store :=
  mkStore (st_alloc s) (st_unflagged s) m (st_frames s).
Definition st_live (s : store) : gmap page_id_t (list byte) := al_live (st_alloc s).

(** Every frame holds a pinned page. *)
Definition st_full (s : store) : bool := bool_decide (Z.of_nat (size (st_pins s)) = st_frames s).

(** The page [New] allocates. *)
Definition fresh_page (a : alloc_state) : option (page_id_t * alloc_state) :=
  match al_free a with
  | p :: l => Some (p, mkAlloc (al_num a) l (<[p := zero_page]> (al_live a)))
  | [] =>
      if decide (al_num a < INVALID_PAGE_ID)
      then Some (al_num a, mkAlloc (al_num a + 1) [] (<[al_num a := zero_page]> (al_live a)))
      else None
  end.

(** One call; [None] is a call a client must not make: on a page that is not
    allocated, through a pointer that is not pinned, or dropping the last pin of
    a page it wrote without the dirty flag. *)
Definition store_step {X} (op : pool_op X) (s : store) : option (outcome X * store) :=
  match op in pool_op X return option (outcome X * store) with
  | Fetch p =>
      if decide (p = INVALID_PAGE_ID) then Some (Ret false, s) else
      match st_pins s !! p with
      | Some n => Some (Ret true, set_pins (<[p := n + 1]> (st_pins s)) s)
      | None =>
          if decide (is_Some (st_live s !! p)) then
            if st_full s then Some (Ret false, s)
            else Some (Ret true, set_pins (<[p := 1]> (st_pins s)) s)
          else if decide (al_num (st_alloc s) ≤ p) then
            if st_full s then Some (Ret false, s)
            else Some (Throw OutOfRange,
                       mkStore (st_alloc s) (st_unflagged s) (st_pins s) (st_frames s - 1))
          else None
      end
  | Unpin p d =>
      match st_pins s !! p with
      | None => Some (Ret false, s)
      | Some n =>
          if decide (d = true ∨ p ∉ st_unflagged s ∨ 1 < n) then
            Some (Ret true,
                  mkStore (st_alloc s) (unpin_W d p (st_unflagged s))
                    (if decide (n = 1) then delete p (st_pins s) else <[p := n - 1]> (st_pins s))
                    (st_frames s))
          else None
      end
  | New =>
      match fresh_page (st_alloc s) with
      | None => None
      | Some (p, a) =>
          if st_full s then Some (Ret None, s)
          else Some (Ret (Some p),
                     mkStore a ({[p]} ∪ st_unflagged s) (<[p := 1]> (st_pins s)) (st_frames s))
      end
  | Delete p =>
      match st_pins s !! p with
      | Some _ => Some (Ret false, s)
      | None =>
          if decide (is_Some (st_live s !! p)) then
            Some (Ret true, mkStore (dead_page p (st_alloc s)) (st_unflagged s) (st_pins s) (st_frames s))
          else if decide (al_num (st_alloc s) ≤ p ∨ p = 0) then Some (Ret true, s)
          else None
      end
  | FlushAll => Some (Ret tt, s)
  | Read p =>
      match st_pins s !! p, st_live s !! p with
      | Some _, Some d => Some (Ret d, s)
      | _, _ => None
      end
  | Write p d =>
      match st_pins s !! p with
      | Some _ =>
          if decide (zlen d = PAGE_SIZE) then
            Some (Ret tt, mkStore (set_live p d (st_alloc s)) ({[p]} ∪ st_unflagged s)
                            (st_pins s) (st_frames s))
          else None
      | None => None
      end
  end.

Fixpoint run_store {A} (m : prog A) (s : store) : option (outcome A * store) :=
  match m with
  | PRet a => Some (Ret a, s)
  | PThrow e => Some (Throw e, s)
  | PUB => Some (UB, s)
  | PCall op k =>
      match store_step op s with
      | None => None
      | Some (Ret x, s') => run_store (k x) s'
      | Some (Throw e, s') => Some (Throw e, s')
      | Some (UB, s') => Some (UB, s')
      end
  end.

Lemma run_store_bind {A B} (m : prog A) (f : A → prog B) s :
  run_store (m ≫= f) s =
    match run_store m s with
    | None => None
    | Some (Ret a, s') => run_store (f a) s'
    | Some (Throw e, s') => Some (Throw e, s')
    | Some (UB, s') => Some (UB, s')
    end.
Proof.
  unfold mbind, prog_mbind. revert s. induction m as [a|e| |X op k IH]; intros s; [done..|].
  cbn. destruct (store_step op s) as [[[x|e|] s']|]; [apply IH|done..].
Qed.

(** A method of a struct in the bytes of a page; [None] is an access outside it. *)
Definition from_mem {A} (o : option A) : prog A :=
  match o with Some a => mret a | None => PUB end.

(** ** Reasoning about programs on the store *)

(** The allocator behind the store. *)
Record alloc_ok (a : alloc_state) : Prop := {
  ao_live p : is_Some (al_live a !! p) ↔ 1 ≤ p < al_num a ∧ p ∉ al_free a;
  ao_nodup : NoDup (al_free a);
  ao_free p : p ∈ al_free a → 1 ≤ p < al_num a;
  ao_num : 1 ≤ al_num a ≤ INVALID_PAGE_ID;
  ao_len p d : al_live a !! p = Some d → zlen d = PAGE_SIZE;
}.

Lemma alloc_ok_id a p : alloc_ok a → is_Some (al_live a !! p) → p ≠ INVALID_PAGE_ID ∧ u32_ok p.
Proof.
  intros Ha Hp. apply (ao_live _ Ha) in Hp as [Hp _]. pose proof (ao_num _ Ha). plia.
Qed.

Lemma fresh_page_ok a p a' : alloc_ok a → fresh_page a = Some (p, a') →
  alloc_ok a' ∧ al_live a !! p = None ∧ al_live a' = <[p := zero_page]> (al_live a).
Proof.
  intros Ha. unfold fresh_page. pose proof zlen_zero_page as Hz. revert Hz.
  generalize zero_page as z. intros z Hz Hf.
  assert (Hpn : al_live a !! p = None ∧ 1 ≤ p).
  { assert (Hn : ¬ (1 ≤ p < al_num a ∧ p ∉ al_free a) ∧ 1 ≤ p);
      [|destruct Hn; split; [|done]].
    2: { apply eq_None_not_Some. by intros ?%(ao_live _ Ha). }
    pose proof (ao_num _ Ha).
    destruct (al_free a) as [|q l] eqn:Hl; [case_decide; [|done]|]; simplify_eq; [split; lia|].
    split; [intros [_ []]; by left|]. apply (ao_free _ Ha). rewrite Hl. by left. }
  destruct Hpn as [Hpn Hp1]. split_and!; [|done|].
  - pose proof (ao_nodup _ Ha) as Hnd. pose proof (ao_num _ Ha) as Hnum.
    destruct (al_free a) as [|q l] eqn:Hl; [case_decide; [|done]|]; simplify_eq; split; cbn; try done.
    + intros q. pose proof (not_elem_of_nil q).
      destruct (decide (al_num a = q)) as [<-|]; [rewrite lookup_insert_eq|rewrite lookup_insert_ne by done].
      * split; [intros _; split; [lia|done]|by eauto].
      * rewrite (ao_live _ Ha), Hl. split; intros [? ?]; (split; [lia|done]).
    + by intros q ?%not_elem_of_nil.
    + lia.
    + intros q d. rewrite lookup_insert. case_decide; [by intros [= <-]|apply (ao_len _ Ha)].
    + apply NoDup_cons in Hnd as [Hpl Hnd]. intros q.
      destruct (decide (p = q)) as [<-|]; [rewrite lookup_insert_eq|rewrite lookup_insert_ne by done].
      * split; [|by eauto]. intros _. split; [|done]. apply (ao_free _ Ha). rewrite Hl. by left.
      * rewrite (ao_live _ Ha), Hl, not_elem_of_cons. naive_solver.
    + by apply NoDup_cons in Hnd as [_ ?].
    + intros q Hq. apply (ao_free _ Ha). rewrite Hl. by right.
    + intros q d. rewrite lookup_insert. case_decide; [by intros [= <-]|apply (ao_len _ Ha)].
  - destruct (al_free a); [case_decide; [|done]|]; by simplify_eq.
Qed.

Lemma fresh_page_num a p a' : fresh_page a = Some (p, a') → al_num a' ≤ al_num a + 1.
Proof. unfold fresh_page. destruct (al_free a); [case_decide; [|done]|]; intros; simplify_eq; cbn; lia. Qed.
Lemma fresh_room a : alloc_ok a → al_num a < INVALID_PAGE_ID →
  ∃ q a1, fresh_page a = Some (q, a1) ∧ al_num a1 ≤ al_num a + 1.
Proof.
  intros Ha Hn. unfold fresh_page. destruct (al_free a) as [|p l].
  - rewrite decide_True by done. eexists _, _. split; [done|]. cbn. lia.
  - eexists _, _. split; [done|]. cbn. lia.
Qed.

(** The new page as a client sees it: some page of bytes under an id not in use. *)
Lemma fresh_cell a : alloc_ok a → al_num a < INVALID_PAGE_ID →
  ∃ q a1 z, fresh_page a = Some (q, a1) ∧ al_num a1 ≤ al_num a + 1 ∧ alloc_ok a1 ∧ al_live a !! q = None ∧
    al_live a1 = <[q := z]> (al_live a) ∧ zlen z = PAGE_SIZE ∧ u32_ok q.
Proof.
  intros Ha Hn. destruct (fresh_room a Ha Hn) as (q & a1 & Hf & Hnum).
  destruct (fresh_page_ok _ _ _ Ha Hf) as (Ha1 & Hq & Hl). exists q, a1, zero_page.
  split; [done|]. split; [done|]. split; [done|]. split; [done|]. split; [done|]. split; [apply zlen_zero_page|].
  apply (alloc_ok_id _ q Ha1). rewrite Hl, lookup_insert_eq. by eauto.
Qed.

Lemma dead_page_ok a p : alloc_ok a → is_Some (al_live a !! p) → alloc_ok (dead_page p a).
Proof.
  intros Ha Hp. pose proof (ao_live _ Ha p) as [H _]. destruct (H Hp) as [Hr Hf]. split; cbn.
  - intros q. destruct (decide (q = p)) as [->|Hne].
    + rewrite lookup_delete_eq, elem_of_cons. split; [by intros [? ?]|]. intros [_ Hn]. exfalso. apply Hn. by left.
    + rewrite lookup_delete_ne, (ao_live _ Ha), elem_of_cons by done. tauto.
  - apply NoDup_cons. split; [done|apply Ha].
  - intros q [->|Hq]%elem_of_cons; [done|by apply (ao_free _ Ha)].
  - apply Ha.
  - intros q d Hd. apply (ao_len _ Ha q). destruct (decide (q = p)) as [->|Hne].
    + by rewrite lookup_delete_eq in Hd.
    + by rewrite lookup_delete_ne in Hd.
Qed.

Lemma set_live_ok a p d : alloc_ok a → is_Some (al_live a !! p) → zlen d = PAGE_SIZE →
  alloc_ok (set_live p d a).
Proof.
  intros Ha Hp Hd. split; cbn; try apply Ha.
  - intros q. rewrite lookup_insert. case_decide; [subst|apply (ao_live _ Ha)].
    split; [intros _|by eauto]. by apply (ao_live _ Ha).
  - intros q e. rewrite lookup_insert. case_decide; [naive_solver|apply (ao_len _ Ha)].
Qed.

Lemma run_call {X B} (op : pool_op X) (k : X → prog B) s x s' :
  store_step op s = Some (Ret x, s') → run_store (call op ≫= k) s = run_store (k x) s'.
Proof. intros Hs. unfold call, mbind, prog_mbind. cbn [prog_bind run_store]. by rewrite Hs. Qed.

Lemma run_mem {A B} (x : A) (k : A → prog B) s :
  run_store (from_mem (Some x) ≫= k) s = run_store (k x) s.
Proof. done. Qed.

(** Execute the next call of a program, by a proof of its [store_step]. *)
Tactic Notation "run_step" tactic3(tac) := erewrite run_call by tac; cbv beta iota delta [negb].

Section steps.
Context (a : alloc_state) (W : gset page_id_t) (m : gmap page_id_t Z) (n : Z).
Implicit Types (p : page_id_t) (d : list byte).

Lemma step_fetch p : alloc_ok a → is_Some (al_live a !! p) → m !! p = None →
  Z.of_nat (size m) < n →
  store_step (Fetch p) (mkStore a W m n) = Some (Ret true, mkStore a W (<[p := 1]> m) n).
Proof.
  intros Ha Hp Hm Hn. destruct (alloc_ok_id _ _ Ha Hp) as [Hne _]. cbn.
  rewrite decide_False, Hm, decide_True by done. unfold st_full. cbn.
  by rewrite bool_decide_false by lia.
Qed.
Lemma step_fetch_again p k : p ≠ INVALID_PAGE_ID → m !! p = Some k →
  store_step (Fetch p) (mkStore a W m n) = Some (Ret true, mkStore a W (<[p := k + 1]> m) n).
Proof. intros Hne Hm. cbn. by rewrite decide_False, Hm. Qed.
Lemma step_unpin p (d : bool) : m !! p = Some 1 → (d = true ∨ p ∉ W) →
  store_step (Unpin p d) (mkStore a W m n) = Some (Ret true, mkStore a (unpin_W d p W) (delete p m) n).
Proof.
  intros Hm Hd. cbn. rewrite Hm, decide_True by tauto. by rewrite decide_True.
Qed.
Lemma step_unpin_more p (d : bool) k : m !! p = Some k → 1 < k →
  store_step (Unpin p d) (mkStore a W m n) =
    Some (Ret true, mkStore a (unpin_W d p W) (<[p := k - 1]> m) n).
Proof.
  intros Hm Hk. cbn. rewrite Hm, decide_True by tauto. by rewrite decide_False by lia.
Qed.
Lemma step_read p d : is_Some (m !! p) → al_live a !! p = Some d →
  store_step (Read p) (mkStore a W m n) = Some (Ret d, mkStore a W m n).
Proof. intros [k Hm] Hp. cbn. unfold st_live. cbn. by rewrite Hm, Hp. Qed.
Lemma step_write p d : is_Some (m !! p) → zlen d = PAGE_SIZE →
  store_step (Write p d) (mkStore a W m n) =
    Some (Ret tt, mkStore (set_live p d a) ({[p]} ∪ W) m n).
Proof. intros [k Hm] Hd. cbn. by rewrite Hm, decide_True. Qed.
Lemma step_new p a' : fresh_page a = Some (p, a') → Z.of_nat (size m) < n →
  store_step New (mkStore a W m n) =
    Some (Ret (Some p), mkStore a' ({[p]} ∪ W) (<[p := 1]> m) n).
Proof.
  intros Hf Hn. cbn. rewrite Hf. unfold st_full. cbn. by rewrite bool_decide_false by lia.
Qed.
Lemma step_new_full p a' : fresh_page a = Some (p, a') → Z.of_nat (size m) = n →
  store_step New (mkStore a W m n) = Some (Ret None, mkStore a W m n).
Proof. intros Hf Hn. cbn. rewrite Hf. unfold st_full. cbn. by rewrite bool_decide_true. Qed.
End steps.

(** One more pin on a page. *)
Definition pin (p : page_id_t) (m : gmap page_id_t Z) : gmap page_id_t Z :=
  <[p := default 0 (m !! p) + 1]> m.
(** Pin counts are positive, and only allocated pages are pinned. *)
Definition pins_ok (m : gmap page_id_t Z) (a : alloc_state) : Prop :=
  ∀ p k, m !! p = Some k → 1 ≤ k ∧ is_Some (al_live a !! p).

Lemma pin_self p m : is_Some (pin p m !! p).
Proof. unfold pin. rewrite lookup_insert_eq. eauto. Qed.
Lemma pin_keep p q m : is_Some (m !! q) → is_Some (pin p m !! q).
Proof. intros H. unfold pin. rewrite lookup_insert. case_decide; eauto. Qed.
Lemma pin_comm p q m : pin p (pin q m) = pin q (pin p m).
Proof.
  destruct (decide (p = q)) as [->|Hne]; [done|]. unfold pin.
  rewrite !lookup_insert_ne by done. by apply insert_insert_ne.
Qed.
Lemma size_pin p m : Z.of_nat (size (pin p m)) ≤ Z.of_nat (size m) + 1.
Proof.
  unfold pin. rewrite map_size_insert. destruct (m !! p); unfold id; lia.
Qed.
Lemma pins_ok_pin p m a : pins_ok m a → is_Some (al_live a !! p) → pins_ok (pin p m) a.
Proof.
  intros Hm Hp q k. unfold pin. rewrite lookup_insert. case_decide as Hq; [|apply Hm].
  intros [= <-]. split; [|by rewrite <- Hq]. destruct (m !! p) as [j|] eqn:Hj; cbn; [|lia].
  destruct (Hm p j Hj). lia.
Qed.
Lemma pins_ok_mono m a a' : pins_ok m a → (∀ p, is_Some (al_live a !! p) → is_Some (al_live a' !! p)) →
  pins_ok m a'.
Proof. intros Hm H p k Hp. destruct (Hm p k Hp). eauto. Qed.
Lemma pins_ok_live (m : gmap page_id_t Z) a p d : pins_ok m a → pins_ok m (set_live p d a).
Proof.
  intros Hm. eapply pins_ok_mono; [exact Hm|]. intros q Hq. cbn. rewrite lookup_insert. case_decide; eauto.
Qed.
(** A page written in place. *)
Lemma page_written a (m : gmap page_id_t Z) p d d' : alloc_ok a → pins_ok m a → al_live a !! p = Some d → zlen d' = PAGE_SIZE →
  let a1 := set_live p d' a in
  alloc_ok a1 ∧ pins_ok m a1 ∧ al_live a1 !! p = Some d' ∧ (∀ q, q ≠ p → al_live a1 !! q = al_live a !! q) ∧
  ∀ q, is_Some (al_live a !! q) → is_Some (al_live a1 !! q).
Proof.
  intros Ha Hm Hd Hz a1. split; [apply set_live_ok; [done|by eauto|done]|]. split; [by apply pins_ok_live|].
  split; [apply lookup_insert_eq|]. split; [intros q Hq; by apply lookup_insert_ne|].
  intros q Hq. cbn. rewrite lookup_insert. case_decide; [by eauto|done].
Qed.
Lemma pins_ok_empty a : pins_ok ∅ a.
Proof. intros p k. by rewrite lookup_empty. Qed.

Section pin_steps.
Context (a : alloc_state) (W : gset page_id_t) (m : gmap page_id_t Z) (n : Z).

Lemma step_pin p : alloc_ok a → is_Some (al_live a !! p) → Z.of_nat (size m) < n →
  store_step (Fetch p) (mkStore a W m n) = Some (Ret true, mkStore a W (pin p m) n).
Proof.
  intros Ha Hp Hn. destruct (alloc_ok_id _ _ Ha Hp) as [Hne _]. unfold pin.
  destruct (m !! p) as [k|] eqn:Hm; [by apply step_fetch_again|by apply step_fetch].
Qed.
Lemma step_drop p (d : bool) : pins_ok m a → (d = true ∨ p ∉ W ∨ is_Some (m !! p)) →
  store_step (Unpin p d) (mkStore a W (pin p m) n) = Some (Ret true, mkStore a (unpin_W d p W) m n).
Proof.
  intros Hok Hd. unfold pin. destruct (m !! p) as [k|] eqn:Hm.
  - destruct (Hok p k Hm) as [Hk _]. cbn [default]. change (id k) with k.
    rewrite (step_unpin_more _ _ _ _ _ _ (k + 1)) by (rewrite ?lookup_insert_eq; lia || done).
    rewrite insert_insert_eq. replace (k + 1 - 1) with k by lia. by rewrite insert_id.
  - cbn [default]. rewrite (step_unpin _ _ _ _ p d).
    + by rewrite delete_insert_id.
    + by rewrite lookup_insert_eq.
    + destruct Hd as [?|[?|[? ?]]]; [by left|by right|done].
Qed.
Lemma step_new_pin q a1 : alloc_ok a → pins_ok m a → fresh_page a = Some (q, a1) →
  Z.of_nat (size m) < n →
  store_step New (mkStore a W m n) = Some (Ret (Some q), mkStore a1 ({[q]} ∪ W) (pin q m) n).
Proof.
  intros Ha Hm Hf Hn. rewrite (step_new _ _ _ _ q a1 Hf Hn).
  destruct (fresh_page_ok _ _ _ Ha Hf) as (_ & Hq & _).
  assert (m !! q = None) as Hmq.
  { destruct (m !! q) as [k|] eqn:Hk; [|done]. destruct (Hm q k Hk) as [_ [? ?]]. congruence. }
  unfold pin. by rewrite Hmq.
Qed.
End pin_steps.

(** A store nobody is using: no pins, every write flagged. *)
Record quiet (s : store) (n : Z) : Prop := {
  q_alloc : alloc_ok (st_alloc s);
  q_eq : s = mkStore (st_alloc s) ∅ ∅ n;
}.

(** A pinned page is visited and left as it was. *)
Lemma unpin_W_empty d p : unpin_W d p ∅ = ∅.
Proof. destruct d; set_solver. Qed.

(** ** The same programs on the pool *)
Section pool.
Context {R : Type} `{HR : Replacer R} `{!ReplacerLaws R}.

(** The pool and the pointers its clients obtained last. *)
Record machine := mkMachine {
  ma_pool : BufferPoolManager R;
  ma_ptrs : gmap page_id_t frame_id_t;
}.
Definition on_pool {A} (m : M (BufferPoolManager R) A) : M machine A :=
  zoom ma_pool (λ b c, mkMachine b (ma_ptrs c)) m.
Definition keep_ptr (p : page_id_t) (f : frame_id_t) : M machine unit :=
  modify (λ c, mkMachine (ma_pool c) (<[p := f]> (ma_ptrs c))).
Definition ptr (p : page_id_t) : M machine frame_id_t :=
  o ← gets (λ c, ma_ptrs c !! p); from_opt o.

Definition exec_call {X} (op : pool_op X) : M machine X :=
  match op in pool_op X return M machine X with
  | Fetch p =>
      o ← on_pool (FetchPage p);
      match o with None => mret false | Some f => _ ← keep_ptr p f; mret true end
  | Unpin p d => on_pool (UnpinPage p d)
  | New =>
      '(p, o) ← on_pool NewPage;
      match o with None => mret None | Some f => _ ← keep_ptr p f; mret (Some p) end
  | Delete p => on_pool (DeletePage p)
  | FlushAll => on_pool FlushAllPages
  | Read p => f ← ptr p; on_pool (GetData f)
  | Write p d => f ← ptr p; on_pool (WriteData f d)
  end.

Fixpoint run_pool {A} (m : prog A) : M machine A :=
  match m with
  | PRet a => mret a
  | PThrow e => throw e
  | PUB => undefined
  | PCall op k => x ← exec_call op; run_pool (k x)
  end.

(** *** The simulation relation *)
Record store_rel (c : machine) (s : store) : Prop := {
  sr_inv : pool_inv (ma_pool c) (st_alloc s) (st_unflagged s);
  sr_pins p : pin_of (ma_pool c) p = default 0 (st_pins s !! p);
  sr_pos p n : st_pins s !! p = Some n → 0 < n;
  sr_frames : frames_left (ma_pool c) = st_frames s;
  sr_ptrs p : is_Some (st_pins s !! p) → ma_ptrs c !! p = page_table_ (ma_pool c) !! p;
}.

Lemma rel_unpinned c s p : store_rel c s → pin_of (ma_pool c) p = 0 ↔ st_pins s !! p = None.
Proof.
  intros Hr. rewrite (sr_pins _ _ Hr). destruct (st_pins s !! p) as [n|] eqn:Hp; cbn; [|done].
  apply (sr_pos _ _ Hr) in Hp. split; [lia|done].
Qed.
Lemma rel_pinned c s p : store_rel c s → 0 < pin_of (ma_pool c) p ↔ is_Some (st_pins s !! p).
Proof.
  intros Hr. pose proof (pin_of_nonneg _ _ _ p (pi_core _ _ _ (sr_inv _ _ Hr))).
  pose proof (rel_unpinned c s p Hr) as Hu. rewrite <- not_eq_None_Some, <- Hu. lia.
Qed.
Lemma rel_pin c s p n : store_rel c s → st_pins s !! p = Some n → pin_of (ma_pool c) p = n ∧ 0 < n.
Proof. intros Hr Hp. rewrite (sr_pins _ _ Hr), Hp. split; [done|by eapply sr_pos]. Qed.
Lemma rel_cached c s p : store_rel c s → is_Some (st_pins s !! p) →
  ∃ f, page_table_ (ma_pool c) !! p = Some f ∧ ma_ptrs c !! p = Some f.
Proof.
  intros Hr Hp. pose proof (sr_ptrs _ _ Hr p Hp) as Hf.
  apply (rel_pinned _ _ _ Hr) in Hp. destruct (pin_of_cached (ma_pool c) p ltac:(lia)) as [f Hpt].
  exists f. by rewrite Hf.
Qed.

(** The pool has no frame to give exactly when the store is full. *)

Lemma rel_full c s : store_rel c s → st_full s = true ↔ no_frame (ma_pool c).
Proof.
  intros Hr. unfold st_full. rewrite bool_decide_eq_true, <- (sr_frames _ _ Hr).
  assert (Hsub : dom (st_pins s) ⊆ dom (page_table_ (ma_pool c))).
  { intros p Hp%elem_of_dom. destruct (rel_cached _ _ _ Hr Hp) as (f & Hf & _).
    apply elem_of_dom. eauto. }
  pose proof (subseteq_size _ _ Hsub) as Hle. rewrite !size_dom in Hle.
  unfold frames_left, no_frame. split.
  - intros Hsz. split; [apply nil_length_inv; lia|]. intros p Hp.
    apply (rel_pinned _ _ _ Hr). apply elem_of_dom. apply elem_of_dom in Hp. revert p Hp.
    apply set_subseteq_size_equiv in Hsub; [set_solver|]. rewrite !size_dom.
    pose proof (Nat2Z.is_nonneg (length (free_list_ (ma_pool c)))). lia.
  - intros [-> Hall]. cbn [length]. rewrite Z.add_0_r. f_equal. rewrite <- !size_dom.
    f_equal. apply set_eq. intros p. split; [by apply Hsub|]. intros Hp%elem_of_dom.
    apply elem_of_dom. apply (rel_pinned _ _ _ Hr). by apply Hall.
Qed.

(** *** One call *)
Lemma on_pool_eq {A} (m : M (BufferPoolManager R) A) c b r :
  m (ma_pool c) = (b, r) → on_pool m c = (mkMachine b (ma_ptrs c), r).
Proof. intros H. unfold on_pool. by rewrite (zoom_eq _ _ _ _ _ _ H). Qed.
Lemma machine_eta c : mkMachine (ma_pool c) (ma_ptrs c) = c.
Proof. by destruct c. Qed.

Lemma fetch_live b a W p : pool_inv b a W → p ≠ INVALID_PAGE_ID → is_Some (al_live a !! p) →
  (FetchPage p b = (b, Ret None) ∧ no_frame b ∧ pin_of b p = 0) ∨
  (∃ b' f, FetchPage p b = (b', Ret (Some f)) ∧ pool_inv b' a W ∧
     page_table_ b' !! p = Some f ∧ others_kept b b' p ∧ pin_of b' p = pin_of b p + 1 ∧
     frames_left b' = frames_left b ∧ (0 < pin_of b p ∨ ¬ no_frame b)).
Proof.
  intros Hinv Hne Hlive. destruct (page_table_ b !! p) as [f|] eqn:Hp.
  - right. destruct (fetch_hit b a W p f Hinv Hne Hp) as (b' & Hex & Hinv' & Ht & Hk & Hpin & Hfl).
    exists b', f. split_and!; try done; [by rewrite Ht|].
    destruct (decide (pin_of b p = 0)) as [Hz|]; [right|left].
    + intros [_ Hall]. specialize (Hall p ltac:(eauto)). lia.
    + pose proof (pin_of_nonneg _ _ _ p (pi_core _ _ _ Hinv)). lia.
  - assert (Hz : pin_of b p = 0) by (unfold pin_of; by rewrite Hp).
    destruct (fetch_miss b a W p Hinv Hp Hlive)
      as [(Hex & Hnf)|(b' & f & Hex & Hinv' & Hp' & Hk & Hpin & Hfl & Hnf)]; [by left|right].
    exists b', f. split_and!; try done; [lia|by right].
Qed.

Lemma rel_load c s p n f b' a' W' : store_rel c s →
  pool_inv b' a' W' → page_table_ b' !! p = Some f → others_kept (ma_pool c) b' p →
  pin_of b' p = n → 0 < n → frames_left b' = frames_left (ma_pool c) →
  store_rel (mkMachine b' (<[p := f]> (ma_ptrs c)))
    (mkStore a' W' (<[p := n]> (st_pins s)) (st_frames s)).
Proof.
  intros Hr Hinv Hp [Hk1 Hk2] Hn Hpos Hfl. split; cbn; [done| | | |].
  - intros q. rewrite lookup_insert. case_decide as Hqp; [by subst|].
    rewrite Hk1 by done. apply Hr.
  - intros q m. rewrite lookup_insert. case_decide; [naive_solver|]. apply (sr_pos _ _ Hr).
  - rewrite Hfl. apply Hr.
  - intros q. rewrite !lookup_insert. case_decide; [by subst|]. intros Hq.
    rewrite Hk2; [by apply Hr|]. by apply (rel_pinned _ _ _ Hr).
Qed.

Definition sim {X} (op : pool_op X) : Prop := ∀ c s o s',
  store_rel c s → store_step op s = Some (o, s') →
  ∃ c', exec_call op c = (c', o) ∧ store_rel c' s'.

Lemma sim_fetch p : sim (Fetch p).
Proof.
  intros c s o s' Hr. cbn [store_step exec_call].
  destruct (decide (p = INVALID_PAGE_ID)) as [->|Hne].
  { intros [= <- <-]. exists c. split; [|done].
    rewrite (bind_Ret _ _ c c None); [done|]. rewrite <- (machine_eta c) at 2. by apply on_pool_eq. }
  pose proof (sr_inv _ _ Hr) as Hinv. pose proof (rel_full c s Hr) as Hfull.
  assert (Hgo : is_Some (st_live s !! p) → (is_Some (st_pins s !! p) ∨ st_full s = false) →
    ∃ c', (o ← on_pool (FetchPage p);
           match o with None => mret false | Some f => _ ← keep_ptr p f; mret true end) c =
            (c', Ret true) ∧
      store_rel c' (set_pins (<[p := default 0 (st_pins s !! p) + 1]> (st_pins s)) s)).
  { intros Hlive Hor. destruct (fetch_live _ _ _ p Hinv Hne Hlive) as
      [(_ & Hnf & Hz)|(b' & f & Hex & Hinv' & Hp & Hk & Hpin & Hfl & _)].
    - exfalso. apply Hfull in Hnf. rewrite <- (rel_pinned _ _ _ Hr) in Hor.
      destruct Hor; [lia|congruence].
    - eexists. rewrite (bind_Ret _ _ _ _ _ (on_pool_eq _ _ _ _ Hex)). split; [done|].
      rewrite <- (sr_pins _ _ Hr), <- Hpin.
      apply (rel_load c s p _ f b' _ _ Hr Hinv' Hp Hk eq_refl); [|done].
      pose proof (pin_of_nonneg _ _ _ p (pi_core _ _ _ Hinv)). lia. }
  destruct (st_pins s !! p) as [n|] eqn:Hpn.
  { intros [= <- <-]. apply Hgo; [|by eauto]. destruct (rel_cached c s p Hr) as (f & Hf & _); [by eauto|].
    destruct (c_frame _ _ _ (pi_core _ _ _ Hinv) _ _ Hf) as (pg & _ & Hok). eexists. apply Hok. }
  destruct (decide (is_Some (st_live s !! p))) as [Hlive|Hdead].
  - destruct (st_full s) eqn:Hst; intros [= <- <-]; [|apply Hgo; auto].
    exists c. split; [|done]. destruct (fetch_live _ _ _ p Hinv Hne Hlive) as
      [(Hex & _)|(b' & f & _ & _ & _ & _ & _ & _ & [Hpin|Hnf])].
    + by rewrite (bind_Ret _ _ _ _ _ (on_pool_eq _ _ _ _ Hex)), machine_eta.
    + apply (rel_pinned _ _ _ Hr) in Hpin as [? ?]. congruence.
    + destruct Hnf. by apply Hfull.
  - destruct (decide (al_num (st_alloc s) ≤ p)) as [Hout|]; [|done].
    rewrite <- (c_num _ _ _ (pi_core _ _ _ Hinv)) in Hout.
    destruct (fetch_out _ _ _ p Hinv Hout Hne) as
      [(Hex & Hnf)|(b' & Hex & Hinv' & _ & Hpins & Hkept & Hfl & Hnf)].
    + assert (st_full s = true) as -> by by apply Hfull. intros [= <- <-]. exists c.
      by rewrite (bind_Ret _ _ _ _ _ (on_pool_eq _ _ _ _ Hex)), machine_eta.
    + destruct (st_full s) eqn:Hst; [by destruct Hnf; apply Hfull|]. intros [= <- <-].
      eexists. rewrite (bind_Throw _ _ _ _ _ (on_pool_eq _ _ _ _ Hex)). split; [done|].
      pose proof (sr_frames _ _ Hr). split; cbn; try apply Hr; [done|..|lia|].
      * intros q. rewrite Hpins. apply Hr.
      * intros q Hq. rewrite Hkept; [by apply Hr|]. by apply (rel_pinned _ _ _ Hr).
Qed.

Lemma fresh_legal a p a' : fresh_page a = Some (p, a') → legal a OpAlloc.
Proof. unfold fresh_page, legal. destruct (al_free a); [|by left]. case_decide; [by right|done]. Qed.
Lemma fresh_new_page a p q a' a'' : fresh_page a = Some (p, a') → new_page a q a'' →
  q = p ∧ a'' = a'.
Proof.
  unfold fresh_page. intros Hf Hn. destruct Hn as [q l Hl _|Hl Hlt _]; rewrite Hl in Hf;
    [|rewrite decide_True in Hf by done]; by simplify_eq.
Qed.

Lemma sim_new : sim New.
Proof.
  intros c s o s' Hr. cbn [store_step exec_call].
  destruct (fresh_page (st_alloc s)) as [[p a']|] eqn:Hfp; [|done].
  pose proof (sr_inv _ _ Hr) as Hinv. pose proof (rel_full c s Hr) as Hfull.
  destruct (NewPage_spec _ _ _ Hinv (fresh_legal _ _ _ Hfp)) as
    [(Hex & Hnf)|(b' & f & q & a'' & Hex & Hnp & Hinv' & Hp & Hz & Hk & Hpin & Hfl & Hnf)].
  - assert (st_full s = true) as -> by by apply Hfull. intros [= <- <-]. exists c.
    by rewrite (bind_Ret _ _ _ _ _ (on_pool_eq _ _ _ _ Hex)), machine_eta.
  - destruct (st_full s) eqn:Hst; [by destruct Hnf; apply Hfull|]. intros [= <- <-].
    destruct (fresh_new_page _ _ _ _ _ Hfp Hnp) as [-> ->].
    eexists. rewrite (bind_Ret _ _ _ _ _ (on_pool_eq _ _ _ _ Hex)). split; [done|].
    apply (rel_load c s p 1 f b' _ _ Hr Hinv' Hp Hk Hpin ltac:(lia) Hfl).
Qed.

(** A call that returns the pool to its clients with the same pages pinned. *)
Lemma rel_same_pins c s b' a' W' : store_rel c s → pool_inv b' a' W' →
  (∀ q, pin_of b' q = pin_of (ma_pool c) q) →
  (∀ q, 0 < pin_of (ma_pool c) q → page_table_ b' !! q = page_table_ (ma_pool c) !! q) →
  frames_left b' = frames_left (ma_pool c) →
  store_rel (mkMachine b' (ma_ptrs c)) (mkStore a' W' (st_pins s) (st_frames s)).
Proof.
  intros Hr Hinv Hpins Hk Hfl. split; cbn; try apply Hr; [done|..].
  - intros q. rewrite Hpins. apply Hr.
  - rewrite Hfl. apply Hr.
  - intros q Hq. rewrite Hk; [by apply Hr|]. by apply (rel_pinned _ _ _ Hr).
Qed.

Lemma sim_unpin p d : sim (Unpin p d).
Proof.
  intros c s o s' Hr. cbn [store_step exec_call]. pose proof (sr_inv _ _ Hr) as Hinv.
  destruct (st_pins s !! p) as [n|] eqn:Hp.
  - case_decide as Hd; [|done]. intros [= <- <-].
    destruct (rel_pin _ _ _ _ Hr Hp) as [Hpin Hpos]. rewrite <- Hpin in Hd, Hpos.
    destruct (unpin_ok _ _ _ p d Hinv Hpos Hd) as (b' & Hex & Hinv' & Ht & Ho & Hp' & Hfl).
    eexists. rewrite (on_pool_eq _ _ _ _ Hex). split; [done|]. split; cbn; [done|..].
    + intros q. destruct (decide (n = 1)).
      * rewrite lookup_delete. case_decide; [subst; cbn; lia|]. rewrite Ho by done. apply Hr.
      * rewrite lookup_insert. case_decide; [subst; cbn; lia|]. rewrite Ho by done. apply Hr.
    + intros q m. destruct (decide (n = 1)).
      * rewrite lookup_delete. case_decide; [done|]. apply (sr_pos _ _ Hr).
      * rewrite lookup_insert. case_decide; [naive_solver lia|]. apply (sr_pos _ _ Hr).
    + rewrite Hfl. apply Hr.
    + intros q Hq. rewrite Ht. apply (sr_ptrs _ _ Hr). destruct (decide (q = p)) as [->|]; [by eauto|].
      destruct (decide (n = 1)); [by rewrite lookup_delete_ne in Hq|by rewrite lookup_insert_ne in Hq].
  - intros [= <- <-]. exists c. split; [|done]. rewrite <- (machine_eta c) at 2. apply on_pool_eq.
    apply (unpin_fail _ _ _ _ _ (pi_core _ _ _ Hinv)). by apply (rel_unpinned _ _ _ Hr).
Qed.

Lemma sim_delete p : sim (Delete p).
Proof.
  intros c s o s' Hr. cbn [store_step exec_call]. pose proof (sr_inv _ _ Hr) as Hinv.
  destruct (st_pins s !! p) as [n|] eqn:Hp.
  - intros [= <- <-]. exists c. split; [|done]. rewrite <- (machine_eta c) at 2. apply on_pool_eq.
    apply (delete_pinned _ _ _ _ (pi_core _ _ _ Hinv)). apply (rel_pinned _ _ _ Hr). by eauto.
  - apply (rel_unpinned _ _ _ Hr) in Hp. destruct (decide (is_Some _)) as [Hlive|Hdead].
    + intros [= <- <-]. destruct (page_table_ (ma_pool c) !! p) as [f|] eqn:Hf.
      * destruct (delete_cached _ _ _ p f Hinv Hf Hp) as (b' & Hex & Hinv' & Ht & Hpins & Hfl).
        eexists. rewrite (on_pool_eq _ _ _ _ Hex). split; [done|].
        apply rel_same_pins; try done. intros q Hq. rewrite Ht, lookup_delete_ne; [done|].
        intros ->. lia.
      * destruct (delete_uncached _ _ _ p Hinv Hf Hlive) as (b' & Hex & Hinv' & Ht & Hpins & Hfl).
        eexists. rewrite (on_pool_eq _ _ _ _ Hex). split; [done|].
        apply rel_same_pins; try done. intros q Hq. by rewrite Ht.
    + case_decide as Hg; [|done]. intros [= <- <-]. exists c. split; [|done].
      rewrite <- (machine_eta c) at 2. apply on_pool_eq. pose proof (pi_core _ _ _ Hinv) as Hc.
      apply delete_guard; [|by rewrite (c_num _ _ _ Hc)].
      apply eq_None_not_Some. intros [f Hf]. apply Hdead, (c_live _ _ _ Hc).
      rewrite <- (c_num _ _ _ Hc). by eapply cached_live.
Qed.

Lemma sim_flush_all : sim FlushAll.
Proof.
  intros c s o s' Hr [= <- <-]. destruct (flush_all_eq _ _ _ (sr_inv _ _ Hr)) as
    (b' & Hex & Hinv' & Hsm & Hfl & _).
  eexists. cbn [exec_call]. rewrite (on_pool_eq _ _ _ _ Hex). split; [done|]. 
  replace s with (mkStore (st_alloc s) (st_unflagged s) (st_pins s) (st_frames s)) by by destruct s.
  apply rel_same_pins; try done; [apply Hsm|]. intros q _. by rewrite (sm_table _ _ Hsm).
Qed.

Lemma ptr_eq c p f : ma_ptrs c !! p = Some f → ptr p c = (c, Ret f).
Proof. intros Hp. unfold ptr. msimpl. by rewrite Hp. Qed.

Lemma sim_read p : sim (Read p).
Proof.
  intros c s o s' Hr. cbn [store_step exec_call]. destruct (st_pins s !! p) as [n|] eqn:Hp; [|done].
  destruct (st_live s !! p) as [d|] eqn:Hd; [|done]. intros [= <- <-]. exists c. split; [|done].
  destruct (rel_cached _ _ p Hr) as (f & Hf & Hptr); [by eauto|].
  rewrite (bind_Ret _ _ _ _ _ (ptr_eq _ _ _ Hptr)).
  destruct (get_data_eq _ _ _ p f (pi_core _ _ _ (sr_inv _ _ Hr)) Hf) as (d' & Hex & Hd').
  rewrite (on_pool_eq _ _ _ _ Hex), machine_eta. unfold st_live in Hd. congruence.
Qed.

Lemma sim_write p d : sim (Write p d).
Proof.
  intros c s o s' Hr. cbn [store_step exec_call]. destruct (st_pins s !! p) as [n|] eqn:Hp; [|done].
  case_decide as Hz; [|done]. intros [= <- <-].
  destruct (rel_cached _ _ p Hr) as (f & Hf & Hptr); [by eauto|].
  rewrite (bind_Ret _ _ _ _ _ (ptr_eq _ _ _ Hptr)).
  destruct (write_data_eq _ _ _ p f d (sr_inv _ _ Hr) Hf) as (b' & Hex & Hinv' & Ht & Hpins & Hfl);
    [apply (rel_pinned _ _ _ Hr); by eauto|done|].
  eexists. rewrite (on_pool_eq _ _ _ _ Hex). split; [done|].
  apply rel_same_pins; try done. intros q _. by rewrite Ht.
Qed.

Lemma sim_call {X} (op : pool_op X) : sim op.
Proof.
  destruct op; [apply sim_fetch|apply sim_unpin|apply sim_new|apply sim_delete|
    apply sim_flush_all|apply sim_read|apply sim_write].
Qed.

Lemma sim_prog {A} (m : prog A) c s o s' : store_rel c s → run_store m s = Some (o, s') →
  ∃ c', run_pool m c = (c', o) ∧ store_rel c' s'.
Proof.
  revert c s. induction m as [a|e| |X op k IH]; intros c s Hr; cbn [run_store run_pool].
  1-3: intros [= <- <-]; by exists c.
  destruct (store_step op s) as [[r s1]|] eqn:Hs; [|done].
  destruct (sim_call op c s r s1 Hr Hs) as (c1 & Hex & Hr1). msimpl. rewrite Hex.
  destruct r as [x|e|]; [by apply IH|intros [= <- <-]; by exists c1..].
Qed.

(** *** The pool right after its construction *)
Definition new_machine (n : Z) (dm : DiskManager) (r : R) : machine :=
  mkMachine (BufferPoolManager_new n dm r) ∅.
Definition new_store (n : Z) (a : alloc_state) : store := mkStore a ∅ ∅ n.

Lemma new_machine_rel n dm r a : 0 ≤ n → disk_rel dm a →
  rep_wf r → rep_cap r = n → rep_set r = ∅ →
  store_rel (new_machine n dm r) (new_store n a).
Proof.
  intros Hn Hdr Hwf Hcap Hset. split; cbn; [split| | | |]; try done.
  - split; cbn; try apply Hdr; try set_solver.
    + intros p d Hp. destruct (disk_rel_live _ _ p Hdr) as [Hr _]; [by eauto|].
      rewrite <- (rel_data _ _ Hdr _ _ Hp). eapply zlen_page_data; [apply Hdr|lia].
    + rewrite length_replicate. lia.
    + intros p d Hp _. by apply (rel_data _ _ Hdr).
    + apply NoDup_seqZ.
  - split; cbn; [done..|]. intros f. rewrite Hset. split; [set_solver|].
    intros (p & Hp & _). by rewrite lookup_empty in Hp.
  - unfold frames_left. cbn. rewrite map_size_empty, length_seqZ. lia.
Qed.
End pool.
Arguments machine R : clear implicits.

(** A pool that represents a store has a well-formed allocator. *)
Lemma rel_alloc_ok {R} `{HR : Replacer R, !ReplacerLaws R} (c : machine R) s :
  store_rel c s → alloc_ok (st_alloc s).
Proof.
  intros Hr. pose proof (pi_core _ _ _ (sr_inv _ _ Hr)) as Hc. pose proof (c_wf _ _ _ Hc) as Hwf.
  split; [apply (c_live _ _ _ Hc)|apply (wf_nodup _ _ Hwf)| | |apply (c_zlen _ _ _ Hc)].
  - intros p Hp. rewrite <- (c_num _ _ _ Hc). by apply (dm_wf_free _ _ _ Hwf).
  - rewrite <- (c_num _ _ _ Hc). apply Hwf.
Qed.

(** The two policies of the code, freshly constructed. *)
Lemma clock_new_set n : rep_set (Clock.ClockReplacer_new n) = ∅.
Proof.
  apply set_eq. intros f. split; [|set_solver]. intros Hf. 
  change (f ∈ Clock.evictable (Clock.ClockReplacer_new n)) in Hf. apply Clock.elem_of_evictable in Hf.
  cbn in Hf. unfold zget in Hf. case_decide; [|done]. apply lookup_replicate in Hf as [? _]. done.
Qed.
Lemma lru_new_rel n dm a : 0 ≤ n → disk_rel dm a →
  store_rel (new_machine n dm (LRU.LRUReplacer_new n)) (new_store n a).
Proof. intros. apply new_machine_rel; try done. apply LRU.lru_wf_new. Qed.
Lemma clock_new_rel n dm a : 0 ≤ n → disk_rel dm a →
  store_rel (new_machine n dm (Clock.ClockReplacer_new n)) (new_store n a).
Proof. intros. apply new_machine_rel; try done; [by apply Clock.clock_wf_new|apply clock_new_set]. Qed.

Section leak.
Context {R : Type} `{HR : Replacer R} `{!ReplacerLaws R}.

(** A client that catches the exceptions of its fetches, as the service does. *)
Fixpoint fetch_caught (k : nat) (p : page_id_t) : M (machine R) unit :=
  match k with
  | O => mret tt
  | S k => _ ← try_catch (exec_call (Fetch p)) (λ _, mret false); fetch_caught k p
  end.

Lemma fetch_caught_rel k p (c : machine R) s : store_rel c s → st_pins s = ∅ →
  al_num (st_alloc s) ≤ p → p ≠ INVALID_PAGE_ID → st_live s !! p = None →
  Z.of_nat k ≤ st_frames s →
  ∃ c', fetch_caught k p c = (c', Ret tt) ∧
    store_rel c' (mkStore (st_alloc s) (st_unflagged s) ∅ (st_frames s - Z.of_nat k)).
Proof.
  revert c s. induction k as [|k IH]; intros c s Hr Hpins Hout Hne Hdead Hk.
  { exists c. split; [done|]. rewrite <- Hpins, Z.sub_0_r. by destruct s. }
  set (s1 := mkStore (st_alloc s) (st_unflagged s) (st_pins s) (st_frames s - 1)).
  destruct (sim_fetch p c s (Throw OutOfRange) s1 Hr) as (c1 & Hex & Hr1).
  { cbn. rewrite decide_False, Hpins, lookup_empty, Hdead by done.
    rewrite decide_False by (by intros [? ?]). rewrite decide_True by done.
    unfold st_full. rewrite Hpins, map_size_empty, bool_decide_false by lia.
    unfold s1. by rewrite Hpins. }
  destruct (IH c1 s1 Hr1 Hpins Hout Hne Hdead) as (c2 & Hex2 & Hr2); [unfold s1; cbn; lia|].
  exists c2. split.
  - change (fetch_caught (S k) p c) with
      ((try_catch (exec_call (Fetch p)) (λ _, mret false) ≫= λ _, fetch_caught k p) c).
    rewrite (bind_Ret _ _ c c1 false); [done|]. unfold try_catch. by rewrite Hex.
  - cbn in Hr2. replace (st_frames s - Z.of_nat (S k)) with (st_frames s - 1 - Z.of_nat k) by lia.
    done.
Qed.
End leak.

(** ** The file after a flush

    It holds every page, and each with its contents unless the page was written and
    never flagged as dirty. *)
Section flushed.
Context {R : Type} `{HR : Replacer R} `{!ReplacerLaws R}.

Lemma flushed_file (c : machine R) s : store_rel c s → alloc_ok (st_alloc s) →
  ∃ b a', FlushAllPages (ma_pool c) = (b, Ret tt) ∧ disk_rel (disk_manager_ b) a' ∧ alloc_ok a' ∧
    al_num a' = al_num (st_alloc s) ∧ al_free a' = al_free (st_alloc s) ∧
    ∀ p, p ∉ st_unflagged s → al_live a' !! p = st_live s !! p.
Proof.
  intros Hr Ha. destruct (flush_all_eq _ _ _ (sr_inv _ _ Hr)) as (b & Hex & [Hc _] & _ & _ & Hd).
  set (a := st_alloc s) in *. set (f := λ p (_ : list byte), Some (page_data (disk_manager_ b) p)).
  assert (Hlive : ∀ p, map_imap f (al_live a) !! p = al_live a !! p ≫= f p) by (intros p; apply map_lookup_imap).
  assert (Hdom : ∀ p, is_Some (map_imap f (al_live a) !! p) ↔ is_Some (al_live a !! p)).
  { intros p. rewrite Hlive. by destruct (al_live a !! p). }
  exists b, (mkAlloc (al_num a) (al_free a) (map_imap f (al_live a))). split_and!; try done.
  - split; cbn [al_num al_free al_live]; [apply Hc|apply Hc|..].
    + intros p. rewrite Hdom. apply Hc.
    + intros p d. rewrite Hlive. by destruct (al_live a !! p) as [?|]; [intros [= <-]|].
  - split; cbn [al_num al_free al_live]; [|apply Ha..|].
    + intros p. rewrite Hdom. apply Ha.
    + intros p d. rewrite Hlive. destruct (al_live a !! p) as [d'|] eqn:Hp; [|done]. intros [= <-].
      apply (zlen_page_data _ (al_free a)); [apply Hc|]. rewrite (c_num _ _ _ Hc).
      destruct (proj1 (ao_live _ Ha p)) as [? _]; [by eauto|lia].
  - intros p Hp. cbn [al_live]. rewrite Hlive. unfold st_live. fold a.
    destruct (al_live a !! p) as [d|] eqn:Hl; [|done]. specialize (Hd p Hp). rewrite Hl in Hd. cbn. symmetry. by apply Hd; eauto.
Qed.
End flushed.

(** ** Properties *)
Section properties.
Context {R : Type} `{HR : Replacer R} `{!ReplacerLaws R}.

(** C1 (refinement). The buffer pool, with any replacement policy that satisfies
    the laws, refines the abstract page store: every client program that keeps
    the discipline of the store (it names allocated pages, dereferences pinned
    pointers only, and unpins as dirty what it wrote) gets from the pool exactly
    the results it gets from the store - the data last written to each page,
    null pointers only when every frame holds a pinned page, the exceptions of
    ids out of range - whatever was evicted, written back and read again in
    between, and the pool still represents the store afterwards. *)
Theorem pool_refines_store {A} (m : prog A) (c : machine R) s o s' :
  store_rel c s → run_store m s = Some (o, s') →
  ∃ c', run_pool m c = (c', o) ∧ store_rel c' s'.
Proof. apply sim_prog. Qed.

(** C5 (safety). Durability across a restart: once every written page has been
    unpinned as dirty, [FlushAllPages] (also run by the destructor) makes the
    database file alone hold the whole store, so that opening the file again, where
    the operating system lets it be opened, and building a new pool of any size and policy on it gives a pool that represents the
    same pages with the same contents and no pins. *)
Theorem flush_restart_durable {R' : Type} `{HR' : Replacer R', !ReplacerLaws R'}
    (c : machine R) s n (r : R') ac :
  store_rel c s → st_unflagged s = ∅ →
  0 ≤ n → rep_wf r → rep_cap r = n → rep_set r = ∅ → can_open ac = true →
  ∃ b dm, FlushAllPages (ma_pool c) = (b, Ret tt) ∧
    DiskManager_new (Some (db_file (disk_manager_ b))) ac = (dm, Ret tt) ∧
    store_rel (new_machine n dm r) (new_store n (st_alloc s)).
Proof.
  intros Hr HW Hn Hwf Hcap Hset Hac.
  destruct (flush_all_eq _ _ _ (sr_inv _ _ Hr)) as (b & Hex & [Hc _] & _ & _ & Hd).
  exists b. eexists. split; [done|]. split; [by eapply reopen_eq; [eapply c_wf|]|].
  apply new_machine_rel; try done. split; cbn; [eapply c_wf, Hc|apply Hc|apply Hc|].
  intros p d Hp. specialize (Hd p). rewrite HW, Hp in Hd.
  specialize (Hd ltac:(set_solver) ltac:(eauto)). congruence.
Qed.

(** [FetchPage] takes a frame before it reads the disk and does not
    give it back when the read throws: on a pool with no pinned page, as many
    caught fetches of an id beyond the end of the file as there are frames
    leave a pool whose [FetchPage] returns the null pointer for every
    allocated page. *)
Theorem fetch_throw_exhausts_pool (c : machine R) s p q :
  store_rel c s → st_pins s = ∅ → al_num (st_alloc s) ≤ p → p ≠ INVALID_PAGE_ID →
  is_Some (st_live s !! q) →
  ∃ c', fetch_caught (Z.to_nat (st_frames s)) p c = (c', Ret tt) ∧
    run_pool (call (Fetch q)) c' = (c', Ret false).
Proof.
  intros Hr Hpins Hout Hne Hq.
  pose proof (pi_core _ _ _ (sr_inv _ _ Hr)) as Hc.
  assert (Hf0 : 0 ≤ st_frames s).
  { rewrite <- (sr_frames _ _ Hr). unfold frames_left. lia. }
  assert (Hdead : st_live s !! p = None).
  { apply eq_None_not_Some. intros Hs. apply (c_live _ _ _ Hc) in Hs. lia. }
  destruct (fetch_caught_rel (Z.to_nat (st_frames s)) p c s Hr Hpins Hout Hne Hdead) as (c' & Hex & Hr').
  { lia. }
  exists c'. split; [done|]. rewrite Z2Nat.id, Z.sub_diag in Hr' by done.
  destruct (fetch_live _ _ _ q (sr_inv _ _ Hr')) as
    [(Hex' & _)|(b' & f & _ & _ & _ & _ & _ & _ & Hor)].
  - intros ->. apply (c_live _ _ _ Hc) in Hq as [Hq _].
    rewrite <- (c_num _ _ _ Hc) in Hq. pose proof (wf_num _ _ (c_wf _ _ _ Hc)). lia.
  - done.
  - cbn. msimpl. by rewrite (on_pool_eq _ _ _ _ Hex'), machine_eta.
  - exfalso. destruct Hor as [Hpin|Hnf].
    + apply (rel_pinned _ _ _ Hr') in Hpin as [? Hpin]. cbn in Hpin; by rewrite lookup_empty in Hpin.
    + apply Hnf, (rel_full _ _ Hr'). done.
Qed.
End properties.

(** C33 (equivalence). The choice of the replacement policy is unobservable: on the
    same database, the pool over the LRU list and the pool over the clock give
    every disciplined program the same result, the one the store gives. *)
Theorem policy_unobservable {A} (m : prog A) n dm a o s' :
  0 ≤ n → disk_rel dm a → run_store m (new_store n a) = Some (o, s') →
  (run_pool m (new_machine n dm (LRU.LRUReplacer_new n))).2 = o ∧
  (run_pool m (new_machine n dm (Clock.ClockReplacer_new n))).2 = o.
Proof.
  intros Hn Hdr Hrun. pose proof (lru_new_rel n dm a Hn Hdr) as H1.
  pose proof (clock_new_rel n dm a Hn Hdr) as H2.
  destruct (sim_prog _ _ _ _ _ H1 Hrun) as (? & -> & _).
  destruct (sim_prog _ _ _ _ _ H2 Hrun) as (? & -> & _). done.
Qed.

(** *** Witnesses: two pages written through a pool of one frame, so that the
    first is evicted, written back and read again. *)
Definition page_of (b : byte) : list byte := splice 0 [b; b; b] zero_page.
Definition sample_prog : prog (option (list byte)) :=
  o1 ← call New;
  match o1 with
  | None => mret None
  | Some p =>
      _ ← call (Write p (page_of Byte.x41)); _ ← call (Unpin p true);
      o2 ← call New;
      match o2 with
      | None => mret None
      | Some q =>
          _ ← call (Write q (page_of Byte.x42)); _ ← call (Unpin q true);
          ok ← call (Fetch p);
          if (ok : bool) then d ← call (Read p); _ ← call (Unpin p false); mret (Some d)
          else mret None
      end
  end.
Definition empty_alloc : alloc_state := mkAlloc 1 [] ∅.
Lemma empty_alloc_ok : alloc_ok empty_alloc.
Proof. apply (rel_alloc_ok _ _ (lru_new_rel 4 new_db empty_alloc ltac:(lia) new_db_rel)). Qed.
Definition sample_store : store :=
  match run_store sample_prog (new_store 1 empty_alloc) with Some (_, s) => s | None => new_store 1 empty_alloc end.
Definition sample_machine : machine LRU.LRUReplacer :=
  (run_pool sample_prog (new_machine 1 new_db (LRU.LRUReplacer_new 1))).1.
Lemma sample_run :
  run_store sample_prog (new_store 1 empty_alloc) = Some (Ret (Some (page_of Byte.x41)), sample_store).
Proof. vm_compute. reflexivity. Qed.
Lemma sample_rel : store_rel sample_machine sample_store.
Proof.
  destruct (sim_prog _ _ _ _ _ (lru_new_rel 1 new_db empty_alloc ltac:(lia) new_db_rel) sample_run)
    as (c' & Hex & Hr). unfold sample_machine. by rewrite Hex.
Qed.

Lemma pool_refines_store_witness :
  ∃ c', run_pool sample_prog (new_machine 1 new_db (LRU.LRUReplacer_new 1)) =
      (c', Ret (Some (page_of Byte.x41))) ∧ store_rel c' sample_store.
Proof.
  apply (pool_refines_store sample_prog _ (new_store 1 empty_alloc)).
  - apply lru_new_rel; [lia|apply new_db_rel].
  - apply sample_run.
Defined.
Lemma policy_unobservable_witness :
  (run_pool sample_prog (new_machine 1 new_db (LRU.LRUReplacer_new 1))).2 =
    Ret (Some (page_of Byte.x41)) ∧
  (run_pool sample_prog (new_machine 1 new_db (Clock.ClockReplacer_new 1))).2 =
    Ret (Some (page_of Byte.x41)).
Proof.
  apply (policy_unobservable sample_prog 1 new_db empty_alloc _ sample_store);
    [lia|apply new_db_rel|apply sample_run].
Defined.
Lemma flush_restart_durable_witness :
  ∃ b dm, FlushAllPages (ma_pool sample_machine) = (b, Ret tt) ∧
    DiskManager_new (Some (db_file (disk_manager_ b))) full_access = (dm, Ret tt) ∧
    store_rel (new_machine 4 dm (Clock.ClockReplacer_new 4)) (new_store 4 (st_alloc sample_store)).
Proof.
  apply (flush_restart_durable sample_machine sample_store); [apply sample_rel| |lia|..].
  - vm_compute. reflexivity.
  - apply Clock.clock_wf_new. lia.
  - reflexivity.
  - apply clock_new_set.
  - exact (eq_refl : can_open full_access = true).
Defined.
Lemma fetch_throw_exhausts_pool_witness :
  ∃ c', fetch_caught (Z.to_nat (st_frames sample_store)) 9 sample_machine = (c', Ret tt) ∧
    run_pool (call (Fetch 1)) c' = (c', Ret false).
Proof.
  apply (fetch_throw_exhausts_pool sample_machine sample_store);
    [apply sample_rel|vm_compute; reflexivity|vm_compute; discriminate|done|].
  eexists. vm_compute. reflexivity.
Defined.
