(* ===== verification/Latches.v ===== *)
(** The locks of the engine ([latch_] of the buffer pool and of the replacers,
    [db_io_lck_] of the disk manager, the log mutex of [logger.hpp]): which mutexes
    a call takes, in which order, and why threads that call the engine at the same
    time never wait for each other for ever. *)
From Stdlib Require Import ZArith Lia.
From Stdlib Require Strings.Byte.
From stdpp Require Import base list gmap relations sorting.
From S2P Require Import Prelude Types DiskManager Replacer BufferPool PageStore.
Open Scope Z_scope.

(** ** Calls that take locks

    An operation on the state [S] that also tells the locks it takes and gives
    back, in order. *)
Inductive mutex := PoolLatch | ReplacerLatch | DiskLock | LogMutex.
#[export] Instance mutex_eq_dec : EqDecision mutex.
Proof. solve_decision. Defined.
Definition mutex_num (x : mutex) : nat :=
  match x with PoolLatch => 0 | ReplacerLatch => 1 | DiskLock => 2 | LogMutex => 3 end.
Definition num_mutex (k : nat) : mutex :=
  match k with 0 => PoolLatch | 1 => ReplacerLatch | 2 => DiskLock | _ => LogMutex end%nat.
#[export] Instance mutex_countable : Countable mutex.
Proof. apply (inj_countable' mutex_num num_mutex). by intros []. Defined.

Inductive event := Acq (x : mutex) | Rel (x : mutex).
Definition L (S A : Type) : Type := S → S * outcome A * list event.

#[export] Instance L_ret {S} : MRet (L S) := λ A a s, (s, Ret a, []).
#[export] Instance L_bind {S} : MBind (L S) := λ A B f m s,
  match m s with
  | (s', Ret a, es) => let '(r, es') := f a s' in (r, es ++ es')
  | (s', Throw e, es) => (s', Throw e, es)
  | (s', UB, es) => (s', UB, es)
  end.
(** Code that takes no lock. *)
Definition lift {S A} (m : M S A) : L S A := λ s, (m s, []).
(** The scope of a [LockGuard], left with a result or an exception. *)
Definition under {S A} (x : mutex) (m : L S A) : L S A := λ s,
  let '(r, es) := m s in (r, Acq x :: es ++ [Rel x]).
Definition zoom_locked {S T A} (get : S → T) (put : T → S → S) (m : L T A) : L S A := λ s,
  let '(t, o, es) := m (get s) in (put t s, o, es).

(** [Log] of [logger.hpp], whatever the line. *)
Definition log {S} : L S unit := under LogMutex (mret tt).

(** *** The disk manager *)
Definition ReadPage_locked (page_id : page_id_t) : L DiskManager (list byte) :=
  under DiskLock (
    n ← lift (gets num_pages_);
    if decide (n ≤ page_id) then _ ← log; lift (throw OutOfRange) else
    r ← lift (stream_read (page_off page_id) PAGE_SIZE);
    match r with Some b => mret b | None => _ ← log; mret zero_page end).
Definition WritePage_locked (page_id : page_id_t) (data : list byte) : L DiskManager unit :=
  under DiskLock (
    n ← lift (gets num_pages_);
    if decide (n ≤ page_id) then _ ← log; lift (throw OutOfRange) else
    lift (stream_write (page_off page_id) data)).
Definition AllocatePage_locked : L DiskManager page_id_t :=
  under DiskLock (
    head ← lift (gets free_list_head_);
    if decide (head ≠ INVALID_PAGE_ID) then
      let allocated_id := head in
      r ← lift (stream_read (page_off allocated_id) 4);
      match r with
      | None => _ ← log; lift (throw RuntimeError)
      | Some b =>
          _ ← lift (modify (set_free_list_head (le_decode b)));
          _ ← lift WriteMetadata;
          _ ← log;
          mret allocated_id
      end
    else
      allocated_id ← lift (gets num_pages_);
      _ ← lift (modify (set_num_pages (u32 (allocated_id + 1))));
      _ ← lift WriteMetadata;
      _ ← lift (stream_write (page_off allocated_id) zero_page);
      _ ← log;
      mret allocated_id).
Definition DeallocatePage_locked (page_id : page_id_t) : L DiskManager unit :=
  under DiskLock (
    n ← lift (gets num_pages_);
    if decide (n ≤ page_id ∨ page_id = 0) then log else
    head ← lift (gets free_list_head_);
    let page_data := splice 0 (le_encode 4 head) zero_page in
    _ ← lift (stream_write (page_off page_id) page_data);
    _ ← lift (modify (set_free_list_head page_id));
    _ ← lift WriteMetadata;
    log).
Definition Close_locked : L DiskManager unit :=
  under DiskLock (
    o ← lift (gets db_is_open);
    if (o : bool) then _ ← lift Close; log else mret tt).

(** *** The buffer pool *)
Section pool.
Context {R : Type} `{HR : Replacer R}.
Abbreviation Pool := (BufferPoolManager R).
Abbreviation LP := (L Pool).

Definition on_disk_locked {A} (m : L DiskManager A) : LP A := zoom_locked disk_manager_ set_disk m.
(** Both replacers hold their latch in each of their methods. *)
Definition replacer_pin_locked (f : frame_id_t) : LP unit := under ReplacerLatch (lift (replacer_pin f)).
Definition replacer_unpin_locked (f : frame_id_t) : LP unit := under ReplacerLatch (lift (replacer_unpin f)).
Definition victim_locked : LP (option frame_id_t) :=
  under ReplacerLatch (lift (
    v ← gets (λ b, Victim (replacer_ b));
    let '(o, r') := v in
    _ ← modify (set_replacer r');
    mret o)).

Definition flush_frame_locked (f : frame_id_t) : LP unit :=
  page ← lift (get_page f);
  if is_dirty_ page then
    _ ← on_disk_locked (WritePage_locked (page_id_ page) (data_ page));
    _ ← lift (upd_page f (SetDirty false));
    log
  else mret ().
Definition select_frame_locked : LP (option frame_id_t) :=
  fl ← lift (gets free_list_);
  match fl with
  | f :: fl' => _ ← lift (modify (set_free fl')); _ ← log; mret (Some f)
  | [] =>
      o ← victim_locked;
      match o with
      | None => _ ← log; mret None
      | Some f =>
          victim_page ← lift (get_page f);
          let victim_page_id := page_id_ victim_page in
          _ ← log;
          _ ← flush_frame_locked f;
          _ ← lift (modify (λ b, set_table (delete victim_page_id (page_table_ b)) b));
          mret (Some f)
      end
  end.

Definition FetchPage_locked (page_id : page_id_t) : LP (option frame_id_t) :=
  under PoolLatch (
    if decide (page_id = INVALID_PAGE_ID) then mret None else
    t ← lift (gets page_table_);
    match t !! page_id with
    | Some f =>
        _ ← lift (upd_page f (add_pin 1));
        _ ← replacer_pin_locked f;
        _ ← log;
        mret (Some f)
    | None =>
        o ← select_frame_locked;
        match o with
        | None => mret None
        | Some f =>
            _ ← lift (put_page f (mkPage zero_page page_id 1 false));
            d ← on_disk_locked (ReadPage_locked page_id);
            _ ← lift (upd_page f (set_data d));
            _ ← lift (modify (λ b, set_table (<[page_id := f]> (page_table_ b)) b));
            _ ← replacer_pin_locked f;
            mret (Some f)
        end
    end).
Definition UnpinPage_locked (page_id : page_id_t) (is_dirty : bool) : LP bool :=
  under PoolLatch (
    t ← lift (gets page_table_);
    match t !! page_id with
    | None => mret false
    | Some f =>
        page ← lift (get_page f);
        if decide (pin_count_ page ≤ 0) then mret false else
        _ ← lift (if is_dirty then upd_page f (SetDirty true) else mret ());
        _ ← lift (upd_page f (add_pin (-1)));
        page ← lift (get_page f);
        _ ← (if decide (pin_count_ page = 0) then _ ← replacer_unpin_locked f; log else mret ());
        mret true
    end).
Definition FlushPage_locked (page_id : page_id_t) : LP bool :=
  under PoolLatch (
    t ← lift (gets page_table_);
    match t !! page_id with
    | None => mret false
    | Some f => _ ← flush_frame_locked f; mret true
    end).
Definition NewPage_locked : LP (page_id_t * option frame_id_t) :=
  under PoolLatch (
    o ← select_frame_locked;
    match o with
    | None => mret (INVALID_PAGE_ID, None)
    | Some f =>
        page_id ← on_disk_locked AllocatePage_locked;
        _ ← log;
        _ ← lift (put_page f (mkPage zero_page page_id 1 false));
        _ ← lift (modify (λ b, set_table (<[page_id := f]> (page_table_ b)) b));
        _ ← replacer_pin_locked f;
        mret (page_id, Some f)
    end).
Definition DeletePage_locked (page_id : page_id_t) : LP bool :=
  under PoolLatch (
    t ← lift (gets page_table_);
    match t !! page_id with
    | None => _ ← on_disk_locked (DeallocatePage_locked page_id); _ ← log; mret true
    | Some f =>
        page ← lift (get_page f);
        if decide (0 < pin_count_ page) then _ ← log; mret false else
        _ ← replacer_pin_locked f;
        _ ← lift (modify (λ b, set_table (delete page_id (page_table_ b)) b));
        _ ← lift (put_page f reset_page);
        _ ← lift (modify (λ b, set_free (free_list_ b ++ [f]) b));
        _ ← on_disk_locked (DeallocatePage_locked page_id);
        _ ← log;
        mret true
    end).
Fixpoint flush_frames_locked (fs : list frame_id_t) : LP unit :=
  match fs with
  | [] => mret ()
  | f :: fs => _ ← flush_frame_locked f; flush_frames_locked fs
  end.
Definition FlushAllPages_locked : LP unit :=
  under PoolLatch (
    _ ← log;
    t ← lift (gets page_table_);
    flush_frames_locked (map_to_list t).*2).

(** The calls of a client, and the methods that only look at the table. *)
Definition on_pool_locked {A} (m : LP A) : L (machine R) A :=
  zoom_locked ma_pool (λ b c, mkMachine b (ma_ptrs c)) m.
Definition exec_locked {X} (op : pool_op X) : L (machine R) X :=
  match op in pool_op X return L (machine R) X with
  | Fetch p =>
      o ← on_pool_locked (FetchPage_locked p);
      match o with None => mret false | Some f => _ ← lift (keep_ptr p f); mret true end
  | Unpin p d => on_pool_locked (UnpinPage_locked p d)
  | New =>
      '(p, o) ← on_pool_locked NewPage_locked;
      match o with None => mret None | Some f => _ ← lift (keep_ptr p f); mret (Some p) end
  | Delete p => on_pool_locked (DeletePage_locked p)
  | FlushAll => on_pool_locked FlushAllPages_locked
  | Read p => lift (f ← ptr p; on_pool (GetData f))
  | Write p d => lift (f ← ptr p; on_pool (WriteData f d))
  end.
Definition GetPinCount_locked (page_id : page_id_t) : LP Z := under PoolLatch (lift (GetPinCount page_id)).
Definition IsCached_locked (page_id : page_id_t) : LP bool := under PoolLatch (lift (IsCached page_id)).
End pool.

(** ** The locks change nothing else

    Without its events, each operation is the one of the other files. *)
Definition erases {S A} (m : L S A) (m0 : M S A) : Prop := ∀ s, (m s).1 = m0 s.
Create HintDb latch.

Lemma erases_ret {S A} (a : A) : @erases S A (mret a) (mret a).
Proof. done. Qed.
Lemma erases_lift {S A} (m : M S A) : erases (lift m) m.
Proof. done. Qed.
Lemma erases_bind {S A B} (m : L S A) m0 (f : A → L S B) f0 : erases m m0 → (∀ a, erases (f a) (f0 a)) →
  erases (m ≫= f) (m0 ≫= f0).
Proof.
  intros Hm Hf s. unfold mbind, L_bind, M_bind. rewrite <- (Hm s). destruct (m s) as [[s' [a|e|]] es]; try done.
  cbn. rewrite <- (Hf a s'). by destruct (f a s').
Qed.
Lemma erases_under {S A} x (m : L S A) m0 : erases m m0 → erases (under x m) m0.
Proof. intros Hm s. unfold under. rewrite <- (Hm s). by destruct (m s). Qed.
Lemma erases_log {S} : @erases S unit log (mret tt).
Proof. by apply erases_under. Qed.
Lemma erases_zoom {S T A} get put (m : L T A) m0 : erases m m0 → erases (@zoom_locked S T A get put m) (zoom get put m0).
Proof. intros Hm s. unfold zoom_locked, zoom. rewrite <- (Hm (get s)). by destruct (m (get s)) as [[t o] es]. Qed.
(** A log line before the rest, or at the end. *)
Lemma erases_logged {S A} (m : L S A) m0 : erases m m0 → erases (_ ← log; m) m0.
Proof.
  intros Hm s. rewrite <- (Hm s). unfold mbind, L_bind, log, under, mret, L_ret. cbn. by destruct (m s).
Qed.
Lemma erases_log_last {S} (m : L S unit) m0 : erases m m0 → erases (_ ← m; log) m0.
Proof.
  intros Hm s. rewrite <- (Hm s). unfold mbind, L_bind, log, under, mret, L_ret.
  by destruct (m s) as [[s' [[]|e|]] es].
Qed.
#[export] Hint Resolve erases_ret erases_lift erases_under erases_log erases_zoom erases_logged : latch.

(** Through the operation, branch by branch. *)
Ltac erase_step :=
  match goal with
  | |- erases (under _ _) _ => apply erases_under
  | |- erases (mbind (λ _, ?k) log) _ => apply erases_logged
  | |- erases (mbind (λ _, log) ?m) _ => apply erases_log_last
  | |- erases (mbind _ _) (mbind _ _) => apply erases_bind; [|intros ?]
  | |- erases (match ?x with _ => _ end) _ => destruct x
  | |- erases (let _ := _ in _) _ => cbv zeta
  | |- _ => solve [auto with latch]
  end.
Ltac erase := repeat erase_step.

Lemma ReadPage_erases p : erases (ReadPage_locked p) (ReadPage p).
Proof. unfold ReadPage_locked, ReadPage. erase. Qed.
Lemma WritePage_erases p d : erases (WritePage_locked p d) (WritePage p d).
Proof. unfold WritePage_locked, WritePage. erase. Qed.
Lemma AllocatePage_erases : erases AllocatePage_locked AllocatePage.
Proof. unfold AllocatePage_locked, AllocatePage. erase. Qed.
Lemma DeallocatePage_erases p : erases (DeallocatePage_locked p) (DeallocatePage p).
Proof. unfold DeallocatePage_locked, DeallocatePage. erase. Qed.
Lemma Close_erases s : db_is_open s = true → (Close_locked s).1 = Close s.
Proof. intros Ho. unfold Close_locked, under, mbind, L_bind, lift, gets, mret. cbn. by rewrite Ho. Qed.
#[export] Hint Resolve ReadPage_erases WritePage_erases AllocatePage_erases DeallocatePage_erases : latch.

Section pool_erases.
Context {R : Type} `{HR : Replacer R}.
Implicit Types (b : BufferPoolManager R).

Lemma on_disk_erases {A} (m : L DiskManager A) m0 : erases m m0 → erases (on_disk_locked (R := R) m) (on_disk m0).
Proof. apply erases_zoom. Qed.
Lemma pin_erases f : erases (replacer_pin_locked (R := R) f) (replacer_pin f).
Proof. by apply erases_under. Qed.
Lemma unpin_erases f : erases (replacer_unpin_locked (R := R) f) (replacer_unpin f).
Proof. by apply erases_under. Qed.
#[local] Hint Resolve on_disk_erases pin_erases unpin_erases : latch.
Lemma flush_frame_erases f : erases (flush_frame_locked (R := R) f) (flush_frame f).
Proof. unfold flush_frame_locked, flush_frame. erase. Qed.
#[local] Hint Resolve flush_frame_erases : latch.
Lemma victim_erases {B} (k : option frame_id_t → L (BufferPoolManager R) B) k0 : (∀ o, erases (k o) (k0 o)) →
  erases (o ← victim_locked; k o)
    (v ← gets (λ b, Victim (replacer_ b)); let '(o, r') := v in _ ← modify (set_replacer r'); k0 o).
Proof.
  intros Hk b. unfold victim_locked, under, lift, mbind, L_bind, M_bind, gets, modify, mret, M_ret.
  destruct (Victim (replacer_ b)) as [o r']. rewrite <- (Hk o (set_replacer r' b)).
  by destruct (k o (set_replacer r' b)).
Qed.
Lemma select_frame_erases : erases (select_frame_locked (R := R)) select_frame.
Proof.
  unfold select_frame_locked, select_frame. apply erases_bind; [done|]. intros [|f fl]; [|erase].
  apply victim_erases. intros o. erase.
Qed.
#[local] Hint Resolve select_frame_erases : latch.

Lemma FetchPage_erases p : erases (FetchPage_locked (R := R) p) (FetchPage p).
Proof. unfold FetchPage_locked, FetchPage. erase. Qed.
Lemma UnpinPage_erases p d : erases (UnpinPage_locked (R := R) p d) (UnpinPage p d).
Proof. unfold UnpinPage_locked, UnpinPage. erase. Qed.
Lemma FlushPage_erases p : erases (FlushPage_locked (R := R) p) (FlushPage p).
Proof. unfold FlushPage_locked, FlushPage. erase. Qed.
Lemma NewPage_erases : erases (NewPage_locked (R := R)) NewPage.
Proof. unfold NewPage_locked, NewPage. erase. Qed.
Lemma DeletePage_erases p : erases (DeletePage_locked (R := R) p) (DeletePage p).
Proof. unfold DeletePage_locked, DeletePage. erase. Qed.
Lemma flush_frames_erases fs : erases (flush_frames_locked (R := R) fs) (flush_frames fs).
Proof. induction fs as [|f fs IH]; cbn [flush_frames_locked flush_frames]; erase. Qed.
#[local] Hint Resolve flush_frames_erases : latch.
Lemma FlushAllPages_erases : erases (FlushAllPages_locked (R := R)) FlushAllPages.
Proof. unfold FlushAllPages_locked, FlushAllPages. erase. Qed.
#[local] Hint Resolve FetchPage_erases UnpinPage_erases NewPage_erases DeletePage_erases FlushAllPages_erases : latch.
Lemma on_pool_erases {A} (m : L (BufferPoolManager R) A) m0 : erases m m0 → erases (on_pool_locked m) (on_pool m0).
Proof. apply erases_zoom. Qed.
#[local] Hint Resolve on_pool_erases : latch.
Lemma exec_erases {X} (op : pool_op X) : erases (exec_locked (R := R) op) (exec_call op).
Proof. destruct op; cbn [exec_locked exec_call]; erase. Qed.
End pool_erases.

(** ** Locks are taken in one order

    The pool's latch first, then the replacer's or the disk manager's, the log
    mutex last. Events in scopes, none of them for a mutex below [r]. *)
Definition rank (x : mutex) : nat :=
  match x with PoolLatch => 0 | ReplacerLatch | DiskLock => 1 | LogMutex => 2 end.
Inductive orderly : nat → list event → Prop :=
| orderly_nil r : orderly r []
| orderly_scope r x es es' : (r <= rank x)%nat → orderly (S (rank x)) es → orderly r es' →
    orderly r (Acq x :: es ++ Rel x :: es').

Lemma orderly_app r es es' : orderly r es → orderly r es' → orderly r (es ++ es').
Proof.
  induction 1 as [|r x es1 es2 Hr H1 _ H2 IH]; intros He; [done|]. cbn [app]. rewrite <- app_assoc. cbn [app].
  constructor; auto.
Qed.
Lemma orderly_weaken r r' es : (r' <= r)%nat → orderly r es → orderly r' es.
Proof. intros Hr. induction 1 as [|r x es1 es2 Hx H1 _ H2 IH]; constructor; auto with lia. Qed.

Definition ordered {S A} (r : nat) (m : L S A) : Prop := ∀ s, orderly r (m s).2.
Lemma ordered_ret {S A} r (a : A) : ordered (S := S) r (mret a).
Proof. intros s. constructor. Qed.
Lemma ordered_lift {S A} r (m : M S A) : ordered r (lift m).
Proof. intros s. constructor. Qed.
Lemma ordered_bind {S A B} r (m : L S A) (f : A → L S B) : ordered r m → (∀ a, ordered r (f a)) → ordered r (m ≫= f).
Proof.
  intros Hm Hf s. specialize (Hm s). unfold mbind, L_bind. destruct (m s) as [[s' [a|e|]] es]; try done.
  specialize (Hf a s'). destruct (f a s') as [r' es']. by apply orderly_app.
Qed.
Lemma ordered_under {S A} r x (m : L S A) : (r <= rank x)%nat → ordered (1 + rank x) m → ordered r (under x m).
Proof.
  intros Hr Hm s. specialize (Hm s). unfold under. destruct (m s) as [r' es]. cbn. constructor; [done|done|constructor].
Qed.
Lemma ordered_zoom {S T A} r get put (m : L T A) : ordered r m → ordered r (@zoom_locked S T A get put m).
Proof. intros Hm s. specialize (Hm (get s)). unfold zoom_locked. by destruct (m (get s)) as [[t o] es]. Qed.
Lemma ordered_log {S} r : (r <= 2)%nat → ordered (S := S) r log.
Proof. intros Hr. apply ordered_under; [done|apply ordered_ret]. Qed.
#[export] Hint Resolve ordered_ret ordered_lift ordered_zoom : latch.
#[export] Hint Extern 1 (ordered _ log) => apply ordered_log; cbn; lia : latch.

Ltac order_step :=
  match goal with
  | |- ordered _ (under _ _) => apply ordered_under; [cbn; lia|cbn [rank Nat.add]]
  | |- ordered _ (mbind _ _) => apply ordered_bind; [|intros ?]
  | |- ordered _ (match ?x with _ => _ end) => destruct x
  | |- ordered _ (let _ := _ in _) => cbv zeta
  | |- _ => solve [auto with latch]
  end.
Ltac order := repeat order_step.

Lemma ReadPage_ordered p : ordered 1 (ReadPage_locked p).
Proof. unfold ReadPage_locked. order. Qed.
Lemma WritePage_ordered p d : ordered 1 (WritePage_locked p d).
Proof. unfold WritePage_locked. order. Qed.
Lemma AllocatePage_ordered : ordered 1 AllocatePage_locked.
Proof. unfold AllocatePage_locked. order. Qed.
Lemma DeallocatePage_ordered p : ordered 1 (DeallocatePage_locked p).
Proof. unfold DeallocatePage_locked. order. Qed.
Lemma Close_ordered : ordered 0 Close_locked.
Proof. unfold Close_locked. order. Qed.
#[export] Hint Resolve ReadPage_ordered WritePage_ordered AllocatePage_ordered DeallocatePage_ordered Close_ordered : latch.

Section pool_ordered.
Context {R : Type} `{HR : Replacer R}.

Lemma on_disk_ordered {A} r (m : L DiskManager A) : ordered r m → ordered r (on_disk_locked (R := R) m).
Proof. apply ordered_zoom. Qed.
Lemma replacer_ordered {A} (m : L (BufferPoolManager R) A) : ordered 2 m → ordered 1 (under ReplacerLatch m).
Proof. intros Hm. apply ordered_under; [cbn; lia|exact Hm]. Qed.
#[local] Hint Resolve on_disk_ordered : latch.
#[local] Hint Extern 1 (ordered 1 (replacer_pin_locked _)) => apply replacer_ordered, ordered_lift : latch.
#[local] Hint Extern 1 (ordered 1 (replacer_unpin_locked _)) => apply replacer_ordered, ordered_lift : latch.
#[local] Hint Extern 1 (ordered 1 victim_locked) => apply replacer_ordered, ordered_lift : latch.
Lemma flush_frame_ordered f : ordered 1 (flush_frame_locked (R := R) f).
Proof. unfold flush_frame_locked. order. Qed.
#[local] Hint Resolve flush_frame_ordered : latch.
Lemma select_frame_ordered : ordered 1 (select_frame_locked (R := R)).
Proof. unfold select_frame_locked. order. Qed.
#[local] Hint Resolve select_frame_ordered : latch.
Lemma flush_frames_ordered fs : ordered 1 (flush_frames_locked (R := R) fs).
Proof. induction fs as [|f fs IH]; cbn [flush_frames_locked]; order. Qed.
#[local] Hint Resolve flush_frames_ordered : latch.
Lemma exec_ordered {X} (op : pool_op X) : ordered 0 (exec_locked (R := R) op).
Proof.
  destruct op; cbn [exec_locked]; order; apply ordered_zoom;
    unfold FetchPage_locked, UnpinPage_locked, NewPage_locked, DeletePage_locked, FlushAllPages_locked; order.
Qed.
Lemma FlushPage_ordered p : ordered 0 (FlushPage_locked (R := R) p).
Proof. unfold FlushPage_locked. order. Qed.
End pool_ordered.

(** ** Threads that wait for mutexes

    Each thread has its events ahead of it. [pthread_mutex_lock] waits while a
    thread holds the mutex, also when it is the thread itself; [pthread_mutex_unlock]
    is for the holder. *)
Record system := mkSystem { sy_threads : list (list event); sy_holder : gmap mutex nat }.
Inductive lock_step : system → system → Prop :=
| lock_acq ts h i x es : ts !! i = Some (Acq x :: es) → h !! x = None →
    lock_step (mkSystem ts h) (mkSystem (<[i := es]> ts) (<[x := i]> h))
| lock_rel ts h i x es : ts !! i = Some (Rel x :: es) → h !! x = Some i →
    lock_step (mkSystem ts h) (mkSystem (<[i := es]> ts) (delete x h)).
Definition start_system (ts : list (list event)) : system := mkSystem ts ∅.
Definition finished (c : system) : Prop := (∀ es, es ∈ sy_threads c → es = []) ∧ sy_holder c = ∅.
Definition count (ts : list (list event)) : nat := foldr (λ es k, (length es + k)%nat) 0%nat ts.
Definition events_left (c : system) : nat := count (sy_threads c).

(** The events of a thread inside the scopes of the mutexes [held], innermost first. *)
Fixpoint nested (held : list mutex) (es : list event) : Prop :=
  match es with
  | [] => held = []
  | Acq x :: es => Forall (λ y, (rank y < rank x)%nat) held ∧ nested (x :: held) es
  | Rel x :: es => match held with y :: held => x = y ∧ nested held es | [] => False end
  end.
Lemma orderly_nested r es held k : orderly r es → Forall (λ y, (rank y < r)%nat) held → nested held k →
  nested held (es ++ k).
Proof.
  intros Ho. revert held k. induction Ho as [|r x es1 es2 Hr H1 IH1 H2 IH2]; intros held k Hh Hk; [done|].
  cbn [app nested]. split; [eapply Forall_impl; [exact Hh|]; intros; cbn in *; lia|].
  rewrite <- app_assoc. apply IH1; [constructor; [lia|]; eapply Forall_impl; [exact Hh|]; intros; cbn in *; lia|].
  cbn [app nested]. split; [done|]. by apply IH2.
Qed.

(** What holds of every system reached: each thread is inside scopes of growing
    rank, and those are the mutexes it holds. *)
Definition growing (held : list mutex) : Prop := StronglySorted (λ x y, (rank y < rank x)%nat) held.
Record sys_inv (c : system) (hs : list (list mutex)) : Prop := {
  si_nested : Forall2 nested hs (sy_threads c);
  si_growing : Forall growing hs;
  si_holder x i : sy_holder c !! x = Some i ↔ ∃ held, hs !! i = Some held ∧ x ∈ held;
}.
Lemma growing_fresh x held : Forall (λ y, (rank y < rank x)%nat) held → x ∉ held.
Proof. rewrite Forall_forall. intros H Hx%H. lia. Qed.

Lemma system_start_inv ts : Forall (orderly 0) ts → sys_inv (start_system ts) (replicate (length ts) []).
Proof.
  intros Ho. split; cbn.
  - induction Ho as [|es ts He _ IH]; constructor; [|done]. rewrite <- (app_nil_r es).
    by apply (orderly_nested 0 es [] []).
  - apply Forall_replicate, SSorted_nil.
  - intros x i. rewrite lookup_empty. split; [done|]. intros (held & [-> _]%lookup_replicate & Hx). by apply not_elem_of_nil in Hx.
Qed.

(** A step of the thread [i] from the scopes [held] to [held']. *)
Lemma inv_move c hs i es held held' h' : sys_inv c hs → hs !! i = Some held → nested held' es → growing held' →
  (∀ x j, h' !! x = Some j ↔ if decide (j = i) then x ∈ held' else sy_holder c !! x = Some j) →
  sys_inv (mkSystem (<[i := es]> (sy_threads c)) h') (<[i := held']> hs).
Proof.
  intros [Hn Hg Hh] Hi Hes Hg' Hx. split; cbn.
  - by apply Forall2_insert.
  - by apply Forall_insert.
  - intros x j. rewrite Hx. case_decide as Hj.
    + subst j. rewrite list_lookup_insert_eq by by eapply lookup_lt_Some. split; [eauto|]. by intros (? & [= <-] & ?).
    + by rewrite list_lookup_insert_ne, Hh.
Qed.
Lemma system_step_inv c c' hs : sys_inv c hs → lock_step c c' → ∃ hs', sys_inv c' hs'.
Proof.
  intros Hi Hst. pose proof Hi as [Hn Hg Hh]. destruct Hst as [ts h i x es Hes Hx|ts h i x es Hes Hx]; cbn in *.
  all: destruct (Forall2_lookup_r _ _ _ _ _ Hn Hes) as (held & Hhs & Hne); cbn in Hne;
    pose proof (Forall_lookup_1 _ _ _ _ Hg Hhs) as Hgr; cbn in Hgr.
  - destruct Hne as [Hlt Hne]. exists (<[i := x :: held]> hs).
    apply (inv_move _ _ _ _ held _ _ Hi Hhs Hne); [by constructor|]. intros y j. rewrite lookup_insert.
    case_decide as Hxy; case_decide as Hj; subst.
    + split; [intros _; by left|done].
    + split; [congruence|]. cbn. congruence.
    + rewrite elem_of_cons, Hh, Hhs. split; [intros (? & [= <-] & ?); by right|]. intros [?|?]; [congruence|eauto].
    + done.
  - destruct held as [|y held]; [done|]. destruct Hne as [-> Hne]. apply StronglySorted_inv in Hgr as [Hgr Hlt].
    exists (<[i := held]> hs). apply (inv_move _ _ _ _ (y :: held) _ _ Hi Hhs Hne); [done|]. intros z j.
    rewrite lookup_delete. case_decide as Hyz; case_decide as Hj; subst.
    + split; [done|]. intros Hz. by apply growing_fresh in Hlt.
    + split; [done|]. cbn. congruence.
    + rewrite Hh, Hhs. split; [intros (? & [= <-] & [Hz|Hz]%elem_of_cons); [congruence|done]|].
      intros Hz. eexists. split; [done|]. by right.
    + done.
Qed.

(** Progress: the holder of a mutex of the highest rank does not wait. *)
Lemma holder_moves c hs x i : sys_inv c hs → sy_holder c !! x = Some i → ∃ c', lock_step c c'.
Proof.
  intros [Hn Hg Hh]. destruct c as [ts h]. cbn in *. remember (3 - rank x)%nat as d eqn:Hd. revert x i Hd.
  induction (lt_wf d) as [d _ IH]. intros x i -> Hx. destruct (proj1 (Hh x i) Hx) as (held & Hhs & Hin).
  destruct (Forall2_lookup_l _ _ _ _ _ Hn Hhs) as (es & Hes & Hne).
  destruct es as [|[y|y] es]; cbn in Hne.
  - subst held. by apply not_elem_of_nil in Hin.
  - destruct Hne as [Hlt _]. destruct (h !! y) as [j|] eqn:Hy; [|eexists; by apply (lock_acq ts h i y es)].
    rewrite Forall_forall in Hlt. specialize (Hlt x Hin). apply (IH (3 - rank y)%nat) with y j; [|done|done].
    destruct x, y; cbn in *; lia.
  - destruct held as [|z held]; [done|]. destruct Hne as [<- _]. eexists. apply (lock_rel ts h i y es Hes).
    apply Hh. exists (y :: held). split; [done|by left].
Qed.
Lemma finished_holds_none c hs : sys_inv c hs → (∀ es, es ∈ sy_threads c → es = []) → finished c.
Proof.
  intros [Hn _ Hh] Hf. split; [done|]. apply map_eq. intros x. rewrite lookup_empty. apply eq_None_not_Some.
  intros [i Hx]. apply Hh in Hx as (held & Hhs & Hin). destruct (Forall2_lookup_l _ _ _ _ _ Hn Hhs) as (es & Hes & Hne).
  rewrite (Hf es) in Hne by by eapply list_elem_of_lookup_2. cbn in Hne. subst held. by apply not_elem_of_nil in Hin.
Qed.
Lemma system_progress c hs : sys_inv c hs → finished c ∨ ∃ c', lock_step c c'.
Proof.
  intros Hi. pose proof Hi as [Hn Hg Hh]. destruct (decide (Exists (λ es, es ≠ []) (sy_threads c))) as [He|He].
  - right. apply Exists_exists in He as (es & [i Hes]%list_elem_of_lookup_1 & Hne).
    destruct (Forall2_lookup_r _ _ _ _ _ Hn Hes) as (held & Hhs & Hnest).
    destruct es as [|[x|x] es]; [done| |].
    + destruct (sy_holder c !! x) as [j|] eqn:Hx; [by apply (holder_moves c hs x j)|].
      destruct c as [ts h]. eexists. by apply (lock_acq ts h i x es).
    + destruct held as [|y held]; [done|]. destruct Hnest as [<- _]. apply (holder_moves c hs x i Hi), Hh.
      exists (x :: held). split; [done|by left].
  - left. apply (finished_holds_none c hs Hi). intros es Hes. apply Forall_Exists_neg in He. rewrite Forall_forall in He.
    by apply dec_stable, He.
Qed.

(** Every step takes one event away. *)
Lemma count_insert (ts : list (list event)) i e es : ts !! i = Some (e :: es) → count ts = S (count (<[i := es]> ts)).
Proof.
  revert i. induction ts as [|t ts IH]; intros [|i] Hi; try done.
  - by injection Hi as ->.
  - change (length t + count ts = S (length t + count (<[i := es]> ts)))%nat. rewrite (IH i Hi). lia.
Qed.
Lemma step_events c c' : lock_step c c' → events_left c = S (events_left c').
Proof. intros Hst. unfold events_left. by destruct Hst as [ts h i x es Hes _|ts h i x es Hes _]; eapply count_insert. Qed.
Lemma steps_inv k c0 c : nsteps lock_step k c0 c → (∃ hs, sys_inv c0 hs) →
  (∃ hs, sys_inv c hs) ∧ (events_left c + k = events_left c0)%nat.
Proof.
  induction 1 as [c0|k c0 c1 c Hst _ IH]; intros Hi; [split; [done|lia]|].
  destruct Hi as [hs Hi]. destruct (IH (system_step_inv _ _ _ Hi Hst)) as [Hc Hk]. split; [done|].
  rewrite (step_events _ _ Hst). lia.
Qed.

(** ** The threads of the engine

    What a thread calls: a call of the pool, on whatever the pool is by then, the
    other public methods, [Close] of the disk manager, a log line of its own. *)
Section threads.
Context {R : Type} `{HR : Replacer R}.

Inductive engine_call :=
| PoolCall (X : Type) (op : pool_op X) (c : machine R)
| FlushOne (p : page_id_t) (b : BufferPoolManager R)
| PinCount (p : page_id_t) (b : BufferPoolManager R)
| Cached (p : page_id_t) (b : BufferPoolManager R)
| CloseFile (dm : DiskManager)
| LogLine.
Definition call_events (l : engine_call) : list event :=
  match l with
  | PoolCall X op c => (exec_locked op c).2
  | FlushOne p b => (FlushPage_locked p b).2
  | PinCount p b => (GetPinCount_locked p b).2
  | Cached p b => (IsCached_locked p b).2
  | CloseFile dm => (Close_locked dm).2
  | LogLine => (log tt).2
  end.
Definition thread_events (calls : list engine_call) : list event := calls ≫= call_events.

Lemma call_orderly l : orderly 0 (call_events l).
Proof.
  destruct l as [X op c|p b|p b|p b|dm|]; cbn [call_events].
  - apply exec_ordered.
  - apply FlushPage_ordered.
  - apply (ordered_under 0 PoolLatch); [cbn; lia|apply ordered_lift].
  - apply (ordered_under 0 PoolLatch); [cbn; lia|apply ordered_lift].
  - apply Close_ordered.
  - apply ordered_log. lia.
Qed.
Lemma thread_orderly calls : orderly 0 (thread_events calls).
Proof. induction calls as [|l calls IH]; [constructor|]. apply orderly_app; [apply call_orderly|exact IH]. Qed.
End threads.

(** ** Properties *)

(** C25 (liveness). The engine does not deadlock. Any number of threads make any
    calls of the pool, of the disk manager's [Close] and of the logger; each call
    takes and releases the locks that the code takes on its way through the
    branches, exceptions included, and no mutex may be locked twice. Whatever the
    schedule, as long as a thread has a call to finish, some thread can go on; and
    a schedule cannot go on for ever: it ends, after as many steps as there are
    lock operations, with all calls finished and all mutexes free. *)
Theorem engine_never_deadlocks {R} `{HR : Replacer R} (threads : list (list (engine_call (R := R)))) k c :
  nsteps lock_step k (start_system (thread_events <$> threads)) c →
  (finished c ∨ ∃ c', lock_step c c') ∧
  (events_left c + k = events_left (start_system (thread_events <$> threads)))%nat.
Proof.
  intros Hr. destruct (steps_inv _ _ _ Hr) as [[hs Hi] Hk]; [|split; [by eapply system_progress|exact Hk]].
  eexists. apply system_start_inv, Forall_fmap, Forall_true. intros calls. apply thread_orderly.
Qed.

(** The locks change nothing else: a call of the pool with its
    [LockGuard]s leaves the same state and gives the same result or exception as the
    call without them, whatever the policy. *)
Theorem locked_call_agrees {R} `{HR : Replacer R} {X} (op : pool_op X) (c : machine R) :
  (exec_locked op c).1 = exec_call op c ∧ orderly 0 (exec_locked op c).2.
Proof. split; [apply exec_erases|apply exec_ordered]. Qed.

(** *** Witness: two threads on a pool of two frames *)
Definition step_thread (c : system) (i : nat) : option system :=
  let '(mkSystem ts h) := c in
  match ts !! i with
  | Some (Acq x :: es) => if h !! x then None else Some (mkSystem (<[i := es]> ts) (<[x := i]> h))
  | Some (Rel x :: es) => if decide (h !! x = Some i) then Some (mkSystem (<[i := es]> ts) (delete x h)) else None
  | _ => None
  end.
Fixpoint step_threads (order : list nat) (c : system) : option system :=
  match order with
  | [] => Some c
  | i :: order => c1 ← step_thread c i; step_threads order c1
  end.
Lemma step_threads_sound order c c' : step_threads order c = Some c' → nsteps lock_step (length order) c c'.
Proof.
  revert c. induction order as [|i order IH]; intros c; cbn.
  - intros [= ->]. constructor.
  - destruct (step_thread c i) as [c1|] eqn:Hc; [|done]. cbn. intros Hr%IH. apply nsteps_l with c1; [|done].
    destruct c as [ts h]. cbn in Hc. destruct (ts !! i) as [[|[x|x] es]|] eqn:Hi; try done.
    + destruct (h !! x) eqn:Hx; [done|]. injection Hc as <-. by apply lock_acq.
    + case_decide; [|done]. injection Hc as <-. by apply lock_rel.
Qed.

Definition two_threads : list (list (engine_call (R := LRU.LRUReplacer))) :=
  let c := new_machine 2 new_db (LRU.LRUReplacer_new 2) in
  [[PoolCall _ New c; LogLine]; [PoolCall _ FlushAll c; PoolCall _ (Fetch 9) c]].
(** The first thread writes a log line inside [NewPage]: the second waits for the latch. *)
Lemma engine_never_deadlocks_witness :
  ∃ c, step_threads [0; 0; 0; 0]%nat (start_system (thread_events <$> two_threads)) = Some c ∧ step_thread c 1 = None ∧
    sy_holder c !! PoolLatch = Some 0%nat ∧
    (finished c ∨ ∃ c', lock_step c c') ∧
    (events_left c + 4 = events_left (start_system (thread_events <$> two_threads)))%nat.
Proof.
  destruct (step_threads [0; 0; 0; 0]%nat (start_system (thread_events <$> two_threads))) as [c|] eqn:Hc;
    [|by vm_compute in Hc].
  exists c. split; [reflexivity|].
  assert (Hs : step_thread c 1 = None ∧ sy_holder c !! PoolLatch = Some 0%nat).
  { vm_compute in Hc. injection Hc as <-. split; reflexivity. }
  split; [apply Hs|]. split; [apply Hs|].
  apply (engine_never_deadlocks two_threads 4 c). apply (step_threads_sound [0; 0; 0; 0]%nat). exact Hc.
Defined.
