(* ===== verification/Tuple.v ===== *)
(** Columns, schemas, values and tuples ([column.hpp], [schema.hpp],
    [tuple.hpp]): the serialization of tuples into raw memory and back. *)
From Stdlib Require Import ZArith Lia.
From Stdlib Require Strings.Byte.
From stdpp Require Import base list gmap strings.
From S2P Require Import Prelude Types.
Open Scope Z_scope.

(** ** Columns and schemas *)
Inductive TypeId := INVALID | INT | VARCHAR | BOOLEAN.
#[export] Instance TypeId_eq_dec : EqDecision TypeId.
Proof. solve_decision. Defined.

Record Column := mkColumn { name_ : string; type_ : TypeId; length_ : Z }.

Definition Column_new (name : string) (type : TypeId) (length : Z) : Column :=
  match type with
  | INT => mkColumn name type 8
  | BOOLEAN => mkColumn name type 1
  | _ => mkColumn name type length
  end.
Definition IsVariableLength (c : Column) : bool := bool_decide (type_ c = VARCHAR).

Record Schema := mkSchema { columns_ : list Column }.

Definition GetColumn (s : Schema) (col_idx : Z) : outcome Column :=
  if decide (zlen (columns_ s) ≤ col_idx) then Throw OutOfRange else
  match zget (columns_ s) col_idx with Some c => Ret c | None => UB end.
Definition GetColumnCount (s : Schema) : Z := u32 (zlen (columns_ s)).

(** The loop of [GetColIdx] from index [i] on. *)
Fixpoint col_idx_from (i : Z) (cols : list Column) (col_name : string) : Z :=
  match cols with
  | [] => -1
  | c :: cols => if decide (name_ c = col_name) then to_signed 32 i else col_idx_from (i + 1) cols col_name
  end.
Definition GetColIdx (s : Schema) (col_name : string) : Z := col_idx_from 0 (columns_ s) col_name.

(** ** Values *)
Record Value := mkValue {
  val_type : TypeId;
  int_val_ : Z;
  str_val_ : list byte;
  bool_val_ : bool;
}.
#[export] Instance Value_eq_dec : EqDecision Value.
Proof. solve_decision. Defined.
Definition Value_default : Value := mkValue INVALID 0 [] false.
Definition Value_int (z : Z) : Value := mkValue INT z [] false.
Definition Value_varchar (s : list byte) : Value := mkValue VARCHAR 0 s false.
Definition Value_bool (b : bool) : Value := mkValue BOOLEAN 0 [] b.

Definition Value_GetSerializedLength (v : Value) : Z :=
  match val_type v with
  | INT => 8
  | BOOLEAN => 1
  | VARCHAR => u32 (4 + zlen (str_val_ v))
  | INVALID => 0
  end.

(** [v.Serialize(dest)] with [dest] the address [o] of the buffer [buf]. *)
Definition Value_Serialize (v : Value) (o : Z) (buf : list byte) : option (list byte) :=
  match val_type v with
  | INT => mem_write o (le_encode 8 (int_val_ v)) buf
  | BOOLEAN => mem_write o [if bool_val_ v then Byte.x01 else Byte.x00] buf
  | VARCHAR =>
      let len := u32 (zlen (str_val_ v)) in
      buf ← mem_write o (le_encode 4 len) buf;
      mem_write (o + 4) (take (Z.to_nat len) (str_val_ v)) buf
  | INVALID => Some buf
  end.

(** [v.Deserialize(src, type)] on a value [v]. *)
Definition Value_Deserialize (v : Value) (type : TypeId) (o : Z) (buf : list byte) : option Value :=
  match type with
  | INT =>
      b ← mem_read o 8 buf;
      Some (mkValue INT (to_signed 64 (le_decode b)) (str_val_ v) (bool_val_ v))
  | BOOLEAN =>
      b ← mem_read o 1 buf;
      Some (mkValue BOOLEAN (int_val_ v) (str_val_ v) (negb (le_decode b =? 0)))
  | VARCHAR =>
      b ← mem_read o 4 buf;
      let len := le_decode b in
      s ← mem_read (o + 4) len buf;
      Some (mkValue VARCHAR (int_val_ v) s (bool_val_ v))
  | INVALID => Some (mkValue INVALID (int_val_ v) (str_val_ v) (bool_val_ v))
  end.

(** ** Tuples *)
Record Tuple := mkTuple { values_ : list Value }.

#[export] Instance Tuple_eq_dec : EqDecision Tuple.
Proof. solve_decision. Defined.

Definition GetValue (t : Tuple) (idx : Z) : option Value := zget (values_ t) idx.

(** The loops over the values carry the [uint32_t] running offset. *)
Fixpoint length_from (length : Z) (vs : list Value) : Z :=
  match vs with
  | [] => length
  | v :: vs => length_from (u32 (length + Value_GetSerializedLength v)) vs
  end.
Definition Tuple_GetSerializedLength (t : Tuple) : Z := length_from 0 (values_ t).

Fixpoint serialize_from (offset : Z) (vs : list Value) (dest : Z) (buf : list byte)
    : option (list byte) :=
  match vs with
  | [] => Some buf
  | v :: vs =>
      buf ← Value_Serialize v (dest + offset) buf;
      serialize_from (u32 (offset + Value_GetSerializedLength v)) vs dest buf
  end.
Definition Tuple_Serialize (t : Tuple) (dest : Z) (buf : list byte) : option (list byte) :=
  serialize_from 0 (values_ t) dest buf.

Fixpoint deserialize_from (offset : Z) (cols : list Column) (src : Z) (buf : list byte)
    (acc : list Value) : option (list Value) :=
  match cols with
  | [] => Some acc
  | col :: cols =>
      val ← Value_Deserialize Value_default (type_ col) (src + offset) buf;
      deserialize_from (u32 (offset + Value_GetSerializedLength val)) cols src buf (acc ++ [val])
  end.
Definition Tuple_Deserialize (schema : Schema) (src : Z) (buf : list byte) : option Tuple :=
  vs ← deserialize_from 0 (take (Z.to_nat (GetColumnCount schema)) (columns_ schema)) src buf [];
  Some (mkTuple vs).

(** ** The wire format *)
Definition enc_value (v : Value) : list byte :=
  match val_type v with
  | INT => le_encode 8 (int_val_ v)
  | BOOLEAN => [if bool_val_ v then Byte.x01 else Byte.x00]
  | VARCHAR => le_encode 4 (zlen (str_val_ v)) ++ str_val_ v
  | INVALID => []
  end.
Definition enc_values (vs : list Value) : list byte := vs ≫= enc_value.
Definition enc (t : Tuple) : list byte := enc_values (values_ t).

(** The values a client can build for a column of a type. *)
Inductive value_ok : TypeId → Value → Prop :=
| ok_int z : i64_ok z → value_ok INT (Value_int z)
| ok_varchar s : zlen s < 2 ^ 32 - 4 → value_ok VARCHAR (Value_varchar s)
| ok_bool b : value_ok BOOLEAN (Value_bool b).

(** A tuple of the schema, of a length that fits [uint32_t]. *)
Record tuple_ok (s : Schema) (t : Tuple) : Prop := {
  tok_values : Forall2 value_ok (type_ <$> columns_ s) (values_ t);
  tok_len : zlen (enc t) < 2 ^ 32;
}.

#[global] Arguments enc : simpl never.
#[global] Arguments enc_value : simpl never.

Lemma enc_values_cons v vs : enc_values (v :: vs) = enc_value v ++ enc_values vs.
Proof. done. Qed.

Lemma value_length ty v : value_ok ty v → Value_GetSerializedLength v = zlen (enc_value v).
Proof.
  intros []; unfold Value_GetSerializedLength, enc_value; cbn; rewrite ?length_app, ?length_le_encode; try done.
  rewrite u32_small by (unfold u32_ok; lia). lia.
Qed.

Lemma value_serialize ty v o buf : value_ok ty v → 0 ≤ o → o + zlen (enc_value v) ≤ zlen buf →
  Value_Serialize v o buf = Some (splice o (enc_value v) buf).
Proof.
  intros [z Hz|s Hs|b]; unfold Value_Serialize, enc_value; cbn; intros Ho Hlen.
  - by rewrite mem_write_Some.
  - rewrite length_app, length_le_encode in Hlen. rewrite u32_small by (unfold u32_ok; lia).
    rewrite Nat2Z.id, take_ge by lia. rewrite mem_write_Some by (rewrite ?length_le_encode; lia).
    cbn. rewrite mem_write_Some by (rewrite ?zlen_splice; rewrite ?length_le_encode; lia).
    f_equal. etrans; [|apply splice_splice_next; rewrite ?length_le_encode; lia].
    by rewrite length_le_encode.
  - by rewrite mem_write_Some.
Qed.

Lemma value_deserialize ty v o buf : value_ok ty v → 0 ≤ o → o + zlen (enc_value v) ≤ zlen buf →
  slice o (zlen (enc_value v)) buf = enc_value v →
  Value_Deserialize Value_default ty o buf = Some v.
Proof.
  intros [z Hz|s Hs|b]; unfold Value_Deserialize, enc_value; cbn -[Z.pow];
    rewrite ?length_app, ?length_le_encode; intros Ho Hlen Hsl.
  - rewrite mem_read_Some by lia. cbn -[Z.pow]. change (Z.of_nat 8) with 8 in Hsl. rewrite Hsl, le_decode_encode.
    change (256 ^ Z.of_nat 8) with (2 ^ 64). by rewrite to_signed_id.
  - replace (Z.of_nat (4 + length s)) with (4 + zlen s) in Hsl by lia.
    rewrite slice_cut in Hsl by lia. apply app_inj_1 in Hsl as [H1 H2].
    2: { apply Nat2Z.inj. rewrite zlen_slice, length_le_encode; lia. }
    rewrite mem_read_Some by lia. cbn -[Z.pow]. rewrite H1, le_decode_encode_small by lia.
    rewrite mem_read_Some by lia. cbn. by rewrite H2.
  - rewrite mem_read_Some by lia. cbn. change (Z.of_nat 1) with 1 in Hsl. rewrite Hsl.
    by destruct b.
Qed.

Lemma enc_values_cut o v vs buf :
  0 ≤ o → slice o (zlen (enc_values (v :: vs))) buf = enc_values (v :: vs) →
  o + zlen (enc_values (v :: vs)) ≤ zlen buf →
  slice o (zlen (enc_value v)) buf = enc_value v ∧
  slice (o + zlen (enc_value v)) (zlen (enc_values vs)) buf = enc_values vs.
Proof.
  intros Ho. rewrite enc_values_cons, length_app, Nat2Z.inj_add. intros Hsl Hlen.
  rewrite slice_cut in Hsl by lia. apply app_inj_1 in Hsl; [done|].
  apply Nat2Z.inj. rewrite zlen_slice; lia.
Qed.

Lemma length_from_eq tys vs n : Forall2 value_ok tys vs → 0 ≤ n →
  n + zlen (enc_values vs) < 2 ^ 32 → length_from n vs = n + zlen (enc_values vs).
Proof.
  intros Hok. revert n. induction Hok as [|ty v tys vs Hv Hok IH]; intros n Hn Hlt; cbn [length_from].
  - cbn. lia.
  - rewrite enc_values_cons, length_app in *. rewrite (value_length _ _ Hv).
    rewrite u32_small by (unfold u32_ok; lia). rewrite IH by lia. lia.
Qed.

Lemma serialize_from_eq tys vs n o buf : Forall2 value_ok tys vs → 0 ≤ o → 0 ≤ n →
  n + zlen (enc_values vs) < 2 ^ 32 → o + n + zlen (enc_values vs) ≤ zlen buf →
  serialize_from n vs o buf = Some (splice (o + n) (enc_values vs) buf).
Proof.
  intros Hok. revert n buf.
  induction Hok as [|ty v tys vs Hv Hok IH]; intros n buf Ho Hn Hlt Hlen; cbn [serialize_from].
  - cbn. by rewrite splice_nil.
  - rewrite enc_values_cons, length_app in *.
    rewrite (value_serialize _ _ _ _ Hv) by lia. cbn [mbind option_bind].
    rewrite (value_length _ _ Hv), u32_small by (unfold u32_ok; lia).
    rewrite IH by (rewrite ?zlen_splice; lia). f_equal. rewrite Z.add_assoc.
    by rewrite splice_splice_next by lia.
Qed.

Lemma deserialize_from_eq cols vs n o buf acc : Forall2 value_ok (type_ <$> cols) vs → 0 ≤ o → 0 ≤ n →
  n + zlen (enc_values vs) < 2 ^ 32 → o + n + zlen (enc_values vs) ≤ zlen buf →
  slice (o + n) (zlen (enc_values vs)) buf = enc_values vs →
  deserialize_from n cols o buf acc = Some (acc ++ vs).
Proof.
  revert vs n acc. induction cols as [|col cols IH]; intros vs n acc Hok Ho Hn Hlt Hlen Hsl;
    cbn [fmap list_fmap] in Hok; cbn [deserialize_from].
  - apply Forall2_nil_inv_l in Hok as ->. by rewrite app_nil_r.
  - apply Forall2_cons_inv_l in Hok as (v & vs' & Hv & Hok & ->).
    apply enc_values_cut in Hsl as [Hs1 Hs2]; [|lia..].
    rewrite enc_values_cons, length_app in *.
    rewrite (value_deserialize _ _ _ _ Hv) by (done || lia). cbn [mbind option_bind].
    rewrite (value_length _ _ Hv), u32_small by (unfold u32_ok; lia).
    rewrite (IH vs'); try done; [by rewrite <- app_assoc|lia..|].
    by rewrite Z.add_assoc.
Qed.

(** *** What the heap relies on *)
Lemma tuple_length s t : tuple_ok s t → Tuple_GetSerializedLength t = zlen (enc t).
Proof. intros [Hok Hlt]. unfold Tuple_GetSerializedLength. by rewrite (length_from_eq _ _ _ Hok). Qed.
Lemma tuple_serialize s t o buf : tuple_ok s t → 0 ≤ o → o + zlen (enc t) ≤ zlen buf →
  Tuple_Serialize t o buf = Some (splice o (enc t) buf).
Proof.
  intros [Hok Hlt] Ho Hlen. unfold Tuple_Serialize, enc in *.
  rewrite (serialize_from_eq _ _ _ _ _ Hok) by lia. by rewrite Z.add_0_r.
Qed.
(** Every value takes a byte, so the number of columns fits [uint32_t]. *)
Lemma values_count tys vs : Forall2 value_ok tys vs → zlen tys ≤ zlen (enc_values vs).
Proof.
  induction 1 as [|ty v tys vs Hv _ IH]; [done|]. rewrite enc_values_cons, length_app. cbn [length].
  enough (0 < zlen (enc_value v)) by lia.
  destruct Hv; unfold enc_value; cbn [val_type Value_int Value_varchar Value_bool];
    rewrite ?length_app, ?length_le_encode; cbn [length]; lia.
Qed.
Lemma all_columns s t : tuple_ok s t → take (Z.to_nat (GetColumnCount s)) (columns_ s) = columns_ s.
Proof.
  intros [Hok Hlt]. apply values_count in Hok. rewrite length_fmap in Hok. unfold GetColumnCount, enc in *.
  rewrite u32_small by plia. by rewrite take_ge by lia.
Qed.
Lemma tuple_deserialize s t o buf : tuple_ok s t → 0 ≤ o → o + zlen (enc t) ≤ zlen buf →
  slice o (zlen (enc t)) buf = enc t → Tuple_Deserialize s o buf = Some t.
Proof.
  intros Ht Ho Hlen Hsl. unfold Tuple_Deserialize. rewrite (all_columns s t Ht).
  destruct Ht as [Hok Hlt]. unfold enc in *. rewrite (deserialize_from_eq _ (values_ t)); try done; [|lia..|by rewrite Z.add_0_r].
  cbn. by destruct t.
Qed.

(** *** Whatever bytes are read *)
Lemma value_read_typed ty o buf v : ty ≠ INVALID → zlen buf < 2 ^ 32 → 0 ≤ o →
  Value_Deserialize Value_default ty o buf = Some v → value_ok ty v ∧ o + zlen (enc_value v) ≤ zlen buf.
Proof.
  intros Hty Hbuf Ho. unfold Value_Deserialize. destruct ty; [done|..]; cbn [int_val_ str_val_ bool_val_ Value_default].
  - destruct (mem_read o 8 buf) as [b|] eqn:Hb; [|done]. apply mem_read_inv in Hb as (_ & _ & Hlen & _).
    intros [= <-]. split; [apply ok_int; by apply (to_signed_range 64)|]. unfold enc_value. cbn [val_type int_val_].
    rewrite length_le_encode. lia.
  - destruct (mem_read o 4 buf) as [b|] eqn:Hb; [|done]. cbn [mbind option_bind].
    destruct (mem_read (o + 4) _ buf) as [s|] eqn:Hs; [|done]. apply mem_read_inv in Hs as (_ & _ & Hlen & Hzs).
    intros [= <-]. split; [apply ok_varchar; lia|]. unfold enc_value. cbn [val_type str_val_].
    rewrite length_app, length_le_encode. lia.
  - destruct (mem_read o 1 buf) as [b|] eqn:Hb; [|done]. apply mem_read_inv in Hb as (_ & _ & Hlen & _).
    intros [= <-]. split; [apply ok_bool|]. unfold enc_value. cbn [val_type length]. lia.
Qed.

Lemma values_read_typed src buf cols : Forall (λ c, type_ c ≠ INVALID) cols → zlen buf < 2 ^ 32 → 0 ≤ src →
  ∀ n acc vs, 0 ≤ n → src + n ≤ zlen buf → deserialize_from n cols src buf acc = Some vs →
  ∃ vs', vs = acc ++ vs' ∧ Forall2 value_ok (type_ <$> cols) vs' ∧ src + n + zlen (enc_values vs') ≤ zlen buf.
Proof.
  intros Hcols Hbuf Hsrc. induction Hcols as [|c cols Hc _ IH]; intros n acc vs Hn Hlen; cbn [deserialize_from].
  - intros [= <-]. exists []. rewrite app_nil_r. split; [done|]. split; [constructor|cbn; lia].
  - destruct (Value_Deserialize _ _ _ _) as [v|] eqn:Hv; [|done]. cbn [mbind option_bind].
    apply value_read_typed in Hv as [Hok Hend]; [|done|done|lia].
    rewrite (value_length _ _ Hok), u32_small by plia. intros Hrest. apply IH in Hrest as (vs' & -> & Hall & Hend'); [|lia..].
    exists (v :: vs'). rewrite <- app_assoc. split; [done|]. split; [by constructor|].
    rewrite enc_values_cons, length_app. lia.
Qed.

(** Where the reads stay within the bytes [d]: a value takes the bytes of its type, a
    [VARCHAR] those of its length prefix and as many as the prefix says. *)
Definition value_extent (ty : TypeId) (d : list byte) : option Z :=
  match ty with
  | INT => if decide (8 ≤ zlen d) then Some 8 else None
  | BOOLEAN => if decide (1 ≤ zlen d) then Some 1 else None
  | VARCHAR =>
      if decide (4 ≤ zlen d) then
        let n := 4 + le_decode (take 4 d) in if decide (n ≤ zlen d) then Some n else None
      else None
  | INVALID => Some 0
  end.
Fixpoint within (tys : list TypeId) (d : list byte) : bool :=
  match tys with
  | [] => true
  | ty :: tys => match value_extent ty d with Some n => within tys (drop (Z.to_nat n) d) | None => false end
  end.
Lemma value_reads ty o buf : ty ≠ INVALID → zlen buf < 2 ^ 32 → 0 ≤ o ≤ zlen buf →
  match Value_Deserialize Value_default ty o buf with
  | Some v => value_extent ty (drop (Z.to_nat o) buf) = Some (zlen (enc_value v))
  | None => value_extent ty (drop (Z.to_nat o) buf) = None
  end.
Proof.
  intros Hty Hbuf Ho. pose proof (value_read_typed ty o buf) as Htyped.
  assert (Hd : zlen (drop (Z.to_nat o) buf) = zlen buf - o) by (rewrite length_drop; lia).
  destruct ty; [done|..]; unfold value_extent; rewrite Hd; unfold Value_Deserialize, mem_read in *;
    cbn [int_val_ str_val_ bool_val_ Value_default] in *.
  - destruct (decide (0 ≤ o ∧ 0 ≤ 8 ∧ o + 8 ≤ zlen buf)); [rewrite decide_True by lia|by rewrite decide_False by lia].
    cbn [mbind option_bind]. unfold enc_value. cbn [val_type int_val_]. by rewrite length_le_encode.
  - destruct (decide (0 ≤ o ∧ 0 ≤ 4 ∧ o + 4 ≤ zlen buf)) as [H4|H4]; [rewrite decide_True by lia|by rewrite decide_False by lia].
    cbn [mbind option_bind] in *. change (slice o 4 buf) with (take 4 (drop (Z.to_nat o) buf)) in *. cbv zeta in *.
    set (n := le_decode (take 4 (drop (Z.to_nat o) buf))) in *. assert (0 ≤ n) by apply le_decode_range.
    destruct (decide (0 ≤ o + 4 ∧ 0 ≤ n ∧ o + 4 + n ≤ zlen buf)); [rewrite decide_True by lia|by rewrite decide_False by lia].
    cbn [mbind option_bind]. unfold enc_value. cbn [val_type str_val_]. rewrite length_app, length_le_encode.
    f_equal. rewrite Nat2Z.inj_add. change (Z.of_nat 4) with 4. f_equal. by rewrite zlen_slice by lia.
  - destruct (decide (0 ≤ o ∧ 0 ≤ 1 ∧ o + 1 ≤ zlen buf)); [rewrite decide_True by lia|by rewrite decide_False by lia].
    reflexivity.
Qed.
Lemma values_read src buf cols : Forall (λ c, type_ c ≠ INVALID) cols → zlen buf < 2 ^ 32 → 0 ≤ src →
  ∀ n acc, 0 ≤ n → src + n ≤ zlen buf →
  is_Some (deserialize_from n cols src buf acc) ↔ within (type_ <$> cols) (drop (Z.to_nat (src + n)) buf) = true.
Proof.
  intros Hcols Hbuf Hsrc. induction Hcols as [|c cols Hc _ IH]; intros n acc Hn Hlen; cbn [deserialize_from fmap list_fmap within].
  - split; [done|by eexists].
  - pose proof (value_reads (type_ c) (src + n) buf Hc Hbuf ltac:(lia)) as Hv.
    destruct (Value_Deserialize _ _ _ _) as [v|] eqn:Hread; rewrite Hv; cbn [mbind option_bind]; [|by split; [intros []|]].
    apply value_read_typed in Hread as [Hok Hend]; [|done|done|lia].
    rewrite (value_length _ _ Hok), u32_small by plia. rewrite IH by lia. rewrite drop_drop.
    by replace (Z.to_nat (src + n) + Z.to_nat (zlen (enc_value v)))%nat with (Z.to_nat (src + (n + zlen (enc_value v)))) by lia.
Qed.

(** ** Properties *)

(** C20 (type). Deserialization of whatever bytes are in memory (a page written by
    something else, a freed row) under a schema: when the lengths among them stay within
    the buffer it gives a tuple of the schema, one value per column, of the column's
    type and width, no offset wraps around, the tuple's length ends within the
    buffer, and writing the tuple back to where it was read is what reads as the
    same tuple again; when one of them reaches past the buffer, so does the read,
    which is undefined: nothing checks it. *)
Theorem tuple_deserialize_typed s src buf :
  Forall (λ c, type_ c ≠ INVALID) (columns_ s) → zlen (columns_ s) < 2 ^ 32 → zlen buf < 2 ^ 32 → 0 ≤ src ≤ zlen buf →
  match Tuple_Deserialize s src buf with
  | Some t =>
      within (type_ <$> columns_ s) (drop (Z.to_nat src) buf) = true ∧
      tuple_ok s t ∧ src + Tuple_GetSerializedLength t ≤ zlen buf ∧
      ∃ buf', Tuple_Serialize t src buf = Some buf' ∧ Tuple_Deserialize s src buf' = Some t
  | None => within (type_ <$> columns_ s) (drop (Z.to_nat src) buf) = false
  end.
Proof.
  intros Hcols Hcount Hbuf Hsrc. pose proof (values_read src buf _ Hcols Hbuf (proj1 Hsrc) 0 [] ltac:(lia) ltac:(lia)) as Hin.
  rewrite Z.add_0_r in Hin. destruct (Tuple_Deserialize s src buf) as [t|] eqn:Hread;
    unfold Tuple_Deserialize, GetColumnCount in Hread; rewrite u32_small, take_ge in Hread by plia;
    destruct (deserialize_from _ _ _ _ _) as [vs|] eqn:Hvs; try done; [|apply not_true_is_false; intros [? ?]%Hin; done].
  injection Hread as <-. split; [apply Hin; eauto|].
  apply values_read_typed in Hvs as (vs' & -> & Hall & Hend); [|done|lia..]. cbn [app].
  change (enc_values vs') with (enc (mkTuple vs')) in Hend.
  assert (Hok : tuple_ok s (mkTuple vs')) by (split; [done|lia]).
  split; [done|]. rewrite (tuple_length _ _ Hok). split; [lia|].
  exists (splice src (enc (mkTuple vs')) buf). split; [apply (tuple_serialize s); [done|lia..]|].
  apply tuple_deserialize; rewrite ?zlen_splice by lia; [done|lia..|]. by rewrite slice_splice_eq by lia.
Qed.

(** C19 (roundtrip). Serializing a tuple of the schema writes exactly
    [GetSerializedLength] bytes at the destination, leaves the rest of the buffer
    alone, and deserializing there with the schema gives the tuple back. *)
Theorem tuple_roundtrip s t dest buf :
  tuple_ok s t → 0 ≤ dest → dest + Tuple_GetSerializedLength t ≤ zlen buf →
  ∃ buf', Tuple_Serialize t dest buf = Some buf' ∧ zlen buf' = zlen buf ∧
    (∀ o n, 0 ≤ o → o + n ≤ dest ∨ dest + Tuple_GetSerializedLength t ≤ o →
       slice o n buf' = slice o n buf) ∧
    Tuple_Deserialize s dest buf' = Some t.
Proof.
  intros Hok Hd. rewrite (tuple_length s t Hok). intros Hlen.
  exists (splice dest (enc t) buf). split_and!.
  - by apply (tuple_serialize s).
  - by rewrite zlen_splice.
  - intros. by rewrite slice_splice_ne.
  - apply tuple_deserialize; rewrite ?zlen_splice by done; try done. by rewrite slice_splice_eq.
Qed.

Definition sample_schema : Schema :=
  mkSchema [Column_new "id" INT 0; Column_new "name" VARCHAR 32; Column_new "active" BOOLEAN 0].
Definition sample_tuple : Tuple :=
  mkTuple [Value_int (-7); Value_varchar [Byte.x41; Byte.x42]; Value_bool true].
Lemma sample_tuple_ok : tuple_ok sample_schema sample_tuple.
Proof.
  split; [|done]. unfold sample_schema, sample_tuple. cbn. repeat constructor; vm_compute; done.
Qed.
(** Bytes that are no tuple: with the length [0] of the [VARCHAR] they read as one, with
    [0x02020202] as it stands the read leaves the buffer. *)
Lemma tuple_deserialize_typed_witness :
  let buf := replicate 24 Byte.x02 in
  let t := mkTuple [Value_int 0x0202020202020202; Value_varchar []; Value_bool true] in
  let page := splice 8 (replicate 4 Byte.x00) buf in
  (Tuple_Deserialize sample_schema 0 page = Some t ∧ tuple_ok sample_schema t ∧ 0 + Tuple_GetSerializedLength t ≤ zlen page) ∧
  Tuple_Deserialize sample_schema 0 buf = None ∧ within (type_ <$> columns_ sample_schema) (drop (Z.to_nat 0) buf) = false.
Proof.
  intros buf t page.
  assert (Hr : Tuple_Deserialize sample_schema 0 page = Some t) by (vm_compute; reflexivity).
  assert (Hn : Tuple_Deserialize sample_schema 0 buf = None) by (vm_compute; reflexivity).
  pose proof (tuple_deserialize_typed sample_schema 0 page) as H1. pose proof (tuple_deserialize_typed sample_schema 0 buf) as H2.
  rewrite Hr in H1. rewrite Hn in H2. split.
  - destruct H1 as (_ & Hok & Hlen & _); [repeat constructor; discriminate|vm_compute; reflexivity|vm_compute; reflexivity|
      split; vm_compute; discriminate|done].
  - split; [done|]. apply H2; [repeat constructor; discriminate|vm_compute; reflexivity|vm_compute; reflexivity|
      split; vm_compute; discriminate].
Defined.
Lemma tuple_roundtrip_witness :
  ∃ buf', Tuple_Serialize sample_tuple 5 (replicate 24 Byte.x00) = Some buf' ∧
    zlen buf' = zlen (replicate 24 Byte.x00) ∧
    (∀ o n, 0 ≤ o → o + n ≤ 5 ∨ 5 + Tuple_GetSerializedLength sample_tuple ≤ o →
       slice o n buf' = slice o n (replicate 24 Byte.x00)) ∧
    Tuple_Deserialize sample_schema 5 buf' = Some sample_tuple.
Proof. apply tuple_roundtrip; [apply sample_tuple_ok|lia|vm_compute; discriminate]. Defined.

(** In a schema whose columns an [int] can count, [GetColIdx] returns the index of
    the first column of the name, which [GetColumn] then finds, and -1 exactly when no column has it. *)
Theorem col_idx_first s name : zlen (columns_ s) ≤ 2 ^ 31 →
  (GetColIdx s name = -1 ∧ ∀ c, c ∈ columns_ s → name_ c ≠ name) ∨
  (∃ c, GetColumn s (GetColIdx s name) = Ret c ∧ name_ c = name ∧ 0 ≤ GetColIdx s name ∧
     ∀ j d, 0 ≤ j < GetColIdx s name → GetColumn s j = Ret d → name_ d ≠ name).
Proof.
  unfold GetColIdx, GetColumn. generalize (columns_ s) as cols. intros cols Hmax.
  assert (G : ∀ cols i, (col_idx_from i cols name = -1 ∧ ∀ c, c ∈ cols → name_ c ≠ name) ∨
    ∃ k c, col_idx_from i cols name = to_signed 32 (i + Z.of_nat k) ∧ cols !! k = Some c ∧ name_ c = name ∧
      ∀ j d, (j < k)%nat → cols !! j = Some d → name_ d ≠ name).
  { clear. intros cols. induction cols as [|c cols IH]; intros i; cbn [col_idx_from].
    - left. split; [done|]. by intros c ?%not_elem_of_nil.
    - case_decide as Hc.
      + right. exists 0%nat, c. split_and!; [by rewrite Z.add_0_r|done|done|lia].
      + destruct (IH (i + 1)) as [[-> Hn]|(k & d & -> & Hk & Hd & Hlt)].
        * left. split; [done|]. intros d [->|?]%elem_of_cons; auto.
        * right. exists (S k), d. split_and!; [f_equal; lia|done|done|]. intros [|j] e; [naive_solver|].
          intros. eapply (Hlt j); [lia|done]. }
  destruct (G cols 0) as [?|(k & c & -> & Hk & Hc & Hlt)]; [by left|right].
  pose proof (lookup_lt_Some _ _ _ Hk). rewrite Z.add_0_l.
  rewrite <- (Z.mod_small (Z.of_nat k) (2 ^ 32)), (to_signed_id 32) by lia. exists c. split_and!; [|done|lia|].
  - rewrite decide_False by lia. rewrite zget_lookup by lia.
    by rewrite Nat2Z.id, Hk.
  - intros j d Hj. rewrite decide_False by lia. rewrite zget_lookup by lia.
    destruct (cols !! Z.to_nat j) as [e|] eqn:He; [|done]. intros [= ->].
    eapply (Hlt (Z.to_nat j)); [lia|done].
Qed.
