(* ===== verification/TablePage.v ===== *)
(** Slotted pages ([table_page.hpp]): a [TablePage] is the bytes of a page read
    through its struct layout.  The theorems relate it to an array of rows. *)
From Stdlib Require Import ZArith Lia.
From Stdlib Require Strings.Byte.
From stdpp Require Import base list gmap.
From S2P Require Import Prelude Types Tuple.
Open Scope Z_scope.

(** ** Layout: five [uint32_t] fields, then [Slot slots_[500]]. *)
Abbreviation TablePage := (list byte).

Definition tp_page_id_ (pg : TablePage) : Z := rd32 0 pg.
Definition num_slots_ (pg : TablePage) : Z := rd32 4 pg.
Definition free_space_pointer_ (pg : TablePage) : Z := rd32 8 pg.
Definition prev_page_id_ (pg : TablePage) : Z := rd32 12 pg.
Definition next_page_id_ (pg : TablePage) : Z := rd32 16 pg.

Definition sizeof_Slot : Z := 8.
Definition max_slots : Z := 500.

(** [slots_[i].offset] and [slots_[i].length], read and written. *)
Definition slot_addr (i : Z) : option Z :=
  if decide (0 ≤ i < max_slots) then Some (20 + sizeof_Slot * i) else None.
Definition slot_offset (pg : TablePage) (i : Z) : option Z :=
  a ← slot_addr i; Some (rd32 a pg).
Definition slot_length (pg : TablePage) (i : Z) : option Z :=
  a ← slot_addr i; Some (rd32 (a + 4) pg).
Definition set_slot (i offset length : Z) (pg : TablePage) : option TablePage :=
  a ← slot_addr i; Some (wr32 (a + 4) length (wr32 a offset pg)).
Definition set_slot_length (i length : Z) (pg : TablePage) : option TablePage :=
  a ← slot_addr i; Some (wr32 (a + 4) length pg).

(** ** Operations *)
Definition TablePage_Init (page_id prev_page_id : page_id_t) (pg : TablePage) : TablePage :=
  let pg := wr32 0 page_id pg in
  let pg := wr32 4 0 pg in
  let pg := wr32 8 PAGE_SIZE pg in
  let pg := wr32 12 prev_page_id pg in
  wr32 16 INVALID_PAGE_ID pg.

Definition SetNextPageId (next_page_id : page_id_t) (pg : TablePage) : TablePage :=
  wr32 16 next_page_id pg.
Definition SetPrevPageId (prev_page_id : page_id_t) (pg : TablePage) : TablePage :=
  wr32 12 prev_page_id pg.

(** [current_free_boundary], and the test that [needed] bytes do not fit. *)
Definition free_boundary (pg : TablePage) : Z := u32 (20 + num_slots_ pg * sizeof_Slot).
Definition no_space (pg : TablePage) (needed : Z) : bool :=
  bool_decide (free_space_pointer_ pg < free_boundary pg ∨
               free_space_pointer_ pg - free_boundary pg < needed).

(** The slot reported through [slot_num], or [None] for [false]. *)
Definition TablePage_InsertTuple (tuple : Tuple) (pg : TablePage)
    : option (option Z * TablePage) :=
  let tuple_len := Tuple_GetSerializedLength tuple in
  target_slot ← find_up 0 (num_slots_ pg)
    (λ i, len ← slot_length pg i; Some (bool_decide (len = 0)));
  let needed_space :=
    match target_slot with None => u32 (tuple_len + sizeof_Slot) | Some _ => tuple_len end in
  if no_space pg needed_space then Some (None, pg) else
  let fsp := u32 (free_space_pointer_ pg - tuple_len) in
  let pg := wr32 8 fsp pg in
  pg ← Tuple_Serialize tuple fsp pg;
  match target_slot with
  | Some i =>
      pg ← set_slot i fsp tuple_len pg;
      Some (Some i, pg)
  | None =>
      let n := num_slots_ pg in
      pg ← set_slot n fsp tuple_len pg;
      Some (Some n, wr32 4 (u32 (n + 1)) pg)
  end.

(** The tuple stored through the pointer, or [None] for [false]. *)
Definition TablePage_GetTuple (slot_num : Z) (schema : Schema) (pg : TablePage)
    : option (option Tuple) :=
  if decide (num_slots_ pg ≤ slot_num) then Some None else
  len ← slot_length pg slot_num;
  if decide (len = 0) then Some None else
  off ← slot_offset pg slot_num;
  t ← Tuple_Deserialize schema off pg;
  Some (Some t).

Definition TablePage_DeleteTuple (slot_num : Z) (pg : TablePage) : option (bool * TablePage) :=
  if decide (num_slots_ pg ≤ slot_num) then Some (false, pg) else
  len ← slot_length pg slot_num;
  if decide (len = 0) then Some (false, pg) else
  pg ← set_slot slot_num 0 0 pg;
  Some (true, pg).

Definition TablePage_UpdateTuple (slot_num : Z) (new_tuple : Tuple) (pg : TablePage)
    : option (bool * TablePage) :=
  if decide (num_slots_ pg ≤ slot_num) then Some (false, pg) else
  len ← slot_length pg slot_num;
  if decide (len = 0) then Some (false, pg) else
  let new_len := Tuple_GetSerializedLength new_tuple in
  off ← slot_offset pg slot_num;
  if decide (new_len ≤ len) then
    pg ← Tuple_Serialize new_tuple off pg;
    pg ← set_slot_length slot_num new_len pg;
    Some (true, pg)
  else if no_space pg new_len then Some (false, pg) else
  let fsp := u32 (free_space_pointer_ pg - new_len) in
  let pg := wr32 8 fsp pg in
  pg ← Tuple_Serialize new_tuple fsp pg;
  pg ← set_slot slot_num fsp new_len pg;
  Some (true, pg).

(** ** The abstract page: an array of rows and the room left *)
Record rows := mkRows {
  r_rows : list (option Tuple);
  r_free : Z;                    (* end of the free space *)
}.
Definition r_count (r : rows) : Z := zlen (r_rows r).
Definition r_room (r : rows) : Z := r_free r - (20 + sizeof_Slot * r_count r).
Definition r_get (r : rows) (i : Z) : option Tuple := mjoin (zget (r_rows r) i).

(** The first empty row. *)
Definition r_hole (r : rows) : option nat := fst <$> list_find (λ x, x = None) (r_rows r).

Definition r_insert (t : Tuple) (r : rows) : option (Z * rows) :=
  let len := zlen (enc t) in
  match r_hole r with
  | Some i =>
      if decide (len ≤ r_room r)
      then Some (Z.of_nat i, mkRows (<[i := Some t]> (r_rows r)) (r_free r - len)) else None
  | None =>
      if decide (len + sizeof_Slot ≤ r_room r)
      then Some (r_count r, mkRows (r_rows r ++ [Some t]) (r_free r - len)) else None
  end.

Definition r_delete (i : Z) (r : rows) : option rows :=
  match r_get r i with
  | Some _ => Some (mkRows (<[Z.to_nat i := None]> (r_rows r)) (r_free r))
  | None => None
  end.

Definition r_update (i : Z) (t : Tuple) (r : rows) : option rows :=
  match r_get r i with
  | None => None
  | Some old =>
      let l := <[Z.to_nat i := Some t]> (r_rows r) in
      if decide (zlen (enc t) ≤ zlen (enc old)) then Some (mkRows l (r_free r))
      else if decide (zlen (enc t) ≤ r_room r) then Some (mkRows l (r_free r - zlen (enc t)))
      else None
  end.

(** ** The representation *)
Section page.
Context (s : Schema).
Implicit Types (pg : TablePage) (r : rows) (i j : nat) (t : Tuple).

(** A tuple a slot can hold: of the schema, not empty, and short enough for
    [tuple_len + sizeof(Slot)] not to overflow. *)
Definition storable t : Prop := tuple_ok s t ∧ 0 < zlen (enc t) < 2 ^ 32 - sizeof_Slot.

Definition off_of pg i : Z := rd32 (20 + sizeof_Slot * Z.of_nat i) pg.
Definition len_of pg i : Z := rd32 (20 + sizeof_Slot * Z.of_nat i + 4) pg.

Record row_at pg (lo : Z) i t : Prop := {
  ra_ok : storable t;
  ra_len : len_of pg i = zlen (enc t);
  ra_lo : lo ≤ off_of pg i;
  ra_hi : off_of pg i + zlen (enc t) ≤ PAGE_SIZE;
  ra_data : slice (off_of pg i) (zlen (enc t)) pg = enc t;
}.

(** The ranges [o, o + n) and [o', o' + n') do not meet. *)
Definition apart (o n o' n' : Z) : Prop := o + n ≤ o' ∨ o' + n' ≤ o.

Record tp_rel pg r : Prop := {
  tr_len : zlen pg = PAGE_SIZE;
  tr_count : num_slots_ pg = r_count r;
  tr_fsp : free_space_pointer_ pg = r_free r;
  tr_room : 0 ≤ r_room r;
  tr_bound : r_count r + r_free r ≤ PAGE_SIZE;
  tr_row i t : r_rows r !! i = Some (Some t) → row_at pg (r_free r) i t;
  tr_hole i : r_rows r !! i = Some None → len_of pg i = 0;
  tr_apart i j t u : i ≠ j → r_rows r !! i = Some (Some t) → r_rows r !! j = Some (Some u) →
    apart (off_of pg i) (zlen (enc t)) (off_of pg j) (zlen (enc u));
}.

(** The slot array never outgrows [slots_[500]]. *)
Lemma count_bound pg r : tp_rel pg r → 0 ≤ r_count r < 453.
Proof.
  intros Hr. pose proof (tr_room _ _ Hr). pose proof (tr_bound _ _ Hr).
  unfold r_room, r_count, sizeof_Slot, PAGE_SIZE in *. lia.
Qed.
Lemma slot_addr_eq pg r i : tp_rel pg r → (i <= length (r_rows r))%nat →
  slot_addr (Z.of_nat i) = Some (20 + sizeof_Slot * Z.of_nat i).
Proof.
  intros Hr Hi. pose proof (count_bound _ _ Hr). unfold slot_addr, r_count, max_slots in *.
  by rewrite decide_True by lia.
Qed.
Lemma no_space_eq pg r needed : tp_rel pg r → 0 < needed →
  no_space pg needed = bool_decide (r_room r < needed).
Proof.
  intros Hr Hn. unfold no_space, free_boundary. rewrite (tr_count _ _ Hr), (tr_fsp _ _ Hr).
  pose proof (count_bound _ _ Hr). pose proof (tr_room _ _ Hr). unfold r_room, sizeof_Slot in *.
  rewrite u32_small by (unfold u32_ok; lia). apply bool_decide_ext. lia.
Qed.
Lemma free_bound pg r : tp_rel pg r → 20 ≤ r_free r ≤ PAGE_SIZE.
Proof.
  intros Hr. pose proof (count_bound _ _ Hr). pose proof (tr_room _ _ Hr).
  pose proof (tr_bound _ _ Hr). unfold r_room, sizeof_Slot in *. lia.
Qed.

(** Row [i] is set to [t], stored at [off]: what a page must satisfy. *)
Record put_row pg r (i : nat) t (off : Z) pg' (f : Z) : Prop := {
  pr_len : zlen pg' = PAGE_SIZE;
  pr_fsp : free_space_pointer_ pg' = f;
  pr_le : f ≤ r_free r;
  pr_off : off_of pg' i = off;
  pr_slot : len_of pg' i = zlen (enc t);
  pr_range : f ≤ off ∧ off + zlen (enc t) ≤ PAGE_SIZE;
  pr_data : slice off (zlen (enc t)) pg' = enc t;
  pr_other j : (j < length (r_rows r))%nat → j ≠ i →
    off_of pg' j = off_of pg j ∧ len_of pg' j = len_of pg j;
  pr_frame o n : r_free r ≤ o → 0 ≤ n → apart off (zlen (enc t)) o n →
    slice o n pg' = slice o n pg;
  pr_apart j u : j ≠ i → r_rows r !! j = Some (Some u) →
    apart off (zlen (enc t)) (off_of pg j) (zlen (enc u));
}.

Lemma tp_rel_put pg r i t off pg' f l' : tp_rel pg r → storable t →
  put_row pg r i t off pg' f →
  (∀ j, l' !! j = if decide (j = i) then Some (Some t) else r_rows r !! j) →
  num_slots_ pg' = zlen l' → 0 ≤ r_room (mkRows l' f) → zlen l' + f ≤ PAGE_SIZE →
  tp_rel pg' (mkRows l' f).
Proof.
  intros Hr Ht [Hlen Hfsp Hle Hoff Hslot [Hlo Hhi] Hdata Hoth Hfr Hap] Hl' Hn Hroom Hb.
  assert (Hold : ∀ j u, j ≠ i → r_rows r !! j = Some (Some u) →
    row_at pg (r_free r) j u ∧ off_of pg' j = off_of pg j ∧ len_of pg' j = len_of pg j).
  { intros j u Hne Hj. split; [by apply (tr_row _ _ Hr)|]. apply Hoth; [|done].
    by eapply lookup_lt_Some. }
  split; cbn; try done.
  - intros j u. rewrite Hl'. case_decide as Hji.
    + intros [= <-]. subst j. split; rewrite ?Hoff; done.
    + intros Hj. destruct (Hold j u Hji Hj) as ([? ? ? ? ?] & Ho & Hln).
      split; rewrite ?Ho, ?Hln; try done; [lia|]. rewrite Hfr; try done; [lia|]. by apply Hap.
  - intros j. rewrite Hl'. case_decide as Hji; [done|]. intros Hj.
    destruct (Hoth j) as [_ ->]; [by eapply lookup_lt_Some|done|]. by apply (tr_hole _ _ Hr).
  - intros j k u v Hne. rewrite !Hl'.
    destruct (decide (j = i)) as [->|Hj], (decide (k = i)) as [->|Hk]; try done.
    + intros [= <-] Hk'. destruct (Hold k v Hk Hk') as (_ & -> & _). rewrite Hoff. by apply Hap.
    + intros Hj' [= <-]. destruct (Hold j u Hj Hj') as (_ & -> & _). rewrite Hoff.
      destruct (Hap j u Hj Hj'); [by right|by left].
    + intros Hj' Hk'. destruct (Hold j u Hj Hj') as (_ & -> & _).
      destruct (Hold k v Hk Hk') as (_ & -> & _). by apply (tr_apart _ _ Hr j k).
Qed.

(** *** Writing a tuple below the free space pointer *)
Definition stored_page t (i : nat) (f : Z) pg : TablePage :=
  wr32 (20 + sizeof_Slot * Z.of_nat i + 4) (zlen (enc t))
    (wr32 (20 + sizeof_Slot * Z.of_nat i) f (splice f (enc t) (wr32 8 f pg))).

Lemma put_fresh pg r i t f : tp_rel pg r → storable t → (i <= length (r_rows r))%nat →
  f = r_free r - zlen (enc t) → 20 + sizeof_Slot * (Z.of_nat i + 1) ≤ f →
  20 + sizeof_Slot * r_count r ≤ f →
  put_row pg r i t f (stored_page t i f pg) f ∧
  num_slots_ (stored_page t i f pg) = r_count r.
Proof.
  intros Hr [Hok Hpos] Hi Hf Hroom Hroom2. pose proof (free_bound _ _ Hr) as Hfb.
  pose proof (tr_len _ _ Hr) as Hlen. pose proof (tok_len _ _ Hok).
  unfold sizeof_Slot, r_count, PAGE_SIZE in *.
  assert (u32_ok f ∧ u32_ok (zlen (enc t))) as [? ?] by (unfold u32_ok; lia).
  unfold stored_page. split.
  - split; unfold free_space_pointer_, off_of, len_of, sizeof_Slot, apart, PAGE_SIZE in *.
    + buf_len.
    + buf_simpl. done.
    + lia.
    + buf_simpl. done.
    + buf_simpl. done.
    + lia.
    + buf_simpl. done.
    + intros j Hj Hne. buf_simpl. done.
    + intros o n Ho Hn Hap. buf_simpl. done.
    + intros j u Hne Hj. destruct (tr_row _ _ Hr _ _ Hj) as [_ _ Hlo _ _].
      unfold off_of, sizeof_Slot in Hlo. lia.
  - unfold num_slots_, sizeof_Slot. buf_simpl. apply (tr_count _ _ Hr).
Qed.

Lemma put_row_count pg r i t off pg' f n : tp_rel pg r → put_row pg r i t off pg' f → 20 ≤ f →
  u32_ok n → put_row pg r i t off (wr32 4 n pg') f ∧ num_slots_ (wr32 4 n pg') = n.
Proof.
  intros Hr [Hlen Hfsp Hle Hoff Hslot [Hlo Hhi] Hdata Hoth Hfr Hap] Hf Hn.
  unfold free_space_pointer_, off_of, len_of, sizeof_Slot, PAGE_SIZE in *. split.
  - split; unfold free_space_pointer_, off_of, len_of, sizeof_Slot, PAGE_SIZE in *; try done.
    + buf_len.
    + by buf_simpl.
    + by buf_simpl.
    + by buf_simpl.
    + by buf_simpl.
    + intros j Hj Hne. buf_simpl. by apply Hoth.
    + intros o m Ho Hm Hx. buf_simpl. by apply Hfr.
  - unfold num_slots_. by buf_simpl.
Qed.

(** The links of the page. *)
Definition header pg : Z * Z * Z := (tp_page_id_ pg, prev_page_id_ pg, next_page_id_ pg).
Ltac solve_header :=
  unfold header, tp_page_id_, prev_page_id_, next_page_id_, sizeof_Slot, PAGE_SIZE in *;
  buf_simpl; done.

(** *** Reading slots *)
Lemma slot_eq pg r i : tp_rel pg r → (i < length (r_rows r))%nat →
  slot_length pg (Z.of_nat i) = Some (len_of pg i) ∧
  slot_offset pg (Z.of_nat i) = Some (off_of pg i).
Proof.
  intros Hr Hi. unfold slot_length, slot_offset. rewrite (slot_addr_eq _ _ _ Hr) by lia. done.
Qed.
Lemma set_slot_eq pg0 r pg i o n : tp_rel pg0 r → (i <= length (r_rows r))%nat →
  set_slot (Z.of_nat i) o n pg =
    Some (wr32 (20 + sizeof_Slot * Z.of_nat i + 4) n (wr32 (20 + sizeof_Slot * Z.of_nat i) o pg)).
Proof. intros Hr Hi. unfold set_slot. by rewrite (slot_addr_eq _ _ _ Hr). Qed.

Lemma row_len pg r i : tp_rel pg r → (i < length (r_rows r))%nat →
  len_of pg i = 0 ↔ r_rows r !! i = Some None.
Proof.
  intros Hr Hi. destruct (lookup_lt_is_Some_2 _ _ Hi) as [[t|] Hx].
  - destruct (tr_row _ _ Hr _ _ Hx) as [[_ ?] -> _ _ _]. rewrite Hx. split; [lia|done].
  - rewrite (tr_hole _ _ Hr _ Hx). done.
Qed.

Lemma find_hole pg r : tp_rel pg r →
  find_up 0 (num_slots_ pg) (λ k : Z, len ← slot_length pg k; Some (bool_decide (len = 0))) =
    Some (Z.of_nat <$> r_hole r).
Proof.
  intros Hr. rewrite (tr_count _ _ Hr).
  set (p := λ k : Z, len ← slot_length pg k; Some (bool_decide (len = 0))).
  assert (Hp : ∀ i, (i < length (r_rows r))%nat →
    p (Z.of_nat i) = Some (bool_decide (r_rows r !! i = Some None))).
  { intros i Hi. unfold p. destruct (slot_eq _ _ _ Hr Hi) as [-> _]. cbn. f_equal.
    apply bool_decide_ext. by apply row_len. }
  assert (Hn : ∀ j : Z, 0 ≤ j < r_count r → ∃ i, j = Z.of_nat i ∧ (i < length (r_rows r))%nat).
  { intros j Hj. exists (Z.to_nat j). unfold r_count in Hj. lia. }
  destruct (find_up_spec 0 (r_count r) p) as [(i & -> & Hi & Hpi & Hlt)|(-> & Hall)].
  - unfold r_count. lia.
  - intros j Hj. destruct (Hn j Hj) as (i & -> & Hi). rewrite Hp by done. by eexists.
  - destruct (Hn i Hi) as (k & -> & Hk). rewrite Hp in Hpi by done.
    injection Hpi as Hpi%bool_decide_eq_true. f_equal. unfold r_hole.
    replace (list_find (λ x, x = None) (r_rows r)) with (Some (k, @None Tuple)); [done|].
    symmetry. apply list_find_Some. split_and!; try done. intros j y Hj Hjk ->.
    specialize (Hlt (Z.of_nat j) ltac:(lia)). rewrite Hp in Hlt by (eapply lookup_lt_Some; done).
    injection Hlt as Hlt%bool_decide_eq_false. done.
  - unfold r_hole. replace (list_find (λ x, x = None) (r_rows r)) with (@None (nat * option Tuple)); [done|].
    symmetry. apply list_find_None, Forall_lookup. intros j y Hj ->.
    pose proof (lookup_lt_Some _ _ _ Hj). specialize (Hall (Z.of_nat j) ltac:(unfold r_count; lia)).
    rewrite Hp in Hall by done. injection Hall as Hall%bool_decide_eq_false. done.
Qed.

Lemma hole_row r i : r_hole r = Some i → r_rows r !! i = Some None ∧ (i < length (r_rows r))%nat.
Proof.
  unfold r_hole. destruct (list_find _ _) as [[k x]|] eqn:Hf; [|done]. cbn. intros [= <-].
  apply list_find_Some in Hf as (Hk & -> & _). split; [done|by eapply lookup_lt_Some].
Qed.
Lemma lookup_put (l : list (option Tuple)) i t : (i < length l)%nat →
  ∀ j, <[i := Some t]> l !! j = if decide (j = i) then Some (Some t) else l !! j.
Proof.
  intros Hi j. case_decide; [subst; by apply list_lookup_insert_eq|by apply list_lookup_insert_ne].
Qed.
Lemma lookup_snoc (l : list (option Tuple)) t j :
  (l ++ [Some t]) !! j = if decide (j = length l) then Some (Some t) else l !! j.
Proof.
  case_decide; [subst; by rewrite lookup_app_r, Nat.sub_diag by lia|].
  destruct (decide (j < length l)%nat); [by rewrite lookup_app_l by lia|].
  rewrite !lookup_ge_None_2; [done|lia|]. rewrite length_app. cbn. lia.
Qed.

(** *** InsertTuple *)
Lemma insert_write pg r t f : tp_rel pg r → storable t → f = r_free r - zlen (enc t) →
  20 ≤ f → Tuple_Serialize t f (wr32 8 f pg) = Some (splice f (enc t) (wr32 8 f pg)).
Proof.
  intros Hr [Hok ?] Hf Hlo. pose proof (free_bound _ _ Hr). pose proof (tr_len _ _ Hr).
  unfold PAGE_SIZE in *. apply (tuple_serialize s); [done|lia|]. buf_len.
Qed.

Lemma page_insert_spec pg r t : tp_rel pg r → storable t →
  match r_insert t r with
  | Some (i, r') => ∃ pg', TablePage_InsertTuple t pg = Some (Some i, pg') ∧ tp_rel pg' r' ∧
                      header pg' = header pg
  | None => TablePage_InsertTuple t pg = Some (None, pg)
  end.
Proof.
  intros Hr Ht. pose proof Ht as [Hok [Hpos Htl]].
  pose proof (free_bound _ _ Hr) as Hfb. pose proof (count_bound _ _ Hr) as Hcb.
  pose proof (tr_len _ _ Hr) as Hlen. pose proof (tr_bound _ _ Hr) as Hb.
  unfold TablePage_InsertTuple. rewrite (tuple_length _ _ Hok), (find_hole _ _ Hr).
  cbn [mbind option_bind]. rewrite (tr_fsp _ _ Hr).
  set (f := r_free r - zlen (enc t)). unfold r_insert.
  destruct (r_hole r) as [i|] eqn:Hh; cbn [fmap option_fmap option_map].
  - destruct (hole_row _ _ Hh) as [Hi Hil]. rewrite (no_space_eq _ _ _ Hr Hpos).
    case_decide as Hroom; [rewrite bool_decide_false by lia|by rewrite bool_decide_true by lia].
    assert (20 + sizeof_Slot * r_count r ≤ f) by (unfold f, r_room in *; lia).
    unfold r_count, sizeof_Slot, PAGE_SIZE in *. rewrite u32_small by (unfold u32_ok; lia).
    destruct (put_fresh pg r i t f Hr Ht) as [Hput Hn]; [lia|done|unfold sizeof_Slot; lia|done|].
    eexists. rewrite (insert_write _ _ _ _ Hr Ht) by (done || lia). cbn [mbind option_bind].
    rewrite (set_slot_eq _ _ _ _ _ _ Hr) by lia. split; [done|]. split; [|unfold f in *; solve_header].
    apply (tp_rel_put _ _ _ _ _ _ _ _ Hr Ht Hput); [by apply lookup_put|..];
      unfold r_room, r_count, sizeof_Slot, PAGE_SIZE; cbn; rewrite length_insert; try lia. done.
  - rewrite u32_small by (unfold u32_ok, sizeof_Slot in *; lia).
    rewrite (no_space_eq _ _ _ Hr) by (unfold sizeof_Slot; lia).
    case_decide as Hroom; [rewrite bool_decide_false by lia|by rewrite bool_decide_true by lia].
    assert (20 + sizeof_Slot * (r_count r + 1) ≤ f) by (unfold f, r_room in *; lia).
    unfold r_count, sizeof_Slot, PAGE_SIZE in *. rewrite u32_small by (unfold u32_ok; lia).
    destruct (put_fresh pg r (length (r_rows r)) t f Hr Ht) as [Hput Hn];
      [lia|done|unfold sizeof_Slot, r_count; lia..|].
    destruct (put_row_count _ _ _ _ _ _ _ (zlen (r_rows r) + 1) Hr Hput) as [Hput' Hn'];
      [lia|unfold u32_ok; lia|].
    eexists. rewrite (insert_write _ _ _ _ Hr Ht) by (done || lia). cbn [mbind option_bind].
    assert (Hns : num_slots_ (splice f (enc t) (wr32 8 f pg)) = zlen (r_rows r)).
    { unfold num_slots_. buf_simpl. apply (tr_count _ _ Hr). }
    rewrite Hns, (set_slot_eq _ _ _ _ _ _ Hr) by lia. cbn [mbind option_bind].
    rewrite u32_small by (unfold u32_ok; lia). split; [done|]. split; [|unfold f in *; solve_header].
    apply (tp_rel_put _ _ _ _ _ _ _ _ Hr Ht Hput'); [by apply lookup_snoc|..];
      unfold r_room, r_count, sizeof_Slot, PAGE_SIZE; cbn; rewrite length_app; cbn; lia.
Qed.

(** *** GetTuple *)
Lemma get_spec pg r (i : Z) : tp_rel pg r → 0 ≤ i → TablePage_GetTuple i s pg = Some (r_get r i).
Proof.
  intros Hr Hi. unfold TablePage_GetTuple, r_get. rewrite (tr_count _ _ Hr).
  unfold r_count. case_decide as Hout; [by rewrite zget_None by lia|].
  rewrite zget_lookup by done. set (k := Z.to_nat i).
  replace i with (Z.of_nat k) in * by lia. assert (Hk : (k < length (r_rows r))%nat) by lia.
  destruct (slot_eq _ _ _ Hr Hk) as [-> ->]. cbn [mbind option_bind].
  destruct (lookup_lt_is_Some_2 _ _ Hk) as [[t|] Hx]; rewrite Hx; cbn [mjoin option_join].
  - destruct (tr_row _ _ Hr _ _ Hx) as [[Hok Hpos] Hl Hlo Hhi Hd].
    rewrite Hl, decide_False by lia. pose proof (free_bound _ _ Hr).
    rewrite (tuple_deserialize s t); [done|done|lia|rewrite (tr_len _ _ Hr); lia|done].
  - by rewrite (tr_hole _ _ Hr _ Hx).
Qed.

(** *** DeleteTuple and UpdateTuple *)
Lemma get_row pg r (i : Z) t : tp_rel pg r → 0 ≤ i → r_get r i = Some t →
  ∃ k, i = Z.of_nat k ∧ (k < length (r_rows r))%nat ∧ r_rows r !! k = Some (Some t) ∧
    row_at pg (r_free r) k t.
Proof.
  intros Hr Hi. unfold r_get. rewrite zget_lookup by done.
  destruct (r_rows r !! Z.to_nat i) as [[u|]|] eqn:Hx; [|done..]. intros [= ->].
  exists (Z.to_nat i). split_and!; [lia|by eapply lookup_lt_Some|done|]. by apply (tr_row _ _ Hr).
Qed.
(** Slots that hold nothing are refused. *)
Lemma no_row pg r (i : Z) : tp_rel pg r → 0 ≤ i → r_get r i = None → i < r_count r →
  slot_length pg i = Some 0.
Proof.
  intros Hr Hi. unfold r_get, r_count. rewrite zget_lookup by done. intros Hx Hlt.
  assert (Hk : (Z.to_nat i < length (r_rows r))%nat) by lia.
  destruct (lookup_lt_is_Some_2 _ _ Hk) as [[u|] Hu]; rewrite Hu in Hx; [done|].
  destruct (slot_eq _ _ _ Hr Hk) as [Hl _]. rewrite Z2Nat.id in Hl by done.
  by rewrite Hl, (tr_hole _ _ Hr _ Hu).
Qed.

Lemma delete_spec pg r (i : Z) : tp_rel pg r → 0 ≤ i →
  match r_delete i r with
  | Some r' => ∃ pg', TablePage_DeleteTuple i pg = Some (true, pg') ∧ tp_rel pg' r' ∧
                 header pg' = header pg
  | None => TablePage_DeleteTuple i pg = Some (false, pg)
  end.
Proof.
  intros Hr Hi. unfold r_delete, TablePage_DeleteTuple. rewrite (tr_count _ _ Hr).
  destruct (r_get r i) as [t|] eqn:Hg.
  2: { case_decide; [done|]. rewrite (no_row _ _ _ Hr Hi Hg) by lia. done. }
  destruct (get_row _ _ _ _ Hr Hi Hg) as (k & -> & Hk & Hx & [[Hok Hpos] Hl _ _ _]).
  destruct (slot_eq _ _ _ Hr Hk) as [-> _]. rewrite decide_False by (unfold r_count; lia).
  cbn [mbind option_bind]. rewrite Hl, decide_False, (set_slot_eq _ _ _ _ _ _ Hr) by lia.
  eexists. split; [done|]. rewrite Nat2Z.id.
  pose proof (free_bound _ _ Hr) as Hfb. pose proof (count_bound _ _ Hr) as Hcb.
  pose proof (tr_len _ _ Hr) as Hlen. pose proof (tr_room _ _ Hr) as Hroom.
  pose proof (tr_bound _ _ Hr) as Hb. unfold r_room, r_count, sizeof_Slot, PAGE_SIZE in *.
  assert (u32_ok 0) by (unfold u32_ok; lia). split; [|solve_header].
  set (pg' := wr32 _ _ _).
  assert (Hoth : ∀ j, j ≠ k → (j < length (r_rows r))%nat →
    off_of pg' j = off_of pg j ∧ len_of pg' j = len_of pg j).
  { intros j Hne Hj. unfold pg', off_of, len_of, sizeof_Slot. buf_simpl. done. }
  split; cbn; unfold r_room, r_count, PAGE_SIZE, sizeof_Slot; cbn; rewrite ?length_insert; try done.
  - unfold pg'. by buf_len.
  - unfold pg', num_slots_. buf_simpl. apply (tr_count _ _ Hr).
  - unfold pg', free_space_pointer_. buf_simpl. apply (tr_fsp _ _ Hr).
  - intros j u. destruct (decide (j = k)) as [->|Hne]; [by rewrite list_lookup_insert_eq|].
    rewrite list_lookup_insert_ne by done. intros Hj.
    destruct (Hoth j Hne) as [Ho Hln]; [by eapply lookup_lt_Some|].
    destruct (tr_row _ _ Hr _ _ Hj) as [? ? ? ? Hd]. split; rewrite ?Ho, ?Hln; try done.
    etrans; [|exact Hd]. unfold pg'. buf_simpl. done.
  - intros j. destruct (decide (j = k)) as [->|Hne].
    + intros _. unfold pg', len_of, sizeof_Slot. buf_simpl. done.
    + rewrite list_lookup_insert_ne by done. intros Hj.
      destruct (Hoth j Hne) as [_ ->]; [by eapply lookup_lt_Some|]. by apply (tr_hole _ _ Hr).
  - intros j l u v Hjl. destruct (decide (j = k)) as [->|Hj]; [by rewrite list_lookup_insert_eq|].
    destruct (decide (l = k)) as [->|Hl']; [by rewrite (list_lookup_insert_eq _ k)|].
    rewrite !list_lookup_insert_ne by done. intros Hu Hv.
    destruct (Hoth j Hj) as [-> _]; [by eapply lookup_lt_Some|].
    destruct (Hoth l Hl') as [-> _]; [by eapply lookup_lt_Some|]. by apply (tr_apart _ _ Hr j l).
Qed.

(** Overwriting a row in place by one that is not longer. *)
Lemma put_in_place pg r k t u : tp_rel pg r → storable t → r_rows r !! k = Some (Some u) →
  zlen (enc t) ≤ zlen (enc u) →
  let pg' := wr32 (20 + sizeof_Slot * Z.of_nat k + 4) (zlen (enc t)) (splice (off_of pg k) (enc t) pg) in
  put_row pg r k t (off_of pg k) pg' (r_free r) ∧ num_slots_ pg' = r_count r ∧ header pg' = header pg.
Proof.
  intros Hr [Hok Hpos] Hx Hle. destruct (tr_row _ _ Hr _ _ Hx) as [[_ _] _ Hlo Hhi _].
  pose proof (lookup_lt_Some _ _ _ Hx) as Hk. pose proof (tok_len _ _ Hok) as Htl.
  pose proof (free_bound _ _ Hr) as Hfb. pose proof (count_bound _ _ Hr) as Hcb.
  pose proof (tr_len _ _ Hr) as Hlen. pose proof (tr_room _ _ Hr) as Hroom.
  assert (Hap : ∀ j v, j ≠ k → r_rows r !! j = Some (Some v) →
    apart (off_of pg k) (zlen (enc u)) (off_of pg j) (zlen (enc v))).
  { intros j v Hne Hj. by apply (tr_apart _ _ Hr k j). }
  unfold r_room, r_count, sizeof_Slot, PAGE_SIZE, apart in *.
  assert (u32_ok (zlen (enc t))) by (unfold u32_ok; lia).
  set (off := off_of pg k) in *. split_and!.
  - split; unfold free_space_pointer_, len_of, apart, sizeof_Slot, PAGE_SIZE in *; try lia.
    + buf_len.
    + buf_simpl. apply (tr_fsp _ _ Hr).
    + unfold off_of, sizeof_Slot. buf_simpl. done.
    + buf_simpl. done.
    + buf_simpl. done.
    + intros j Hj Hne. unfold off_of, sizeof_Slot. buf_simpl. done.
    + intros o n Ho Hn Ho'. buf_simpl. done.
    + intros j v Hne Hj. specialize (Hap j v Hne Hj). lia.
  - unfold num_slots_. buf_simpl. apply (tr_count _ _ Hr).
  - solve_header.
Qed.

Lemma update_spec pg r (i : Z) t : tp_rel pg r → 0 ≤ i → storable t →
  match r_update i t r with
  | Some r' => ∃ pg', TablePage_UpdateTuple i t pg = Some (true, pg') ∧ tp_rel pg' r' ∧
                 header pg' = header pg
  | None => TablePage_UpdateTuple i t pg = Some (false, pg)
  end.
Proof.
  intros Hr Hi Ht. pose proof Ht as [Hok [Hpos _]]. unfold r_update, TablePage_UpdateTuple.
  rewrite (tr_count _ _ Hr), (tuple_length _ _ Hok).
  destruct (r_get r i) as [u|] eqn:Hg.
  2: { case_decide; [done|]. rewrite (no_row _ _ _ Hr Hi Hg) by lia. done. }
  destruct (get_row _ _ _ _ Hr Hi Hg) as (k & -> & Hk & Hx & [[_ Hposu] Hl Hlo Hhi _]).
  destruct (slot_eq _ _ _ Hr Hk) as [-> ->]. rewrite (decide_False (P := r_count r ≤ Z.of_nat k)) by (unfold r_count; lia).
  cbn [mbind option_bind]. rewrite Hl, (decide_False (P := zlen (enc u) = 0)), Nat2Z.id by lia.
  pose proof (free_bound _ _ Hr) as Hfb. pose proof (tr_len _ _ Hr) as Hlen.
  pose proof (tr_room _ _ Hr) as Hroom. pose proof (tr_bound _ _ Hr) as Hb.
  case_decide as Hfit.
  - rewrite (tuple_serialize s) by (done || lia). cbn [mbind option_bind].
    unfold set_slot_length. rewrite (slot_addr_eq _ _ _ Hr) by lia. cbn [mbind option_bind].
    destruct (put_in_place _ _ _ _ _ Hr Ht Hx Hfit) as (Hput & Hn & Hhd).
    eexists. split; [done|]. split; [|done].
    apply (tp_rel_put _ _ _ _ _ _ _ _ Hr Ht Hput); [by apply lookup_put|..];
      unfold r_room, r_count in *; cbn; rewrite length_insert; done.
  - rewrite (no_space_eq _ _ _ Hr Hpos).
    case_decide as Hroom2; [rewrite bool_decide_false by lia|by rewrite bool_decide_true by lia].
    rewrite (tr_fsp _ _ Hr). set (f := r_free r - zlen (enc t)).
    assert (20 + sizeof_Slot * r_count r ≤ f) by (unfold f, r_room in *; lia).
    unfold r_room, r_count, sizeof_Slot, PAGE_SIZE in *. rewrite u32_small by (unfold u32_ok; lia).
    destruct (put_fresh pg r k t f Hr Ht) as [Hput Hn]; [lia|done|unfold sizeof_Slot; lia|done|].
    rewrite (insert_write _ _ _ _ Hr Ht) by (done || lia). cbn [mbind option_bind].
    rewrite (set_slot_eq _ _ _ _ _ _ Hr) by lia. eexists. split; [done|].
    pose proof (tok_len _ _ Hok). split; [|unfold f in *; solve_header].
    apply (tp_rel_put _ _ _ _ _ _ _ _ Hr Ht Hput); [by apply lookup_put|..];
      unfold r_room, r_count, sizeof_Slot, PAGE_SIZE in *; cbn; rewrite length_insert; try done; lia.
Qed.

(** *** Init and SetNextPageId *)
Lemma page_init_spec pg p prev : zlen pg = PAGE_SIZE → u32_ok p → u32_ok prev →
  tp_rel (TablePage_Init p prev pg) (mkRows [] PAGE_SIZE) ∧
  header (TablePage_Init p prev pg) = (p, prev, INVALID_PAGE_ID).
Proof.
  intros Hlen Hp Hprev. unfold TablePage_Init, INVALID_PAGE_ID, PAGE_SIZE in *.
  assert (u32_ok 0 ∧ u32_ok 4096 ∧ u32_ok 0xFFFFFFFF) as (? & ? & ?) by (unfold u32_ok; lia).
  split.
  - split; cbn; unfold r_room, r_count, sizeof_Slot, PAGE_SIZE; cbn; try done.
    all: unfold num_slots_, free_space_pointer_; first [by buf_simpl | buf_len].
  - unfold header, tp_page_id_, prev_page_id_, next_page_id_. by buf_simpl.
Qed.

Lemma set_next_spec pg r p : tp_rel pg r → u32_ok p →
  tp_rel (SetNextPageId p pg) r ∧
  header (SetNextPageId p pg) = (tp_page_id_ pg, prev_page_id_ pg, p).
Proof.
  intros Hr Hp. pose proof (free_bound _ _ Hr) as Hfb. pose proof (tr_len _ _ Hr) as Hlen.
  pose proof (count_bound _ _ Hr) as Hcb. unfold SetNextPageId, PAGE_SIZE in *. split.
  - assert (Hs : ∀ j, off_of (wr32 16 p pg) j = off_of pg j ∨ (453 < j)%nat).
    { intros j. destruct (decide (453 < j)%nat); [by right|left]. unfold off_of, sizeof_Slot.
      by buf_simpl. }
    assert (Hoff : ∀ j, (j < length (r_rows r))%nat → off_of (wr32 16 p pg) j = off_of pg j).
    { intros j Hj. destruct (Hs j); [done|]. unfold r_count in *. lia. }
    assert (Hl : ∀ j, (j < length (r_rows r))%nat → len_of (wr32 16 p pg) j = len_of pg j).
    { intros j Hj. unfold len_of, sizeof_Slot, r_count in *. by buf_simpl. }
    split; try apply Hr.
    + unfold PAGE_SIZE. by buf_len.
    + unfold num_slots_. buf_simpl. apply Hr.
    + unfold free_space_pointer_. buf_simpl. apply Hr.
    + intros i t Hi. pose proof (lookup_lt_Some _ _ _ Hi) as Hil.
      destruct (tr_row _ _ Hr _ _ Hi). split; rewrite ?Hoff, ?Hl by done; try done.
      unfold PAGE_SIZE in *. by buf_simpl.
    + intros i Hi. pose proof (lookup_lt_Some _ _ _ Hi) as Hil. rewrite Hl by done. by apply Hr.
    + intros i j t u Hne Hi Hj. pose proof (lookup_lt_Some _ _ _ Hi).
      pose proof (lookup_lt_Some _ _ _ Hj). rewrite !Hoff by done. by apply (tr_apart _ _ Hr i j).
  - unfold header, tp_page_id_, prev_page_id_, next_page_id_. by buf_simpl.
Qed.
End page.

(** An insert fills the row it reports and no other. *)
Lemma r_insert_get t r k r' : r_insert t r = Some (k, r') →
  0 ≤ k ∧ r_get r' k = Some t ∧ ∀ i, 0 ≤ i → i ≠ k → r_get r' i = r_get r i.
Proof.
  unfold r_insert, r_get. destruct (r_hole r) as [i|] eqn:Hh; case_decide; [|done| |done].
  - destruct (hole_row _ _ Hh) as [_ Hil]. intros [= <- <-]. split; [lia|]. cbn.
    rewrite !zget_lookup, Nat2Z.id, lookup_put by lia. rewrite decide_True by done. split; [done|].
    intros j Hj Hne. rewrite !zget_lookup, lookup_put by lia. by rewrite decide_False by lia.
  - unfold r_count. intros [= <- <-]. split; [lia|]. cbn.
    rewrite !zget_lookup, Nat2Z.id, lookup_snoc by lia. rewrite decide_True by done. split; [done|].
    intros j Hj Hne. rewrite !zget_lookup, lookup_snoc by lia. by rewrite decide_False by lia.
Qed.

(** ** Sequences of calls *)
Inductive row_op :=
| RowInsert (t : Tuple)
| RowGet (i : Z)
| RowDelete (i : Z)
| RowUpdate (i : Z) (t : Tuple).
Inductive row_res := ResSlot (o : option Z) | ResTuple (o : option Tuple) | ResBool (b : bool).

Definition page_exec (s : Schema) (op : row_op) (pg : TablePage) : option (row_res * TablePage) :=
  match op with
  | RowInsert t => '(o, pg) ← TablePage_InsertTuple t pg; Some (ResSlot o, pg)
  | RowGet i => o ← TablePage_GetTuple i s pg; Some (ResTuple o, pg)
  | RowDelete i => '(b, pg) ← TablePage_DeleteTuple i pg; Some (ResBool b, pg)
  | RowUpdate i t => '(b, pg) ← TablePage_UpdateTuple i t pg; Some (ResBool b, pg)
  end.
Definition rows_exec (op : row_op) (r : rows) : row_res * rows :=
  match op with
  | RowInsert t =>
      match r_insert t r with Some (i, r') => (ResSlot (Some i), r') | None => (ResSlot None, r) end
  | RowGet i => (ResTuple (r_get r i), r)
  | RowDelete i =>
      match r_delete i r with Some r' => (ResBool true, r') | None => (ResBool false, r) end
  | RowUpdate i t =>
      match r_update i t r with Some r' => (ResBool true, r') | None => (ResBool false, r) end
  end.
Fixpoint page_run (s : Schema) (ops : list row_op) (pg : TablePage) : option (list row_res * TablePage) :=
  match ops with
  | [] => Some ([], pg)
  | op :: ops => '(x, pg) ← page_exec s op pg; '(xs, pg) ← page_run s ops pg; Some (x :: xs, pg)
  end.
Fixpoint rows_run (ops : list row_op) (r : rows) : list row_res * rows :=
  match ops with
  | [] => ([], r)
  | op :: ops => let '(x, r) := rows_exec op r in let '(xs, r) := rows_run ops r in (x :: xs, r)
  end.

(** Slot numbers are unsigned, tuples belong to the schema. *)
Definition row_op_ok (s : Schema) (op : row_op) : Prop :=
  match op with
  | RowInsert t => storable s t
  | RowGet i | RowDelete i => 0 ≤ i
  | RowUpdate i t => 0 ≤ i ∧ storable s t
  end.

Lemma page_exec_sim s op pg r : tp_rel s pg r → row_op_ok s op →
  ∃ pg', page_exec s op pg = Some ((rows_exec op r).1, pg') ∧ tp_rel s pg' (rows_exec op r).2.
Proof.
  intros Hr Hok. destruct op as [t|i|i|i t]; cbn in Hok; cbn [page_exec rows_exec].
  - pose proof (page_insert_spec s pg r t Hr Hok) as H. destruct (r_insert t r) as [[i r']|].
    + destruct H as (pg' & -> & ? & _). by exists pg'.
    + rewrite H. by exists pg.
  - rewrite (get_spec s pg r i Hr Hok). by exists pg.
  - pose proof (delete_spec s pg r i Hr Hok) as H. destruct (r_delete i r).
    + destruct H as (pg' & -> & ? & _). by exists pg'.
    + rewrite H. by exists pg.
  - destruct Hok as [Hi Ht]. pose proof (update_spec s pg r i t Hr Hi Ht) as H.
    destruct (r_update i t r).
    + destruct H as (pg' & -> & ? & _). by exists pg'.
    + rewrite H. by exists pg.
Qed.

(** ** Properties *)

(** C14 (refinement). A [TablePage] implements an array of rows: whatever sequence
    of inserts, reads, deletes and updates is made on it, the page answers as the
    array does - the slot reported by an insert is the first empty one or a new
    one, an insert or a growing update fails exactly when the free space between
    the slot array and the tuples is too small, reads return the tuple stored
    last, slots that hold nothing are refused - and no call ever reads or writes
    outside the page or outside [slots_[500]]. *)
Theorem table_page_refines_rows s ops pg r :
  tp_rel s pg r → Forall (row_op_ok s) ops →
  ∃ pg', page_run s ops pg = Some ((rows_run ops r).1, pg') ∧ tp_rel s pg' (rows_run ops r).2.
Proof.
  revert pg r. induction ops as [|op ops IH]; intros pg r Hr Hok; [by exists pg|].
  apply Forall_cons in Hok as [Hop Hok].
  destruct (page_exec_sim s op pg r Hr Hop) as (pg1 & Hex & Hr1). cbn [page_run rows_run].
  rewrite Hex. destruct (rows_exec op r) as [x r1]. cbn in *.
  destruct (IH pg1 r1 Hr1 Hok) as (pg2 & -> & Hr2). cbn.
  destruct (rows_run ops r1) as [xs r2]. by exists pg2.
Qed.

Definition sample_page : TablePage := TablePage_Init 3 INVALID_PAGE_ID zero_page.
Lemma sample_page_rel : tp_rel sample_schema sample_page (mkRows [] PAGE_SIZE).
Proof.
  apply page_init_spec; [apply zlen_zero_page|unfold u32_ok; lia|unfold u32_ok, INVALID_PAGE_ID; lia].
Qed.
Definition longer_tuple : Tuple :=
  mkTuple [Value_int 9; Value_varchar (replicate 6 Byte.x5a); Value_bool false].
Definition sample_ops : list row_op :=
  [RowInsert sample_tuple; RowInsert longer_tuple; RowDelete 0; RowUpdate 1 sample_tuple;
   RowInsert longer_tuple; RowGet 0; RowGet 1; RowGet 2; RowDelete 7].
Lemma sample_storable : storable sample_schema sample_tuple.
Proof. split; [apply sample_tuple_ok|]. split; vm_compute; reflexivity. Qed.
Lemma longer_storable : storable sample_schema longer_tuple.
Proof.
  split; [|split; vm_compute; reflexivity]. split; [|vm_compute; reflexivity].
  unfold sample_schema, longer_tuple. cbn. repeat constructor; vm_compute; done.
Qed.
Lemma sample_ops_ok : Forall (row_op_ok sample_schema) sample_ops.
Proof.
  repeat constructor; cbn; first [apply sample_storable | apply longer_storable | lia].
Qed.
Lemma table_page_refines_rows_witness :
  ∃ pg', page_run sample_schema sample_ops sample_page =
    Some ([ResSlot (Some 0); ResSlot (Some 1); ResBool true; ResBool true; ResSlot (Some 0);
           ResTuple (Some longer_tuple); ResTuple (Some sample_tuple); ResTuple None; ResBool false],
          pg') ∧ tp_rel sample_schema pg' (rows_run sample_ops (mkRows [] PAGE_SIZE)).2.
Proof.
  apply (table_page_refines_rows sample_schema sample_ops sample_page (mkRows [] PAGE_SIZE));
    [apply sample_page_rel|apply sample_ops_ok].
Defined.

(** A tuple that [InsertTuple] accepted is what [GetTuple] returns
    for the reported slot, every other slot reads as before, and the links of the
    page to its neighbours are untouched. *)
Theorem table_page_insert_get s pg r t slot pg' :
  tp_rel s pg r → storable s t → TablePage_InsertTuple t pg = Some (Some slot, pg') →
  TablePage_GetTuple slot s pg' = Some (Some t) ∧ header pg' = header pg ∧
  ∀ i, 0 ≤ i → i ≠ slot → TablePage_GetTuple i s pg' = TablePage_GetTuple i s pg.
Proof.
  intros Hr Ht Hins. pose proof (page_insert_spec s pg r t Hr Ht) as H.
  destruct (r_insert t r) as [[k r']|] eqn:Hri; [|congruence].
  destruct H as (pg1 & Hex & Hr' & Hh). rewrite Hex in Hins. injection Hins as -> ->.
  destruct (r_insert_get _ _ _ _ Hri) as (Hk & Hget & Hoth).
  rewrite (get_spec s pg' r' slot Hr' Hk), Hget. split; [done|]. split; [done|].
  intros i Hi Hne. rewrite (get_spec s pg' r' i Hr' Hi), (get_spec s pg r i Hr Hi).
  by rewrite Hoth.
Qed.
Lemma table_page_insert_get_witness :
  TablePage_GetTuple 0 sample_schema
    (default [] (snd <$> TablePage_InsertTuple sample_tuple sample_page)) = Some (Some sample_tuple) ∧
  header (default [] (snd <$> TablePage_InsertTuple sample_tuple sample_page)) = header sample_page ∧
  ∀ i, 0 ≤ i → i ≠ 0 → TablePage_GetTuple i sample_schema
    (default [] (snd <$> TablePage_InsertTuple sample_tuple sample_page)) =
    TablePage_GetTuple i sample_schema sample_page.
Proof.
  apply (table_page_insert_get sample_schema sample_page (mkRows [] PAGE_SIZE) sample_tuple 0);
    [apply sample_page_rel|apply sample_storable|]. vm_compute. reflexivity.
Defined.
