(* ===== verification/TableHeap.v ===== *)
(** Table heaps and the table catalog ([table_heap.hpp], [table_catalog.hpp]):
    chains of slotted pages, as programs over the buffer pool.  The theorems
    relate a heap to a chain of row arrays. *)
From Stdlib Require Import ZArith Lia.
From Stdlib Require Strings.Byte.
From stdpp Require Import base list gmap strings.
From S2P Require Import Prelude Types DiskManager Replacer BufferPool PageStore Tuple TablePage.
Open Scope Z_scope.

(** ** TableHeap

    The state of a [TableHeap] is [first_page_id_]; [RID*] results are returned,
    [None] standing for [false]. *)

Definition TableHeap_new : prog page_id_t :=
  o ← call New;
  match o with
  | None => mret INVALID_PAGE_ID
  | Some first_page_id =>
      d ← call (Read first_page_id);
      _ ← call (Write first_page_id (TablePage_Init first_page_id INVALID_PAGE_ID d));
      _ ← call (Unpin first_page_id true);
      mret first_page_id
  end.

(** The branch of [InsertTuple] that appends a page after page [curr_id], whose
    bytes are [d].  [slot_num] is indeterminate when no insert succeeded. *)
Definition heap_append (tuple : Tuple) (curr_id : page_id_t) (d : list byte) : prog (option RID) :=
  o ← call New;
  match o with
  | None => _ ← call (Unpin curr_id false); mret None
  | Some new_page_id =>
      nd ← call (Read new_page_id);
      _ ← call (Write new_page_id (TablePage_Init new_page_id curr_id nd));
      _ ← call (Write curr_id (SetNextPageId new_page_id d));
      nd ← call (Read new_page_id);
      '(slot, nd) ← from_mem (TablePage_InsertTuple tuple nd);
      _ ← call (Write new_page_id nd);
      slot_num ← from_mem slot;
      _ ← call (Unpin curr_id true);
      _ ← call (Unpin new_page_id true);
      mret (Some (mkRID new_page_id slot_num))
  end.

(** The loop over the chain, with fuel: one unit per page. *)
Fixpoint heap_insert (fuel : nat) (tuple : Tuple) (curr_id : page_id_t) : prog (option RID) :=
  match fuel with
  | O => PUB
  | S fuel =>
      if decide (curr_id = INVALID_PAGE_ID) then mret None else
      page ← call (Fetch curr_id);
      if negb page then mret None else
      d ← call (Read curr_id);
      '(slot, d') ← from_mem (TablePage_InsertTuple tuple d);
      match slot with
      | Some slot_num =>
          _ ← call (Write curr_id d');
          _ ← call (Unpin curr_id true);
          mret (Some (mkRID curr_id slot_num))
      | None =>
          let next_id := next_page_id_ d in
          if decide (next_id = INVALID_PAGE_ID) then heap_append tuple curr_id d
          else _ ← call (Unpin curr_id false); heap_insert fuel tuple next_id
      end
  end.

Definition TableHeap_GetTuple (rid : RID) (schema : Schema) : prog (option Tuple) :=
  page ← call (Fetch (rid_page_id rid));
  if negb page then mret None else
  d ← call (Read (rid_page_id rid));
  t ← from_mem (TablePage_GetTuple (rid_slot_num rid) schema d);
  _ ← call (Unpin (rid_page_id rid) false);
  mret t.

(** [UpdateTuple] and [DeleteTuple] differ in the page method they call. *)
Definition heap_modify (rid : RID) (m : list byte → option (bool * list byte)) : prog bool :=
  page ← call (Fetch (rid_page_id rid));
  if negb page then mret false else
  d ← call (Read (rid_page_id rid));
  '(status, d') ← from_mem (m d);
  _ ← (if (status : bool) then call (Write (rid_page_id rid) d') else mret tt);
  _ ← call (Unpin (rid_page_id rid) status);
  mret status.
Definition TableHeap_UpdateTuple (rid : RID) (new_tuple : Tuple) : prog bool :=
  heap_modify rid (TablePage_UpdateTuple (rid_slot_num rid) new_tuple).
Definition TableHeap_DeleteTuple (rid : RID) : prog bool :=
  heap_modify rid (TablePage_DeleteTuple (rid_slot_num rid)).

(** ** TableCatalog *)
Record TableMetadata := mkTableMetadata {
  tm_name : string;
  tm_schema : Schema;
  tm_first_page_id : page_id_t;
  tm_index_root_id : page_id_t;
}.
Abbreviation TableCatalog := (gmap string TableMetadata).

Definition CreateTable (name : string) (schema : Schema) (first_page_id index_root_id : page_id_t)
    (tables : TableCatalog) : TableCatalog :=
  <[name := mkTableMetadata name schema first_page_id index_root_id]> tables.
Definition GetTableMetadata (name : string) (tables : TableCatalog) : option TableMetadata :=
  tables !! name.
Definition UpdateIndexRoot (name : string) (new_root : page_id_t) (tables : TableCatalog)
    : TableCatalog :=
  match tables !! name with
  | None => tables
  | Some m =>
      <[name := mkTableMetadata (tm_name m) (tm_schema m) (tm_first_page_id m) new_root]> tables
  end.

(** ** The abstract heap: the row arrays of the pages, in chain order *)
Abbreviation chain_rows := (list (page_id_t * rows)).

Definition ch_next (ch : chain_rows) (k : nat) : page_id_t :=
  match ch !! S k with Some (q, _) => q | None => INVALID_PAGE_ID end.
Definition ch_first (ch : chain_rows) : page_id_t :=
  match ch with (p, _) :: _ => p | [] => INVALID_PAGE_ID end.

(** What page [p] of the chain holds: [ch_get ch rid]. *)
Fixpoint ch_get (ch : chain_rows) (rid : RID) : option Tuple :=
  match ch with
  | [] => None
  | (p, r) :: ch => if decide (p = rid_page_id rid) then r_get r (rid_slot_num rid) else ch_get ch rid
  end.

(** The rows of a page are replaced. *)
Fixpoint ch_put (p : page_id_t) (r' : rows) (ch : chain_rows) : chain_rows :=
  match ch with
  | [] => []
  | (q, r) :: ch => if decide (q = p) then (q, r') :: ch else (q, r) :: ch_put p r' ch
  end.

Definition empty_rows : rows := mkRows [] PAGE_SIZE.

(** An insert takes the first page with room, or the page [fresh]. *)
Fixpoint ch_insert (t : Tuple) (fresh : page_id_t) (ch : chain_rows) : option (RID * chain_rows) :=
  match ch with
  | [] =>
      '(i, r') ← r_insert t empty_rows; Some (mkRID fresh i, [(fresh, r')])
  | (p, r) :: ch =>
      match r_insert t r with
      | Some (i, r') => Some (mkRID p i, (p, r') :: ch)
      | None => '(rid, ch') ← ch_insert t fresh ch; Some (rid, (p, r) :: ch')
      end
  end.

(** The row an insert reports was empty. *)
Lemma r_insert_none t r k r' : r_insert t r = Some (k, r') → r_get r k = None.
Proof.
  unfold r_insert, r_get. destruct (r_hole r) as [i|] eqn:Hh; case_decide; [|done| |done].
  - destruct (hole_row _ _ Hh) as [Hi _]. intros [= <- <-].
    by rewrite zget_lookup, Nat2Z.id, Hi by lia.
  - unfold r_count. intros [= <- <-]. by rewrite zget_None by lia.
Qed.
Lemma ch_insert_page t q ch rid ch' : ch_insert t q ch = Some (rid, ch') →
  rid_page_id rid = q ∨ rid_page_id rid ∈ ch.*1.
Proof.
  revert rid ch'. induction ch as [|[p r] ch IH]; intros rid ch'; cbn [ch_insert].
  - destruct (r_insert t empty_rows) as [[i r']|]; [|done]. intros [= <- <-]. by left.
  - destruct (r_insert t r) as [[i r']|]; [intros [= <- <-]; right; by left|].
    destruct (ch_insert t q ch) as [[rid' suf]|]; [|done]. cbn. intros [= -> <-].
    destruct (IH _ _ eq_refl); [by left|right; by right].
Qed.

Lemma ch_get_page ch rid t : ch_get ch rid = Some t →
  ∃ k r, ch !! k = Some (rid_page_id rid, r).
Proof.
  induction ch as [|[p r] ch IH]; [done|]. cbn [ch_get]. case_decide as Hp.
  - intros _. exists 0%nat, r. by rewrite <- Hp.
  - intros (k & r' & Hk)%IH. by exists (S k), r'.
Qed.

Section heap.
Context (sch : Schema).
Implicit Types (live : gmap page_id_t (list byte)) (ch : chain_rows) (a : alloc_state).

(** *** Representation *)
Record heap_rel live ch : Prop := {
  hr_page k p r : ch !! k = Some (p, r) →
    ∃ pg, live !! p = Some pg ∧ tp_rel sch pg r ∧ next_page_id_ pg = ch_next ch k;
  hr_nodup : NoDup ch.*1;
}.

Lemma ch_id_inj live ch j k p r r' : heap_rel live ch →
  ch !! j = Some (p, r) → ch !! k = Some (p, r') → j = k.
Proof.
  intros Hh Hj Hk. eapply (NoDup_lookup ch.*1); [apply Hh|..]; rewrite list_lookup_fmap.
  - by rewrite Hj.
  - by rewrite Hk.
Qed.
Lemma ch_next_insert ch k p r r' j : ch !! k = Some (p, r) →
  ch_next (<[k := (p, r')]> ch) j = ch_next ch j.
Proof.
  intros Hk. unfold ch_next. destruct (decide (S j = k)) as [<-|].
  - rewrite list_lookup_insert_eq by (by eapply lookup_lt_Some). by rewrite Hk.
  - by rewrite list_lookup_insert_ne.
Qed.

(** One page of the chain is rewritten. *)
Lemma heap_put live ch k p r pg' r' : heap_rel live ch → ch !! k = Some (p, r) →
  tp_rel sch pg' r' → next_page_id_ pg' = ch_next ch k →
  heap_rel (<[p := pg']> live) (<[k := (p, r')]> ch).
Proof.
  intros Hh Hk Hr Hn. pose proof (lookup_lt_Some _ _ _ Hk) as Hlt. split.
  - intros j q u. rewrite (ch_next_insert _ _ _ _ _ _ Hk).
    destruct (decide (j = k)) as [->|Hne].
    + rewrite list_lookup_insert_eq by done. intros [= <- <-]. exists pg'.
      by rewrite lookup_insert_eq.
    + rewrite list_lookup_insert_ne by done. intros Hj.
      destruct (hr_page _ _ Hh _ _ _ Hj) as (pg & Hp & ?). exists pg.
      rewrite lookup_insert_ne; [done|]. intros ->. apply Hne. by eapply ch_id_inj.
  - rewrite list_fmap_insert. cbn. rewrite list_insert_id; [apply Hh|].
    by rewrite list_lookup_fmap, Hk.
Qed.

(** A page is linked behind the last one. *)
Lemma heap_snoc live ch p r q rq pg' pgq : heap_rel live ch →
  last ch = Some (p, r) → q ∉ ch.*1 →
  tp_rel sch pg' r → next_page_id_ pg' = q →
  tp_rel sch pgq rq → next_page_id_ pgq = INVALID_PAGE_ID →
  heap_rel (<[q := pgq]> (<[p := pg']> live)) (ch ++ [(q, rq)]).
Proof.
  intros Hh Hlast Hq Hr Hn Hrq Hnq. rewrite last_lookup in Hlast.
  pose proof (lookup_lt_Some _ _ _ Hlast) as Hlt.
  assert (Hne : ∀ k u v, ch !! k = Some (u, v) → q ≠ u).
  { intros k u v Hk ->. apply Hq. apply list_elem_of_fmap. exists (u, v).
    split; [done|]. by eapply list_elem_of_lookup_2. }
  split.
  - intros k u v Hk. unfold ch_next. apply lookup_app_Some in Hk as [Hk|[Hge Hk]].
    + rewrite lookup_insert_ne by by eapply Hne.
      destruct (decide (k = pred (length ch))) as [->|Hkl].
      * rewrite Hlast in Hk. simplify_eq. exists pg'. rewrite lookup_insert_eq.
        rewrite lookup_app_r by lia.
        replace (S (pred (length ch)) - length ch)%nat with 0%nat by lia. done.
      * destruct (hr_page _ _ Hh _ _ _ Hk) as (pg & Hp & Hpr & Hpn). exists pg.
        rewrite lookup_insert_ne; [|intros ->; apply Hkl; by eapply ch_id_inj].
        pose proof (lookup_lt_Some _ _ _ Hk). rewrite lookup_app_l by lia. done.
    + destruct (k - length ch)%nat eqn:Hkk; [|done]. cbn in Hk. simplify_eq. exists pgq.
      rewrite lookup_insert_eq. rewrite lookup_ge_None_2; [done|]. rewrite length_app. cbn. lia.
  - rewrite fmap_app. apply NoDup_snoc; [apply Hh|done].
Qed.

Lemma heap_frame live live' ch : heap_rel live ch →
  (∀ p, p ∈ ch.*1 → live' !! p = live !! p) → heap_rel live' ch.
Proof.
  intros Hh Hf. split; [|apply Hh]. intros k p r Hk.
  destruct (hr_page _ _ Hh _ _ _ Hk) as (pg & Hp & ?). exists pg. rewrite Hf; [done|].
  apply list_elem_of_fmap. exists (p, r). split; [done|by eapply list_elem_of_lookup_2].
Qed.

Lemma not_in_chain live ch q : heap_rel live ch → live !! q = None → q ∉ ch.*1.
Proof.
  intros Hh Hq ([u v] & -> & [j Hj]%list_elem_of_lookup_1)%list_elem_of_fmap.
  destruct (hr_page _ _ Hh _ _ _ Hj) as (? & Hp & _). cbn in Hq. congruence.
Qed.

(** *** Appending a page *)
Lemma flagged_both (q c : page_id_t) (W : gset page_id_t) : q ∉ W → c ∉ W →
  unpin_W true q (unpin_W true c ({[q]} ∪ ({[c]} ∪ ({[q]} ∪ ({[q]} ∪ W))))) = W.
Proof. cbn. set_solver. Qed.

(** *** The other users of the pool

    They hold the pins [m]; what they wrote and did not flag yet is pinned.  The
    pages of the chain are not theirs. *)
Context (W : gset page_id_t) (m : gmap page_id_t Z) (HW : ∀ p, p ∈ W → is_Some (m !! p)).
Definition unused ch : Prop := ∀ p, p ∈ ch.*1 → m !! p = None.

Lemma unused_at ch k p r : unused ch → ch !! k = Some (p, r) → m !! p = None ∧ p ∉ W.
Proof.
  intros Hu Hk. assert (Hp : m !! p = None).
  { apply Hu, list_elem_of_fmap. exists (p, r). split; [done|by eapply list_elem_of_lookup_2]. }
  split; [done|]. intros [? ?]%HW. congruence.
Qed.
Lemma fresh_unused a q : pins_ok m a → al_live a !! q = None → m !! q = None ∧ q ∉ W.
Proof.
  intros Hm Hq. assert (Hp : m !! q = None).
  { apply eq_None_not_Some. intros [k Hk]. destruct (Hm q k Hk) as [_ [? ?]]. congruence. }
  split; [done|]. intros [? ?]%HW. congruence.
Qed.

(** The calls of [heap_append], given what the pages are. *)
Lemma append_pages t c d a q a1 n i pg1 : let pg0 := TablePage_Init q c zero_page in let pg2 := SetNextPageId q d in
  let a2 := set_live q pg1 (set_live c pg2 (set_live q pg0 a1)) in
  alloc_ok a → pins_ok m a → fresh_page a = Some (q, a1) → al_live a1 = <[q := zero_page]> (al_live a) → q ≠ c →
  is_Some (al_live a !! c) → Z.of_nat (size m) + 1 < n → zlen pg0 = PAGE_SIZE → zlen pg2 = PAGE_SIZE → zlen pg1 = PAGE_SIZE →
  TablePage_InsertTuple t pg0 = Some (Some i, pg1) → pins_ok m a2 →
  run_store (heap_append t c d) (mkStore a W (pin c m) n) =
    Some (Ret (Some (mkRID q i)), mkStore a2 (unpin_W true q (unpin_W true c ({[q]} ∪ ({[c]} ∪ ({[q]} ∪ ({[q]} ∪ W)))))) m n).
Proof.
  intros pg0 pg2 a2 Ha Hm Hf Hl1 Hqc Hc Hn Hz0 Hz2 Hz1 Hex Hm2. pose proof (size_pin c m) as Hsz. unfold heap_append.
  run_step (exact (step_new_pin a W (pin c m) n q a1 Ha ltac:(by apply pins_ok_pin) Hf ltac:(lia))).
  run_step (apply step_read; [apply pin_self|by rewrite Hl1, lookup_insert_eq]).
  run_step (apply step_write; [apply pin_self|exact Hz0]).
  run_step (apply step_write; [apply pin_keep, pin_self|exact Hz2]).
  run_step (apply step_read; [apply pin_self|cbn; by rewrite lookup_insert_ne, lookup_insert_eq by done]).
  change (TablePage_Init q c zero_page) with pg0. rewrite Hex, run_mem. cbv beta iota.
  run_step (apply step_write; [apply pin_self|exact Hz1]). rewrite run_mem, pin_comm.
  run_step (apply step_drop; [|by left]; apply pins_ok_pin; [exact Hm2|cbn; rewrite lookup_insert_eq; by eauto]).
  by run_step (apply step_drop; [exact Hm2|by left]).
Qed.

Lemma append_run t c d a q a1 n ch r i r' :
  alloc_ok a → pins_ok m a → unused ch → fresh_page a = Some (q, a1) → Z.of_nat (size m) + 1 < n →
  al_live a !! c = Some d → heap_rel (al_live a) ch → last ch = Some (c, r) →
  storable sch t → r_insert t empty_rows = Some (i, r') →
  ∃ a2, run_store (heap_append t c d) (mkStore a W (pin c m) n) =
      Some (Ret (Some (mkRID q i)), mkStore a2 W m n) ∧
    alloc_ok a2 ∧ pins_ok m a2 ∧ heap_rel (al_live a2) (ch ++ [(q, r')]) ∧ al_num a2 ≤ al_num a + 1 ∧
    ∀ p, p ∉ ch.*1 → p ≠ q → al_live a2 !! p = al_live a !! p.
Proof.
  intros Ha Hm Hu Hf Hn Hc Hh Hlast Ht Hins. pose proof zlen_zero_page as Hzp.
  pose proof Hlast as Hlast'. rewrite last_lookup in Hlast'. destruct (unused_at _ _ _ _ Hu Hlast') as [Hmc HcW].
  destruct (hr_page _ _ Hh _ _ _ Hlast') as (pg & Hpg & Hr & _).
  rewrite Hc in Hpg. injection Hpg as <-.
  destruct (fresh_page_ok _ _ _ Ha Hf) as (Ha1 & Hqn & Hl1). destruct (fresh_unused a q Hm Hqn) as [Hmq HqW].
  assert (Hqc : q ≠ c) by congruence. pose proof (not_in_chain _ _ _ Hh Hqn) as Hqch.
  destruct (alloc_ok_id _ q Ha1) as [Hqi Hqu]; [rewrite Hl1, lookup_insert_eq; by eauto|].
  destruct (alloc_ok_id _ c Ha) as [Hci Hcu]; [by eauto|].
  set (pg0 := TablePage_Init q c zero_page).
  destruct (page_init_spec sch zero_page q c Hzp Hqu Hcu) as [Hr0 Hh0]. fold pg0 in Hr0, Hh0.
  pose proof (page_insert_spec sch pg0 empty_rows t Hr0 Ht) as Hi. rewrite Hins in Hi.
  destruct Hi as (pg1 & Hex & Hr1 & Hh1).
  destruct (set_next_spec sch d r q Hr Hqu) as [Hr2 Hh2]. set (pg2 := SetNextPageId q d) in *.
  set (a2 := set_live q pg1 (set_live c pg2 (set_live q pg0 a1))).
  pose proof (tr_len _ _ _ Hr0) as Hz0. pose proof (tr_len _ _ _ Hr1) as Hz1.
  pose proof (tr_len _ _ _ Hr2) as Hz2. pose proof (size_pin c m) as Hsz.
  assert (Hm2 : pins_ok m a2).
  { do 3 apply pins_ok_live. eapply pins_ok_mono; [exact Hm|]. intros x Hx. rewrite Hl1, lookup_insert.
    case_decide; eauto. }
  exists a2. split_and!.
  - rewrite (append_pages t c d a q a1 n i pg1); try done. by rewrite flagged_both.
  - apply set_live_ok; [apply set_live_ok; [apply set_live_ok; [exact Ha1| |exact Hz0]| |exact Hz2]| |exact Hz1].
    + rewrite Hl1, lookup_insert_eq. eauto.
    + unfold set_live. cbn [al_live]. rewrite Hl1, !lookup_insert_ne, Hc by done. eauto.
    + unfold set_live. cbn [al_live]. rewrite lookup_insert_ne, lookup_insert_eq by done. eauto.
  - exact Hm2.
  - cbn. rewrite Hl1.
    assert (heap_rel (<[q := pg0]> (<[q := zero_page]> (al_live a))) ch) as Hh'.
    { eapply heap_frame; [done|]. intros p Hp. rewrite !lookup_insert_ne; [reflexivity|..]; intros ->; contradiction. }
    eapply heap_snoc; try eassumption.
    + unfold header in Hh2. congruence.
    + unfold header in Hh1, Hh0. congruence.
  - exact (fresh_page_num _ _ _ Hf).
  - intros p Hp Hpq. cbn. rewrite Hl1, lookup_insert_ne by done.
    rewrite lookup_insert_ne; [by rewrite !lookup_insert_ne by done|].
    intros <-. apply Hp. apply list_elem_of_fmap. exists (c, r). split; [done|].
    by eapply list_elem_of_lookup_2.
Qed.

(** *** InsertTuple *)

(** A page of the chain is visited: fetched, and read. *)
Lemma visit a n ch k p r : alloc_ok a → Z.of_nat (size m) < n → heap_rel (al_live a) ch →
  ch !! k = Some (p, r) →
  ∃ pg, al_live a !! p = Some pg ∧ tp_rel sch pg r ∧ next_page_id_ pg = ch_next ch k ∧
    p ≠ INVALID_PAGE_ID ∧
    store_step (Fetch p) (mkStore a W m n) = Some (Ret true, mkStore a W (pin p m) n) ∧
    store_step (Read p) (mkStore a W (pin p m) n) = Some (Ret pg, mkStore a W (pin p m) n).
Proof.
  intros Ha Hn Hh Hk. destruct (hr_page _ _ Hh _ _ _ Hk) as (pg & Hp & Hr & Hnext).
  destruct (alloc_ok_id _ p Ha) as [Hne _]; [by eauto|].
  exists pg. split_and!; try assumption; [apply step_pin; eauto|apply step_read; [apply pin_self|done]].
Qed.

(** The last unpin of a page: as dirty after it was written, or clean. *)
Lemma leave_clean a n p : pins_ok m a → p ∉ W →
  store_step (Unpin p false) (mkStore a W (pin p m) n) = Some (Ret true, mkStore a W m n).
Proof. intros Hm Hp. rewrite step_drop by tauto. done. Qed.
Lemma leave_written a n p d : pins_ok m a → p ∉ W → zlen d = PAGE_SIZE →
  store_step (Write p d) (mkStore a W (pin p m) n) =
    Some (Ret tt, mkStore (set_live p d a) ({[p]} ∪ W) (pin p m) n) ∧
  store_step (Unpin p true) (mkStore (set_live p d a) ({[p]} ∪ W) (pin p m) n) =
    Some (Ret true, mkStore (set_live p d a) W m n).
Proof.
  intros Hm Hp Hd. split; [apply step_write; [apply pin_self|done]|].
  rewrite step_drop; [|by apply pins_ok_live|by left]. cbn. do 3 f_equal. set_solver.
Qed.

Lemma ch_next_mid ch k q r : ch !! S k = Some (q, r) → ch_next ch k = q.
Proof. intros Hk. unfold ch_next. by rewrite Hk. Qed.

(** A page without room: the loop goes on to the next page, or appends one. *)
Lemma heap_skip t a n ch k p r p' r' fuel : alloc_ok a → pins_ok m a → unused ch → Z.of_nat (size m) < n →
  heap_rel (al_live a) ch → storable sch t → ch !! k = Some (p, r) → r_insert t r = None → ch !! S k = Some (p', r') →
  run_store (heap_insert (S fuel) t p) (mkStore a W m n) =
    run_store (heap_insert fuel t p') (mkStore a W m n).
Proof.
  intros Ha Hm Hu Hn Hh Ht Hk Hins Hk'. destruct (unused_at _ _ _ _ Hu Hk) as [_ HpW].
  destruct (visit a n ch k p r Ha Hn Hh Hk) as (pg & Hp & Hr & Hnext & Hne & Hfetch & Hread).
  destruct (visit a n ch (S k) p' r' Ha Hn Hh Hk') as (_ & _ & _ & _ & Hne' & _).
  pose proof (page_insert_spec sch pg r t Hr Ht) as Hi. rewrite Hins in Hi.
  cbn [heap_insert]. rewrite decide_False by done. run_step exact Hfetch. run_step exact Hread.
  rewrite Hi, run_mem. cbv beta iota. rewrite Hnext, (ch_next_mid _ _ _ _ Hk').
  rewrite decide_False by done. by run_step (by apply leave_clean).
Qed.
Lemma heap_end t a n ch k p r fuel : alloc_ok a → Z.of_nat (size m) < n → heap_rel (al_live a) ch →
  storable sch t → ch !! k = Some (p, r) → r_insert t r = None → ch !! S k = None →
  ∃ pg, al_live a !! p = Some pg ∧ last ch = Some (p, r) ∧
    run_store (heap_insert (S fuel) t p) (mkStore a W m n) =
      run_store (heap_append t p pg) (mkStore a W (pin p m) n).
Proof.
  intros Ha Hn Hh Ht Hk Hins Hk'.
  destruct (visit a n ch k p r Ha Hn Hh Hk) as (pg & Hp & Hr & Hnext & Hne & Hfetch & Hread).
  pose proof (page_insert_spec sch pg r t Hr Ht) as Hi. rewrite Hins in Hi. exists pg.
  split; [done|]. split.
  - rewrite last_lookup. apply lookup_ge_None in Hk'. pose proof (lookup_lt_Some _ _ _ Hk).
    by replace (pred (length ch)) with k by lia.
  - cbn [heap_insert]. rewrite decide_False by done. run_step exact Hfetch. run_step exact Hread.
    rewrite Hi, run_mem. cbv beta iota. rewrite Hnext. unfold ch_next. rewrite Hk'.
    by rewrite decide_True.
Qed.

(** What the loop does from page [k] of the chain on. *)
Lemma insert_run t n q a1 fuel k a ch p r rid suf :
  alloc_ok a → pins_ok m a → unused ch → fresh_page a = Some (q, a1) → Z.of_nat (size m) + 1 < n →
  heap_rel (al_live a) ch → storable sch t → ch !! k = Some (p, r) → (length ch - k <= fuel)%nat →
  ch_insert t q (drop k ch) = Some (rid, suf) →
  ∃ a2, run_store (heap_insert fuel t p) (mkStore a W m n) =
      Some (Ret (Some rid), mkStore a2 W m n) ∧
    alloc_ok a2 ∧ pins_ok m a2 ∧ heap_rel (al_live a2) (take k ch ++ suf) ∧ al_num a2 ≤ al_num a + 1 ∧
    ∀ x, x ∉ ch.*1 → x ≠ q → al_live a2 !! x = al_live a !! x.
Proof.
  intros Ha Hm Hu Hf Hn Hh Ht. revert k p r suf. induction fuel as [|fuel IH]; intros k p r suf Hk Hfuel Hins.
  { pose proof (lookup_lt_Some _ _ _ Hk). lia. }
  rewrite (drop_S _ _ _ Hk) in Hins. cbn [ch_insert] in Hins.
  destruct (r_insert t r) as [[i r']|] eqn:Hri.
  - injection Hins as <- <-. destruct (unused_at _ _ _ _ Hu Hk) as [_ HpW].
    destruct (visit a n ch k p r Ha ltac:(lia) Hh Hk) as (pg & Hp & Hr & Hnext & Hne & Hfetch & Hread).
    pose proof (page_insert_spec sch pg r t Hr Ht) as Hi. rewrite Hri in Hi.
    destruct Hi as (pg' & Hex & Hr' & Hhd). pose proof (tr_len _ _ _ Hr') as Hz.
    destruct (leave_written a n p pg' Hm HpW Hz) as [Hw Hun].
    cbn [heap_insert]. rewrite decide_False by done. run_step exact Hfetch. run_step exact Hread.
    rewrite Hex, run_mem. run_step exact Hw. run_step exact Hun. exists (set_live p pg' a).
    split; [done|]. split; [apply set_live_ok; [done|by eauto|done]|]. split; [by apply pins_ok_live|].
    split; [|split; [cbn; lia|]].
    + pose proof (lookup_lt_Some _ _ _ Hk). rewrite <- insert_take_drop by done.
      apply (heap_put _ _ _ _ _ _ _ Hh Hk Hr'). unfold header in Hhd. congruence.
    + intros x Hx _. unfold set_live. cbn [al_live]. rewrite lookup_insert_ne; [done|].
      intros <-. apply Hx. apply list_elem_of_fmap. exists (p, r). split; [done|].
      by eapply list_elem_of_lookup_2.
  - destruct (ch_insert t q (drop (S k) ch)) as [[rid' suf']|] eqn:Hrest; [|done].
    cbn in Hins. injection Hins as -> <-.
    rewrite (cons_middle (p, r)), app_assoc, <- (take_S_r _ _ _ Hk).
    destruct (ch !! S k) as [[p' r2]|] eqn:Hk'.
    + rewrite (heap_skip t a n ch k p r p' r2) by (done || lia). apply (IH (S k) p' r2); [done|lia|done].
    + destruct (heap_end t a n ch k p r fuel Ha ltac:(lia) Hh Ht Hk Hri Hk') as (pg & Hp & Hlast & ->).
      apply lookup_ge_None in Hk'. rewrite drop_ge in Hrest by lia. rewrite take_ge by lia.
      cbn [ch_insert] in Hrest. destruct (r_insert t empty_rows) as [[i r']|] eqn:Hie; [|done].
      cbn in Hrest. injection Hrest as <- <-. by apply (append_run t p pg a q a1 n ch r i r').
Qed.

(** A tuple that fits no page, not even an empty one: the loop runs to the end
    of the chain and reads a slot number that was never set. *)
Lemma oversize_run t n q a1 fuel k a ch p r :
  alloc_ok a → pins_ok m a → unused ch → fresh_page a = Some (q, a1) → Z.of_nat (size m) + 1 < n →
  heap_rel (al_live a) ch → storable sch t → ch !! k = Some (p, r) → (length ch - k <= fuel)%nat →
  r_insert t empty_rows = None → (∀ j u v, ch !! j = Some (u, v) → r_insert t v = None) →
  ∃ s', run_store (heap_insert fuel t p) (mkStore a W m n) = Some (UB, s').
Proof.
  intros Ha Hm Hu Hf Hn Hh Ht Hk Hfuel Hbig Hfull. revert k p r Hk Hfuel.
  induction fuel as [|fuel IH]; intros k p r Hk Hfuel.
  { pose proof (lookup_lt_Some _ _ _ Hk). lia. }
  pose proof (Hfull _ _ _ Hk) as Hri. destruct (ch !! S k) as [[p' r2]|] eqn:Hk'.
  - rewrite (heap_skip t a n ch k p r p' r2) by (done || lia). apply (IH (S k) p' r2); [done|lia].
  - destruct (heap_end t a n ch k p r fuel Ha ltac:(lia) Hh Ht Hk Hri Hk') as (pg & Hp & Hlast & ->).
    destruct (fresh_page_ok _ _ _ Ha Hf) as (Ha1 & Hqn & Hl1). assert (Hqp : q ≠ p) by congruence.
    destruct (alloc_ok_id _ q Ha1) as [Hqi Hqu]; [rewrite Hl1, lookup_insert_eq; by eauto|].
    destruct (alloc_ok_id _ p Ha) as [_ Hpu]; [by eauto|].
    destruct (page_init_spec sch zero_page q p zlen_zero_page Hqu Hpu) as [Hr0 Hh0].
    pose proof (page_insert_spec sch _ empty_rows t Hr0 Ht) as Hi. rewrite Hbig in Hi.
    destruct (hr_page _ _ Hh _ _ _ Hk) as (pg' & Hp' & Hr & _).
    rewrite Hp in Hp'. injection Hp' as <-.
    destruct (set_next_spec sch pg r q Hr Hqu) as [Hr2 _].
    set (pg0 := TablePage_Init q p zero_page) in *. pose proof (size_pin p m) as Hsz.
    pose proof (tr_len _ _ _ Hr0) as Hz0. pose proof (tr_len _ _ _ Hr2) as Hz2.
    unfold heap_append. eexists.
    run_step (exact (step_new_pin a W (pin p m) n q a1 Ha ltac:(apply pins_ok_pin; eauto) Hf ltac:(lia))).
    run_step (apply step_read; [apply pin_self|by rewrite Hl1, lookup_insert_eq]).
    run_step (apply step_write; [apply pin_self|exact Hz0]).
    run_step (apply step_write; [apply pin_keep, pin_self|exact Hz2]).
    run_step (apply step_read; [apply pin_self|cbn; by rewrite lookup_insert_ne, lookup_insert_eq by done]).
    change (TablePage_Init q p zero_page) with pg0. rewrite Hi, run_mem. cbv beta iota.
    run_step (apply step_write; [apply pin_self|exact Hz0]).
    reflexivity.
Qed.

(** *** GetTuple, UpdateTuple and DeleteTuple *)
Lemma ch_get_at live ch k p r i : heap_rel live ch → ch !! k = Some (p, r) →
  ch_get ch (mkRID p i) = r_get r i.
Proof.
  intros [_ Hnd]. revert k. induction ch as [|[q u] ch IH]; intros k; [done|].
  cbn in Hnd. apply NoDup_cons in Hnd as [Hq Hnd].
  destruct k as [|k]; intros Hk; cbn in Hk; cbn [ch_get rid_page_id rid_slot_num].
  - injection Hk as -> ->. by rewrite decide_True.
  - rewrite decide_False; [by apply (IH Hnd k)|]. intros ->. apply Hq. apply list_elem_of_fmap.
    exists (p, r). split; [done|by eapply list_elem_of_lookup_2].
Qed.
Lemma ch_put_at live ch k p r r' : heap_rel live ch → ch !! k = Some (p, r) →
  ch_put p r' ch = <[k := (p, r')]> ch.
Proof.
  intros [_ Hnd]. revert k. induction ch as [|[q u] ch IH]; intros k; [done|].
  cbn in Hnd. apply NoDup_cons in Hnd as [Hq Hnd].
  destruct k as [|k]; intros Hk; cbn in Hk; cbn [ch_put].
  - injection Hk as -> ->. by rewrite decide_True.
  - rewrite decide_False; [cbn; f_equal; by apply (IH Hnd k)|].
    intros ->. apply Hq. apply list_elem_of_fmap.
    exists (p, r). split; [done|by eapply list_elem_of_lookup_2].
Qed.

Lemma get_run a n ch k p r i : alloc_ok a → pins_ok m a → unused ch → Z.of_nat (size m) < n →
  heap_rel (al_live a) ch → ch !! k = Some (p, r) → 0 ≤ i →
  run_store (TableHeap_GetTuple (mkRID p i) sch) (mkStore a W m n) =
    Some (Ret (r_get r i), mkStore a W m n).
Proof.
  intros Ha Hm Hu Hn Hh Hk Hi. destruct (unused_at _ _ _ _ Hu Hk) as [_ HpW].
  destruct (visit a n ch k p r Ha Hn Hh Hk) as (pg & Hp & Hr & Hnext & Hne & Hfetch & Hread).
  unfold TableHeap_GetTuple. cbn [rid_page_id rid_slot_num].
  run_step exact Hfetch. run_step exact Hread. rewrite (get_spec sch pg r i Hr Hi), run_mem.
  by run_step (by apply leave_clean).
Qed.

(** A page method that answers as an operation [f] on rows does. *)
Definition method_ok (m : list byte → option (bool * list byte)) (f : rows → option rows) : Prop :=
  ∀ pg r, tp_rel sch pg r →
    match f r with
    | Some r' => ∃ pg', m pg = Some (true, pg') ∧ tp_rel sch pg' r' ∧ header pg' = header pg
    | None => m pg = Some (false, pg)
    end.

Lemma modify_run a n ch k p r i mt f : alloc_ok a → pins_ok m a → unused ch → Z.of_nat (size m) < n →
  heap_rel (al_live a) ch → ch !! k = Some (p, r) → method_ok mt f →
  ∃ a2, run_store (heap_modify (mkRID p i) mt) (mkStore a W m n) =
      Some (Ret (bool_decide (is_Some (f r))), mkStore a2 W m n) ∧
    alloc_ok a2 ∧ pins_ok m a2 ∧ heap_rel (al_live a2) (<[k := (p, default r (f r))]> ch) ∧ al_num a2 = al_num a ∧
    ∀ x, x ∉ ch.*1 → al_live a2 !! x = al_live a !! x.
Proof.
  intros Ha Hm Hu Hn Hh Hk Hmt. destruct (unused_at _ _ _ _ Hu Hk) as [_ HpW].
  destruct (visit a n ch k p r Ha Hn Hh Hk) as (pg & Hp & Hr & Hnext & Hne & Hfetch & Hread).
  specialize (Hmt pg r Hr). unfold heap_modify. cbn [rid_page_id].
  run_step exact Hfetch. run_step exact Hread. destruct (f r) as [r'|].
  - destruct Hmt as (pg' & Hex & Hr' & Hhd). rewrite Hex, run_mem. cbv beta iota.
    pose proof (tr_len _ _ _ Hr') as Hz. destruct (leave_written a n p pg' Hm HpW Hz) as [Hw Hun].
    run_step exact Hw. run_step exact Hun. exists (set_live p pg' a).
    split; [done|]. split; [apply set_live_ok; [done|by eauto|done]|]. split; [by apply pins_ok_live|].
    split; [|split; [done|]].
    + apply (heap_put _ _ _ _ _ _ _ Hh Hk Hr'). unfold header in Hhd. congruence.
    + intros x Hx. unfold set_live. cbn [al_live]. rewrite lookup_insert_ne; [done|].
      intros <-. apply Hx. apply list_elem_of_fmap. exists (p, r). split; [done|].
      by eapply list_elem_of_lookup_2.
  - rewrite Hmt, run_mem. cbv beta iota. exists a. split.
    + change (run_store (mret tt ≫= ?k) ?s) with (run_store (k tt) s). cbv beta.
      by run_step (by apply leave_clean).
    + split_and!; [done|done| |done|done]. cbn. by rewrite list_insert_id.
Qed.

(** The effect of an insert on the rows of the chain. *)
Lemma ch_insert_get t q ch rid ch' : NoDup ch.*1 → q ∉ ch.*1 → ch_insert t q ch = Some (rid, ch') →
  0 ≤ rid_slot_num rid ∧ ch_get ch' rid = Some t ∧ ch_get ch rid = None ∧
  ch_first ch' = match ch with [] => q | _ => ch_first ch end ∧
  ∀ x, 0 ≤ rid_slot_num x → x ≠ rid → ch_get ch' x = ch_get ch x.
Proof.
  revert rid ch'. induction ch as [|[p r] ch IH]; intros rid ch' Hnd Hq; cbn [ch_insert].
  - destruct (r_insert t empty_rows) as [[i r']|] eqn:Hi; [|done]. intros [= <- <-]. cbn.
    destruct (r_insert_get _ _ _ _ Hi) as (Hi0 & Hget & Hoth). rewrite decide_True by done.
    split_and!; try done. intros [q' j] Hj Hne. cbn in *. destruct (decide (q = q')) as [<-|]; [|done].
    assert (j ≠ i) by (intros ->; by apply Hne). rewrite Hoth by done. unfold r_get, empty_rows. cbn. by rewrite zget_None by (cbn; lia).
  - cbn in Hnd, Hq. apply NoDup_cons in Hnd as [Hp Hnd]. apply not_elem_of_cons in Hq as [Hqp Hq].
    destruct (r_insert t r) as [[i r']|] eqn:Hi.
    + intros [= <- <-]. cbn. destruct (r_insert_get _ _ _ _ Hi) as (Hi0 & Hget & Hoth).
      rewrite !decide_True by done. split_and!; try done; [by eapply r_insert_none|].
      intros [q' j] Hj Hne. cbn in *. destruct (decide (p = q')) as [<-|]; [|done].
      apply Hoth; [done|]. intros ->. by apply Hne.
    + destruct (ch_insert t q ch) as [[rid' suf]|] eqn:Hrest; [|done]. cbn. intros [= -> <-].
      destruct (IH _ _ Hnd Hq eq_refl) as (H0 & Hget & Hnone & _ & Hoth).
      assert (Hpr : p ≠ rid_page_id rid).
      { intros ->. destruct (ch_insert_page _ _ _ _ _ Hrest) as [?|?]; [congruence|done]. }
      cbn. rewrite !decide_False by done. split_and!; try done.
      intros x Hx Hne. case_decide; [done|]. by apply Hoth.
Qed.
End heap.

(** A tuple that fits an empty page finds a place in any chain. *)
Lemma ch_insert_total sch t q ch : storable sch t → zlen (enc t) + 28 ≤ PAGE_SIZE →
  ∃ rid ch', ch_insert t q ch = Some (rid, ch').
Proof.
  intros [_ Hpos] Hfit. unfold PAGE_SIZE in *. induction ch as [|[p r] ch (rid & ch' & IH)]; cbn [ch_insert].
  - unfold r_insert, empty_rows, r_room, r_count, r_hole, sizeof_Slot, PAGE_SIZE. cbn -[Z.mul].
    rewrite decide_True by lia. cbn. eauto.
  - destruct (r_insert t r) as [[i r']|]; [eauto|]. rewrite IH. cbn. eauto.
Qed.

(** A heap in use: it is on pages of its own, and whatever was written without the
    dirty flag is pinned. *)
Record heap_state (sch : Schema) (a : alloc_state) (W : gset page_id_t) (m : gmap page_id_t Z)
    (ch : chain_rows) : Prop := {
  hs_ok : alloc_ok a;
  hs_pins : pins_ok m a;
  hs_dirty p : p ∈ W → is_Some (m !! p);
  hs_rel : heap_rel sch (al_live a) ch;
  hs_own : unused m ch;
}.

Lemma ch_insert_ids t q ch rid ch' : ch_insert t q ch = Some (rid, ch') → ch'.*1 = ch.*1 ∨ ch'.*1 = ch.*1 ++ [q].
Proof.
  revert rid ch'. induction ch as [|[p r] ch IH]; intros rid ch'; cbn [ch_insert].
  - destruct (r_insert t empty_rows) as [[i r']|]; [|done]. intros [= <- <-]. by right.
  - destruct (r_insert t r) as [[i r']|]; [intros [= <- <-]; by left|].
    destruct (ch_insert t q ch) as [[rid' suf]|] eqn:Hr; [|done]. cbn. intros [= -> <-].
    destruct (IH _ _ eq_refl) as [He|He]; cbn; rewrite He; [by left|by right].
Qed.

Lemma flagged_new (q : page_id_t) (W : gset page_id_t) : q ∉ W → unpin_W true q ({[q]} ∪ ({[q]} ∪ W)) = W.
Proof. cbn. set_solver. Qed.

(** *** The heap right after its construction *)
Definition heap_page (q : page_id_t) : list byte := TablePage_Init q INVALID_PAGE_ID zero_page.
Lemma heap_new_run sch a W m q a1 n : alloc_ok a → pins_ok m a → (∀ p, p ∈ W → is_Some (m !! p)) →
  fresh_page a = Some (q, a1) → Z.of_nat (size m) < n →
  run_store TableHeap_new (mkStore a W m n) = Some (Ret q, mkStore (set_live q (heap_page q) a1) W m n) ∧
  heap_state sch (set_live q (heap_page q) a1) W m [(q, empty_rows)].
Proof.
  intros Ha Hm HW Hf Hn. destruct (fresh_page_ok _ _ _ Ha Hf) as (Ha1 & Hqn & Hl1).
  destruct (fresh_unused W m HW a q Hm Hqn) as [Hmq HqW].
  assert (Hlive : is_Some (al_live a1 !! q)) by (rewrite Hl1, lookup_insert_eq; eauto).
  destruct (alloc_ok_id _ q Ha1 Hlive) as [Hqi Hqu].
  assert (Hinv : u32_ok INVALID_PAGE_ID) by (unfold u32_ok, INVALID_PAGE_ID; lia).
  destruct (page_init_spec sch zero_page q INVALID_PAGE_ID zlen_zero_page Hqu Hinv) as [Hr Hh].
  fold (heap_page q) in Hr, Hh. pose proof (tr_len _ _ _ Hr) as Hz.
  assert (Hm1 : pins_ok m (set_live q (heap_page q) a1)).
  { apply pins_ok_live. eapply pins_ok_mono; [exact Hm|]. intros x Hx. rewrite Hl1, lookup_insert. case_decide; eauto. }
  split; [|split; [by apply set_live_ok|done|done| |]].
  - unfold TableHeap_new. run_step (exact (step_new_pin a W m n q a1 Ha Hm Hf Hn)).
    run_step (apply step_read; [apply pin_self|by rewrite Hl1, lookup_insert_eq]).
    run_step (apply step_write; [apply pin_self|exact Hz]).
    run_step (apply step_drop; [exact Hm1|by left]). by rewrite flagged_new.
  - split; [|apply NoDup_singleton]. intros [|k] p r Hk; [|done]. cbn in Hk. injection Hk as <- <-.
    exists (heap_page q). unfold set_live. cbn [al_live]. rewrite lookup_insert_eq.
    split_and!; [done|done|]. unfold header in Hh. cbn. congruence.
  - by intros p ->%list_elem_of_singleton.
Qed.

(** What the row operations do to the rows of the chain. *)
Lemma r_get_put r i (o : option Tuple) f j : r_get r i ≠ None → 0 ≤ j →
  r_get (mkRows (<[Z.to_nat i := o]> (r_rows r)) f) j = if decide (j = i) then o else r_get r j.
Proof.
  unfold r_get. intros Hi Hj. destruct (zget (r_rows r) i) as [x|] eqn:Hx; [|done].
  apply zget_Some_bound in Hx. cbn [r_rows]. rewrite !zget_lookup by lia. case_decide as Hc.
  - subst j. rewrite list_lookup_insert_eq by lia. by destruct o.
  - by rewrite list_lookup_insert_ne by lia.
Qed.
Lemma r_update_get r i t : match r_get r i with
  | None => r_update i t r = None
  | Some old =>
      (r_update i t r = None ∧ zlen (enc old) < zlen (enc t)) ∨
      ∃ r', r_update i t r = Some r' ∧ ∀ j, 0 ≤ j → r_get r' j = if decide (j = i) then Some t else r_get r j
  end.
Proof.
  unfold r_update. destruct (r_get r i) as [old|] eqn:Hi; [|done].
  repeat case_decide; [right; eexists; split; [done|]..|left; split; [done|lia]];
    intros j Hj; apply r_get_put; congruence.
Qed.
Lemma r_delete_get r i : match r_get r i with
  | None => r_delete i r = None
  | Some _ => ∃ r', r_delete i r = Some r' ∧ ∀ j, 0 ≤ j → r_get r' j = if decide (j = i) then None else r_get r j
  end.
Proof.
  unfold r_delete. destruct (r_get r i) as [old|] eqn:Hi; [|done]. eexists. split; [done|].
  intros j Hj. apply r_get_put; congruence.
Qed.
Lemma ch_put_ids p r ch : (ch_put p r ch).*1 = ch.*1.
Proof. induction ch as [|[q u] ch IH]; [done|]. cbn [ch_put]. case_decide; cbn; [done|by rewrite IH]. Qed.
Lemma ch_get_put p r ch x : p ∈ ch.*1 →
  ch_get (ch_put p r ch) x = if decide (rid_page_id x = p) then r_get r (rid_slot_num x) else ch_get ch x.
Proof.
  induction ch as [|[q u] ch IH]; [by intros ?%not_elem_of_nil|]. cbn [ch_put fmap list_fmap fst].
  rewrite elem_of_cons. intros Hp. destruct (decide (q = p)) as [->|Hne]; cbn [ch_get].
  - destruct (decide (p = rid_page_id x)) as [->|Hx]; [by rewrite decide_True|by rewrite decide_False by congruence].
  - destruct (decide (q = rid_page_id x)) as [->|Hx]; [by rewrite decide_False by congruence|]. apply IH. by destruct Hp.
Qed.

(** *** The operations on a heap in use *)
Lemma new_state_run sch a W m n :
  alloc_ok a → pins_ok m a → (∀ p, p ∈ W → is_Some (m !! p)) → Z.of_nat (size m) < n → is_Some (fresh_page a) →
  ∃ q a2, run_store TableHeap_new (mkStore a W m n) = Some (Ret q, mkStore a2 W m n) ∧
    heap_state sch a2 W m [(q, empty_rows)] ∧ al_live a !! q = None ∧ al_num a2 ≤ al_num a + 1 ∧
    (∀ p, p ≠ q → al_live a2 !! p = al_live a !! p) ∧
    ∀ x, 0 ≤ rid_slot_num x → ch_get [(q, empty_rows)] x = None.
Proof.
  intros Ha Hm HW Hn [[q a1] Hf]. destruct (heap_new_run sch a W m q a1 n Ha Hm HW Hf Hn) as (Hrun & Hst).
  destruct (fresh_page_ok _ _ _ Ha Hf) as (_ & Hqn & Hl1).
  eexists q, _. split_and!; [exact Hrun|done|done|exact (fresh_page_num _ _ _ Hf)|..].
  - intros p Hp. cbn. by rewrite Hl1, !lookup_insert_ne.
  - intros x Hx. cbn. case_decide; [|done].
    unfold r_get, empty_rows. cbn. by rewrite zget_None by (cbn; lia).
Qed.

Lemma insert_state_run sch t a W m n ch fuel :
  heap_state sch a W m ch → Z.of_nat (size m) + 1 < n → is_Some (fresh_page a) → ch ≠ [] →
  storable sch t → zlen (enc t) + 28 ≤ PAGE_SIZE → (length ch <= fuel)%nat →
  ∃ rid ch' a2,
    run_store (heap_insert fuel t (ch_first ch)) (mkStore a W m n) =
      Some (Ret (Some rid), mkStore a2 W m n) ∧
    heap_state sch a2 W m ch' ∧ ch_first ch' = ch_first ch ∧ al_num a2 ≤ al_num a + 1 ∧
    0 ≤ rid_slot_num rid ∧ ch_get ch rid = None ∧ ch_get ch' rid = Some t ∧
    (∀ x, 0 ≤ rid_slot_num x → x ≠ rid → ch_get ch' x = ch_get ch x) ∧
    ch.*1 ⊆ ch'.*1 ∧ (∀ p, p ∈ ch'.*1 → p ∈ ch.*1 ∨ al_live a !! p = None) ∧ (length ch' <= S (length ch))%nat ∧
    ∀ p, is_Some (al_live a !! p) → p ∉ ch.*1 → al_live a2 !! p = al_live a !! p.
Proof.
  intros [Ha Hm HW Hh Hu] Hn [[q a1] Hf] Hne Ht Hfit Hfuel.
  destruct (ch_insert_total sch t q ch Ht Hfit) as (rid & ch' & Hins).
  destruct (fresh_page_ok _ _ _ Ha Hf) as (_ & Hqn & _).
  pose proof (not_in_chain _ _ _ _ Hh Hqn) as Hq. pose proof (ch_insert_ids _ _ _ _ _ Hins) as Hids.
  destruct (ch_insert_get t q ch rid ch' (hr_nodup _ _ _ Hh) Hq Hins) as (H0 & Hget & Hnone & Hfst & Hoth).
  destruct ch as [|[p r] ch0]; [done|].
  destruct (insert_run sch W m HW t n q a1 fuel 0 a ((p, r) :: ch0) p r rid ch' Ha Hm Hu Hf Hn Hh Ht eq_refl)
    as (a2 & Hrun & Ha2 & Hm2 & Hh2 & Hnum & Hfr); [cbn in *; lia|done|].
  assert (Hids' : ∀ x, x ∈ ch'.*1 → x ∈ ((p, r) :: ch0).*1 ∨ x = q).
  { intros x. destruct Hids as [->| ->]; [by left|]. rewrite elem_of_app, list_elem_of_singleton. done. }
  exists rid, ch', a2. split_and!; try done.
  - split; try done. intros x [Hx| ->]%Hids'; [by apply Hu|by apply (fresh_unused W m HW a q Hm Hqn)].
  - destruct Hids as [->| ->]; [done|]. intros x Hx. apply elem_of_app. by left.
  - intros x [Hx| ->]%Hids'; [by left|by right].
  - rewrite <- (length_fmap fst), <- (length_fmap fst ((p, r) :: ch0)).
    destruct Hids as [->| ->]; [lia|]. rewrite length_app. cbn. lia.
  - intros x [d Hx] Hxc. apply Hfr; [done|congruence].
Qed.

Lemma modify_state_run sch a W m n ch k p r i mt f : heap_state sch a W m ch → Z.of_nat (size m) < n →
  ch !! k = Some (p, r) → method_ok sch mt f →
  ∃ a2, run_store (heap_modify (mkRID p i) mt) (mkStore a W m n) =
      Some (Ret (bool_decide (is_Some (f r))), mkStore a2 W m n) ∧
    heap_state sch a2 W m (ch_put p (default r (f r)) ch) ∧ al_num a2 = al_num a ∧
    ∀ x, x ∉ ch.*1 → al_live a2 !! x = al_live a !! x.
Proof.
  intros [Ha Hm HW Hh Hu] Hn Hk Hmt. rewrite (ch_put_at _ _ _ _ _ _ _ Hh Hk).
  destruct (modify_run sch W m HW a n ch k p r i mt f Ha Hm Hu Hn Hh Hk Hmt) as (a2 & Hrun & Ha2 & Hm2 & Hh2 & Hnum & Hfr).
  exists a2. split_and!; try done. split; try done.
  intros x. rewrite list_fmap_insert. cbn. rewrite list_insert_id; [apply Hu|]. by rewrite list_lookup_fmap, Hk.
Qed.
Lemma update_method sch i t : 0 ≤ i → storable sch t → method_ok sch (TablePage_UpdateTuple i t) (r_update i t).
Proof. intros Hi Ht pg r Hr. by apply update_spec. Qed.
Lemma delete_method sch i : 0 ≤ i → method_ok sch (TablePage_DeleteTuple i) (r_delete i).
Proof. intros Hi pg r Hr. by apply delete_spec. Qed.
Lemma row_state_run sch a W m n ch k p r i t :
  heap_state sch a W m ch → Z.of_nat (size m) < n → ch !! k = Some (p, r) → 0 ≤ i → storable sch t →
  run_store (TableHeap_GetTuple (mkRID p i) sch) (mkStore a W m n) =
    Some (Ret (ch_get ch (mkRID p i)), mkStore a W m n) ∧
  (∃ a2, run_store (TableHeap_UpdateTuple (mkRID p i) t) (mkStore a W m n) =
       Some (Ret (bool_decide (is_Some (r_update i t r))), mkStore a2 W m n) ∧
     heap_state sch a2 W m (ch_put p (default r (r_update i t r)) ch) ∧ al_num a2 = al_num a ∧
     ∀ x, x ∉ ch.*1 → al_live a2 !! x = al_live a !! x) ∧
  (∃ a2, run_store (TableHeap_DeleteTuple (mkRID p i)) (mkStore a W m n) =
       Some (Ret (bool_decide (is_Some (r_delete i r))), mkStore a2 W m n) ∧
     heap_state sch a2 W m (ch_put p (default r (r_delete i r)) ch) ∧ al_num a2 = al_num a ∧
     ∀ x, x ∉ ch.*1 → al_live a2 !! x = al_live a !! x).
Proof.
  intros Hst Hn Hk Hi Ht. pose proof Hst as [Ha Hm HW Hh Hu]. split; [|split].
  - rewrite (ch_get_at _ _ _ _ _ _ i Hh Hk). by eapply get_run.
  - apply (modify_state_run sch a W m n ch k); [done..|by apply update_method].
  - apply (modify_state_run sch a W m n ch k); [done..|by apply delete_method].
Qed.

(** ** Properties *)

(** The constructor that creates a heap allocates a page, formats
    it as an empty, unlinked slotted page and leaves it unpinned and flagged as
    dirty: a consistent heap of one page, in which every row is empty. Other
    pages, and the pins of other users of the pool, are as before. *)
Theorem heap_new_correct sch a W m n :
  alloc_ok a → pins_ok m a → (∀ p, p ∈ W → is_Some (m !! p)) → Z.of_nat (size m) < n → is_Some (fresh_page a) →
  ∃ q a2, run_store TableHeap_new (mkStore a W m n) = Some (Ret q, mkStore a2 W m n) ∧
    heap_state sch a2 W m [(q, empty_rows)] ∧ al_live a !! q = None ∧ al_num a2 ≤ al_num a + 1 ∧
    (∀ p, p ≠ q → al_live a2 !! p = al_live a !! p) ∧
    ∀ x, 0 ≤ rid_slot_num x → ch_get [(q, empty_rows)] x = None.
Proof. apply new_state_run. Qed.

(** C15 (functional). [TableHeap::InsertTuple] terminates on every chain (fuel: one
    unit per page) and stores a tuple that fits an empty page: it reports a [RID]
    that was empty, in the first page with room or in a page it appends; the
    heap then reads that tuple there and every other row as before; the links of
    the chain stay consistent, pages of other tables are not touched, and it gives
    back every pin it takes. *)
Theorem heap_insert_correct sch t a W m n ch fuel :
  heap_state sch a W m ch → Z.of_nat (size m) + 1 < n → is_Some (fresh_page a) → ch ≠ [] →
  storable sch t → zlen (enc t) + 28 ≤ PAGE_SIZE → (length ch <= fuel)%nat →
  ∃ rid ch' a2,
    run_store (heap_insert fuel t (ch_first ch)) (mkStore a W m n) =
      Some (Ret (Some rid), mkStore a2 W m n) ∧
    heap_state sch a2 W m ch' ∧ ch_first ch' = ch_first ch ∧ al_num a2 ≤ al_num a + 1 ∧
    0 ≤ rid_slot_num rid ∧ ch_get ch rid = None ∧ ch_get ch' rid = Some t ∧
    (∀ x, 0 ≤ rid_slot_num x → x ≠ rid → ch_get ch' x = ch_get ch x) ∧
    ch.*1 ⊆ ch'.*1 ∧ (∀ p, p ∈ ch'.*1 → p ∈ ch.*1 ∨ al_live a !! p = None) ∧ (length ch' <= S (length ch))%nat ∧
    ∀ p, is_Some (al_live a !! p) → p ∉ ch.*1 → al_live a2 !! p = al_live a !! p.
Proof. apply insert_state_run. Qed.

(** On a consistent heap [GetTuple] returns what the row holds,
    [UpdateTuple] and [DeleteTuple] report and do what the row operations do, on
    that row's page only; a refused call changes nothing; every page is unpinned,
    as dirty exactly when it was written. *)
Theorem heap_row_operations sch a W m n ch k p r i t :
  heap_state sch a W m ch → Z.of_nat (size m) < n → ch !! k = Some (p, r) → 0 ≤ i → storable sch t →
  run_store (TableHeap_GetTuple (mkRID p i) sch) (mkStore a W m n) =
    Some (Ret (ch_get ch (mkRID p i)), mkStore a W m n) ∧
  (∃ a2, run_store (TableHeap_UpdateTuple (mkRID p i) t) (mkStore a W m n) =
       Some (Ret (bool_decide (is_Some (r_update i t r))), mkStore a2 W m n) ∧
     heap_state sch a2 W m (ch_put p (default r (r_update i t r)) ch) ∧ al_num a2 = al_num a ∧
     ∀ x, x ∉ ch.*1 → al_live a2 !! x = al_live a !! x) ∧
  (∃ a2, run_store (TableHeap_DeleteTuple (mkRID p i)) (mkStore a W m n) =
       Some (Ret (bool_decide (is_Some (r_delete i r))), mkStore a2 W m n) ∧
     heap_state sch a2 W m (ch_put p (default r (r_delete i r)) ch) ∧ al_num a2 = al_num a ∧
     ∀ x, x ∉ ch.*1 → al_live a2 !! x = al_live a !! x).
Proof. apply row_state_run. Qed.

(** End to end: on a buffer pool with any replacement policy, a
    tuple inserted into a heap is what [GetTuple] on the returned [RID] reads
    back, through whatever evictions the frames force. *)
Theorem heap_insert_get_on_pool {R} `{HR : Replacer R, !ReplacerLaws R}
    (c : machine R) sch t a W m n ch fuel :
  store_rel c (mkStore a W m n) → heap_state sch a W m ch → Z.of_nat (size m) + 1 < n → is_Some (fresh_page a) →
  ch ≠ [] → storable sch t → zlen (enc t) + 28 ≤ PAGE_SIZE → (length ch <= fuel)%nat →
  ∃ rid c1 c2, run_pool (heap_insert fuel t (ch_first ch)) c = (c1, Ret (Some rid)) ∧
    run_pool (TableHeap_GetTuple rid sch) c1 = (c2, Ret (Some t)).
Proof.
  intros Hr Hst Hn Hf Hne Ht Hfit Hfuel.
  destruct (insert_state_run sch t a W m n ch fuel) as ([p i] & ch' & a2 & Hrun & Hst' & _ & _ & H0 & _ & Hget & _);
    [done..|].
  destruct (sim_prog _ _ _ _ _ Hr Hrun) as (c1 & Hrun1 & Hr1). destruct (ch_get_page _ _ _ Hget) as (k & r & Hk).
  destruct (row_state_run sch a2 W m n ch' k p r i t Hst' ltac:(lia) Hk H0 Ht) as (Hrun2 & _).
  destruct (sim_prog _ _ _ _ _ Hr1 Hrun2) as (c2 & Hrun2' & _).
  exists (mkRID p i), c1, c2. split; [done|]. by rewrite Hrun2', Hget.
Qed.

(** C35 (error). [InsertTuple] ignores the result of the insert into the page it
    appends: a tuple too large for an empty page runs to the end of the chain,
    links a new page and then reads a slot number that was never set, instead of
    reporting failure. *)
Theorem heap_insert_oversize_undefined sch t a W m n ch fuel :
  heap_state sch a W m ch → Z.of_nat (size m) + 1 < n → is_Some (fresh_page a) → ch ≠ [] →
  storable sch t → PAGE_SIZE < zlen (enc t) + 28 → (length ch <= fuel)%nat →
  (∀ p r, (p, r) ∈ ch → r_insert t r = None) →
  ∃ s', run_store (heap_insert fuel t (ch_first ch)) (mkStore a W m n) = Some (UB, s').
Proof.
  intros [Ha Hm HW Hh Hu] Hn [[q a1] Hf] Hne Ht Hbig Hfuel Hfull. destruct ch as [|[p r] ch0]; [done|].
  apply (oversize_run sch W m HW t n q a1 fuel 0 a ((p, r) :: ch0) p r); try done.
  - unfold r_insert, empty_rows, r_room, r_count, r_hole, sizeof_Slot, PAGE_SIZE in *. cbn -[Z.mul].
    by rewrite decide_False by lia.
  - intros j u v Hj. eapply Hfull. by eapply list_elem_of_lookup_2.
Qed.

(** *** Witnesses: the heap of a new database *)
Definition one_page : alloc_state := set_live 1 (heap_page 1) (mkAlloc 2 [] {[1 := zero_page]}).
Lemma empty_alloc_fresh : fresh_page empty_alloc = Some (1, mkAlloc 2 [] {[1 := zero_page]}).
Proof. reflexivity. Qed.
Lemma nothing_dirty (p : page_id_t) : p ∈ (∅ : gset page_id_t) → is_Some ((∅ : gmap page_id_t Z) !! p).
Proof. by intros ?%not_elem_of_empty. Qed.
Lemma one_page_run n : 0 < n →
  run_store TableHeap_new (mkStore empty_alloc ∅ ∅ n) = Some (Ret 1, mkStore one_page ∅ ∅ n) ∧
  heap_state sample_schema one_page ∅ ∅ [(1, empty_rows)].
Proof.
  intros Hn. apply (heap_new_run sample_schema _ _ _ _ _ n empty_alloc_ok (pins_ok_empty _) nothing_dirty empty_alloc_fresh).
  by rewrite map_size_empty.
Qed.
Lemma one_page_state : heap_state sample_schema one_page ∅ ∅ [(1, empty_rows)].
Proof. by apply (one_page_run 1). Qed.
Lemma one_page_fresh : is_Some (fresh_page one_page).
Proof. eexists. reflexivity. Qed.

Lemma heap_new_correct_witness :
  ∃ q a2, run_store TableHeap_new (mkStore empty_alloc ∅ ∅ 4) = Some (Ret q, mkStore a2 ∅ ∅ 4) ∧
    heap_state sample_schema a2 ∅ ∅ [(q, empty_rows)] ∧ al_live empty_alloc !! q = None ∧
    al_num a2 ≤ al_num empty_alloc + 1 ∧ (∀ p, p ≠ q → al_live a2 !! p = al_live empty_alloc !! p) ∧
    ∀ x, 0 ≤ rid_slot_num x → ch_get [(q, empty_rows)] x = None.
Proof.
  apply heap_new_correct; [apply empty_alloc_ok|apply pins_ok_empty|apply nothing_dirty|by rewrite map_size_empty|].
  rewrite empty_alloc_fresh. eexists. reflexivity.
Defined.

Lemma heap_insert_correct_witness :
  ∃ rid ch' a2,
    run_store (heap_insert 1 sample_tuple (ch_first [(1, empty_rows)])) (mkStore one_page ∅ ∅ 4) =
      Some (Ret (Some rid), mkStore a2 ∅ ∅ 4) ∧
    heap_state sample_schema a2 ∅ ∅ ch' ∧ ch_first ch' = 1 ∧ al_num a2 ≤ 3 ∧
    0 ≤ rid_slot_num rid ∧ ch_get [(1, empty_rows)] rid = None ∧ ch_get ch' rid = Some sample_tuple ∧
    (∀ x, 0 ≤ rid_slot_num x → x ≠ rid → ch_get ch' x = ch_get [(1, empty_rows)] x) ∧
    [1] ⊆ ch'.*1 ∧ (∀ p, p ∈ ch'.*1 → p ∈ [1] ∨ al_live one_page !! p = None) ∧ (length ch' <= 2)%nat ∧
    ∀ p, is_Some (al_live one_page !! p) → p ∉ [1] → al_live a2 !! p = al_live one_page !! p.
Proof.
  apply (heap_insert_correct sample_schema sample_tuple one_page ∅ ∅ 4 [(1, empty_rows)] 1);
    [apply one_page_state|by rewrite map_size_empty|apply one_page_fresh|discriminate|
     apply sample_storable|vm_compute; discriminate|cbn; lia].
Defined.

Lemma heap_row_operations_witness :
  run_store (TableHeap_GetTuple (mkRID 1 0) sample_schema) (mkStore one_page ∅ ∅ 4) =
    Some (Ret (ch_get [(1, empty_rows)] (mkRID 1 0)), mkStore one_page ∅ ∅ 4) ∧
  (∃ a2, run_store (TableHeap_UpdateTuple (mkRID 1 0) sample_tuple) (mkStore one_page ∅ ∅ 4) =
       Some (Ret (bool_decide (is_Some (r_update 0 sample_tuple empty_rows))), mkStore a2 ∅ ∅ 4) ∧
     heap_state sample_schema a2 ∅ ∅
       (ch_put 1 (default empty_rows (r_update 0 sample_tuple empty_rows)) [(1, empty_rows)]) ∧
     al_num a2 = al_num one_page ∧ ∀ x, x ∉ [1] → al_live a2 !! x = al_live one_page !! x) ∧
  (∃ a2, run_store (TableHeap_DeleteTuple (mkRID 1 0)) (mkStore one_page ∅ ∅ 4) =
       Some (Ret (bool_decide (is_Some (r_delete 0 empty_rows))), mkStore a2 ∅ ∅ 4) ∧
     heap_state sample_schema a2 ∅ ∅
       (ch_put 1 (default empty_rows (r_delete 0 empty_rows)) [(1, empty_rows)]) ∧
     al_num a2 = al_num one_page ∧ ∀ x, x ∉ [1] → al_live a2 !! x = al_live one_page !! x).
Proof.
  apply (heap_row_operations sample_schema one_page ∅ ∅ 4 [(1, empty_rows)] 0 1 empty_rows 0 sample_tuple);
    [apply one_page_state|by rewrite map_size_empty|reflexivity|lia|apply sample_storable].
Defined.

Definition heap_machine : machine LRU.LRUReplacer :=
  (run_pool TableHeap_new (new_machine 2 new_db (LRU.LRUReplacer_new 2))).1.
Lemma heap_machine_rel : store_rel heap_machine (mkStore one_page ∅ ∅ 2).
Proof.
  destruct (sim_prog _ _ _ _ _ (lru_new_rel 2 new_db empty_alloc ltac:(lia) new_db_rel)
    (proj1 (one_page_run 2 ltac:(lia)))) as (c' & Hex & Hr). unfold heap_machine. by rewrite Hex.
Qed.
Lemma heap_insert_get_on_pool_witness :
  ∃ rid c1 c2, run_pool (heap_insert 1 sample_tuple (ch_first [(1, empty_rows)])) heap_machine =
      (c1, Ret (Some rid)) ∧
    run_pool (TableHeap_GetTuple rid sample_schema) c1 = (c2, Ret (Some sample_tuple)).
Proof.
  apply (heap_insert_get_on_pool heap_machine sample_schema sample_tuple one_page ∅ ∅ 2 [(1, empty_rows)] 1);
    [apply heap_machine_rel|apply one_page_state|by rewrite map_size_empty|apply one_page_fresh|discriminate|
     apply sample_storable|vm_compute; discriminate|cbn; lia].
Defined.

(** A string that no page can hold. *)
Definition wide_tuple : Tuple :=
  mkTuple [Value_int 1; Value_varchar (replicate 4096 Byte.x41); Value_bool false].
Lemma wide_storable : storable sample_schema wide_tuple.
Proof.
  split; [|split; vm_compute; reflexivity]. split; [|vm_compute; reflexivity].
  unfold sample_schema, wide_tuple. cbn [columns_ values_ fmap list_fmap].
  repeat constructor; vm_compute; done.
Qed.
Lemma heap_insert_oversize_undefined_witness :
  ∃ s', run_store (heap_insert 1 wide_tuple (ch_first [(1, empty_rows)])) (mkStore one_page ∅ ∅ 4) =
    Some (UB, s').
Proof.
  apply (heap_insert_oversize_undefined sample_schema wide_tuple one_page ∅ ∅ 4 [(1, empty_rows)] 1);
    [apply one_page_state|by rewrite map_size_empty|apply one_page_fresh|discriminate|
     apply wide_storable|vm_compute; reflexivity|cbn; lia|].
  intros p r Hin. apply list_elem_of_singleton in Hin. injection Hin as -> ->.
  vm_compute. reflexivity.
Defined.
