(* ===== verification/BPlusTreePage.v ===== *)
(** Pages of the B+ tree ([b_plus_tree_page.hpp], [b_plus_tree_leaf_page.hpp],
    [b_plus_tree_internal_page.hpp]): the structs, their layout in the bytes of a
    page, and the methods that search and move entries in the fixed arrays.  The
    theorems relate each method to an operation on lists of entries. *)
From Stdlib Require Import ZArith Lia.
From Stdlib Require Strings.Byte.
From stdpp Require Import base list gmap sorting.
From S2P Require Import Prelude Types.
Open Scope Z_scope.

(** ** The common header *)
Definition LEAF_PAGE : Z := 0.
Definition INTERNAL_PAGE : Z := 1.

Record BPlusTreePage := mkHdr {
  page_type_ : Z;
  size_ : Z;
  max_size_ : Z;
  parent_page_id_ : page_id_t;
  page_id_ : page_id_t;
}.
Definition set_size (n : Z) (h : BPlusTreePage) : BPlusTreePage :=
  mkHdr (page_type_ h) n (max_size_ h) (parent_page_id_ h) (page_id_ h).
Definition set_parent (p : page_id_t) (h : BPlusTreePage) : BPlusTreePage :=
  mkHdr (page_type_ h) (size_ h) (max_size_ h) p (page_id_ h).
Definition IsLeafPage (h : BPlusTreePage) : bool := page_type_ h =? LEAF_PAGE.
Definition IsRootPage (h : BPlusTreePage) : bool := parent_page_id_ h =? INVALID_PAGE_ID.

(** ** Loops over parallel arrays

    The key and value arrays of a page are updated together; [None] is an access
    outside an array. *)
Section arrays.
Context {A B : Type}.
Abbreviation arrays := (list A * list B)%type.

(** [keys_[i] = keys[j]; values_[i] = values[j]]. *)
Definition copy_entry (src : arrays) (j : Z) (dst : arrays) (i : Z) : option arrays :=
  k ← zget src.1 j; v ← zget src.2 j;
  ks ← zset dst.1 i k; vs ← zset dst.2 i v;
  Some (ks, vs).
Definition set_entry (dst : arrays) (i : Z) (k : A) (v : B) : option arrays :=
  ks ← zset dst.1 i k; vs ← zset dst.2 i v; Some (ks, vs).

(** [for (i = n; i > index; --i) a[i] = a[i - 1]]. *)
Definition shift_right (n index : Z) (a : arrays) : option arrays :=
  loop_down n index (λ i a, copy_entry a (i - 1) a i) a.
(** [for (i = index; i < n - 1; ++i) a[i] = a[i + 1]]. *)
Definition shift_left (n index : Z) (a : arrays) : option arrays :=
  loop_up index (n - 1) (λ i a, copy_entry a (i + 1) a i) a.
(** [for (i = lo; i < n; ++i) dst[d + (i - lo)] = src[i]]. *)
Definition copy_range (src : arrays) (lo n d : Z) (dst : arrays) : option arrays :=
  loop_up lo n (λ i dst, copy_entry src i dst (d + (i - lo))) dst.
End arrays.

(** ** Binary search

    The loop [while (low <= high)] shared by [KeyIndex] (with [keys_[mid] < key])
    and the internal [Lookup] (with [keys_[mid] <= key]).  The interval shrinks
    at every turn, so one unit of fuel more than its length is enough
    ([search_spec]). *)
Fixpoint search (p : Z → bool) (fuel : nat) (keys : list Z) (low high : Z) : option Z :=
  match fuel with
  | O => None
  | S fuel =>
      if decide (low ≤ high) then
        let mid := low + (high - low) / 2 in
        k ← zget keys mid;
        if p k then search p fuel keys (mid + 1) high
        else search p fuel keys low (mid - 1)
      else Some low
  end.

(** *** The loops as list operations *)

(** The entries in use: the first [n] of an array. *)
Definition used {A} (n : Z) (l : list A) : list A := take (Z.to_nat n) l.
(** Insertion before index [i]. *)
Definition ins {A} (i : Z) (x : A) (l : list A) : list A :=
  take (Z.to_nat i) l ++ x :: drop (Z.to_nat i) l.

Lemma lookup_used {A} n (l : list A) (k : nat) :
  used n l !! k = if decide (Z.of_nat k < n) then zget l (Z.of_nat k) else None.
Proof.
  unfold used. case_decide.
  - rewrite lookup_take_lt, zget_lookup, Nat2Z.id by lia. done.
  - apply lookup_take_ge. lia.
Qed.
Lemma zlen_used {A} n (l : list A) : 0 ≤ n ≤ zlen l → zlen (used n l) = n.
Proof. intros. unfold used. rewrite length_take. lia. Qed.
Lemma lookup_ins {A} i (x : A) l (k : nat) : 0 ≤ i ≤ zlen l →
  ins i x l !! k = if decide (Z.of_nat k < i) then l !! k
                   else if decide (Z.of_nat k = i) then Some x else l !! pred k.
Proof.
  intros. unfold ins. repeat case_decide.
  - rewrite lookup_app_l by (rewrite length_take; lia). apply lookup_take_lt. lia.
  - rewrite lookup_app_r by (rewrite length_take; lia).
    replace (k - length (take (Z.to_nat i) l))%nat with 0%nat by (rewrite length_take; lia). done.
  - rewrite lookup_app_r by (rewrite length_take; lia).
    replace (k - length (take (Z.to_nat i) l))%nat with (S (k - S (Z.to_nat i))) by (rewrite length_take; lia).
    rewrite lookup_cons_ne_0 by lia. cbn [pred]. rewrite lookup_drop. f_equal. lia.
Qed.
Lemma length_ins {A} i (x : A) l : length (ins i x l) = S (length l).
Proof. unfold ins. rewrite length_app. cbn. rewrite length_take, length_drop. lia. Qed.

Lemma delete_ins {A} i (x : A) l : 0 ≤ i ≤ zlen l → delete (Z.to_nat i) (ins i x l) = l.
Proof.
  intros Hi. unfold ins. rewrite delete_take_drop.
  rewrite take_app_le by (rewrite length_take; lia). rewrite take_take, Nat.min_id.
  rewrite drop_app_ge by (rewrite length_take; lia). rewrite length_take.
  replace (S (Z.to_nat i) - Z.to_nat i `min` length l)%nat with 1%nat by lia. cbn.
  rewrite drop_0. apply take_drop.
Qed.

(** Lists read through [zget]. *)
Lemma used_ext {A} n (l l' : list A) : (∀ j, 0 ≤ j < n → zget l j = zget l' j) → used n l = used n l'.
Proof. intros H. apply list_eq. intros k. rewrite !lookup_used. case_decide; [apply H; lia|done]. Qed.

Section array_specs.
Context {A B : Type}.
Implicit Types (a src dst : list A * list B).

(** Both arrays have the same number of cells. *)
Definition cells a (c : Z) : Prop := zlen a.1 = c ∧ zlen a.2 = c.
(** Reading both arrays at once. *)
Definition entry a (i : Z) : option A * option B := (zget a.1 i, zget a.2 i).

Lemma set_entry_spec a c i k v : cells a c → 0 ≤ i < c →
  ∃ a', set_entry a i k v = Some a' ∧ cells a' c ∧
    ∀ j, entry a' j = if decide (j = i) then (Some k, Some v) else entry a j.
Proof.
  intros [Ha Hb] Hi. unfold set_entry.
  destruct (zset_total a.1 i k) as (ks & -> & Hl1 & Hk); [lia|].
  destruct (zset_total a.2 i v) as (vs & -> & Hl2 & Hv); [lia|].
  exists (ks, vs). split; [done|]. split; [split; cbn; lia|].
  intros j. unfold entry. cbn. rewrite Hk, Hv. by case_decide.
Qed.
Lemma copy_entry_spec src c j dst c' i : cells src c → cells dst c' → 0 ≤ j < c → 0 ≤ i < c' →
  ∃ a', copy_entry src j dst i = Some a' ∧ cells a' c' ∧
    ∀ k, entry a' k = if decide (k = i) then entry src j else entry dst k.
Proof.
  intros [Hs1 Hs2] Hd Hj Hi. unfold copy_entry.
  destruct (zget_is_Some src.1 j) as [k Hk]; [lia|]. destruct (zget_is_Some src.2 j) as [v Hv]; [lia|].
  destruct (set_entry_spec dst c' i k v Hd Hi) as (a' & Hset & Ha' & He).
  exists a'. rewrite Hk, Hv. split; [exact Hset|]. split; [done|].
  intros x. rewrite He. unfold entry. by rewrite Hk, Hv.
Qed.

Lemma shift_right_spec n idx a c : cells a c → 0 ≤ idx ≤ n → n < c →
  ∃ a', shift_right n idx a = Some a' ∧ cells a' c ∧
    ∀ j, entry a' j = if decide (idx < j ≤ n) then entry a (j - 1) else entry a j.
Proof.
  intros Ha Hidx Hn. unfold shift_right.
  destruct (loop_down_inv (λ i s, cells s c ∧
      ∀ j, entry s j = if decide (i < j ≤ n) then entry a (j - 1) else entry a j)
    idx n (λ i a, copy_entry a (i - 1) a i) a) as (a' & Hrun & Ha' & He); [lia| | |eauto].
  - split; [done|]. intros j. by rewrite decide_False by lia.
  - intros i s Hi [Hs He]. destruct (copy_entry_spec s c (i - 1) s c i Hs Hs) as (s' & Hex & Hs' & He');
      [lia..|]. exists s'. split; [done|]. split; [done|]. intros j. rewrite He', !He.
    repeat case_decide; try lia; try done. by subst.
Qed.

Lemma shift_left_spec n idx a c : cells a c → 0 ≤ idx < n → n ≤ c →
  ∃ a', shift_left n idx a = Some a' ∧ cells a' c ∧
    ∀ j, entry a' j = if decide (idx ≤ j < n - 1) then entry a (j + 1) else entry a j.
Proof.
  intros Ha Hidx Hn. unfold shift_left.
  destruct (loop_up_inv (λ i s, cells s c ∧
      ∀ j, entry s j = if decide (idx ≤ j < i) then entry a (j + 1) else entry a j)
    idx (n - 1) (λ i a, copy_entry a (i + 1) a i) a) as (a' & Hrun & Ha' & He); [lia| | |eauto].
  - split; [done|]. intros j. by rewrite decide_False by lia.
  - intros i s Hi [Hs He]. destruct (copy_entry_spec s c (i + 1) s c i Hs Hs) as (s' & Hex & Hs' & He');
      [lia..|]. exists s'. split; [done|]. split; [done|]. intros j. rewrite He', !He.
    repeat case_decide; try lia; try done. by subst.
Qed.

Lemma copy_range_spec src c lo n d dst c' : cells src c → cells dst c' →
  0 ≤ lo ≤ n → n ≤ c → 0 ≤ d → d + (n - lo) ≤ c' →
  ∃ a', copy_range src lo n d dst = Some a' ∧ cells a' c' ∧
    ∀ j, entry a' j = if decide (d ≤ j < d + (n - lo)) then entry src (j - d + lo) else entry dst j.
Proof.
  intros Hs Hd Hlo Hn Hd0 Hfit. unfold copy_range.
  destruct (loop_up_inv (λ i s, cells s c' ∧
      ∀ j, entry s j = if decide (d ≤ j < d + (i - lo)) then entry src (j - d + lo) else entry dst j)
    lo n (λ i dst, copy_entry src i dst (d + (i - lo))) dst) as (a' & Hrun & Ha' & He); [lia| | |eauto].
  - split; [done|]. intros j. by rewrite decide_False by lia.
  - intros i s Hi [Hs1 He].
    destruct (copy_entry_spec src c i s c' (d + (i - lo)) Hs Hs1) as (s' & Hex & Hs' & He'); [lia..|].
    exists s'. split; [done|]. split; [done|]. intros j. rewrite He', He.
    repeat case_decide; try lia; try done. subst. f_equal. lia.
Qed.

(** The entries in use, as a pair of lists. *)
Definition uses (n : Z) a : list A * list B := (used n a.1, used n a.2).

Lemma insert_entry n idx k v a c : cells a c → 0 ≤ idx ≤ n → n < c →
  ∃ a1 a2, shift_right n idx a = Some a1 ∧ set_entry a1 idx k v = Some a2 ∧ cells a2 c ∧
    uses (n + 1) a2 = (ins idx k (used n a.1), ins idx v (used n a.2)).
Proof.
  intros Ha Hidx Hn. destruct (shift_right_spec n idx a c Ha Hidx Hn) as (a1 & Hs & Ha1 & He1).
  destruct (set_entry_spec a1 c idx k v Ha1) as (a2 & Hs2 & Ha2 & He2); [lia|].
  exists a1, a2. split_and!; try done. destruct Ha as [Hc1 Hc2].
  assert (He : ∀ j, entry a2 j = if decide (j = idx) then (Some k, Some v)
    else if decide (idx < j ≤ n) then entry a (j - 1) else entry a j).
  { intros j. by rewrite He2, He1. }
  unfold uses. f_equal; apply list_eq; intros j; rewrite lookup_used, lookup_ins by (rewrite zlen_used; lia);
    rewrite !lookup_used; specialize (He (Z.of_nat j)); unfold entry in He;
    repeat case_decide; try lia; try congruence;
    injection He as He' He''; rewrite ?He', ?He''; f_equal; lia.
Qed.

Lemma delete_entry n idx a c : cells a c → 0 ≤ idx < n → n ≤ c →
  ∃ a1, shift_left n idx a = Some a1 ∧ cells a1 c ∧
    uses (n - 1) a1 = (delete (Z.to_nat idx) (used n a.1), delete (Z.to_nat idx) (used n a.2)).
Proof.
  intros Ha Hidx Hn. destruct (shift_left_spec n idx a c Ha Hidx Hn) as (a1 & Hs & Ha1 & He).
  exists a1. split_and!; try done. destruct Ha as [Hc1 Hc2].
  unfold uses. f_equal; apply list_eq; intros j; specialize (He (Z.of_nat j)); unfold entry in He;
    (destruct (decide (j < Z.to_nat idx)%nat);
     [rewrite list_lookup_delete_lt by lia|rewrite list_lookup_delete_ge by lia]);
    rewrite !lookup_used; repeat case_decide; try lia; try congruence;
    injection He as He' He''; rewrite ?He', ?He''; f_equal; lia.
Qed.

Lemma append_entries src c lo n d dst c' : cells src c → cells dst c' →
  0 ≤ lo ≤ n → n ≤ c → 0 ≤ d → d + (n - lo) ≤ c' →
  ∃ a', copy_range src lo n d dst = Some a' ∧ cells a' c' ∧
    uses (d + (n - lo)) a' = (used d dst.1 ++ drop (Z.to_nat lo) (used n src.1),
                              used d dst.2 ++ drop (Z.to_nat lo) (used n src.2)).
Proof.
  intros Hs Hd Hlo Hn Hd0 Hfit.
  destruct (copy_range_spec src c lo n d dst c' Hs Hd Hlo Hn Hd0 Hfit) as (a' & Hex & Ha' & He).
  exists a'. split_and!; try done. destruct Hs as [Hc1 Hc2], Hd as [Hd1 Hd2].
  assert (Hu1 : length (used d dst.1) = Z.to_nat d) by (unfold used; rewrite length_take; lia).
  assert (Hu2 : length (used d dst.2) = Z.to_nat d) by (unfold used; rewrite length_take; lia).
  unfold uses. f_equal; apply list_eq; intros j; specialize (He (Z.of_nat j)); unfold entry in He;
    rewrite lookup_used;
    (destruct (decide (j < Z.to_nat d)%nat);
     [rewrite lookup_app_l by lia|rewrite lookup_app_r by lia; rewrite lookup_drop]);
    rewrite !lookup_used; repeat case_decide; try lia; try congruence;
    injection He as He' He''; rewrite ?He', ?He''; f_equal; lia.
Qed.
End array_specs.

(** ** Leaf pages *)
Module Leaf.

Definition capacity : Z := 254.     (* [keys_[254]], [values_[254]] *)

Record BPlusTreeLeafPage := mkLeaf {
  hdr : BPlusTreePage;
  next_page_id_ : page_id_t;
  keys_ : list Z;
  values_ : list RID;
}.
Definition set_hdr (h : BPlusTreePage) (l : BPlusTreeLeafPage) : BPlusTreeLeafPage :=
  mkLeaf h (next_page_id_ l) (keys_ l) (values_ l).
Definition set_next (p : page_id_t) (l : BPlusTreeLeafPage) : BPlusTreeLeafPage :=
  mkLeaf (hdr l) p (keys_ l) (values_ l).
Definition arrays (l : BPlusTreeLeafPage) : list Z * list RID := (keys_ l, values_ l).
Definition set_arrays (a : list Z * list RID) (n : Z) (l : BPlusTreeLeafPage) : BPlusTreeLeafPage :=
  mkLeaf (set_size n (hdr l)) (next_page_id_ l) a.1 a.2.

Definition Init (page_id parent_id : page_id_t) (max_size : Z) (l : BPlusTreeLeafPage)
    : BPlusTreeLeafPage :=
  mkLeaf (mkHdr LEAF_PAGE 0 max_size parent_id page_id) INVALID_PAGE_ID (keys_ l) (values_ l).
Definition default_max_size : Z := 253.

Definition KeyIndex (l : BPlusTreeLeafPage) (key : Z) : option Z :=
  search (λ k, bool_decide (k < key)) (S (Z.to_nat (size_ (hdr l)))) (keys_ l) 0 (size_ (hdr l) - 1).

Definition KeyAt (l : BPlusTreeLeafPage) (i : Z) : option Z := zget (keys_ l) i.
Definition ValueAt (l : BPlusTreeLeafPage) (i : Z) : option RID := zget (values_ l) i.

(** [index < GetSize() && keys_[index] == key]. *)
Definition found (l : BPlusTreeLeafPage) (index key : Z) : option bool :=
  if decide (index < size_ (hdr l)) then k ← zget (keys_ l) index; Some (bool_decide (k = key))
  else Some false.

Definition Lookup (l : BPlusTreeLeafPage) (key : Z) : option (option RID) :=
  index ← KeyIndex l key;
  b ← found l index key;
  if (b : bool) then v ← zget (values_ l) index; Some (Some v) else Some None.

Definition Insert (key : Z) (value : RID) (l : BPlusTreeLeafPage) : option (Z * BPlusTreeLeafPage) :=
  index ← KeyIndex l key;
  b ← found l index key;
  if (b : bool) then Some (size_ (hdr l), l) else
  a ← shift_right (size_ (hdr l)) index (arrays l);
  a ← set_entry a index key value;
  let n := size_ (hdr l) + 1 in
  Some (n, set_arrays a n l).

(** Methods on two pages return the receiver first. *)
Definition MoveHalfTo (l recipient : BPlusTreeLeafPage)
    : option (BPlusTreeLeafPage * BPlusTreeLeafPage) :=
  let move_count := Z.quot (size_ (hdr l)) 2 in
  let start_index := size_ (hdr l) - move_count in
  a ← copy_range (arrays l) start_index (size_ (hdr l)) 0 (arrays recipient);
  Some (set_hdr (set_size start_index (hdr l)) l, set_arrays a move_count recipient).

Definition RemoveAt (index : Z) (l : BPlusTreeLeafPage) : option BPlusTreeLeafPage :=
  a ← shift_left (size_ (hdr l)) index (arrays l);
  Some (set_arrays a (size_ (hdr l) - 1) l).

Definition Remove (key : Z) (l : BPlusTreeLeafPage) : option (bool * BPlusTreeLeafPage) :=
  index ← KeyIndex l key;
  b ← found l index key;
  if (b : bool) then l ← RemoveAt index l; Some (true, l) else Some (false, l).

Definition MoveAllTo (l recipient : BPlusTreeLeafPage)
    : option (BPlusTreeLeafPage * BPlusTreeLeafPage) :=
  let dest_index := size_ (hdr recipient) in
  a ← copy_range (arrays l) 0 (size_ (hdr l)) dest_index (arrays recipient);
  Some (set_hdr (set_size 0 (hdr l)) l,
        set_next (next_page_id_ l) (set_arrays a (dest_index + size_ (hdr l)) recipient)).

Definition MoveFirstToEndOf (l recipient : BPlusTreeLeafPage)
    : option (BPlusTreeLeafPage * BPlusTreeLeafPage) :=
  first_key ← zget (keys_ l) 0;
  first_val ← zget (values_ l) 0;
  '(_, recipient) ← Insert first_key first_val recipient;
  l ← RemoveAt 0 l;
  Some (l, recipient).

Definition MoveLastToFrontOf (l recipient : BPlusTreeLeafPage)
    : option (BPlusTreeLeafPage * BPlusTreeLeafPage) :=
  let last_idx := size_ (hdr l) - 1 in
  last_key ← zget (keys_ l) last_idx;
  last_val ← zget (values_ l) last_idx;
  '(_, recipient) ← Insert last_key last_val recipient;
  l ← RemoveAt last_idx l;
  Some (l, recipient).
End Leaf.

(** ** Internal pages *)
Module Internal.

Definition capacity : Z := 339.     (* [keys_[339]], [values_[339]] *)

Record BPlusTreeInternalPage := mkInternal {
  hdr : BPlusTreePage;
  keys_ : list Z;
  values_ : list page_id_t;
}.
Definition set_hdr (h : BPlusTreePage) (n : BPlusTreeInternalPage) : BPlusTreeInternalPage :=
  mkInternal h (keys_ n) (values_ n).
Definition arrays (n : BPlusTreeInternalPage) : list Z * list page_id_t := (keys_ n, values_ n).
Definition set_arrays (a : list Z * list page_id_t) (s : Z) (n : BPlusTreeInternalPage)
    : BPlusTreeInternalPage := mkInternal (set_size s (hdr n)) a.1 a.2.

Definition Init (page_id parent_id : page_id_t) (max_size : Z) (n : BPlusTreeInternalPage)
    : BPlusTreeInternalPage :=
  mkInternal (mkHdr INTERNAL_PAGE 0 max_size parent_id page_id) (keys_ n) (values_ n).
Definition default_max_size : Z := 338.

Definition KeyAt (n : BPlusTreeInternalPage) (i : Z) : option Z := zget (keys_ n) i.
Definition ValueAt (n : BPlusTreeInternalPage) (i : Z) : option page_id_t := zget (values_ n) i.
Definition SetKeyAt (i key : Z) (n : BPlusTreeInternalPage) : option BPlusTreeInternalPage :=
  ks ← zset (keys_ n) i key; Some (mkInternal (hdr n) ks (values_ n)).
Definition SetValueAt (i : Z) (v : page_id_t) (n : BPlusTreeInternalPage)
    : option BPlusTreeInternalPage :=
  vs ← zset (values_ n) i v; Some (mkInternal (hdr n) (keys_ n) vs).

Definition Lookup (n : BPlusTreeInternalPage) (key : Z) : option page_id_t :=
  low ← search (λ k, bool_decide (k ≤ key)) (S (Z.to_nat (size_ (hdr n)))) (keys_ n) 1 (size_ (hdr n) - 1);
  zget (values_ n) (low - 1).

Definition Populate (val0 : page_id_t) (key1 : Z) (val1 : page_id_t) (n : BPlusTreeInternalPage)
    : option BPlusTreeInternalPage :=
  n ← SetValueAt 0 val0 n; n ← SetKeyAt 1 key1 n; n ← SetValueAt 1 val1 n;
  Some (set_hdr (set_size 2 (hdr n)) n).

(** The first index at which [values_] holds [v], or -1. *)
Definition index_of (v : page_id_t) (n : BPlusTreeInternalPage) : option Z :=
  r ← find_up 0 (size_ (hdr n)) (λ i, x ← zget (values_ n) i; Some (bool_decide (x = v)));
  Some (default (-1) r).

Definition InsertNodeAfter (old_value : page_id_t) (new_key : Z) (new_value : page_id_t)
    (n : BPlusTreeInternalPage) : option BPlusTreeInternalPage :=
  index ← index_of old_value n;
  a ← shift_right (size_ (hdr n)) (index + 1) (arrays n);
  a ← set_entry a (index + 1) new_key new_value;
  Some (set_arrays a (size_ (hdr n) + 1) n).

Definition MoveHalfTo (n recipient : BPlusTreeInternalPage)
    : option (BPlusTreeInternalPage * BPlusTreeInternalPage) :=
  let move_count := Z.quot (size_ (hdr n)) 2 in
  let start_index := size_ (hdr n) - move_count in
  a ← copy_range (arrays n) start_index (size_ (hdr n)) 0 (arrays recipient);
  Some (set_hdr (set_size start_index (hdr n)) n, set_arrays a move_count recipient).

Definition Remove (index : Z) (n : BPlusTreeInternalPage) : option BPlusTreeInternalPage :=
  a ← shift_left (size_ (hdr n)) index (arrays n);
  Some (set_arrays a (size_ (hdr n) - 1) n).

Definition MoveAllTo (parent_key : Z) (n recipient : BPlusTreeInternalPage)
    : option (BPlusTreeInternalPage * BPlusTreeInternalPage) :=
  let dest_index := size_ (hdr recipient) in
  v0 ← zget (values_ n) 0;
  a ← set_entry (arrays recipient) dest_index parent_key v0;
  a ← copy_range (arrays n) 1 (size_ (hdr n)) (dest_index + 1) a;
  Some (set_hdr (set_size 0 (hdr n)) n, set_arrays a (dest_index + size_ (hdr n)) recipient).

Definition MoveFirstToEndOf (parent_key : Z) (n recipient : BPlusTreeInternalPage)
    : option (BPlusTreeInternalPage * BPlusTreeInternalPage) :=
  let dest_idx := size_ (hdr recipient) in
  v0 ← zget (values_ n) 0;
  a ← set_entry (arrays recipient) dest_idx parent_key v0;
  b ← shift_left (size_ (hdr n)) 0 (arrays n);
  Some (set_arrays b (size_ (hdr n) - 1) n, set_arrays a (dest_idx + 1) recipient).

Definition MoveLastToFrontOf (parent_key : Z) (n recipient : BPlusTreeInternalPage)
    : option (BPlusTreeInternalPage * BPlusTreeInternalPage) :=
  a ← shift_right (size_ (hdr recipient)) 0 (arrays recipient);
  ks ← zset a.1 1 parent_key;
  v ← zget (values_ n) (size_ (hdr n) - 1);
  vs ← zset a.2 0 v;
  Some (set_hdr (set_size (size_ (hdr n) - 1) (hdr n)) n,
        set_arrays (ks, vs) (size_ (hdr recipient) + 1) recipient).
End Internal.

(** ** Specifications *)

(** The boundary of a test that holds on a prefix of the keys. *)
Lemma search_spec p fuel keys low high : 0 ≤ low ≤ high + 1 → high < zlen keys →
  high - low + 1 < Z.of_nat fuel →
  (∀ i j ki kj, low ≤ i ≤ j → j ≤ high → zget keys i = Some ki → zget keys j = Some kj →
     p kj = true → p ki = true) →
  ∃ r, search p fuel keys low high = Some r ∧ low ≤ r ≤ high + 1 ∧
    (∀ i k, low ≤ i < r → zget keys i = Some k → p k = true) ∧
    (∀ i k, r ≤ i ≤ high → zget keys i = Some k → p k = false).
Proof.
  revert low high. induction fuel as [|fuel IH]; intros low high Hlow Hhigh Hfuel Hmono; [lia|].
  cbn [search]. case_decide as Hle; [|exists low; split_and!; [done|lia..]].
  set (mid := low + (high - low) / 2).
  assert (Hmid : low ≤ mid ≤ high) by (unfold mid; pose proof (Z.div_mod (high - low) 2);
    pose proof (Z.mod_pos_bound (high - low) 2); lia).
  destruct (zget_is_Some keys mid) as [k Hk]; [lia|]. rewrite Hk. cbn [mbind option_bind].
  destruct (p k) eqn:Hp.
  - destruct (IH (mid + 1) high) as (r & -> & Hr & Hlt & Hge); [lia..| |].
    { intros i j ki kj ? ?. apply Hmono; lia. }
    exists r. split_and!; [done|lia|lia| |done]. intros i ki Hi Hki.
    destruct (decide (i ≤ mid)); [apply (Hmono i mid ki k); done || lia|]. apply (Hlt i); [lia|done].
  - destruct (IH low (mid - 1)) as (r & -> & Hr & Hlt & Hge); [lia..| |].
    { intros i j ki kj ? ?. apply Hmono; lia. }
    exists r. split_and!; [done|lia|lia|done|]. intros i ki Hi Hki.
    destruct (decide (i ≤ mid - 1)); [apply (Hge i); [lia|done]|].
    destruct (p ki) eqn:Hpi; [|done]. rewrite (Hmono mid i k ki) in Hp by (done || lia). done.
Qed.

(** Strictly increasing keys. *)
Definition inc (ks : list Z) : Prop :=
  ∀ (i j : nat) ki kj, (i < j)%nat → ks !! i = Some ki → ks !! j = Some kj → ki < kj.

Lemma inc_NoDup ks : inc ks → NoDup ks.
Proof.
  intros H. apply NoDup_alt. intros i j x Hi Hj.
  destruct (Nat.lt_trichotomy i j) as [Hij|[Hij|Hij]]; [|done|].
  - specialize (H i j x x Hij Hi Hj). lia.
  - specialize (H j i x x Hij Hj Hi). lia.
Qed.
Lemma inc_take n ks : inc ks → inc (take n ks).
Proof. intros H i j ki kj Hij [Hi _]%lookup_take_Some [Hj _]%lookup_take_Some. by eapply H. Qed.
Lemma inc_drop n ks : inc ks → inc (drop n ks).
Proof. intros H i j ki kj Hij. rewrite !lookup_drop. apply H. lia. Qed.
Lemma inc_app ks1 ks2 : inc ks1 → inc ks2 → (∀ x y, x ∈ ks1 → y ∈ ks2 → x < y) → inc (ks1 ++ ks2).
Proof.
  intros H1 H2 Hlt i j ki kj Hij. rewrite !lookup_app_Some. intros [Hi|[Hi Hi']] [Hj|[Hj Hj']].
  - by eapply H1.
  - apply Hlt; by eapply list_elem_of_lookup_2.
  - apply lookup_lt_Some in Hj. lia.
  - eapply H2; [|done..]. lia.
Qed.
Lemma inc_delete i ks : inc ks → inc (delete i ks).
Proof.
  intros H j k x y Hjk. destruct (decide (j < i)%nat), (decide (k < i)%nat);
    rewrite ?(list_lookup_delete_lt _ i j), ?(list_lookup_delete_ge _ i j),
      ?(list_lookup_delete_lt _ i k), ?(list_lookup_delete_ge _ i k) by lia; apply H; lia.
Qed.
Lemma inc_ins i x ks : 0 ≤ i ≤ zlen ks → inc ks →
  (∀ (j : nat) y, Z.of_nat j < i → ks !! j = Some y → y < x) →
  (∀ (j : nat) y, i ≤ Z.of_nat j → ks !! j = Some y → x < y) → inc (ins i x ks).
Proof.
  intros Hi H Hlt Hge j k y z Hjk. rewrite !lookup_ins by done. repeat case_decide; try lia; try done.
  - by eapply H.
  - intros Hj [= <-]. by eapply Hlt.
  - intros Hj Hk. eapply (H j (pred k)); [lia|done..].
  - intros [= <-] Hk. apply (Hge (pred k)); [lia|done].
  - intros Hj Hk. eapply (H (pred j) (pred k)); [lia|done..].
Qed.

(** Sorted association lists as finite maps. *)
Definition pmap (ps : list (Z * RID)) : gmap Z RID := list_to_map ps.

Lemma pmap_lookup ps k v : inc ps.*1 → pmap ps !! k = Some v ↔ (k, v) ∈ ps.
Proof. intros H%inc_NoDup. unfold pmap. by rewrite elem_of_list_to_map. Qed.
Lemma pmap_None ps k : pmap ps !! k = None ↔ k ∉ ps.*1.
Proof. unfold pmap. rewrite not_elem_of_list_to_map. done. Qed.
Lemma ins_Permutation {A} i (x : A) l : ins i x l ≡ₚ x :: l.
Proof. unfold ins. rewrite <- Permutation_middle. by rewrite take_drop. Qed.
Lemma pmap_ins i k v ps : inc ps.*1 → k ∉ ps.*1 → pmap (ins i (k, v) ps) = <[k := v]> (pmap ps).
Proof.
  intros H%inc_NoDup Hk. unfold pmap. rewrite <- list_to_map_cons. apply list_to_map_proper.
  - rewrite ins_Permutation. cbn. by apply NoDup_cons.
  - apply ins_Permutation.
Qed.
Lemma pmap_delete i k v ps : inc ps.*1 → ps !! i = Some (k, v) → pmap (delete i ps) = delete k (pmap ps).
Proof.
  intros H Hi. pose proof (delete_Permutation _ _ _ Hi) as Hp. apply inc_NoDup in H.
  assert (Hd : NoDup ((k, v) :: delete i ps).*1) by by rewrite <- Hp.
  unfold pmap. rewrite (list_to_map_proper ps ((k, v) :: delete i ps)) by done.
  cbn in *. apply NoDup_cons in Hd as [Hk _].
  rewrite delete_insert_id; [done|]. by apply not_elem_of_list_to_map.
Qed.

(** Pairs of parallel lists. *)
Lemma zip_ins {A B} i (k : A) (v : B) ks vs : length ks = length vs →
  zip (ins i k ks) (ins i v vs) = ins i (k, v) (zip ks vs).
Proof.
  intros Hl. unfold ins. rewrite zip_with_app by (rewrite !length_take; lia). cbn.
  by rewrite zip_with_take, zip_with_drop.
Qed.
Lemma zip_delete {A B} i (ks : list A) (vs : list B) :
  zip (delete i ks) (delete i vs) = delete i (zip ks vs).
Proof.
  revert i vs. induction ks as [|k ks IH]; intros i vs; [done|].
  destruct vs as [|v vs]; [by destruct i, (delete _ _)|].
  destruct i; [done|]. cbn. f_equal. apply IH.
Qed.

(** *** Leaf pages as sorted association lists *)
Module LeafFacts.
Import Leaf.
Implicit Types (l r : BPlusTreeLeafPage) (key : Z).

Definition pairs l : list (Z * RID) := zip (used (size_ (hdr l)) (keys_ l)) (used (size_ (hdr l)) (values_ l)).

Record wf l : Prop := {
  lw_cells : cells (arrays l) capacity;
  lw_size : 0 ≤ size_ (hdr l) ≤ capacity;
  lw_inc : inc (pairs l).*1;
}.

(** [l'] is [l] with other entries: same identity and links. *)
Record same_links l l' : Prop := {
  sl_hdr : hdr l' = set_size (size_ (hdr l')) (hdr l);
  sl_next : next_page_id_ l' = next_page_id_ l;
}.

Lemma length_used l : cells (arrays l) capacity → 0 ≤ size_ (hdr l) ≤ capacity →
  zlen (used (size_ (hdr l)) (keys_ l)) = size_ (hdr l) ∧
  zlen (used (size_ (hdr l)) (values_ l)) = size_ (hdr l).
Proof. intros [Hk Hv] Hs. cbn in *. by rewrite !zlen_used by lia. Qed.
Lemma zlen_pairs l : wf l → zlen (pairs l) = size_ (hdr l).
Proof.
  intros [Hc Hs _]. destruct (length_used l Hc Hs). unfold pairs. rewrite length_zip_with. lia.
Qed.

Lemma pairs_at l (i : nat) k v : wf l → pairs l !! i = Some (k, v) →
  zget (keys_ l) (Z.of_nat i) = Some k ∧ zget (values_ l) (Z.of_nat i) = Some v ∧
  Z.of_nat i < size_ (hdr l).
Proof.
  intros Hwf. unfold pairs. rewrite lookup_zip_with_Some. intros (k' & v' & [= -> ->] & Hk & Hv).
  rewrite lookup_used in Hk. rewrite lookup_used in Hv. by repeat case_decide.
Qed.
Lemma pairs_get l (i : Z) : wf l → 0 ≤ i < size_ (hdr l) →
  ∃ k v, pairs l !! Z.to_nat i = Some (k, v) ∧ zget (keys_ l) i = Some k ∧ zget (values_ l) i = Some v.
Proof.
  intros Hwf Hi. pose proof (zlen_pairs l Hwf) as Hl.
  destruct (lookup_lt_is_Some_2 (pairs l) (Z.to_nat i)) as [[k v] Hp]; [lia|].
  destruct (pairs_at l _ _ _ Hwf Hp) as (Hk & Hv & _). rewrite Z2Nat.id in Hk, Hv by lia. eauto.
Qed.

(** The result of [KeyIndex]: the place of [key] among the keys. *)
Record place l key (i : Z) : Prop := {
  pl_range : 0 ≤ i ≤ size_ (hdr l);
  pl_lt (j : nat) k v : Z.of_nat j < i → pairs l !! j = Some (k, v) → k < key;
  pl_ge (j : nat) k v : i ≤ Z.of_nat j → pairs l !! j = Some (k, v) → key ≤ k;
}.

Lemma key_index_spec l key : wf l → ∃ i, KeyIndex l key = Some i ∧ place l key i.
Proof.
  intros Hwf. pose proof Hwf as [[Hck Hcv] Hs Hinc]. cbn in Hck, Hcv. unfold KeyIndex.
  destruct (search_spec (λ k, bool_decide (k < key)) (S (Z.to_nat (size_ (hdr l)))) (keys_ l)
    0 (size_ (hdr l) - 1)) as (i & -> & Hi & Hlt & Hge); [lia..| |].
  - intros a b ka kb Ha Hb Hka Hkb. rewrite !bool_decide_eq_true.
    destruct (decide (a = b)) as [->|]; [by simplify_eq|].
    destruct (pairs_get l a Hwf ltac:(lia)) as (ka' & va & Hpa & Hka' & _).
    destruct (pairs_get l b Hwf ltac:(lia)) as (kb' & vb & Hpb & Hkb' & _). simplify_eq.
    assert (ka < kb); [|lia]. eapply (Hinc (Z.to_nat a) (Z.to_nat b)); [lia|..];
      rewrite list_lookup_fmap; [by rewrite Hpa|by rewrite Hpb].
  - exists i. split; [done|]. split; [lia|..]; intros j k v Hj Hp;
      destruct (pairs_at l j k v Hwf Hp) as (Hk & _ & Hjs).
    + specialize (Hlt (Z.of_nat j) k ltac:(lia) Hk). by apply bool_decide_eq_true in Hlt.
    + specialize (Hge (Z.of_nat j) k ltac:(lia) Hk). apply bool_decide_eq_false in Hge. lia.
Qed.

(** [found] decides membership, at the place of the key. *)
Lemma found_spec l key i : wf l → place l key i →
  (found l i key = Some true ∧ ∃ v, pairs l !! Z.to_nat i = Some (key, v) ∧ i < size_ (hdr l) ∧
     zget (values_ l) i = Some v ∧ pmap (pairs l) !! key = Some v) ∨
  (found l i key = Some false ∧ pmap (pairs l) !! key = None ∧ key ∉ (pairs l).*1).
Proof.
  intros Hwf [Hi Hlt Hge]. unfold found.
  assert (Habs : (∀ k v, i < size_ (hdr l) → pairs l !! Z.to_nat i = Some (k, v) → k ≠ key) →
    pmap (pairs l) !! key = None ∧ key ∉ (pairs l).*1).
  { intros Hne. rewrite pmap_None. assert (Hn : key ∉ (pairs l).*1); [|done].
    intros ([k v] & -> & [j Hj]%list_elem_of_lookup_1)%list_elem_of_fmap. cbn in *.
    destruct (pairs_at l j k v Hwf Hj) as (_ & _ & Hjs).
    destruct (decide (Z.of_nat j < i)); [specialize (Hlt j k v ltac:(lia) Hj); lia|].
    destruct (decide (Z.of_nat j = i)) as [Heq|].
    - apply (Hne k v); [lia| |done]. by rewrite <- Heq, Nat2Z.id.
    - destruct (pairs_get l i Hwf ltac:(lia)) as (k' & v' & Hp & _).
      specialize (Hge (Z.to_nat i) k' v' ltac:(lia) Hp).
      assert (k' < k); [|lia]. eapply (lw_inc l Hwf (Z.to_nat i) j); [lia|..]; rewrite list_lookup_fmap;
        [by rewrite Hp|by rewrite Hj]. }
  case_decide as Hin; [|right; split; [done|]; apply Habs; lia].
  destruct (pairs_get l i Hwf ltac:(lia)) as (k & v & Hp & Hk & Hv). rewrite Hk. cbn.
  destruct (decide (k = key)) as [->|Hne].
  - left. rewrite bool_decide_true by done. split; [done|]. exists v. split_and!; try done.
    apply pmap_lookup; [apply Hwf|by eapply list_elem_of_lookup_2].
  - right. rewrite bool_decide_false by done. split; [done|]. apply Habs. intros k' v' _ Hp'. congruence.
Qed.

Lemma leaf_lookup_spec l key : wf l → Lookup l key = Some (pmap (pairs l) !! key).
Proof.
  intros Hwf. unfold Lookup. destruct (key_index_spec l key Hwf) as (i & -> & Hpl). cbn.
  destruct (found_spec l key i Hwf Hpl) as [(-> & v & _ & _ & Hv & ->)|(-> & -> & _)]; cbn; [|done].
  by rewrite Hv.
Qed.

Lemma leaf_insert_spec l key v : wf l → size_ (hdr l) < capacity →
  match pmap (pairs l) !! key with
  | Some _ => Insert key v l = Some (size_ (hdr l), l)
  | None => ∃ l' i, Insert key v l = Some (size_ (hdr l) + 1, l') ∧ wf l' ∧ same_links l l' ∧
      size_ (hdr l') = size_ (hdr l) + 1 ∧ place l key i ∧ pairs l' = ins i (key, v) (pairs l) ∧
      pmap (pairs l') = <[key := v]> (pmap (pairs l))
  end.
Proof.
  intros Hwf Hcap. unfold Insert. destruct (key_index_spec l key Hwf) as (i & -> & Hpl). cbn.
  destruct (found_spec l key i Hwf Hpl) as [(-> & w & _ & _ & _ & ->)|(-> & Hnone & Hnin)]; cbn; [done|].
  rewrite Hnone. pose proof Hwf as [Hc Hs Hinc]. pose proof Hpl as [Hi Hlt Hge].
  destruct (insert_entry (size_ (hdr l)) i key v (arrays l) capacity Hc Hi ltac:(lia))
    as (a1 & a2 & -> & Hset & Ha2 & Hu). cbn. rewrite Hset. cbn.
  set (l' := set_arrays a2 (size_ (hdr l) + 1) l).
  assert (Hp : pairs l' = ins i (key, v) (pairs l)).
  { unfold uses in Hu. injection Hu as Hu1 Hu2. unfold pairs, l', set_arrays. cbn.
    rewrite Hu1, Hu2. apply zip_ins. destruct (length_used l Hc Hs). lia. }
  exists l', i. split_and!; try done.
  - split; [done|cbn; lia|]. rewrite Hp. unfold ins. rewrite fmap_app. cbn. rewrite fmap_take, fmap_drop.
    apply inc_ins; [by rewrite length_fmap, zlen_pairs|done|..]; intros j y Hj;
      rewrite list_lookup_fmap_Some; intros ([k w] & -> & Hp'); cbn.
    + by eapply Hlt.
    + specialize (Hge j k w Hj Hp'). assert (k ≠ key); [|lia]. intros ->. apply Hnin.
      apply list_elem_of_fmap. exists (key, w). split; [done|by eapply list_elem_of_lookup_2].
  - rewrite Hp. by apply pmap_ins.
Qed.

Lemma remove_at_spec l (i : Z) : wf l → 0 ≤ i < size_ (hdr l) →
  ∃ l', RemoveAt i l = Some l' ∧ wf l' ∧ same_links l l' ∧ size_ (hdr l') = size_ (hdr l) - 1 ∧
    pairs l' = delete (Z.to_nat i) (pairs l).
Proof.
  intros Hwf Hi. pose proof Hwf as [Hc Hs Hinc]. unfold RemoveAt.
  destruct (delete_entry (size_ (hdr l)) i (arrays l) capacity Hc Hi ltac:(lia)) as (a1 & -> & Ha1 & Hu).
  cbn. set (l' := set_arrays a1 (size_ (hdr l) - 1) l). exists l'.
  assert (Hp : pairs l' = delete (Z.to_nat i) (pairs l)).
  { unfold uses in Hu. injection Hu as Hu1 Hu2. unfold pairs, l', set_arrays. cbn.
    rewrite Hu1, Hu2. apply zip_delete. }
  split_and!; try done. split; [done|cbn; lia|]. rewrite Hp, list_fmap_delete. by apply inc_delete.
Qed.

Lemma leaf_remove_spec l key : wf l →
  match pmap (pairs l) !! key with
  | None => Remove key l = Some (false, l)
  | Some _ => ∃ l', Remove key l = Some (true, l') ∧ wf l' ∧ same_links l l' ∧
      size_ (hdr l') = size_ (hdr l) - 1 ∧ pmap (pairs l') = delete key (pmap (pairs l))
  end.
Proof.
  intros Hwf. unfold Remove. destruct (key_index_spec l key Hwf) as (i & -> & Hpl). cbn.
  destruct (found_spec l key i Hwf Hpl) as [(-> & v & Hp & Hi & _ & ->)|(-> & -> & _)]; cbn; [|done].
  destruct (remove_at_spec l i Hwf) as (l' & -> & Hwf' & Hsl & Hsz & Hp'); [destruct Hpl; lia|].
  cbn. exists l'. split_and!; try done. rewrite Hp'. eapply pmap_delete; [apply Hwf|done].
Qed.

(** The entry a removal takes out. *)
Lemma leaf_remove_entry l key v : wf l → pmap (pairs l) !! key = Some v →
  ∃ l' ps1 ps2, Remove key l = Some (true, l') ∧ wf l' ∧ same_links l l' ∧
    pairs l = ps1 ++ (key, v) :: ps2 ∧ pairs l' = ps1 ++ ps2.
Proof.
  intros Hwf Hkey. unfold Remove. destruct (key_index_spec l key Hwf) as (i & -> & Hpl). cbn.
  destruct (found_spec l key i Hwf Hpl) as [(-> & w & Hp & Hi & _ & Hw)|(_ & Hnone & _)]; cbn; [|congruence].
  destruct (remove_at_spec l i Hwf) as (l' & -> & Hwf' & Hsl & _ & Hp'); [destruct Hpl; lia|].
  assert (w = v) as -> by congruence.
  exists l', (take (Z.to_nat i) (pairs l)), (drop (S (Z.to_nat i)) (pairs l)). split_and!; try done.
  - symmetry. by apply take_drop_middle.
  - by rewrite Hp', delete_take_drop.
Qed.

(** Every key of [ps] is below every key of [qs]. *)
Definition below (ps qs : list (Z * RID)) : Prop := ∀ x y, x ∈ ps.*1 → y ∈ qs.*1 → x < y.

Lemma pairs_set_arrays a n l :
  pairs (set_arrays a n l) = zip (uses n a).1 (uses n a).2.
Proof. done. Qed.
Lemma used_less {A} m n (l : list A) : 0 ≤ m ≤ n → used m l = take (Z.to_nat m) (used n l).
Proof. intros. unfold used. rewrite take_take. f_equal. lia. Qed.

Lemma leaf_move_half_spec l r : wf l → cells (arrays r) capacity →
  ∃ l' r', MoveHalfTo l r = Some (l', r') ∧ wf l' ∧ wf r' ∧ same_links l l' ∧ same_links r r' ∧
    size_ (hdr l') = size_ (hdr l) - size_ (hdr l) / 2 ∧ size_ (hdr r') = size_ (hdr l) / 2 ∧
    pairs l = pairs l' ++ pairs r'.
Proof.
  intros Hwf Hr. pose proof Hwf as [Hc Hs Hinc]. unfold MoveHalfTo. rewrite Z.quot_div_nonneg by lia.
  set (n := size_ (hdr l)) in *. assert (Hh : 0 ≤ n / 2 ≤ n) by (Z.div_mod_to_equations; lia).
  set (st := n - n / 2). assert (Hst : 0 ≤ st ≤ n) by lia.
  destruct (append_entries (arrays l) capacity st n 0 (arrays r) capacity Hc Hr)
    as (a & -> & Ha & Hu); [lia..|]. cbn [mbind option_bind].
  replace (0 + (n - st)) with (n / 2) in Hu by lia.
  set (l' := set_hdr (set_size st (hdr l)) l). set (r' := set_arrays a (n / 2) r).
  assert (Hpl : pairs l' = take (Z.to_nat st) (pairs l)).
  { unfold pairs, l'. cbn. rewrite !(used_less st n) by lia. by rewrite zip_with_take. }
  assert (Hpr : pairs r' = drop (Z.to_nat st) (pairs l)).
  { unfold r'. rewrite pairs_set_arrays, Hu. cbn. unfold pairs. by rewrite zip_with_drop. }
  exists l', r'. split_and!; try done.
  - split; [done|cbn; lia|]. rewrite Hpl, fmap_take. by apply inc_take.
  - split; [done|cbn; unfold capacity in *; lia|]. rewrite Hpr, fmap_drop. by apply inc_drop.
  - by rewrite Hpl, Hpr, take_drop.
Qed.

Lemma leaf_move_all_spec l r : wf l → wf r → size_ (hdr r) + size_ (hdr l) ≤ capacity →
  below (pairs r) (pairs l) →
  ∃ l' r', MoveAllTo l r = Some (l', r') ∧ wf r' ∧ hdr r' = set_size (size_ (hdr r')) (hdr r) ∧
    next_page_id_ r' = next_page_id_ l ∧ size_ (hdr r') = size_ (hdr r) + size_ (hdr l) ∧
    pairs r' = pairs r ++ pairs l ∧ pairs l' = [].
Proof.
  intros Hwl Hwr Hfit Hbelow. pose proof Hwl as [Hc Hs Hinc]. pose proof Hwr as [Hcr Hsr Hincr].
  unfold MoveAllTo.
  destruct (append_entries (arrays l) capacity 0 (size_ (hdr l)) (size_ (hdr r)) (arrays r) capacity Hc Hcr)
    as (a & -> & Ha & Hu); [lia..|]. cbn [mbind option_bind]. rewrite Z.sub_0_r in Hu.
  eexists _, (set_next (next_page_id_ l) (set_arrays a (size_ (hdr r) + size_ (hdr l)) r)).
  assert (Hp : pairs (set_next (next_page_id_ l) (set_arrays a (size_ (hdr r) + size_ (hdr l)) r)) =
    pairs r ++ pairs l).
  { change (pairs (set_next ?p ?x)) with (pairs x). rewrite pairs_set_arrays, Hu. cbn.
    unfold pairs. apply zip_with_app. destruct (length_used r Hcr Hsr). lia. }
  split; [done|]. split_and!; try done. split; [done|cbn; lia|].
  rewrite Hp, fmap_app. by apply inc_app.
Qed.

Lemma ins_end {A} (x : A) ps : ins (zlen ps) x ps = ps ++ [x].
Proof. unfold ins. rewrite Nat2Z.id, take_ge, drop_ge by lia. done. Qed.
Lemma place_above l key i : wf l → place l key i → (∀ x, x ∈ (pairs l).*1 → x < key) → i = size_ (hdr l).
Proof.
  intros Hwf [Hi _ Hge] Hab. destruct (decide (i < size_ (hdr l))) as [Hlt|]; [|lia].
  destruct (pairs_get l i Hwf ltac:(lia)) as (k & v & Hp & _).
  specialize (Hge (Z.to_nat i) k v ltac:(lia) Hp). assert (k < key); [|lia]. apply Hab.
  apply list_elem_of_fmap. exists (k, v). split; [done|by eapply list_elem_of_lookup_2].
Qed.
Lemma place_below l key i : wf l → place l key i → (∀ x, x ∈ (pairs l).*1 → key < x) → i = 0.
Proof.
  intros Hwf [Hi Hlt _] Hab. destruct (decide (0 < i)) as [H0|]; [|lia].
  destruct (pairs_get l 0 Hwf ltac:(lia)) as (k & v & Hp & _).
  specialize (Hlt 0%nat k v ltac:(lia) Hp). assert (key < k); [|lia]. apply Hab.
  apply list_elem_of_fmap. exists (k, v). split; [done|by eapply list_elem_of_lookup_2].
Qed.
Lemma absent_key l key : wf l → key ∉ (pairs l).*1 → pmap (pairs l) !! key = None.
Proof. intros _ H. by apply pmap_None. Qed.

Lemma leaf_move_first_spec l r : wf l → wf r → 0 < size_ (hdr l) → size_ (hdr r) < capacity →
  below (pairs r) (pairs l) →
  ∃ l' r' p, MoveFirstToEndOf l r = Some (l', r') ∧ wf l' ∧ wf r' ∧ same_links l l' ∧ same_links r r' ∧
    pairs l = p :: pairs l' ∧ pairs r' = pairs r ++ [p].
Proof.
  intros Hwl Hwr Hpos Hcap Hbelow.
  destruct (pairs_get l 0 Hwl ltac:(lia)) as (k & v & Hp & Hk & Hv).
  assert (Hkin : k ∈ (pairs l).*1).
  { apply list_elem_of_fmap. exists (k, v). split; [done|by eapply list_elem_of_lookup_2]. }
  unfold MoveFirstToEndOf. rewrite Hk, Hv. cbn [mbind option_bind].
  pose proof (leaf_insert_spec r k v Hwr Hcap) as Hi. rewrite absent_key in Hi; [|done|].
  2: { intros Hin. specialize (Hbelow k k Hin Hkin). lia. }
  destruct Hi as (r' & i & -> & Hwr' & Hsr & _ & Hpl & Hpr & _). cbn [mbind option_bind].
  destruct (remove_at_spec l 0 Hwl ltac:(lia)) as (l' & -> & Hwl' & Hsl & _ & Hpl'). cbn.
  exists l', r', (k, v). split_and!; try done.
  - rewrite Hpl'. destruct (pairs l) as [|q ps]; [done|]. cbn in *. by injection Hp as ->.
  - rewrite Hpr. rewrite (place_above r k i Hwr Hpl), <- (zlen_pairs r Hwr); [apply ins_end|].
    intros x Hx. by apply Hbelow.
Qed.

Lemma leaf_move_last_spec l r : wf l → wf r → 0 < size_ (hdr l) → size_ (hdr r) < capacity →
  below (pairs l) (pairs r) →
  ∃ l' r' p, MoveLastToFrontOf l r = Some (l', r') ∧ wf l' ∧ wf r' ∧ same_links l l' ∧ same_links r r' ∧
    pairs l = pairs l' ++ [p] ∧ pairs r' = p :: pairs r.
Proof.
  intros Hwl Hwr Hpos Hcap Hbelow.
  destruct (pairs_get l (size_ (hdr l) - 1) Hwl ltac:(lia)) as (k & v & Hp & Hk & Hv).
  assert (Hkin : k ∈ (pairs l).*1).
  { apply list_elem_of_fmap. exists (k, v). split; [done|by eapply list_elem_of_lookup_2]. }
  unfold MoveLastToFrontOf. rewrite Hk, Hv. cbn [mbind option_bind].
  pose proof (leaf_insert_spec r k v Hwr Hcap) as Hi. rewrite absent_key in Hi; [|done|].
  2: { intros Hin. specialize (Hbelow k k Hkin Hin). lia. }
  destruct Hi as (r' & i & -> & Hwr' & Hsr & _ & Hpl & Hpr & _). cbn [mbind option_bind].
  destruct (remove_at_spec l (size_ (hdr l) - 1) Hwl ltac:(lia)) as (l' & -> & Hwl' & Hsl & _ & Hpl'). cbn.
  exists l', r', (k, v). split_and!; try done.
  - rewrite Hpl'. pose proof (zlen_pairs l Hwl) as Hl. rewrite delete_take_drop.
    rewrite drop_ge, app_nil_r by lia. rewrite <- (take_S_r _ _ _ Hp). symmetry. apply take_ge. lia.
  - rewrite Hpr, (place_below r k i Hwr Hpl); [done|]. intros x Hx. by apply Hbelow.
Qed.

Lemma leaf_init_spec page_id parent_id max_size l : cells (arrays l) capacity →
  wf (Init page_id parent_id max_size l) ∧ pairs (Init page_id parent_id max_size l) = [].
Proof.
  intros Hc. split; [|done]. split; [done|cbn; unfold capacity; lia|].
  intros i j ki kj _ Hi. cbn in Hi. done.
Qed.
End LeafFacts.

(** *** Internal pages as children with separators *)
Module InternalFacts.
Import Internal.
Implicit Types (n r : BPlusTreeInternalPage) (key : Z).

(** The entries in use; the key of the first one is not a separator. *)
Definition ents n : list (Z * page_id_t) :=
  zip (used (size_ (hdr n)) (keys_ n)) (used (size_ (hdr n)) (values_ n)).
Definition children n : list page_id_t := (ents n).*2.
Definition seps n : list Z := tail (ents n).*1.

Record wf n : Prop := {
  iw_cells : cells (arrays n) capacity;
  iw_size : 1 ≤ size_ (hdr n) ≤ capacity;
  iw_inc : inc (seps n);
}.

Definition same_id n n' : Prop := hdr n' = set_size (size_ (hdr n')) (hdr n).

Section ents.
Context n (Hc : cells (arrays n) capacity) (Hs : 0 ≤ size_ (hdr n) ≤ capacity).

Lemma length_used2 : zlen (used (size_ (hdr n)) (keys_ n)) = size_ (hdr n) ∧
  zlen (used (size_ (hdr n)) (values_ n)) = size_ (hdr n).
Proof. destruct Hc as [Hk Hv]. cbn in *. by rewrite !zlen_used by lia. Qed.
Lemma zlen_ents : zlen (ents n) = size_ (hdr n).
Proof. destruct length_used2. unfold ents. rewrite length_zip_with. lia. Qed.
Lemma ents_keys : (ents n).*1 = used (size_ (hdr n)) (keys_ n).
Proof. destruct length_used2. unfold ents. apply fst_zip. lia. Qed.
Lemma ents_values : (ents n).*2 = used (size_ (hdr n)) (values_ n).
Proof. destruct length_used2. unfold ents. apply snd_zip. lia. Qed.
Lemma ents_get (i : Z) : 0 ≤ i < size_ (hdr n) →
  ∃ k c, ents n !! Z.to_nat i = Some (k, c) ∧ zget (keys_ n) i = Some k ∧ zget (values_ n) i = Some c.
Proof.
  intros Hi. pose proof zlen_ents as Hl.
  destruct (lookup_lt_is_Some_2 (ents n) (Z.to_nat i)) as [[k c] Hp]; [lia|].
  exists k, c. split; [done|]. unfold ents in Hp.
  rewrite lookup_zip_with_Some in Hp. destruct Hp as (k' & c' & [= <- <-] & Hk & Hv).
  rewrite lookup_used in Hk. rewrite lookup_used in Hv. rewrite Z2Nat.id in Hk, Hv by lia.
  by repeat case_decide.
Qed.
Lemma children_get (i : nat) c : children n !! i = Some c →
  zget (values_ n) (Z.of_nat i) = Some c ∧ Z.of_nat i < size_ (hdr n).
Proof. unfold children. rewrite ents_values, lookup_used. by case_decide. Qed.
End ents.

Lemma ents_set_arrays a m n : ents (set_arrays a m n) = zip (uses m a).1 (uses m a).2.
Proof. done. Qed.

(** The separators left of child [i] are at most [key], those right of it above. *)
Definition routes n key (i : nat) : Prop :=
  (i < length (children n))%nat ∧
  (∀ (j : nat) s, (j < i)%nat → seps n !! j = Some s → s ≤ key) ∧
  (∀ (j : nat) s, (i <= j)%nat → seps n !! j = Some s → key < s).

Lemma seps_at n (j : nat) : seps n !! j = (ents n).*1 !! S j.
Proof. unfold seps. by destruct ((ents n).*1). Qed.

Lemma internal_lookup_spec n key : wf n →
  ∃ i c, Lookup n key = Some c ∧ children n !! i = Some c ∧ routes n key i.
Proof.
  intros [Hc Hs Hinc]. assert (Hs0 : 0 ≤ size_ (hdr n) ≤ capacity) by lia.
  pose proof (ents_keys n Hc Hs0) as Hk. pose proof (zlen_ents n Hc Hs0) as Hl.
  assert (Hsep : ∀ j s, (Z.of_nat (S j) < size_ (hdr n)) → seps n !! j = Some s ↔
    zget (keys_ n) (Z.of_nat (S j)) = Some s).
  { intros j s Hj. rewrite seps_at, Hk, lookup_used. by rewrite decide_True. }
  unfold Lookup. destruct Hc as [Hck Hcv]. cbn in Hck, Hcv.
  destruct (search_spec (λ k, bool_decide (k ≤ key)) (S (Z.to_nat (size_ (hdr n)))) (keys_ n)
    1 (size_ (hdr n) - 1)) as (lo & -> & Hlo & Hlt & Hge); [lia..| |].
  - intros a b ka kb Ha Hb Hka Hkb. rewrite !bool_decide_eq_true.
    destruct (decide (a = b)) as [->|]; [by simplify_eq|].
    replace a with (Z.of_nat (S (Z.to_nat (a - 1)))) in Hka by lia.
    replace b with (Z.of_nat (S (Z.to_nat (b - 1)))) in Hkb by lia.
    apply Hsep in Hka; [|lia]. apply Hsep in Hkb; [|lia].
    assert (ka < kb); [|lia]. by eapply (Hinc (Z.to_nat (a - 1)) (Z.to_nat (b - 1))); [lia|..].
  - cbn [mbind option_bind].
    destruct (ents_get n (conj Hck Hcv) Hs0 (lo - 1)) as (k & c & He & _ & Hv); [lia|].
    exists (Z.to_nat (lo - 1)), c. rewrite Hv. split; [done|]. unfold children. split.
    { by rewrite list_lookup_fmap, He. }
    split; [unfold children; rewrite length_fmap; lia|]. split; intros j s Hj Hjs;
      assert (Z.of_nat (S j) < size_ (hdr n)) as Hjn
        by (rewrite seps_at in Hjs; apply lookup_lt_Some in Hjs; rewrite length_fmap in Hjs; lia);
      apply Hsep in Hjs; try done.
    + specialize (Hlt (Z.of_nat (S j)) s ltac:(lia) Hjs). by apply bool_decide_eq_true in Hlt.
    + specialize (Hge (Z.of_nat (S j)) s ltac:(lia) Hjs). apply bool_decide_eq_false in Hge. lia.
Qed.

(** The position of a child. *)
Lemma index_of_spec n (i : nat) c : cells (arrays n) capacity → 0 ≤ size_ (hdr n) ≤ capacity →
  NoDup (children n) → children n !! i = Some c → index_of c n = Some (Z.of_nat i).
Proof.
  intros Hc Hs Hnd Hi. unfold index_of.
  destruct (children_get n Hc Hs i c Hi) as [Hvi Hin].
  assert (Hch : ∀ j v, 0 ≤ j < size_ (hdr n) → zget (values_ n) j = Some v → children n !! Z.to_nat j = Some v).
  { intros j v Hj Hv. unfold children. rewrite (ents_values n Hc Hs), lookup_used.
    by rewrite Z2Nat.id, decide_True by lia. }
  destruct (find_up_spec 0 (size_ (hdr n)) (λ i, x ← zget (values_ n) i; Some (bool_decide (x = c))))
    as [(k & -> & Hk & Hpk & _)|(_ & Hall)]; [lia| | |].
  - intros j Hj. destruct (ents_get n Hc Hs j Hj) as (? & v & _ & _ & ->). cbn. eauto.
  - cbn. destruct (ents_get n Hc Hs k Hk) as (? & v & _ & _ & Hv). rewrite Hv in Hpk. cbn in Hpk.
    injection Hpk as ->%bool_decide_eq_true. pose proof (NoDup_lookup _ _ _ _ Hnd Hi (Hch k c Hk Hv)).
    f_equal. lia.
  - specialize (Hall (Z.of_nat i) ltac:(lia)). rewrite Hvi in Hall. cbn in Hall.
    injection Hall as Hall%bool_decide_eq_false. done.
Qed.

Lemma insert_after_spec n old key new (i : nat) : cells (arrays n) capacity →
  0 ≤ size_ (hdr n) < capacity → NoDup (children n) → children n !! i = Some old →
  ∃ n', InsertNodeAfter old key new n = Some n' ∧ cells (arrays n') capacity ∧ same_id n n' ∧
    size_ (hdr n') = size_ (hdr n) + 1 ∧ ents n' = ins (Z.of_nat i + 1) (key, new) (ents n).
Proof.
  intros Hc Hs Hnd Hi. unfold InsertNodeAfter. rewrite (index_of_spec n i old Hc) by (done || lia).
  cbn [mbind option_bind]. destruct (children_get n Hc ltac:(lia) i old Hi) as [_ Hin].
  destruct (insert_entry (size_ (hdr n)) (Z.of_nat i + 1) key new (arrays n) capacity Hc)
    as (a1 & a2 & -> & Hset & Ha2 & Hu); [lia..|]. cbn [mbind option_bind]. rewrite Hset. cbn [mbind option_bind].
  eexists. split; [done|]. split_and!; try done. rewrite ents_set_arrays, Hu. cbn [fst snd].
  apply zip_ins. destruct (length_used2 n Hc ltac:(lia)). cbn in *. lia.
Qed.

Lemma internal_remove_spec n (i : Z) : cells (arrays n) capacity → 0 ≤ i < size_ (hdr n) → size_ (hdr n) ≤ capacity →
  ∃ n', Remove i n = Some n' ∧ cells (arrays n') capacity ∧ same_id n n' ∧
    size_ (hdr n') = size_ (hdr n) - 1 ∧ ents n' = delete (Z.to_nat i) (ents n).
Proof.
  intros Hc Hi Hs. unfold Remove.
  destruct (delete_entry (size_ (hdr n)) i (arrays n) capacity Hc Hi Hs) as (a1 & -> & Ha1 & Hu).
  cbn [mbind option_bind]. eexists. split; [done|]. split_and!; try done.
  rewrite ents_set_arrays, Hu. cbn [fst snd]. apply zip_delete.
Qed.

Lemma internal_move_half_spec n r : cells (arrays n) capacity → 0 ≤ size_ (hdr n) ≤ capacity →
  cells (arrays r) capacity →
  ∃ n' r', MoveHalfTo n r = Some (n', r') ∧ cells (arrays n') capacity ∧ cells (arrays r') capacity ∧
    same_id n n' ∧ same_id r r' ∧
    size_ (hdr n') = size_ (hdr n) - size_ (hdr n) / 2 ∧ size_ (hdr r') = size_ (hdr n) / 2 ∧
    ents n = ents n' ++ ents r'.
Proof.
  intros Hc Hs Hr. unfold MoveHalfTo. rewrite Z.quot_div_nonneg by lia. set (m := size_ (hdr n)) in *.
  assert (Hh : 0 ≤ m / 2 ≤ m) by (Z.div_mod_to_equations; lia).
  set (st := m - m / 2). assert (Hst : 0 ≤ st ≤ m) by lia.
  destruct (append_entries (arrays n) capacity st m 0 (arrays r) capacity Hc Hr)
    as (a & -> & Ha & Hu); [lia..|]. cbn [mbind option_bind].
  replace (0 + (m - st)) with (m / 2) in Hu by lia.
  set (n' := set_hdr (set_size st (hdr n)) n). set (r' := set_arrays a (m / 2) r).
  assert (Hpl : ents n' = take (Z.to_nat st) (ents n)).
  { unfold ents, n'. cbn. rewrite !(LeafFacts.used_less st m) by lia. by rewrite zip_with_take. }
  assert (Hpr : ents r' = drop (Z.to_nat st) (ents n)).
  { unfold r'. rewrite ents_set_arrays, Hu. cbn. unfold ents. by rewrite zip_with_drop. }
  exists n', r'. split_and!; try done. by rewrite Hpl, Hpr, take_drop.
Qed.

(** One entry written at the end. *)
Lemma push_entry m k v r : cells (arrays r) capacity → 0 ≤ m < capacity → m = size_ (hdr r) →
  ∃ a, set_entry (arrays r) m k v = Some a ∧ cells a capacity ∧
    uses (m + 1) a = (used m (keys_ r) ++ [k], used m (values_ r) ++ [v]).
Proof.
  intros Hr Hm ->. destruct (set_entry_spec (arrays r) capacity _ k v Hr Hm) as (a & Hset & Ha & He).
  exists a. split_and!; try done. set (m := size_ (hdr r)) in *.
  assert (Hpre : uses m a = (used m (keys_ r), used m (values_ r))).
  { unfold uses. f_equal; apply used_ext; intros j Hj; specialize (He j); unfold entry in He;
      rewrite decide_False in He by lia; by injection He. }
  specialize (He m). rewrite decide_True in He by done. unfold entry in He. injection He as Hk Hv.
  unfold uses in *. injection Hpre as Hp1 Hp2.
  assert (G : ∀ {A} (l : list A) x, zget l m = Some x → used (m + 1) l = used m l ++ [x]).
  { intros A l x Hx. unfold used. replace (Z.to_nat (m + 1)) with (S (Z.to_nat m)) by lia.
    apply take_S_r. by rewrite <- zget_lookup by lia. }
  by rewrite (G _ _ _ Hk), (G _ _ _ Hv), Hp1, Hp2.
Qed.

Lemma ents_head n : cells (arrays n) capacity → 1 ≤ size_ (hdr n) ≤ capacity →
  ∃ k c, ents n = (k, c) :: tail (ents n) ∧ zget (values_ n) 0 = Some c.
Proof.
  intros Hc Hs. destruct (ents_get n Hc ltac:(lia) 0) as (k & c & He & _ & Hv); [lia|].
  exists k, c. split; [|done]. destruct (ents n) as [|e es]; [done|]. cbn in *. by injection He as ->.
Qed.

Lemma internal_move_all_spec n r key : cells (arrays n) capacity → 1 ≤ size_ (hdr n) ≤ capacity →
  cells (arrays r) capacity → 0 ≤ size_ (hdr r) → size_ (hdr r) + size_ (hdr n) ≤ capacity →
  ∃ n' r' k c, MoveAllTo key n r = Some (n', r') ∧ cells (arrays r') capacity ∧ same_id r r' ∧
    size_ (hdr r') = size_ (hdr r) + size_ (hdr n) ∧ ents n = (k, c) :: tail (ents n) ∧
    ents r' = ents r ++ (key, c) :: tail (ents n).
Proof.
  intros Hc Hs Hr Hsr Hfit. destruct (ents_head n Hc Hs) as (k & c & Hh & Hv). unfold MoveAllTo. rewrite Hv.
  cbn [mbind option_bind].
  destruct (push_entry (size_ (hdr r)) key c r Hr) as (a & -> & Ha & Hu); [lia|done|]. cbn [mbind option_bind].
  destruct (append_entries (arrays n) capacity 1 (size_ (hdr n)) (size_ (hdr r) + 1) a capacity Hc Ha)
    as (a' & -> & Ha' & Hu'); [lia..|]. cbn [mbind option_bind].
  replace (size_ (hdr r) + 1 + (size_ (hdr n) - 1)) with (size_ (hdr r) + size_ (hdr n)) in Hu' by lia.
  eexists _, _, k, c. split; [done|]. split_and!; try done.
  rewrite ents_set_arrays, Hu'. cbn [fst snd]. unfold uses in Hu. injection Hu as -> ->.
  destruct (length_used2 r Hr ltac:(lia)) as [Hl1 Hl2].
  rewrite <- !app_assoc, zip_with_app by lia. f_equal. cbn. f_equal.
  change (Pos.to_nat 1) with 1%nat. rewrite <- zip_with_drop. fold (ents n). by rewrite Hh at 1.
Qed.

Lemma internal_move_first_spec n r key : cells (arrays n) capacity → 1 ≤ size_ (hdr n) ≤ capacity →
  cells (arrays r) capacity → 0 ≤ size_ (hdr r) < capacity →
  ∃ n' r' k c, MoveFirstToEndOf key n r = Some (n', r') ∧
    cells (arrays n') capacity ∧ cells (arrays r') capacity ∧ same_id n n' ∧ same_id r r' ∧
    size_ (hdr n') = size_ (hdr n) - 1 ∧ size_ (hdr r') = size_ (hdr r) + 1 ∧
    ents n = (k, c) :: ents n' ∧ ents r' = ents r ++ [(key, c)].
Proof.
  intros Hc Hs Hr Hsr. destruct (ents_head n Hc Hs) as (k & c & Hh & Hv). unfold MoveFirstToEndOf. rewrite Hv.
  cbn [mbind option_bind].
  destruct (push_entry (size_ (hdr r)) key c r Hr) as (a & -> & Ha & Hu); [lia|done|]. cbn [mbind option_bind].
  destruct (delete_entry (size_ (hdr n)) 0 (arrays n) capacity Hc) as (b & -> & Hb & Hub); [lia..|].
  cbn [mbind option_bind]. eexists _, _, k, c. split; [done|]. split_and!; try done.
  - rewrite ents_set_arrays, Hub. cbn [fst snd]. rewrite zip_delete.
    change (zip _ _) with (ents n). clear -Hh. by destruct (ents n).
  - rewrite ents_set_arrays, Hu. cbn [fst snd]. destruct (length_used2 r Hr ltac:(lia)) as [Hl1 Hl2].
    by rewrite zip_with_app by lia.
Qed.

Lemma internal_move_last_spec n r key : cells (arrays n) capacity → 1 ≤ size_ (hdr n) ≤ capacity →
  cells (arrays r) capacity → 1 ≤ size_ (hdr r) < capacity →
  ∃ n' r' k c k0 c0, MoveLastToFrontOf key n r = Some (n', r') ∧
    cells (arrays n') capacity ∧ cells (arrays r') capacity ∧ same_id n n' ∧ same_id r r' ∧
    size_ (hdr n') = size_ (hdr n) - 1 ∧ size_ (hdr r') = size_ (hdr r) + 1 ∧
    ents n = ents n' ++ [(k, c)] ∧ ents r = (k0, c0) :: tail (ents r) ∧
    ents r' = (k0, c) :: (key, c0) :: tail (ents r).
Proof.
  intros Hc Hs Hr Hsr. destruct (ents_head r Hr ltac:(lia)) as (k0 & c0 & Hh & Hv0).
  destruct (ents_get n Hc ltac:(lia) (size_ (hdr n) - 1)) as (k & c & He & _ & Hv); [lia|].
  unfold MoveLastToFrontOf.
  destruct (shift_right_spec (size_ (hdr r)) 0 (arrays r) capacity Hr) as (a & -> & Ha & Hea); [lia..|].
  cbn [mbind option_bind]. destruct Ha as [Ha1 Ha2].
  destruct (zset_total a.1 1 key) as (ks & -> & Hl1 & Hk); [unfold capacity in *; lia|]. cbn [mbind option_bind].
  rewrite Hv. cbn [mbind option_bind].
  destruct (zset_total a.2 0 c) as (vs & -> & Hl2 & Hvs); [unfold capacity in *; lia|]. cbn [mbind option_bind].
  set (n' := set_hdr (set_size (size_ (hdr n) - 1) (hdr n)) n).
  set (r' := set_arrays (ks, vs) (size_ (hdr r) + 1) r).
  exists n', r', k, c, k0, c0. split_and!; try done; [split; cbn; lia| |].
  - pose proof (zlen_ents n Hc ltac:(lia)) as Hln.
    assert (Hn' : ents n' = take (Z.to_nat (size_ (hdr n) - 1)) (ents n)).
    { unfold ents, n'. cbn. rewrite !(LeafFacts.used_less (size_ (hdr n) - 1) (size_ (hdr n))) by lia.
      by rewrite zip_with_take. }
    rewrite Hn', <- (take_S_r _ _ _ He). symmetry. apply take_ge. lia.
  - assert (Hsr' : 0 ≤ size_ (hdr r') ≤ capacity) by (cbn; lia).
    assert (Hcr' : cells (arrays r') capacity) by (split; cbn; lia).
    apply list_eq. intros j. pose proof (zlen_ents r' Hcr' Hsr') as Hl'. cbn [size_ hdr r' set_arrays set_size] in Hl'.
    pose proof (zlen_ents r Hr ltac:(lia)) as Hlr. assert (Htl : length (ents r) = S (length (tail (ents r)))) by by rewrite Hh at 1.
    destruct (decide (Z.of_nat j < size_ (hdr r) + 1)) as [Hj|].
    2: { rewrite !lookup_ge_None_2; [done| |]; cbn [length]; lia. }
    destruct (ents_get r' Hcr' Hsr' (Z.of_nat j)) as (k' & c' & He' & Hk' & Hc').
    { cbn. lia. }
    rewrite Nat2Z.id in He'. rewrite He'. cbn in Hk', Hc'. rewrite Hk in Hk'. rewrite Hvs in Hc'.
    pose proof (Hea (Z.of_nat j)) as Hej. unfold entry in Hej. cbn [fst snd arrays] in Hej.
    destruct j as [|[|j]]; cbn [lookup list_lookup].
    + rewrite decide_False in Hk' by lia. rewrite decide_True in Hc' by lia.
      rewrite decide_False in Hej by lia. injection Hej as Hej _. rewrite Hej in Hk'.
      destruct (ents_get r Hr ltac:(lia) 0) as (k2 & c2 & He2 & Hk2 & _); [lia|].
      change (Z.of_nat 0) with 0 in Hk'. rewrite Hh in He2. change (Z.to_nat 0) with 0%nat in He2.
      cbn in He2. congruence.
    + rewrite decide_True in Hk' by lia. rewrite decide_False in Hc' by lia.
      rewrite decide_True in Hej by lia. injection Hej as _ Hej. rewrite Hej in Hc'.
      replace (Z.of_nat 1 - 1) with 0 in Hc' by lia. congruence.
    + rewrite decide_False in Hk' by lia. rewrite decide_False in Hc' by lia.
      rewrite decide_True in Hej by lia. injection Hej as Hej1 Hej2. rewrite Hej1 in Hk'. rewrite Hej2 in Hc'.
      destruct (ents_get r Hr ltac:(lia) (Z.of_nat (S (S j)) - 1)) as (k2 & c2 & He2 & Hk2 & Hc2); [lia|].
      replace (Z.to_nat (Z.of_nat (S (S j)) - 1)) with (S j) in He2 by lia.
      rewrite Hh in He2. cbn in He2. change (tail (ents r) !! j = Some (k2, c2)) in He2.
      change (Some (k', c') = tail (ents r) !! j). rewrite He2. cbn [arrays fst snd] in *. congruence.
Qed.

Lemma populate_spec n val0 key1 val1 : cells (arrays n) capacity →
  ∃ n' k0, Populate val0 key1 val1 n = Some n' ∧ cells (arrays n') capacity ∧ same_id n n' ∧
    size_ (hdr n') = 2 ∧ ents n' = [(k0, val0); (key1, val1)].
Proof.
  intros [Hk Hv]. cbn in Hk, Hv. unfold Populate, SetValueAt, SetKeyAt.
  destruct (zset_total (values_ n) 0 val0) as (vs & -> & Hl1 & Hvs); [unfold capacity in *; lia|].
  cbn [mbind option_bind keys_ values_ hdr].
  destruct (zset_total (keys_ n) 1 key1) as (ks & -> & Hl2 & Hks); [unfold capacity in *; lia|].
  cbn [mbind option_bind keys_ values_ hdr].
  destruct (zset_total vs 1 val1) as (vs2 & -> & Hl3 & Hvs2); [unfold capacity in *; lia|].
  cbn [mbind option_bind keys_ values_ hdr].
  destruct (zget_is_Some (keys_ n) 0) as [k0 Hk0]; [unfold capacity in *; lia|].
  eexists _, k0. split; [done|]. split; [split; cbn; lia|]. split; [done|]. split; [done|].
  set (n' := set_hdr _ _). assert (Hc' : cells (arrays n') capacity) by (split; cbn; lia).
  assert (Hs' : 0 ≤ size_ (hdr n') ≤ capacity) by (cbn; unfold capacity; lia).
  destruct (ents_get n' Hc' Hs' 0) as (ka & ca & Ha & Hka & Hca); [cbn; lia|].
  destruct (ents_get n' Hc' Hs' 1) as (kb & cb & Hb & Hkb & Hcb); [cbn; lia|].
  cbn in Hka, Hca, Hkb, Hcb. rewrite Hks in Hka, Hkb. rewrite Hvs2 in Hca, Hcb.
  cbn in Hka, Hkb, Hca, Hcb. rewrite Hvs in Hca. cbn in Hca.
  pose proof (zlen_ents n' Hc' Hs') as Hl. cbn [size_ hdr n' set_hdr set_size] in Hl.
  destruct (ents n') as [|e0 [|e1 [|? ?]]]; cbn in Hl; try lia.
  rewrite decide_False in Hka by lia. rewrite decide_False, decide_True in Hca by lia.
  rewrite decide_True in Hkb by lia. rewrite decide_True in Hcb by lia.
  change (Z.to_nat 0) with 0%nat in Ha. change (Z.to_nat 1) with 1%nat in Hb. cbn in Ha, Hb. congruence.
Qed.
End InternalFacts.

(** ** Properties *)

(** A leaf page of zero bytes, formatted and filled with some keys. *)
Definition blank_leaf : Leaf.BPlusTreeLeafPage :=
  Leaf.mkLeaf (mkHdr 0 0 0 0 0) 0 (replicate 254 0) (replicate 254 (mkRID 0 0)).
Definition leaf_with (ps : list (Z * RID)) : Leaf.BPlusTreeLeafPage :=
  foldl (λ l p, match Leaf.Insert p.1 p.2 l with Some (_, l') => l' | None => l end)
    (Leaf.Init 7 INVALID_PAGE_ID Leaf.default_max_size blank_leaf) ps.
Lemma blank_leaf_cells : cells (Leaf.arrays blank_leaf) Leaf.capacity.
Proof. split; vm_compute; reflexivity. Qed.
Lemma leaf_with_wf ps : zlen ps < Leaf.capacity →
  LeafFacts.wf (leaf_with ps) ∧ size_ (Leaf.hdr (leaf_with ps)) ≤ zlen ps.
Proof.
  induction ps as [|p ps IH] using rev_ind; intros Hlen.
  { split; [apply LeafFacts.leaf_init_spec, blank_leaf_cells|cbn; lia]. }
  rewrite length_app in *. cbn [length] in *. destruct IH as [Hwf Hsz]; [lia|].
  unfold leaf_with in *. rewrite foldl_app. cbn [foldl].
  set (l := foldl _ _ ps) in *. pose proof (LeafFacts.leaf_insert_spec l p.1 p.2 Hwf ltac:(lia)) as Hi.
  destruct (pmap (LeafFacts.pairs l) !! p.1).
  - rewrite Hi. split; [done|lia].
  - destruct Hi as (l' & i & -> & Hwf' & _ & Hsz' & _). split; [done|lia].
Qed.
Definition leaf_a : Leaf.BPlusTreeLeafPage :=
  leaf_with [(30, mkRID 1 3); (10, mkRID 1 1); (20, mkRID 1 2)].
Lemma leaf_a_wf : LeafFacts.wf leaf_a.
Proof. apply leaf_with_wf. vm_compute. reflexivity. Qed.

(** C13 (functional). A leaf page is a finite map kept as sorted arrays: the binary
    search terminates inside the arrays, [Lookup] answers as the map does,
    [Insert] of an absent key adds it in order and returns the new size, [Insert]
    of a present key returns the old size and changes nothing, [Remove] deletes
    the key and tells whether it was there; the page keeps its links and stays
    well-formed. *)
Theorem leaf_is_map l key v : LeafFacts.wf l → size_ (Leaf.hdr l) < Leaf.capacity →
  Leaf.Lookup l key = Some (pmap (LeafFacts.pairs l) !! key) ∧
  (∃ n l', Leaf.Insert key v l = Some (n, l') ∧ LeafFacts.wf l' ∧ LeafFacts.same_links l l' ∧
     n = size_ (Leaf.hdr l') ∧
     match pmap (LeafFacts.pairs l) !! key with
     | Some _ => l' = l
     | None => n = size_ (Leaf.hdr l) + 1 ∧
         pmap (LeafFacts.pairs l') = <[key := v]> (pmap (LeafFacts.pairs l))
     end) ∧
  (∃ l', Leaf.Remove key l = Some (bool_decide (is_Some (pmap (LeafFacts.pairs l) !! key)), l') ∧
     LeafFacts.wf l' ∧ LeafFacts.same_links l l' ∧
     pmap (LeafFacts.pairs l') = delete key (pmap (LeafFacts.pairs l))).
Proof.
  intros Hwf Hcap. split; [by apply LeafFacts.leaf_lookup_spec|]. split.
  - pose proof (LeafFacts.leaf_insert_spec l key v Hwf Hcap) as H.
    destruct (pmap (LeafFacts.pairs l) !! key).
    + exists (size_ (Leaf.hdr l)), l. split_and!; try done. split; [by destruct l as [[] ? ? ?]|done].
    + destruct H as (l' & i & Hex & Hwf' & Hsl & Hsz & _ & _ & Hm). exists (size_ (Leaf.hdr l) + 1), l'.
      by rewrite Hsz.
  - pose proof (LeafFacts.leaf_remove_spec l key Hwf) as H.
    destruct (pmap (LeafFacts.pairs l) !! key) as [w|] eqn:Hk.
    + destruct H as (l' & Hex & Hwf' & Hsl & _ & Hm). exists l'. by rewrite bool_decide_true.
    + exists l. rewrite bool_decide_false by (by intros [? ?]). split_and!; try done.
      * split; [by destruct l as [[] ? ? ?]|done].
      * by rewrite delete_id.
Qed.
Lemma leaf_is_map_witness :
  Leaf.Lookup leaf_a 20 = Some (pmap (LeafFacts.pairs leaf_a) !! 20) ∧
  (∃ n l', Leaf.Insert 20 (mkRID 9 9) leaf_a = Some (n, l') ∧ LeafFacts.wf l' ∧
     LeafFacts.same_links leaf_a l' ∧ n = size_ (Leaf.hdr l') ∧
     match pmap (LeafFacts.pairs leaf_a) !! 20 with
     | Some _ => l' = leaf_a
     | None => n = size_ (Leaf.hdr leaf_a) + 1 ∧
         pmap (LeafFacts.pairs l') = <[20 := mkRID 9 9]> (pmap (LeafFacts.pairs leaf_a))
     end) ∧
  (∃ l', Leaf.Remove 20 leaf_a =
       Some (bool_decide (is_Some (pmap (LeafFacts.pairs leaf_a) !! 20)), l') ∧
     LeafFacts.wf l' ∧ LeafFacts.same_links leaf_a l' ∧
     pmap (LeafFacts.pairs l') = delete 20 (pmap (LeafFacts.pairs leaf_a))).
Proof. apply leaf_is_map; [apply leaf_a_wf|vm_compute; reflexivity]. Defined.

(** C32 (roundtrip). Splitting a leaf moves its upper half to the new page: both
    halves are well-formed, their sizes are the ones the code computes, and the
    entries of the two pages in order are those of the original; merging the
    right half back restores all the entries, the size and the link to the next
    leaf. *)
Theorem leaf_split_merge l r : LeafFacts.wf l → cells (Leaf.arrays r) Leaf.capacity →
  ∃ l1 r1, Leaf.MoveHalfTo l r = Some (l1, r1) ∧ LeafFacts.wf l1 ∧ LeafFacts.wf r1 ∧
    LeafFacts.pairs l = LeafFacts.pairs l1 ++ LeafFacts.pairs r1 ∧
    size_ (Leaf.hdr r1) = size_ (Leaf.hdr l) / 2 ∧
    ∃ r2 l2, Leaf.MoveAllTo r1 l1 = Some (r2, l2) ∧ LeafFacts.wf l2 ∧
      LeafFacts.pairs l2 = LeafFacts.pairs l ∧ size_ (Leaf.hdr l2) = size_ (Leaf.hdr l) ∧
      Leaf.next_page_id_ l2 = Leaf.next_page_id_ r.
Proof.
  intros Hwf Hr. destruct (LeafFacts.leaf_move_half_spec l r Hwf Hr) as
    (l1 & r1 & Hex & Hwl & Hwr & Hsl & Hsr & Hsz1 & Hsz2 & Hp).
  exists l1, r1. split_and!; try done.
  assert (Hb : LeafFacts.below (LeafFacts.pairs l1) (LeafFacts.pairs r1)).
  { pose proof (LeafFacts.lw_inc l Hwf) as Hinc. rewrite Hp, fmap_app in Hinc.
    intros x y [i Hx]%list_elem_of_lookup_1 [j Hy]%list_elem_of_lookup_1.
    pose proof (lookup_lt_Some _ _ _ Hx).
    apply (Hinc i (length (LeafFacts.pairs l1).*1 + j)%nat); [lia|by rewrite lookup_app_l|].
    rewrite lookup_app_r by lia. rewrite <- Hy. f_equal. lia. }
  destruct (LeafFacts.leaf_move_all_spec r1 l1 Hwr Hwl) as (r2 & l2 & Hex2 & Hw2 & _ & Hn2 & Hs2 & Hp2 & _);
    [destruct Hwf; lia|done|].
  exists r2, l2. split_and!; try done; [by rewrite Hp2|lia|by rewrite Hn2, (LeafFacts.sl_next _ _ Hsr)].
Qed.
Lemma leaf_split_merge_witness :
  ∃ l1 r1, Leaf.MoveHalfTo leaf_a blank_leaf = Some (l1, r1) ∧ LeafFacts.wf l1 ∧ LeafFacts.wf r1 ∧
    LeafFacts.pairs leaf_a = LeafFacts.pairs l1 ++ LeafFacts.pairs r1 ∧
    size_ (Leaf.hdr r1) = size_ (Leaf.hdr leaf_a) / 2 ∧
    ∃ r2 l2, Leaf.MoveAllTo r1 l1 = Some (r2, l2) ∧ LeafFacts.wf l2 ∧
      LeafFacts.pairs l2 = LeafFacts.pairs leaf_a ∧ size_ (Leaf.hdr l2) = size_ (Leaf.hdr leaf_a) ∧
      Leaf.next_page_id_ l2 = Leaf.next_page_id_ blank_leaf.
Proof. apply (leaf_split_merge leaf_a blank_leaf); [apply leaf_a_wf|apply blank_leaf_cells]. Defined.

(** An internal page with three children. *)
Definition blank_internal : Internal.BPlusTreeInternalPage :=
  Internal.mkInternal (mkHdr 0 0 0 0 0) (replicate 339 0) (replicate 339 0).
Definition internal_a : Internal.BPlusTreeInternalPage :=
  let n := Internal.Init 8 INVALID_PAGE_ID Internal.default_max_size blank_internal in
  default n (n ← Internal.Populate 1 100 2 n; Internal.InsertNodeAfter 2 200 3 n).
Lemma internal_a_cells : cells (Internal.arrays internal_a) Internal.capacity.
Proof. vm_compute. done. Qed.
Lemma internal_a_ents : InternalFacts.ents internal_a = [(0, 1); (100, 2); (200, 3)].
Proof. vm_compute. reflexivity. Qed.
Lemma internal_a_wf : InternalFacts.wf internal_a.
Proof.
  split; [apply internal_a_cells|vm_compute; split; discriminate|].
  unfold InternalFacts.seps. rewrite internal_a_ents. cbn.
  intros [|[|i]] [|[|j]] ki kj Hij Hi Hj; cbn in *; simplify_eq; lia.
Qed.

(** C21 (functional). The binary search of an internal page terminates inside the
    arrays and routes a key to the child whose separators enclose it: every
    separator to the left of the child is at most the key, every separator to the
    right is above it. *)
Theorem internal_lookup_routes n key : InternalFacts.wf n →
  ∃ i c, Internal.Lookup n key = Some c ∧ InternalFacts.children n !! i = Some c ∧
    InternalFacts.routes n key i.
Proof. apply InternalFacts.internal_lookup_spec. Qed.
Lemma internal_lookup_routes_witness :
  ∃ i c, Internal.Lookup internal_a 150 = Some c ∧ InternalFacts.children internal_a !! i = Some c ∧
    InternalFacts.routes internal_a 150 i.
Proof. apply internal_lookup_routes, internal_a_wf. Defined.

(** [InsertNodeAfter] places the new child and its separator right
    after the old child, with room for one more entry even in a full page, and
    [Remove] at that index undoes it. *)
Theorem internal_insert_remove n old key new (i : nat) :
  cells (Internal.arrays n) Internal.capacity → 0 ≤ size_ (Internal.hdr n) ≤ Internal.default_max_size →
  NoDup (InternalFacts.children n) → InternalFacts.children n !! i = Some old →
  ∃ n1 n2, Internal.InsertNodeAfter old key new n = Some n1 ∧
    InternalFacts.ents n1 = ins (Z.of_nat i + 1) (key, new) (InternalFacts.ents n) ∧
    size_ (Internal.hdr n1) = size_ (Internal.hdr n) + 1 ∧
    Internal.Remove (Z.of_nat i + 1) n1 = Some n2 ∧
    InternalFacts.ents n2 = InternalFacts.ents n ∧ Internal.hdr n2 = Internal.hdr n.
Proof.
  intros Hc Hs Hnd Hi. unfold Internal.default_max_size in Hs.
  destruct (InternalFacts.insert_after_spec n old key new i Hc) as (n1 & H1 & Hc1 & Hid1 & Hs1 & He1);
    [unfold Internal.capacity; lia|done|done|].
  destruct (InternalFacts.children_get n Hc ltac:(unfold Internal.capacity; lia) i old Hi) as [_ Hin].
  destruct (InternalFacts.internal_remove_spec n1 (Z.of_nat i + 1) Hc1) as (n2 & H2 & Hc2 & Hid2 & Hs2 & He2);
    [lia|unfold Internal.capacity; lia|].
  exists n1, n2. split_and!; try done.
  - rewrite He2, He1. apply delete_ins. split; [lia|].
    rewrite (InternalFacts.zlen_ents n Hc); [lia|unfold Internal.capacity; lia].
  - unfold InternalFacts.same_id in *. rewrite Hid2, Hid1, Hs2, Hs1.
    unfold set_size. cbn. destruct (Internal.hdr n). cbn. f_equal. lia.
Qed.
Lemma internal_insert_remove_witness :
  ∃ n1 n2, Internal.InsertNodeAfter 2 150 9 internal_a = Some n1 ∧
    InternalFacts.ents n1 = ins (Z.of_nat 1 + 1) (150, 9) (InternalFacts.ents internal_a) ∧
    size_ (Internal.hdr n1) = size_ (Internal.hdr internal_a) + 1 ∧
    Internal.Remove (Z.of_nat 1 + 1) n1 = Some n2 ∧
    InternalFacts.ents n2 = InternalFacts.ents internal_a ∧
    Internal.hdr n2 = Internal.hdr internal_a.
Proof.
  apply (internal_insert_remove internal_a 2 150 9 1);
    [apply internal_a_cells|vm_compute; split; discriminate| |];
    unfold InternalFacts.children; rewrite internal_a_ents; [|done].
  cbn. repeat constructor; set_solver.
Defined.

(** Merging and redistributing internal pages rotate the
    separator through the parent: the children of the two pages in order stay the
    same, the key that came down from the parent becomes the separator in front of
    the child that moved, and no entry leaves the arrays. *)
Theorem internal_moves_conserve n r pkey :
  cells (Internal.arrays n) Internal.capacity → 1 ≤ size_ (Internal.hdr n) →
  cells (Internal.arrays r) Internal.capacity → 1 ≤ size_ (Internal.hdr r) →
  size_ (Internal.hdr n) + size_ (Internal.hdr r) ≤ Internal.capacity →
  (∃ n' r', Internal.MoveAllTo pkey n r = Some (n', r') ∧
     InternalFacts.children r' = InternalFacts.children r ++ InternalFacts.children n ∧
     InternalFacts.seps r' = InternalFacts.seps r ++ pkey :: InternalFacts.seps n) ∧
  (∃ n' r', Internal.MoveFirstToEndOf pkey n r = Some (n', r') ∧
     InternalFacts.children r' ++ InternalFacts.children n' =
       InternalFacts.children r ++ InternalFacts.children n ∧
     InternalFacts.seps r' = InternalFacts.seps r ++ [pkey]) ∧
  (∃ n' r', Internal.MoveLastToFrontOf pkey n r = Some (n', r') ∧
     InternalFacts.children n' ++ InternalFacts.children r' =
       InternalFacts.children n ++ InternalFacts.children r ∧
     InternalFacts.seps r' = pkey :: InternalFacts.seps r).
Proof.
  intros Hn Hsn Hr Hsr Hfit. unfold InternalFacts.children, InternalFacts.seps. split_and!.
  - destruct (InternalFacts.internal_move_all_spec n r pkey Hn ltac:(lia) Hr ltac:(lia) ltac:(lia))
      as (n' & r' & k & c & Hex & _ & _ & _ & He & He').
    destruct (InternalFacts.ents_head r Hr ltac:(lia)) as (k0 & c0 & Hr0 & _).
    exists n', r'. split; [done|]. rewrite He', He, Hr0, !fmap_app. done.
  - destruct (InternalFacts.internal_move_first_spec n r pkey Hn ltac:(lia) Hr ltac:(lia))
      as (n' & r' & k & c & Hex & _ & _ & _ & _ & _ & _ & He & He').
    destruct (InternalFacts.ents_head r Hr ltac:(lia)) as (k0 & c0 & Hr0 & _).
    exists n', r'. split; [done|]. rewrite He', He, Hr0, !fmap_app. cbn. by rewrite <- app_assoc.
  - destruct (InternalFacts.internal_move_last_spec n r pkey Hn ltac:(lia) Hr ltac:(lia))
      as (n' & r' & k & c & k0 & c0 & Hex & _ & _ & _ & _ & _ & _ & He & Hr0 & He').
    exists n', r'. split; [done|]. rewrite He', He, Hr0, !fmap_app. cbn. by rewrite <- app_assoc.
Qed.
Lemma internal_moves_conserve_witness :
  (∃ n' r', Internal.MoveAllTo 300 internal_a internal_a = Some (n', r') ∧
     InternalFacts.children r' = InternalFacts.children internal_a ++ InternalFacts.children internal_a ∧
     InternalFacts.seps r' = InternalFacts.seps internal_a ++ 300 :: InternalFacts.seps internal_a) ∧
  (∃ n' r', Internal.MoveFirstToEndOf 300 internal_a internal_a = Some (n', r') ∧
     InternalFacts.children r' ++ InternalFacts.children n' =
       InternalFacts.children internal_a ++ InternalFacts.children internal_a ∧
     InternalFacts.seps r' = InternalFacts.seps internal_a ++ [300]) ∧
  (∃ n' r', Internal.MoveLastToFrontOf 300 internal_a internal_a = Some (n', r') ∧
     InternalFacts.children n' ++ InternalFacts.children r' =
       InternalFacts.children internal_a ++ InternalFacts.children internal_a ∧
     InternalFacts.seps r' = 300 :: InternalFacts.seps internal_a).
Proof.
  apply internal_moves_conserve; try apply internal_a_cells; vm_compute; discriminate.
Defined.
