(* ===== verification/BPlusTreeLayout.v ===== *)
(** The structs of the B+ tree pages in the bytes of a page
    ([reinterpret_cast<BPlusTreeLeafPage*>(page->GetData())] and the like): field
    offsets, decoding and encoding, with the proof that they are inverse on
    structs whose fields fit their types. *)
From Stdlib Require Import ZArith Lia.
From Stdlib Require Strings.Byte.
From stdpp Require Import base list gmap.
From S2P Require Import Prelude Types BPlusTreePage.
Open Scope Z_scope.

(** ** Fields *)
Definition rd_i32 (o : Z) (pg : list byte) : Z := to_signed 32 (rd32 o pg).
Definition rd_i64 (o : Z) (pg : list byte) : Z := to_signed 64 (le_decode (slice o 8 pg)).
Definition rd_rid (o : Z) (pg : list byte) : RID := mkRID (rd32 o pg) (rd32 (o + 4) pg).
Definition enc_rid (r : RID) : list byte :=
  le_encode 4 (rid_page_id r) ++ le_encode 4 (rid_slot_num r).

(** [n] elements of [w] bytes from offset [o] on. *)
Definition rd_array {A} (w : Z) (rd : Z → list byte → A) (o n : Z) (pg : list byte) : list A :=
  (λ i, rd (o + w * i) pg) <$> seqZ 0 n.

(** The five [int32_t]-sized fields of [BPlusTreePage] at offset 0. *)
Definition decode_hdr (pg : list byte) : BPlusTreePage :=
  mkHdr (rd_i32 0 pg) (rd_i32 4 pg) (rd_i32 8 pg) (rd32 12 pg) (rd32 16 pg).
Definition enc_hdr (h : BPlusTreePage) : list byte :=
  le_encode 4 (page_type_ h) ++ le_encode 4 (size_ h) ++ le_encode 4 (max_size_ h) ++
  le_encode 4 (parent_page_id_ h) ++ le_encode 4 (page_id_ h).

(** Leaf: [next_page_id_] at 20, [keys_] at 24, [values_] at 2056. *)
Definition decode_leaf (pg : list byte) : Leaf.BPlusTreeLeafPage :=
  Leaf.mkLeaf (decode_hdr pg) (rd32 20 pg)
    (rd_array 8 rd_i64 24 Leaf.capacity pg) (rd_array 8 rd_rid 2056 Leaf.capacity pg).
Definition leaf_bytes (l : Leaf.BPlusTreeLeafPage) : list byte :=
  enc_hdr (Leaf.hdr l) ++ le_encode 4 (Leaf.next_page_id_ l) ++
  (Leaf.keys_ l ≫= le_encode 8) ++ (Leaf.values_ l ≫= enc_rid).
Definition encode_leaf (l : Leaf.BPlusTreeLeafPage) (pg : list byte) : list byte :=
  splice 0 (leaf_bytes l) pg.

(** Internal: four bytes of padding at 20, [keys_] at 24, [values_] at 2736. *)
Definition decode_internal (pg : list byte) : Internal.BPlusTreeInternalPage :=
  Internal.mkInternal (decode_hdr pg)
    (rd_array 8 rd_i64 24 Internal.capacity pg) (rd_array 4 rd32 2736 Internal.capacity pg).
Definition encode_internal (n : Internal.BPlusTreeInternalPage) (pg : list byte) : list byte :=
  splice 24 ((Internal.keys_ n ≫= le_encode 8) ++ (Internal.values_ n ≫= le_encode 4))
    (splice 0 (enc_hdr (Internal.hdr n)) pg).

(** [SetParentPageId] through a [BPlusTreePage*]. *)
Definition set_parent_bytes (p : page_id_t) (pg : list byte) : list byte := wr32 12 p pg.

(** ** Ranges *)
Record hdr_ok (h : BPlusTreePage) : Prop := {
  ho_type : i32_ok (page_type_ h);
  ho_size : i32_ok (size_ h);
  ho_max : i32_ok (max_size_ h);
  ho_parent : u32_ok (parent_page_id_ h);
  ho_id : u32_ok (page_id_ h);
}.
Definition rid_ok (r : RID) : Prop := u32_ok (rid_page_id r) ∧ u32_ok (rid_slot_num r).
Record leaf_ok (l : Leaf.BPlusTreeLeafPage) : Prop := {
  lo_hdr : hdr_ok (Leaf.hdr l);
  lo_next : u32_ok (Leaf.next_page_id_ l);
  lo_cells : cells (Leaf.arrays l) Leaf.capacity;
  lo_keys : Forall i64_ok (Leaf.keys_ l);
  lo_values : Forall rid_ok (Leaf.values_ l);
}.
Record internal_ok (n : Internal.BPlusTreeInternalPage) : Prop := {
  io_hdr : hdr_ok (Internal.hdr n);
  io_cells : cells (Internal.arrays n) Internal.capacity;
  io_keys : Forall i64_ok (Internal.keys_ n);
  io_values : Forall u32_ok (Internal.values_ n);
}.

(** ** Arrays *)

Lemma slice_splice_sub o n d (l : list byte) : 0 ≤ o → 0 ≤ n → o + n ≤ zlen d → zlen d ≤ zlen l →
  slice o n (splice 0 d l) = slice o n d.
Proof.
  intros. apply list_eq. intros k. rewrite !lookup_slice. case_decide; [|done].
  rewrite lookup_splice by lia. rewrite decide_True by lia. f_equal. lia.
Qed.

Section array_bytes.
Context {A : Type} (w : nat) (enc : A → list byte) (Hw : ∀ x, length (enc x) = w).

Lemma length_array (xs : list A) : zlen (xs ≫= enc) = Z.of_nat w * zlen xs.
Proof.
  induction xs as [|x xs IH]; cbn [mbind list_bind length]; [lia|].
  change (list_bind _ _ enc xs) with (xs ≫= enc). rewrite length_app, Hw. lia.
Qed.
Lemma slice_array (xs : list A) (i : nat) x : xs !! i = Some x →
  slice (Z.of_nat w * Z.of_nat i) (Z.of_nat w) (xs ≫= enc) = enc x.
Proof.
  revert i. induction xs as [|y xs IH]; intros i; [done|].
  cbn [mbind list_bind]. change (list_bind _ _ enc xs) with (xs ≫= enc).
  destruct i as [|i]; cbn [lookup list_lookup].
  - intros [= ->]. rewrite Z.mul_0_r. apply slice_app_l. by rewrite Hw.
  - intros Hi. rewrite slice_app_r by (rewrite Hw; lia). rewrite <- (IH i Hi).
    rewrite Hw. f_equal. lia.
Qed.

(** Reading back an array that lies at offset [o]. *)
Lemma rd_array_enc (rd : Z → list byte → A) (ok : A → Prop) o n pg (xs : list A) :
  (∀ a x, 0 ≤ a → ok x → slice a (Z.of_nat w) pg = enc x → rd a pg = x) →
  0 ≤ o → zlen xs = n → Forall ok xs →
  slice o (Z.of_nat w * n) pg = xs ≫= enc → rd_array (Z.of_nat w) rd o n pg = xs.
Proof.
  intros Hrd Ho Hn Hok Hsl. apply list_eq. intros i. unfold rd_array. rewrite list_lookup_fmap.
  destruct (xs !! i) as [x|] eqn:Hx.
  - pose proof (lookup_lt_Some _ _ _ Hx).
    rewrite lookup_seqZ_lt by lia. cbn. f_equal. apply Hrd; [nia|by eapply Forall_lookup_1|].
    rewrite <- (slice_array xs i x Hx), <- Hsl. rewrite slice_slice by nia. f_equal; lia.
  - apply lookup_ge_None in Hx. by rewrite lookup_seqZ_ge by lia.
Qed.
End array_bytes.

Lemma length_enc_rid r : length (enc_rid r) = 8%nat.
Proof. unfold enc_rid. rewrite length_app, !length_le_encode. done. Qed.
Lemma length_enc_hdr h : zlen (enc_hdr h) = 20.
Proof. unfold enc_hdr. rewrite !length_app, !length_le_encode. done. Qed.

Lemma rd_i32_enc a x pg : i32_ok x → slice a 4 pg = le_encode 4 x → rd_i32 a pg = x.
Proof.
  intros Hx Hs. unfold rd_i32, rd32. rewrite Hs, le_decode_encode. by apply (to_signed_id 32).
Qed.
Lemma rd_i64_enc a x pg : i64_ok x → slice a 8 pg = le_encode 8 x → rd_i64 a pg = x.
Proof. intros Hx Hs. unfold rd_i64. rewrite Hs, le_decode_encode. by apply (to_signed_id 64). Qed.
Lemma rd32_enc a x pg : u32_ok x → slice a 4 pg = le_encode 4 x → rd32 a pg = x.
Proof. intros Hx Hs. unfold rd32. rewrite Hs. by apply le_decode_encode_small. Qed.
Lemma rd_rid_enc a x pg : 0 ≤ a → rid_ok x → slice a 8 pg = enc_rid x → rd_rid a pg = x.
Proof.
  intros Ha [H1 H2] Hs. change 8 with (4 + 4) in Hs. rewrite slice_cut in Hs by lia.
  assert (Hl : zlen (slice a 4 pg) = 4).
  { assert (Ht : length (slice a 4 pg ++ slice (a + 4) 4 pg) = 8%nat) by by rewrite Hs, length_enc_rid.
    rewrite length_app in Ht. unfold slice in *. rewrite !length_take in *. lia. }
  unfold enc_rid in Hs. apply app_inj_1 in Hs as [Hs1 Hs2]; [|rewrite length_le_encode; lia].
  destruct x as [p s]. cbn in *. unfold rd_rid. by rewrite (rd32_enc _ p), (rd32_enc _ s).
Qed.

(** ** Round trips *)
Lemma decode_hdr_enc h pg : hdr_ok h → slice 0 20 pg = enc_hdr h → decode_hdr pg = h.
Proof.
  intros [H1 H2 H3 H4 H5] Hs. destruct h as [ty sz mx pa id]. cbn in *.
  assert (Hf : ∀ o bs, 0 ≤ o → o + 4 ≤ 20 → slice o 4 (enc_hdr (mkHdr ty sz mx pa id)) = bs →
    slice o 4 pg = bs).
  { intros o bs Ho Hn <-. rewrite <- Hs. by rewrite slice_slice by lia. }
  unfold decode_hdr. f_equal; [apply rd_i32_enc|apply rd_i32_enc|apply rd_i32_enc|apply rd32_enc|
    apply rd32_enc]; try done; apply Hf; try lia; unfold enc_hdr; cbn [page_type_ size_ max_size_ parent_page_id_ page_id_];
    repeat (rewrite slice_app_r by (rewrite length_le_encode; lia); rewrite length_le_encode);
    cbn -[slice le_encode]; first [apply slice_app_l; by rewrite length_le_encode|
      apply slice_full; by rewrite length_le_encode].
Qed.

Lemma zlen_leaf_bytes l : cells (Leaf.arrays l) Leaf.capacity → zlen (leaf_bytes l) = 4088.
Proof.
  intros [Hk Hv]. cbn in Hk, Hv. unfold leaf_bytes. rewrite !length_app, length_le_encode.
  pose proof (length_enc_hdr (Leaf.hdr l)).
  pose proof (length_array 8 (le_encode 8) (length_le_encode 8) (Leaf.keys_ l)).
  pose proof (length_array 8 enc_rid length_enc_rid (Leaf.values_ l)).
  unfold Leaf.capacity in *. lia.
Qed.

Lemma decode_encode_leaf l pg : leaf_ok l → zlen pg = PAGE_SIZE →
  decode_leaf (encode_leaf l pg) = l ∧ zlen (encode_leaf l pg) = PAGE_SIZE.
Proof.
  intros [Hh Hnx Hc Hk Hv] Hlen. unfold PAGE_SIZE in *.
  pose proof (zlen_leaf_bytes l Hc) as Hlb. destruct Hc as [Hck Hcv]. cbn in Hck, Hcv.
  unfold encode_leaf. split; [|rewrite zlen_splice; lia].
  assert (Hf : ∀ o n bs, 0 ≤ o → 0 ≤ n → o + n ≤ 4088 → slice o n (leaf_bytes l) = bs →
    slice o n (splice 0 (leaf_bytes l) pg) = bs).
  { intros o n bs Ho Hn Hon <-. apply slice_splice_sub; lia. }
  pose proof (length_enc_hdr (Leaf.hdr l)) as Hlh.
  pose proof (length_array 8 (le_encode 8) (length_le_encode 8) (Leaf.keys_ l)) as Hlk.
  pose proof (length_array 8 enc_rid length_enc_rid (Leaf.values_ l)) as Hlv.
  unfold Leaf.capacity in *. destruct l as [h nx ks vs]. cbn in *.
  unfold decode_leaf. f_equal.
  - apply decode_hdr_enc; [done|]. apply Hf; [lia..|]. by apply slice_app_l.
  - apply rd32_enc; [done|]. apply Hf; [lia..|]. unfold leaf_bytes. cbn.
    rewrite slice_app_r by lia. rewrite Hlh. by apply slice_app_l.
  - change 8 with (Z.of_nat 8). eapply (rd_array_enc 8 (le_encode 8) (length_le_encode 8)); try done.
    + intros a x _. apply rd_i64_enc.
    + apply Hf; [unfold Leaf.capacity; lia..|]. unfold leaf_bytes, Leaf.capacity. cbn -[Z.mul mbind].
      rewrite slice_app_r by lia. rewrite Hlh, slice_app_r by (rewrite length_le_encode; lia).
      rewrite length_le_encode. apply slice_app_l. lia.
  - change 8 with (Z.of_nat 8). eapply (rd_array_enc 8 enc_rid length_enc_rid rd_rid rid_ok); try done.
    + intros a x. apply rd_rid_enc.
    + apply Hf; [unfold Leaf.capacity; lia..|]. unfold leaf_bytes, Leaf.capacity. cbn -[Z.mul mbind].
      rewrite slice_app_r by lia. rewrite Hlh, slice_app_r by (rewrite length_le_encode; lia).
      rewrite length_le_encode, slice_app_r by lia. rewrite Hlk, Hck. apply slice_full. lia.
Qed.

Lemma decode_encode_internal n pg : internal_ok n → zlen pg = PAGE_SIZE →
  decode_internal (encode_internal n pg) = n ∧ zlen (encode_internal n pg) = PAGE_SIZE.
Proof.
  intros [Hh [Hck Hcv] Hk Hv] Hlen. unfold PAGE_SIZE in *. cbn in Hck, Hcv.
  pose proof (length_enc_hdr (Internal.hdr n)) as Hlh.
  pose proof (length_array 8 (le_encode 8) (length_le_encode 8) (Internal.keys_ n)) as Hlk.
  pose proof (length_array 4 (le_encode 4) (length_le_encode 4) (Internal.values_ n)) as Hlv.
  unfold Internal.capacity in *. unfold encode_internal. destruct n as [h ks vs]. cbn in *.
  set (arr := (ks ≫= le_encode 8) ++ (vs ≫= le_encode 4)).
  assert (Hla : zlen arr = 4068) by (unfold arr; rewrite length_app; lia).
  assert (Hl0 : zlen (splice 0 (enc_hdr h) pg) = 4096) by (rewrite zlen_splice; lia).
  split; [|rewrite zlen_splice; lia].
  assert (Hf : ∀ o n bs, 24 ≤ o → 0 ≤ n → o + n ≤ 4092 → slice (o - 24) n arr = bs →
    slice o n (splice 24 arr (splice 0 (enc_hdr h) pg)) = bs).
  { intros o n bs Ho Hn Hon <-. rewrite <- (slice_splice_eq 24 arr (splice 0 (enc_hdr h) pg) 4068) at 2 by lia.
    rewrite slice_slice by lia. f_equal. lia. }
  unfold decode_internal. f_equal.
  - apply decode_hdr_enc; [done|]. rewrite slice_splice_ne by lia.
    apply slice_splice_eq; lia.
  - change 8 with (Z.of_nat 8). eapply (rd_array_enc 8 (le_encode 8) (length_le_encode 8)); try done.
    + intros a x _. apply rd_i64_enc.
    + apply Hf; [unfold Internal.capacity; lia..|]. unfold arr, Internal.capacity.
      apply slice_app_l. lia.
  - change 4 with (Z.of_nat 4). eapply (rd_array_enc 4 (le_encode 4) (length_le_encode 4)); try done.
    + intros a x _. apply rd32_enc.
    + apply Hf; [unfold Internal.capacity; lia..|]. unfold arr, Internal.capacity.
      rewrite slice_app_r by lia. rewrite Hlk, Hck. apply slice_full. lia.
Qed.

(** A write through the header leaves the rest of the struct alone. *)
Lemma rd_array_ext {A} w (rd : Z → list byte → A) o n pg pg' :
  (∀ i, 0 ≤ i < n → rd (o + w * i) pg' = rd (o + w * i) pg) → rd_array w rd o n pg' = rd_array w rd o n pg.
Proof.
  intros H. unfold rd_array. apply list_fmap_ext. intros j i Hi. apply H.
  apply lookup_seqZ in Hi. lia.
Qed.

Section set_parent.
Context (p : page_id_t) (pg : list byte) (Hp : u32_ok p) (Hlen : zlen pg = PAGE_SIZE).

Lemma zlen_set_parent : zlen (set_parent_bytes p pg) = PAGE_SIZE.
Proof. unfold set_parent_bytes, PAGE_SIZE in *. by buf_len. Qed.
Lemma decode_hdr_set_parent : decode_hdr (set_parent_bytes p pg) = set_parent p (decode_hdr pg).
Proof.
  unfold decode_hdr, set_parent_bytes, set_parent, rd_i32, PAGE_SIZE in *. cbn. by buf_simpl.
Qed.
Lemma decode_leaf_set_parent :
  decode_leaf (set_parent_bytes p pg) =
    Leaf.set_hdr (set_parent p (Leaf.hdr (decode_leaf pg))) (decode_leaf pg).
Proof.
  unfold decode_leaf, Leaf.set_hdr. cbn [Leaf.hdr Leaf.next_page_id_ Leaf.keys_ Leaf.values_].
  rewrite decode_hdr_set_parent. unfold set_parent_bytes, PAGE_SIZE in *. f_equal.
  - by buf_simpl.
  - apply rd_array_ext. intros i Hi. unfold rd_i64. by buf_simpl.
  - apply rd_array_ext. intros i Hi. unfold rd_rid. by buf_simpl.
Qed.
Lemma decode_internal_set_parent :
  decode_internal (set_parent_bytes p pg) =
    Internal.set_hdr (set_parent p (Internal.hdr (decode_internal pg))) (decode_internal pg).
Proof.
  unfold decode_internal, Internal.set_hdr. cbn [Internal.hdr Internal.keys_ Internal.values_].
  rewrite decode_hdr_set_parent. unfold set_parent_bytes, PAGE_SIZE in *. f_equal.
  - apply rd_array_ext. intros i Hi. unfold rd_i64. by buf_simpl.
  - apply rd_array_ext. intros i Hi. by buf_simpl.
Qed.
End set_parent.

(** ** Fields read from bytes fit their types *)
Lemma rd_i32_ok o pg : i32_ok (rd_i32 o pg).
Proof. apply (to_signed_range 32). lia. Qed.
Lemma rd_i64_ok o pg : i64_ok (rd_i64 o pg).
Proof. apply (to_signed_range 64). lia. Qed.

Section decoded.
Context (pg : list byte) (Hlen : zlen pg = PAGE_SIZE).

Lemma decode_hdr_ok : hdr_ok (decode_hdr pg).
Proof.
  unfold PAGE_SIZE in *. split; cbn; try apply rd_i32_ok; apply rd32_ok; lia.
Qed.
Lemma length_rd_array {A} w (rd : Z → list byte → A) o n : 0 ≤ n → zlen (rd_array w rd o n pg) = n.
Proof. intros. unfold rd_array. rewrite length_fmap, length_seqZ. lia. Qed.
Lemma rd_array_Forall {A} w (rd : Z → list byte → A) (ok : A → Prop) o n :
  (∀ i, 0 ≤ i < n → ok (rd (o + w * i) pg)) → Forall ok (rd_array w rd o n pg).
Proof.
  intros H. unfold rd_array. apply Forall_fmap, Forall_lookup. intros j i Hi.
  apply lookup_seqZ in Hi. apply H. lia.
Qed.
Lemma decode_leaf_ok : leaf_ok (decode_leaf pg).
Proof.
  unfold PAGE_SIZE in *. split; cbn; [apply decode_hdr_ok|apply rd32_ok; lia|..].
  - split; cbn; by apply length_rd_array.
  - apply rd_array_Forall. intros i _. apply rd_i64_ok.
  - apply rd_array_Forall. unfold Leaf.capacity. intros i Hi. split; cbn; apply rd32_ok; lia.
Qed.
Lemma decode_internal_ok : internal_ok (decode_internal pg).
Proof.
  unfold PAGE_SIZE in *. split; cbn; [apply decode_hdr_ok|..].
  - split; cbn; by apply length_rd_array.
  - apply rd_array_Forall. intros i _. apply rd_i64_ok.
  - apply rd_array_Forall. unfold Internal.capacity. intros i Hi. apply rd32_ok; lia.
Qed.
End decoded.

(** ** Methods keep the array elements in range *)
Section within.
Context {A B : Type} (P : A → Prop) (Q : B → Prop).
Implicit Types (a src dst : list A * list B).

Definition within a : Prop := Forall P a.1 ∧ Forall Q a.2.

Lemma zget_Forall {X} (I : X → Prop) l i x : zget l i = Some x → Forall I l → I x.
Proof.
  unfold zget. case_decide; [|done]. intros Hx Hl. eapply Forall_forall; [exact Hl|].
  by eapply list_elem_of_lookup_2.
Qed.
Lemma zset_Forall {X} (I : X → Prop) l i x l' : zset l i x = Some l' → Forall I l → I x → Forall I l'.
Proof. unfold zset. case_decide; [|done]. intros [= <-] Hl Hx. by apply Forall_insert. Qed.

Lemma set_entry_within a i k v a' : within a → P k → Q v → set_entry a i k v = Some a' → within a'.
Proof.
  intros [H1 H2] Hk Hv. unfold set_entry.
  destruct (zset a.1 i k) as [ks|] eqn:E1; [|done]. cbn [mbind option_bind].
  destruct (zset a.2 i v) as [vs|] eqn:E2; [|done]. cbn. intros [= <-].
  split; cbn; by eapply zset_Forall.
Qed.
Lemma copy_entry_within src j dst i a' : within src → within dst → copy_entry src j dst i = Some a' → within a'.
Proof.
  intros [H1 H2] Hd. unfold copy_entry.
  destruct (zget src.1 j) as [k|] eqn:E1; [|done]. cbn [mbind option_bind].
  destruct (zget src.2 j) as [v|] eqn:E2; [|done]. cbn [mbind option_bind].
  apply set_entry_within; [done|by eapply zget_Forall..].
Qed.
Lemma shift_right_within n i a a' : within a → shift_right n i a = Some a' → within a'.
Proof. intros Ha. apply loop_down_pres; [|done]. intros j s s' Hs. by apply copy_entry_within. Qed.
Lemma shift_left_within n i a a' : within a → shift_left n i a = Some a' → within a'.
Proof. intros Ha. apply loop_up_pres; [|done]. intros j s s' Hs. by apply copy_entry_within. Qed.
Lemma copy_range_within src lo n d dst a' : within src → within dst →
  copy_range src lo n d dst = Some a' → within a'.
Proof. intros Hs Hd. apply loop_up_pres; [|done]. intros j s s' H. by apply copy_entry_within. Qed.
End within.

Lemma leaf_ok_within l : leaf_ok l ↔ hdr_ok (Leaf.hdr l) ∧ u32_ok (Leaf.next_page_id_ l) ∧
  cells (Leaf.arrays l) Leaf.capacity ∧ within i64_ok rid_ok (Leaf.arrays l).
Proof. split; [intros []; by split_and!|]. by intros (? & ? & ? & ? & ?). Qed.
Lemma internal_ok_within n : internal_ok n ↔ hdr_ok (Internal.hdr n) ∧
  cells (Internal.arrays n) Internal.capacity ∧ within i64_ok u32_ok (Internal.arrays n).
Proof. split; [intros []; by split_and!|]. by intros (? & ? & ? & ?). Qed.

Lemma leaf_insert_within key v l n l' : within i64_ok rid_ok (Leaf.arrays l) → i64_ok key → rid_ok v →
  Leaf.Insert key v l = Some (n, l') → within i64_ok rid_ok (Leaf.arrays l').
Proof.
  intros Hl Hk Hv. unfold Leaf.Insert. destruct (Leaf.KeyIndex l key) as [i|]; [|done]. cbn [mbind option_bind].
  destruct (Leaf.found l i key) as [[]|]; [by intros [= <- <-]| |done]. cbn [mbind option_bind].
  destruct (shift_right _ _ _) as [a|] eqn:E1; [|done]. cbn [mbind option_bind].
  destruct (set_entry _ _ _ _) as [b|] eqn:E2; [|done]. cbn. intros [= <- <-].
  exact (set_entry_within _ _ _ _ _ _ _ (shift_right_within _ _ _ _ _ _ Hl E1) Hk Hv E2).
Qed.
Lemma leaf_half_within l r l' r' : within i64_ok rid_ok (Leaf.arrays l) → within i64_ok rid_ok (Leaf.arrays r) →
  Leaf.MoveHalfTo l r = Some (l', r') →
  within i64_ok rid_ok (Leaf.arrays l') ∧ within i64_ok rid_ok (Leaf.arrays r').
Proof.
  intros Hl Hr. unfold Leaf.MoveHalfTo. destruct (copy_range _ _ _ _ _) as [a|] eqn:E; [|done].
  cbn. intros [= <- <-]. split; [exact Hl|]. exact (copy_range_within _ _ _ _ _ _ _ _ Hl Hr E).
Qed.
Lemma leaf_remove_at_within i l l' : within i64_ok rid_ok (Leaf.arrays l) →
  Leaf.RemoveAt i l = Some l' → within i64_ok rid_ok (Leaf.arrays l').
Proof.
  intros Hl. unfold Leaf.RemoveAt. destruct (shift_left _ _ _) as [a|] eqn:E; [|done].
  cbn. intros [= <-]. exact (shift_left_within _ _ _ _ _ _ Hl E).
Qed.
Lemma leaf_remove_within key l b l' : within i64_ok rid_ok (Leaf.arrays l) →
  Leaf.Remove key l = Some (b, l') → within i64_ok rid_ok (Leaf.arrays l').
Proof.
  intros Hl. unfold Leaf.Remove. destruct (Leaf.KeyIndex l key) as [i|]; [|done]. cbn [mbind option_bind].
  destruct (Leaf.found l i key) as [[]|]; [|by intros [= <- <-]|done]. cbn [mbind option_bind].
  destruct (Leaf.RemoveAt i l) as [l1|] eqn:E; [|done]. cbn. intros [= <- <-]. exact (leaf_remove_at_within _ _ _ Hl E).
Qed.
Lemma leaf_all_within l r l' r' : within i64_ok rid_ok (Leaf.arrays l) → within i64_ok rid_ok (Leaf.arrays r) →
  Leaf.MoveAllTo l r = Some (l', r') →
  within i64_ok rid_ok (Leaf.arrays l') ∧ within i64_ok rid_ok (Leaf.arrays r').
Proof.
  intros Hl Hr. unfold Leaf.MoveAllTo. destruct (copy_range _ _ _ _ _) as [a|] eqn:E; [|done].
  cbn. intros [= <- <-]. split; [exact Hl|]. exact (copy_range_within _ _ _ _ _ _ _ _ Hl Hr E).
Qed.
(** An entry leaves one page for the other. *)
Lemma leaf_carry_within i j l r l' r' k v m : within i64_ok rid_ok (Leaf.arrays l) →
  within i64_ok rid_ok (Leaf.arrays r) → zget (Leaf.keys_ l) i = Some k → zget (Leaf.values_ l) i = Some v →
  Leaf.Insert k v r = Some (m, r') → Leaf.RemoveAt j l = Some l' →
  within i64_ok rid_ok (Leaf.arrays l') ∧ within i64_ok rid_ok (Leaf.arrays r').
Proof.
  intros [Hk Hv] Hr Ek Ev Ei Er. split; [exact (leaf_remove_at_within _ _ _ (conj Hk Hv) Er)|].
  exact (leaf_insert_within _ _ _ _ _ Hr (zget_Forall _ _ _ _ Ek Hk) (zget_Forall _ _ _ _ Ev Hv) Ei).
Qed.
Lemma leaf_first_within l r l' r' : within i64_ok rid_ok (Leaf.arrays l) → within i64_ok rid_ok (Leaf.arrays r) →
  Leaf.MoveFirstToEndOf l r = Some (l', r') →
  within i64_ok rid_ok (Leaf.arrays l') ∧ within i64_ok rid_ok (Leaf.arrays r').
Proof.
  intros Hl Hr. unfold Leaf.MoveFirstToEndOf.
  destruct (zget (Leaf.keys_ l) _) as [k|] eqn:Ek; [|done]. cbn [mbind option_bind].
  destruct (zget (Leaf.values_ l) _) as [v|] eqn:Ev; [|done]. cbn [mbind option_bind].
  destruct (Leaf.Insert k v r) as [[m r1]|] eqn:Ei; [|done]. cbn [mbind option_bind].
  destruct (Leaf.RemoveAt _ l) as [l1|] eqn:Er; [|done]. cbn. intros [= <- <-].
  exact (leaf_carry_within _ _ _ _ _ _ _ _ _ Hl Hr Ek Ev Ei Er).
Qed.
Lemma leaf_last_within l r l' r' : within i64_ok rid_ok (Leaf.arrays l) → within i64_ok rid_ok (Leaf.arrays r) →
  Leaf.MoveLastToFrontOf l r = Some (l', r') →
  within i64_ok rid_ok (Leaf.arrays l') ∧ within i64_ok rid_ok (Leaf.arrays r').
Proof.
  intros Hl Hr. unfold Leaf.MoveLastToFrontOf.
  destruct (zget (Leaf.keys_ l) _) as [k|] eqn:Ek; [|done]. cbn [mbind option_bind].
  destruct (zget (Leaf.values_ l) _) as [v|] eqn:Ev; [|done]. cbn [mbind option_bind].
  destruct (Leaf.Insert k v r) as [[m r1]|] eqn:Ei; [|done]. cbn [mbind option_bind].
  destruct (Leaf.RemoveAt _ l) as [l1|] eqn:Er; [|done]. cbn. intros [= <- <-].
  exact (leaf_carry_within _ _ _ _ _ _ _ _ _ Hl Hr Ek Ev Ei Er).
Qed.
Lemma insert_after_within old key new n n' : within i64_ok u32_ok (Internal.arrays n) → i64_ok key → u32_ok new →
  Internal.InsertNodeAfter old key new n = Some n' → within i64_ok u32_ok (Internal.arrays n').
Proof.
  intros Hl Hk Hv. unfold Internal.InsertNodeAfter. destruct (Internal.index_of _ _) as [i|]; [|done].
  cbn [mbind option_bind].
  destruct (shift_right _ _ _) as [a|] eqn:E1; [|done]. cbn [mbind option_bind].
  destruct (set_entry _ _ _ _) as [b|] eqn:E2; [|done]. cbn. intros [= <-].
  exact (set_entry_within _ _ _ _ _ _ _ (shift_right_within _ _ _ _ _ _ Hl E1) Hk Hv E2).
Qed.
Lemma internal_half_within l r l' r' : within i64_ok u32_ok (Internal.arrays l) →
  within i64_ok u32_ok (Internal.arrays r) → Internal.MoveHalfTo l r = Some (l', r') →
  within i64_ok u32_ok (Internal.arrays l') ∧ within i64_ok u32_ok (Internal.arrays r').
Proof.
  intros Hl Hr. unfold Internal.MoveHalfTo. destruct (copy_range _ _ _ _ _) as [a|] eqn:E; [|done].
  cbn. intros [= <- <-]. split; [exact Hl|]. exact (copy_range_within _ _ _ _ _ _ _ _ Hl Hr E).
Qed.
Lemma populate_within v0 k1 v1 n n' : within i64_ok u32_ok (Internal.arrays n) → u32_ok v0 → i64_ok k1 →
  u32_ok v1 → Internal.Populate v0 k1 v1 n = Some n' → within i64_ok u32_ok (Internal.arrays n').
Proof.
  intros [Hk Hv] H0 Hk1 H1. unfold Internal.Populate, Internal.SetValueAt, Internal.SetKeyAt. cbn in Hk, Hv.
  destruct (zset _ 0 v0) as [vs|] eqn:E1; [|done]. cbn.
  destruct (zset _ 1 k1) as [ks|] eqn:E2; [|done]. cbn.
  destruct (zset _ 1 v1) as [ws|] eqn:E3; [|done]. cbn. intros [= <-]. split; cbn.
  - by eapply zset_Forall.
  - eapply zset_Forall; [exact E3| |done]. by eapply zset_Forall.
Qed.

Lemma set_key_within i key n n' : within i64_ok u32_ok (Internal.arrays n) → i64_ok key →
  Internal.SetKeyAt i key n = Some n' → within i64_ok u32_ok (Internal.arrays n').
Proof.
  intros [Hk Hv] Hkey. unfold Internal.SetKeyAt. destruct (zset _ i key) as [ks|] eqn:E; [|done].
  cbn. intros [= <-]. split; [|exact Hv]. by eapply zset_Forall.
Qed.
Lemma internal_remove_within i n n' : within i64_ok u32_ok (Internal.arrays n) →
  Internal.Remove i n = Some n' → within i64_ok u32_ok (Internal.arrays n').
Proof.
  intros Hn. unfold Internal.Remove. destruct (shift_left _ _ _) as [a|] eqn:E; [|done].
  cbn. intros [= <-]. exact (shift_left_within _ _ _ _ _ _ Hn E).
Qed.
Lemma internal_all_within key n r n' r' : within i64_ok u32_ok (Internal.arrays n) →
  within i64_ok u32_ok (Internal.arrays r) → i64_ok key → Internal.MoveAllTo key n r = Some (n', r') →
  within i64_ok u32_ok (Internal.arrays n') ∧ within i64_ok u32_ok (Internal.arrays r').
Proof.
  intros Hn Hr Hk. unfold Internal.MoveAllTo. destruct (zget _ 0) as [v|] eqn:Ev; [|done]. cbn [mbind option_bind].
  destruct (set_entry _ _ _ _) as [a|] eqn:Ea; [|done]. cbn [mbind option_bind].
  destruct (copy_range _ _ _ _ _) as [b|] eqn:Eb; [|done]. cbn. intros [= <- <-]. split; [exact Hn|].
  refine (copy_range_within _ _ _ _ _ _ _ _ Hn (set_entry_within _ _ _ _ _ _ _ Hr Hk _ Ea) Eb).
  eapply zget_Forall; [exact Ev|apply Hn].
Qed.
Lemma internal_first_within key n r n' r' : within i64_ok u32_ok (Internal.arrays n) →
  within i64_ok u32_ok (Internal.arrays r) → i64_ok key → Internal.MoveFirstToEndOf key n r = Some (n', r') →
  within i64_ok u32_ok (Internal.arrays n') ∧ within i64_ok u32_ok (Internal.arrays r').
Proof.
  intros Hn Hr Hk. unfold Internal.MoveFirstToEndOf. destruct (zget _ 0) as [v|] eqn:Ev; [|done]. cbn [mbind option_bind].
  destruct (set_entry _ _ _ _) as [a|] eqn:Ea; [|done]. cbn [mbind option_bind].
  destruct (shift_left _ _ _) as [b|] eqn:Eb; [|done]. cbn. intros [= <- <-].
  split; [exact (shift_left_within _ _ _ _ _ _ Hn Eb)|].
  refine (set_entry_within _ _ _ _ _ _ _ Hr Hk _ Ea). eapply zget_Forall; [exact Ev|apply Hn].
Qed.
Lemma internal_last_within key n r n' r' : within i64_ok u32_ok (Internal.arrays n) →
  within i64_ok u32_ok (Internal.arrays r) → i64_ok key → Internal.MoveLastToFrontOf key n r = Some (n', r') →
  within i64_ok u32_ok (Internal.arrays n') ∧ within i64_ok u32_ok (Internal.arrays r').
Proof.
  intros Hn Hr Hk. unfold Internal.MoveLastToFrontOf.
  destruct (shift_right _ _ _) as [a|] eqn:Ea; [|done]. cbn [mbind option_bind].
  destruct (shift_right_within _ _ _ _ _ _ Hr Ea) as [Ha1 Ha2].
  destruct (zset a.1 1 key) as [ks|] eqn:Ek; [|done]. cbn [mbind option_bind].
  destruct (zget _ _) as [v|] eqn:Ev; [|done]. cbn [mbind option_bind].
  destruct (zset a.2 0 v) as [vs|] eqn:Ew; [|done]. cbn. intros [= <- <-]. split; [exact Hn|]. split; cbn.
  - by eapply zset_Forall.
  - eapply zset_Forall; [exact Ew|done|]. eapply zget_Forall; [exact Ev|apply Hn].
Qed.

(** ** Properties *)

(** The struct layout of the B+ tree pages fits the page: writing
    a leaf or an internal struct into the bytes of a page and reading it back
    through the cast gives the same struct, the size of the page is unchanged,
    and whatever bytes a page holds, the structs read from it have all their
    fields in range - so a page written after a change of some fields is exactly
    the changed struct. *)
Theorem node_layout_roundtrip pg l n : zlen pg = PAGE_SIZE → leaf_ok l → internal_ok n →
  decode_leaf (encode_leaf l pg) = l ∧ zlen (encode_leaf l pg) = PAGE_SIZE ∧
  decode_internal (encode_internal n pg) = n ∧ zlen (encode_internal n pg) = PAGE_SIZE ∧
  leaf_ok (decode_leaf pg) ∧ internal_ok (decode_internal pg).
Proof.
  intros Hlen Hl Hn. destruct (decode_encode_leaf l pg Hl Hlen).
  destruct (decode_encode_internal n pg Hn Hlen). split_and!; try done.
  - by apply decode_leaf_ok.
  - by apply decode_internal_ok.
Qed.
Lemma node_layout_roundtrip_witness :
  let l := decode_leaf zero_page in let n := decode_internal zero_page in
  decode_leaf (encode_leaf l zero_page) = l ∧ zlen (encode_leaf l zero_page) = PAGE_SIZE ∧
  decode_internal (encode_internal n zero_page) = n ∧ zlen (encode_internal n zero_page) = PAGE_SIZE ∧
  leaf_ok (decode_leaf zero_page) ∧ internal_ok (decode_internal zero_page).
Proof.
  apply (node_layout_roundtrip zero_page);
    [apply zlen_zero_page|apply decode_leaf_ok, zlen_zero_page|apply decode_internal_ok, zlen_zero_page].
Defined.
