(* ===== verification/BPlusTree.v ===== *)
(** The B+ tree ([b_plus_tree.hpp], [b_plus_tree.cpp]): the operations of the tree
    and of its iterator, as programs over the buffer pool. *)
From Stdlib Require Import ZArith Lia.
From Stdlib Require Strings.Byte.
From stdpp Require Import base list gmap.
From S2P Require Import Prelude Types DiskManager Replacer BufferPool PageStore BPlusTreePage BPlusTreeLayout.
Open Scope Z_scope.

(** A [BPlusTree] is its [root_page_id_]; an operation that may change it returns
    the new one last.  A [BPlusTreePage*] is the id of the pinned page it points
    into; the page ids the code takes from the header of a node are read from its
    bytes.  A method call reads the struct from the page and writes the changed
    struct back.  Dereferencing a null [Page*] is [PUB], and so is running out of
    fuel: one unit per level of the tree. *)
Definition IsEmpty (root_page_id : page_id_t) : bool := bool_decide (root_page_id = INVALID_PAGE_ID).

(** *** Searching *)

(** The loop of [FindLeafPage], at the pinned page [curr_id]. *)
Fixpoint find_leaf (fuel : nat) (curr_id : page_id_t) (key : Z) : prog page_id_t :=
  match fuel with
  | O => PUB
  | S fuel =>
      d ← call (Read curr_id);
      if IsLeafPage (decode_hdr d) then mret curr_id else
      next_id ← from_mem (Internal.Lookup (decode_internal d) key);
      _ ← call (Unpin curr_id false);
      curr_page ← call (Fetch next_id);
      if negb curr_page then PUB else find_leaf fuel next_id key
  end.

Definition FindLeafPage (fuel : nat) (root_page_id : page_id_t) (key : Z) : prog (option page_id_t) :=
  if decide (root_page_id = INVALID_PAGE_ID) then mret None else
  curr_page ← call (Fetch root_page_id);
  if negb curr_page then PUB else
  leaf ← find_leaf fuel root_page_id key;
  mret (Some leaf).

(** The value stored through [result], or [None] for [false]. *)
Definition BPlusTree_GetValue (fuel : nat) (key : Z) (root_page_id : page_id_t) : prog (option RID) :=
  if IsEmpty root_page_id then mret None else
  leaf_page ← FindLeafPage fuel root_page_id key;
  match leaf_page with
  | None => mret None
  | Some leaf_page =>
      d ← call (Read leaf_page);
      status ← from_mem (Leaf.Lookup (decode_leaf d) key);
      _ ← call (Unpin leaf_page false);
      mret status
  end.

(** *** Parent pointers *)

(** [page->SetParentPageId(parent_id)] on a pinned page. *)
Definition set_parent_page (page parent_id : page_id_t) : prog unit :=
  d ← call (Read page); call (Write page (set_parent_bytes parent_id d)).

(** Fetch a child, set its parent, unpin it; a null page is skipped. *)
Definition adopt_child (parent_id child_id : page_id_t) : prog unit :=
  c_page ← call (Fetch child_id);
  if negb c_page then mret tt else
  _ ← set_parent_page child_id parent_id;
  _ ← call (Unpin child_id true);
  mret tt.

(** The loops that do so for every child of a node.  They write parent fields
    only, so the children are those found before the loop. *)
Definition child_ids (n : Internal.BPlusTreeInternalPage) : option (list page_id_t) :=
  mapM (Internal.ValueAt n) (seqZ 0 (size_ (Internal.hdr n))).
Fixpoint adopt_children (parent_id : page_id_t) (children : list page_id_t) : prog unit :=
  match children with
  | [] => mret tt
  | c :: children => _ ← adopt_child parent_id c; adopt_children parent_id children
  end.

(** *** Inserting *)

(** [old_child] and [new_child] are pinned pages, with the ids [old_id] and
    [new_id] in their headers.  A new root over the two. *)
Definition insert_new_root (old_child old_id : page_id_t) (key : Z) (new_child new_id : page_id_t)
    (root_page_id : page_id_t) : prog page_id_t :=
  new_root_page ← call New;
  match new_root_page with
  | None => mret root_page_id
  | Some new_root_id =>
      rd ← call (Read new_root_id);
      let new_root :=
        Internal.Init new_root_id INVALID_PAGE_ID Internal.default_max_size (decode_internal rd) in
      new_root ← from_mem (Internal.Populate old_id key new_id new_root);
      _ ← call (Write new_root_id (encode_internal new_root rd));
      _ ← set_parent_page old_child new_root_id;
      _ ← set_parent_page new_child new_root_id;
      _ ← call (Unpin new_root_id true);
      mret new_root_id
  end.

(** The new child in the pinned parent, which is returned as it is then. *)
Definition insert_child (parent_id old_id : page_id_t) (key : Z) (new_child new_id : page_id_t)
    : prog Internal.BPlusTreeInternalPage :=
  pd ← call (Read parent_id);
  parent ← from_mem (Internal.InsertNodeAfter old_id key new_id (decode_internal pd));
  _ ← call (Write parent_id (encode_internal parent pd));
  _ ← set_parent_page new_child parent_id;
  mret parent.

(** Split the overfull parent: the new page, pinned, and the key to push up;
    [None] when there is no frame for it. *)
Definition split_node (parent_id : page_id_t) : prog (option (page_id_t * Z)) :=
  new_parent_page ← call New;
  match new_parent_page with
  | None => mret None
  | Some new_parent_id =>
      pd ← call (Read parent_id);
      rd ← call (Read new_parent_id);
      let parent := decode_internal pd in
      let new_parent :=
        Internal.Init new_parent_id (parent_page_id_ (Internal.hdr parent))
          Internal.default_max_size (decode_internal rd) in
      '(parent, new_parent) ← from_mem (Internal.MoveHalfTo parent new_parent);
      _ ← call (Write parent_id (encode_internal parent pd));
      _ ← call (Write new_parent_id (encode_internal new_parent rd));
      children ← from_mem (child_ids new_parent);
      _ ← adopt_children new_parent_id children;
      push_up_key ← from_mem (Internal.KeyAt new_parent 0);
      mret (Some (new_parent_id, push_up_key))
  end.

Fixpoint InsertIntoParent (fuel : nat) (old_child : page_id_t) (key : Z) (new_child : page_id_t)
    (root_page_id : page_id_t) : prog page_id_t :=
  match fuel with
  | O => PUB
  | S fuel =>
      od ← call (Read old_child);
      cd ← call (Read new_child);
      let old_id := page_id_ (decode_hdr od) in
      let new_id := page_id_ (decode_hdr cd) in
      if IsRootPage (decode_hdr od)
      then insert_new_root old_child old_id key new_child new_id root_page_id else
      let parent_id := parent_page_id_ (decode_hdr od) in
      parent_page ← call (Fetch parent_id);
      if negb parent_page then mret root_page_id else
      parent ← insert_child parent_id old_id key new_child new_id;
      if decide (size_ (Internal.hdr parent) ≤ max_size_ (Internal.hdr parent)) then
        _ ← call (Unpin parent_id true); mret root_page_id
      else
        new_parent ← split_node parent_id;
        match new_parent with
        | None => _ ← call (Unpin parent_id true); mret root_page_id
        | Some (new_parent_id, push_up_key) =>
            root_page_id ← InsertIntoParent fuel parent_id push_up_key new_parent_id root_page_id;
            _ ← call (Unpin parent_id true);
            _ ← call (Unpin new_parent_id true);
            mret root_page_id
        end
  end.

(** Split the overfull leaf on the pinned page [leaf_page]. *)
Definition split_leaf (fuel : nat) (leaf_page : page_id_t) (root_page_id : page_id_t)
    : prog (bool * page_id_t) :=
  new_leaf_page ← call New;
  match new_leaf_page with
  | None => _ ← call (Unpin leaf_page true); mret (false, root_page_id)
  | Some new_leaf_id =>
      d ← call (Read leaf_page);
      rd ← call (Read new_leaf_id);
      let leaf := decode_leaf d in
      let new_leaf :=
        Leaf.Init new_leaf_id (parent_page_id_ (Leaf.hdr leaf)) Leaf.default_max_size (decode_leaf rd) in
      let new_leaf := Leaf.set_next (Leaf.next_page_id_ leaf) new_leaf in
      let leaf := Leaf.set_next new_leaf_id leaf in
      '(leaf, new_leaf) ← from_mem (Leaf.MoveHalfTo leaf new_leaf);
      _ ← call (Write leaf_page (encode_leaf leaf d));
      _ ← call (Write new_leaf_id (encode_leaf new_leaf rd));
      split_key ← from_mem (Leaf.KeyAt new_leaf 0);
      root_page_id ← InsertIntoParent fuel leaf_page split_key new_leaf_id root_page_id;
      _ ← call (Unpin leaf_page true);
      _ ← call (Unpin new_leaf_id true);
      mret (true, root_page_id)
  end.

(** A leaf insert that reports the old size has written nothing
    ([leaf_is_map]). *)
Definition BPlusTree_Insert (fuel : nat) (key : Z) (value : RID) (root_page_id : page_id_t)
    : prog (bool * page_id_t) :=
  if IsEmpty root_page_id then
    root_page ← call New;
    match root_page with
    | None => mret (false, root_page_id)
    | Some new_root_id =>
        d ← call (Read new_root_id);
        let root := Leaf.Init new_root_id INVALID_PAGE_ID Leaf.default_max_size (decode_leaf d) in
        '(_, root) ← from_mem (Leaf.Insert key value root);
        _ ← call (Write new_root_id (encode_leaf root d));
        _ ← call (Unpin new_root_id true);
        mret (true, new_root_id)
    end
  else
    leaf_page ← FindLeafPage fuel root_page_id key;
    match leaf_page with
    | None => mret (false, root_page_id)
    | Some leaf_page =>
        d ← call (Read leaf_page);
        let old_size := size_ (Leaf.hdr (decode_leaf d)) in
        '(new_size, leaf) ← from_mem (Leaf.Insert key value (decode_leaf d));
        if decide (new_size = old_size) then
          _ ← call (Unpin leaf_page false); mret (false, root_page_id)
        else
          _ ← call (Write leaf_page (encode_leaf leaf d));
          if decide (new_size ≤ max_size_ (Leaf.hdr leaf)) then
            _ ← call (Unpin leaf_page true); mret (true, root_page_id)
          else split_leaf fuel leaf_page root_page_id
    end.

(** *** Deleting *)

(** [SetKeyAt] on the pinned parent. *)
Definition set_key_at (parent : page_id_t) (i key : Z) : prog unit :=
  pd ← call (Read parent);
  p ← from_mem (Internal.SetKeyAt i key (decode_internal pd));
  call (Write parent (encode_internal p pd)).
Definition key_at (parent : page_id_t) (i : Z) : prog Z :=
  pd ← call (Read parent); from_mem (Internal.KeyAt (decode_internal pd) i).
(** [parent->Remove(i)]. *)
Definition remove_at (parent : page_id_t) (i : Z) : prog unit :=
  pd ← call (Read parent);
  p ← from_mem (Internal.Remove i (decode_internal pd));
  call (Write parent (encode_internal p pd)).

(** Methods of two structs, on distinct pinned pages: the receiver first. *)
Definition leaf_move (m : Leaf.BPlusTreeLeafPage → Leaf.BPlusTreeLeafPage →
      option (Leaf.BPlusTreeLeafPage * Leaf.BPlusTreeLeafPage))
    (self other : page_id_t) : prog (Leaf.BPlusTreeLeafPage * Leaf.BPlusTreeLeafPage) :=
  sd ← call (Read self);
  od ← call (Read other);
  '(s, o) ← from_mem (m (decode_leaf sd) (decode_leaf od));
  _ ← call (Write self (encode_leaf s sd));
  _ ← call (Write other (encode_leaf o od));
  mret (s, o).
Definition internal_move (m : Internal.BPlusTreeInternalPage → Internal.BPlusTreeInternalPage →
      option (Internal.BPlusTreeInternalPage * Internal.BPlusTreeInternalPage))
    (self other : page_id_t)
    : prog (Internal.BPlusTreeInternalPage * Internal.BPlusTreeInternalPage) :=
  sd ← call (Read self);
  od ← call (Read other);
  '(s, o) ← from_mem (m (decode_internal sd) (decode_internal od));
  _ ← call (Write self (encode_internal s sd));
  _ ← call (Write other (encode_internal o od));
  mret (s, o).

Definition Redistribute (node sibling parent : page_id_t) (child_idx : Z) (from_left : bool)
    : prog unit :=
  nd ← call (Read node);
  if IsLeafPage (decode_hdr nd) then
    if from_left then
      '(_, leaf) ← leaf_move Leaf.MoveLastToFrontOf sibling node;
      key ← from_mem (Leaf.KeyAt leaf 0);
      set_key_at parent child_idx key
    else
      '(sib, _) ← leaf_move Leaf.MoveFirstToEndOf sibling node;
      key ← from_mem (Leaf.KeyAt sib 0);
      set_key_at parent (child_idx + 1) key
  else
    if from_left then
      parent_key ← key_at parent child_idx;
      sd ← call (Read sibling);
      let sib := decode_internal sd in
      new_parent_key ← from_mem (Internal.KeyAt sib (size_ (Internal.hdr sib) - 1));
      '(_, internal) ← internal_move (Internal.MoveLastToFrontOf parent_key) sibling node;
      _ ← set_key_at parent child_idx new_parent_key;
      moved_child_id ← from_mem (Internal.ValueAt internal 0);
      adopt_child (page_id_ (Internal.hdr internal)) moved_child_id
    else
      parent_key ← key_at parent (child_idx + 1);
      sd ← call (Read sibling);
      new_parent_key ← from_mem (Internal.KeyAt (decode_internal sd) 1);
      '(_, internal) ← internal_move (Internal.MoveFirstToEndOf parent_key) sibling node;
      _ ← set_key_at parent (child_idx + 1) new_parent_key;
      moved_child_id ← from_mem (Internal.ValueAt internal (size_ (Internal.hdr internal) - 1));
      adopt_child (page_id_ (Internal.hdr internal)) moved_child_id.

(** [node] is the left page, [sibling] the right one. *)
Definition Merge (node sibling parent : page_id_t) (child_idx : Z) : prog unit :=
  nd ← call (Read node);
  if IsLeafPage (decode_hdr nd) then
    _ ← leaf_move Leaf.MoveAllTo sibling node;
    remove_at parent child_idx
  else
    parent_key ← key_at parent child_idx;
    '(_, left_node) ← internal_move (Internal.MoveAllTo parent_key) sibling node;
    children ← from_mem (child_ids left_node);
    _ ← adopt_children (page_id_ (Internal.hdr left_node)) children;
    remove_at parent child_idx.

(** A sibling of the underfull node gives an entry if it can spare one; then the
    sibling and the parent are unpinned. *)
Definition try_sibling (node parent_id : page_id_t) (child_idx sib_idx : Z) (from_left : bool)
    : prog bool :=
  pd ← call (Read parent_id);
  sib_id ← from_mem (Internal.ValueAt (decode_internal pd) sib_idx);
  sib_page ← call (Fetch sib_id);
  if negb sib_page then mret false else
  sd ← call (Read sib_id);
  let min_size := Z.quot (max_size_ (decode_hdr sd)) 2 in
  if decide (min_size < size_ (decode_hdr sd)) then
    _ ← Redistribute node sib_id parent_id child_idx from_left;
    _ ← call (Unpin sib_id true);
    _ ← call (Unpin parent_id true);
    mret true
  else
    _ ← call (Unpin sib_id false); mret false.

(** The merge with a sibling: with the left one if there is one. *)
Definition merge_sibling (node parent_id : page_id_t) (child_idx : Z) : prog unit :=
  nd ← call (Read node);
  pd ← call (Read parent_id);
  if decide (0 < child_idx) then
    left_id ← from_mem (Internal.ValueAt (decode_internal pd) (child_idx - 1));
    left_page ← call (Fetch left_id);
    if negb left_page then mret tt else
    _ ← Merge left_id node parent_id child_idx;
    _ ← call (Unpin left_id true);
    _ ← call (Delete (page_id_ (decode_hdr nd)));
    mret tt
  else
    right_id ← from_mem (Internal.ValueAt (decode_internal pd) (child_idx + 1));
    right_page ← call (Fetch right_id);
    if negb right_page then mret tt else
    _ ← Merge node right_id parent_id (child_idx + 1);
    _ ← call (Unpin right_id true);
    _ ← call (Delete right_id);
    mret tt.

Fixpoint HandleUnderflow (fuel : nat) (node root_page_id : page_id_t) : prog page_id_t :=
  match fuel with
  | O => PUB
  | S fuel =>
      nd ← call (Read node);
      let h := decode_hdr nd in
      if IsRootPage h then
        if negb (IsLeafPage h) && bool_decide (size_ h = 1) then
          new_root_id ← from_mem (Internal.ValueAt (decode_internal nd) 0);
          _ ← adopt_child INVALID_PAGE_ID new_root_id;
          _ ← call (Delete root_page_id);
          mret new_root_id
        else mret root_page_id
      else
        let parent_id := parent_page_id_ h in
        parent_page ← call (Fetch parent_id);
        if negb parent_page then mret root_page_id else
        pd ← call (Read parent_id);
        child_idx ← from_mem (Internal.index_of (page_id_ h) (decode_internal pd));
        done_left ← (if decide (0 < child_idx)
                     then try_sibling node parent_id child_idx (child_idx - 1) true else mret false);
        if (done_left : bool) then mret root_page_id else
        done_right ← (if decide (child_idx < size_ (decode_hdr pd) - 1)
                      then try_sibling node parent_id child_idx (child_idx + 1) false else mret false);
        if (done_right : bool) then mret root_page_id else
        _ ← merge_sibling node parent_id child_idx;
        pd ← call (Read parent_id);
        let parent_min_size := Z.quot (max_size_ (decode_hdr pd)) 2 in
        root_page_id ← (if decide (size_ (decode_hdr pd) < parent_min_size)
                        then HandleUnderflow fuel parent_id root_page_id else mret root_page_id);
        _ ← call (Unpin parent_id true);
        mret root_page_id
  end.

Definition BPlusTree_Delete (fuel : nat) (key : Z) (root_page_id : page_id_t) : prog (bool * page_id_t) :=
  if IsEmpty root_page_id then mret (false, root_page_id) else
  leaf_page ← FindLeafPage fuel root_page_id key;
  match leaf_page with
  | None => mret (false, root_page_id)
  | Some leaf_page =>
      d ← call (Read leaf_page);
      '(deleted, leaf) ← from_mem (Leaf.Remove key (decode_leaf d));
      if negb deleted then _ ← call (Unpin leaf_page false); mret (false, root_page_id) else
      _ ← call (Write leaf_page (encode_leaf leaf d));
      if IsRootPage (Leaf.hdr leaf) then
        if decide (size_ (Leaf.hdr leaf) = 0) then
          _ ← call (Delete root_page_id); mret (true, INVALID_PAGE_ID)
        else _ ← call (Unpin leaf_page true); mret (true, root_page_id)
      else
        let min_size := Z.quot (max_size_ (Leaf.hdr leaf)) 2 in
        if decide (min_size ≤ size_ (Leaf.hdr leaf)) then
          _ ← call (Unpin leaf_page true); mret (true, root_page_id)
        else
          root_page_id ← HandleUnderflow fuel leaf_page root_page_id;
          _ ← call (Unpin leaf_page true);
          mret (true, root_page_id)
  end.

(** ** The iterator

    [curr_page_] is [None] for the null pointer. *)
Record BPlusTreeIterator := mkIter {
  curr_page_id_ : page_id_t;
  curr_index_ : Z;
  curr_page_ : option page_id_t;
}.

(** [FetchPage] of [curr_page_id_], as the constructors and [operator++] do. *)
Definition fetch_curr (page_id : page_id_t) : prog (option page_id_t) :=
  if decide (page_id ≠ INVALID_PAGE_ID) then
    page ← call (Fetch page_id); mret (if page : bool then Some page_id else None)
  else mret None.

Definition Iterator_new (page_id : page_id_t) (index : Z) : prog BPlusTreeIterator :=
  p ← fetch_curr page_id; mret (mkIter page_id index p).

(** The destructor, also the release of the old page in the assignments. *)
Definition Iterator_drop (it : BPlusTreeIterator) : prog unit :=
  match curr_page_ it with
  | Some _ =>
      if decide (curr_page_id_ it ≠ INVALID_PAGE_ID)
      then _ ← call (Unpin (curr_page_id_ it) false); mret tt else mret tt
  | None => mret tt
  end.

Definition Iterator_copy (other : BPlusTreeIterator) : prog BPlusTreeIterator :=
  Iterator_new (curr_page_id_ other) (curr_index_ other).
(** Assignment; [same] is [this == &other]. *)
Definition Iterator_assign (same : bool) (it other : BPlusTreeIterator) : prog BPlusTreeIterator :=
  if same then mret it else _ ← Iterator_drop it; Iterator_copy other.

(** The moved-from iterator is returned second. *)
Definition Iterator_move (other : BPlusTreeIterator) : BPlusTreeIterator * BPlusTreeIterator :=
  (other, mkIter INVALID_PAGE_ID (curr_index_ other) None).
Definition Iterator_move_assign (same : bool) (it other : BPlusTreeIterator)
    : prog (BPlusTreeIterator * BPlusTreeIterator) :=
  if same then mret (it, it) else _ ← Iterator_drop it; mret (Iterator_move other).

Definition IsEnd (it : BPlusTreeIterator) : bool := bool_decide (curr_page_id_ it = INVALID_PAGE_ID).

(** The leaf behind [curr_page_]. *)
Definition curr_leaf (it : BPlusTreeIterator) : prog Leaf.BPlusTreeLeafPage :=
  p ← from_mem (curr_page_ it); d ← call (Read p); mret (decode_leaf d).

(** [operator*]. *)
Definition Iterator_deref (it : BPlusTreeIterator) : prog (Z * RID) :=
  leaf ← curr_leaf it;
  k ← from_mem (Leaf.KeyAt leaf (curr_index_ it));
  v ← from_mem (Leaf.ValueAt leaf (curr_index_ it));
  mret (k, v).

(** [operator++]. *)
Definition Iterator_next (it : BPlusTreeIterator) : prog BPlusTreeIterator :=
  if decide (curr_page_id_ it = INVALID_PAGE_ID) then mret it else
  leaf ← curr_leaf it;
  let curr_index := curr_index_ it + 1 in
  if decide (size_ (Leaf.hdr leaf) ≤ curr_index) then
    let next_id := Leaf.next_page_id_ leaf in
    _ ← call (Unpin (curr_page_id_ it) false);
    p ← fetch_curr next_id;
    mret (mkIter next_id 0 p)
  else mret (mkIter (curr_page_id_ it) curr_index (curr_page_ it)).

(** [operator==]. *)
Definition Iterator_eq (a b : BPlusTreeIterator) : bool :=
  bool_decide (curr_page_id_ a = curr_page_id_ b ∧ curr_index_ a = curr_index_ b).

Definition BPlusTree_End : prog BPlusTreeIterator := Iterator_new INVALID_PAGE_ID 0.

(** The loop of [Begin()], at the pinned page [curr_id]. *)
Fixpoint leftmost_leaf (fuel : nat) (curr_id : page_id_t) : prog page_id_t :=
  match fuel with
  | O => PUB
  | S fuel =>
      d ← call (Read curr_id);
      if IsLeafPage (decode_hdr d) then _ ← call (Unpin curr_id false); mret curr_id else
      leftmost_child ← from_mem (Internal.ValueAt (decode_internal d) 0);
      _ ← call (Unpin curr_id false);
      curr_page ← call (Fetch leftmost_child);
      if negb curr_page then PUB else leftmost_leaf fuel leftmost_child
  end.
Definition BPlusTree_Begin (fuel : nat) (root_page_id : page_id_t) : prog BPlusTreeIterator :=
  if IsEmpty root_page_id then BPlusTree_End else
  curr_page ← call (Fetch root_page_id);
  if negb curr_page then PUB else
  curr_id ← leftmost_leaf fuel root_page_id;
  Iterator_new curr_id 0.

(** [Begin(key)]. *)
Definition BPlusTree_Begin_at (fuel : nat) (key : Z) (root_page_id : page_id_t) : prog BPlusTreeIterator :=
  if IsEmpty root_page_id then BPlusTree_End else
  leaf_page ← FindLeafPage fuel root_page_id key;
  match leaf_page with
  | None => BPlusTree_End
  | Some leaf_id =>
      d ← call (Read leaf_id);
      idx ← from_mem (Leaf.KeyIndex (decode_leaf d) key);
      _ ← call (Unpin leaf_id false);
      Iterator_new leaf_id idx
  end.
