(* ===== verification/BPlusTreeRep.v ===== *)
(** What a B+ tree in the page store represents: the tree of nodes behind the page
    ids, the order of its keys and separators, the chain of its leaves, and the
    finite map it stands for; paths from a node to the root as contexts. *)
From Stdlib Require Import ZArith Lia.
From Stdlib Require Strings.Byte.
From stdpp Require Import base list gmap sorting.
From S2P Require Import Prelude Types DiskManager BPlusTreePage BPlusTreeLayout.
Open Scope Z_scope.

(** ** Trees

    The first key of an internal node is not a separator, as in [keys_[0]]. *)
Inductive tree :=
| TLeaf (p : page_id_t) (ps : list (Z * RID))
| TNode (p : page_id_t) (es : list (Z * tree)).

Definition tid (t : tree) : page_id_t := match t with TLeaf p _ | TNode p _ => p end.

Fixpoint tree_ind' (P : tree → Prop) (Hl : ∀ p ps, P (TLeaf p ps))
    (Hn : ∀ p es, Forall (λ e, P e.2) es → P (TNode p es)) (t : tree) : P t :=
  match t with
  | TLeaf p ps => Hl p ps
  | TNode p es => Hn p es
      ((fix go (es : list (Z * tree)) : Forall (λ e, P e.2) es :=
          match es with
          | [] => Forall_nil_2 _
          | e :: es => Forall_cons_2 _ _ _ (tree_ind' P Hl Hn e.2) (go es)
          end) es)
  end.

(** Keys [k] as [2 * k + 1] and separators [s] as [2 * s], from left to right: the
    tree is a search tree when this sequence increases. *)
Definition code (k : Z) : Z := 2 * k + 1.
Fixpoint skel (t : tree) : list Z :=
  match t with
  | TLeaf _ ps => code <$> ps.*1
  | TNode _ es => tail (es ≫= λ e, 2 * e.1 :: skel e.2)
  end.
Fixpoint leaves (t : tree) : list (page_id_t * list (Z * RID)) :=
  match t with
  | TLeaf p ps => [(p, ps)]
  | TNode _ es => es ≫= λ e, leaves e.2
  end.
Fixpoint ids (t : tree) : list page_id_t :=
  match t with
  | TLeaf p _ => [p]
  | TNode p es => p :: (es ≫= λ e, ids e.2)
  end.
Definition flat (t : tree) : list (Z * RID) := leaves t ≫= snd.

Definition sk (e : Z * tree) : list Z := 2 * e.1 :: skel e.2.
Definition ids_of (es : list (Z * tree)) : list page_id_t := es ≫= λ e, ids e.2.
Definition leaves_of (es : list (Z * tree)) : list (page_id_t * list (Z * RID)) := es ≫= λ e, leaves e.2.

(** *** Paths to the root

    A frame is an internal node with a hole for one child; a context is the list
    of the frames above a node, innermost first. *)
Record frame := mkFrame {
  fr_id : page_id_t;
  fr_left : list (Z * tree);
  fr_key : Z;
  fr_right : list (Z * tree);
}.
Definition fill (t : tree) (f : frame) : tree := TNode (fr_id f) (fr_left f ++ (fr_key f, t) :: fr_right f).
Definition plug (C : list frame) (t : tree) : tree := foldl fill t C.

Definition skel_l (f : frame) : list Z := tail ((fr_left f ≫= sk) ++ [2 * fr_key f]).
Definition skel_r (f : frame) : list Z := fr_right f ≫= sk.
Fixpoint ctx_l {X} (g : frame → list X) (C : list frame) : list X :=
  match C with [] => [] | f :: C => ctx_l g C ++ g f end.
Fixpoint ctx_r {X} (g : frame → list X) (C : list frame) : list X :=
  match C with [] => [] | f :: C => g f ++ ctx_r g C end.
Definition leaves_l (f : frame) := leaves_of (fr_left f).
Definition leaves_r (f : frame) := leaves_of (fr_right f).
Definition frame_ids (f : frame) : list page_id_t := fr_id f :: ids_of (fr_left f) ++ ids_of (fr_right f).
Definition ctx_ids (C : list frame) : list page_id_t := C ≫= frame_ids.

Lemma skel_node p es : skel (TNode p es) = tail (es ≫= sk).
Proof. done. Qed.
Lemma skel_fill t f : skel (fill t f) = skel_l f ++ skel t ++ skel_r f.
Proof.
  unfold fill, skel_l, skel_r. rewrite skel_node, bind_app. cbn [mbind list_bind]. unfold sk at 2. cbn [fst snd].
  destruct (fr_left f ≫= sk) as [|x l]; cbn; [done|]. by rewrite <- !app_assoc.
Qed.
Lemma skel_plug C t : skel (plug C t) = ctx_l skel_l C ++ skel t ++ ctx_r skel_r C.
Proof.
  revert t. induction C as [|f C IH]; intros t; cbn [plug foldl ctx_l ctx_r]; [by rewrite app_nil_r|].
  change (foldl fill (fill t f) C) with (plug C (fill t f)). by rewrite IH, skel_fill, <- !app_assoc.
Qed.
Lemma leaves_plug C t : leaves (plug C t) = ctx_l leaves_l C ++ leaves t ++ ctx_r leaves_r C.
Proof.
  revert t. induction C as [|f C IH]; intros t; cbn [plug foldl ctx_l ctx_r]; [by rewrite app_nil_r|].
  change (foldl fill (fill t f) C) with (plug C (fill t f)). rewrite IH. cbn [fill leaves].
  rewrite bind_app. cbn [mbind list_bind snd]. by rewrite <- !app_assoc.
Qed.
Lemma ids_fill t f : ids (fill t f) ≡ₚ ids t ++ frame_ids f.
Proof.
  cbn [fill ids]. rewrite bind_app. cbn [mbind list_bind snd]. unfold frame_ids.
  change (?x ≫= _) with (ids_of x). solve_Permutation.
Qed.
Lemma ids_plug C t : ids (plug C t) ≡ₚ ids t ++ ctx_ids C.
Proof.
  revert t. induction C as [|f C IH]; intros t; [by rewrite app_nil_r|].
  change (plug (f :: C) t) with (plug C (fill t f)). rewrite IH, ids_fill. cbn [ctx_ids mbind list_bind].
  by rewrite <- app_assoc.
Qed.

(** ** Order *)
Lemma inc_app_inv l1 l2 : inc (l1 ++ l2) →
  inc l1 ∧ inc l2 ∧ ∀ x y, x ∈ l1 → y ∈ l2 → x < y.
Proof.
  intros H. split_and!.
  - intros i j x y Hij Hi Hj. eapply (H i j); [done|by apply lookup_app_l_Some..].
  - intros i j x y Hij Hi Hj. eapply (H (length l1 + i)%nat (length l1 + j)%nat); [lia|..];
      by rewrite lookup_app_r, Nat.add_comm, Nat.add_sub by lia.
  - intros x y [i Hi]%list_elem_of_lookup_1 [j Hj]%list_elem_of_lookup_1.
    eapply (H i (length l1 + j)%nat); [apply lookup_lt_Some in Hi; lia|by apply lookup_app_l_Some|].
    by rewrite lookup_app_r, Nat.add_comm, Nat.add_sub by lia.
Qed.
Lemma inc_sublist l1 l2 : l1 `sublist_of` l2 → inc l2 → inc l1.
Proof.
  induction 1 as [|x l1 l2 Hs IH|x l1 l2 Hs IH]; [done|..]; intros H;
    change (x :: l2) with ([x] ++ l2) in H; apply inc_app_inv in H as (_ & H2 & Hx); [|by apply IH].
  change (x :: l1) with ([x] ++ l1). apply inc_app; [|by apply IH|].
  - intros [|i] [|j] a b; cbn; try lia; done.
  - intros a b Ha Hb. apply Hx; [done|]. by eapply elem_of_sublist.
Qed.
Lemma inc_fmap (g : Z → Z) l : (∀ x y, g x < g y → x < y) → inc (g <$> l) → inc l.
Proof.
  intros Hg H i j x y Hij Hi Hj. apply Hg. eapply (H i j); [done|..]; rewrite list_lookup_fmap.
  - by rewrite Hi.
  - by rewrite Hj.
Qed.
Lemma inc_snoc_last l x y : inc (l ++ [x]) → y ∈ l ++ [x] → y ≤ x.
Proof.
  intros (_ & _ & H)%inc_app_inv [Hy|Hy]%elem_of_app.
  - specialize (H y x Hy). lia || (rewrite list_elem_of_singleton in H; lia).
  - apply list_elem_of_singleton in Hy. lia.
Qed.

(** A separator fits below the first key of the right half. *)
Lemma inc_sep l1 k0 k l2 : inc ((l1 ++ [code k0]) ++ code k :: l2) → inc ((l1 ++ [code k0]) ++ 2 * k :: code k :: l2).
Proof.
  intros (H1 & H2 & H12)%inc_app_inv.
  assert (H0 : code k0 < code k) by (apply H12; [apply elem_of_app; right|]; by left).
  assert (Hle : ∀ x, x ∈ l1 ++ [code k0] → x ≤ code k0) by (intros x; by apply inc_snoc_last).
  assert (Hge : ∀ y, y ∈ code k :: l2 → code k ≤ y).
  { intros y [->|Hy]%elem_of_cons; [lia|]. change (code k :: l2) with ([code k] ++ l2) in H2.
    apply inc_app_inv in H2 as (_ & _ & Hlt). specialize (Hlt (code k) y ltac:(by left) Hy). lia. }
  unfold code in *. apply inc_app; [done| |].
  - change (2 * k :: ?l) with ([2 * k] ++ l). apply inc_app; [|done|].
    + intros [|i] [|j] a b; cbn; try lia; done.
    + intros x y ->%list_elem_of_singleton Hy%Hge. lia.
  - intros x y Hx%Hle [->|Hy]%elem_of_cons; [lia|]. apply Hge in Hy. lia.
Qed.

(** The separators and the keys occur in the sequence, in order. *)
Lemma seps_sublist es : (λ k, 2 * k) <$> es.*1 `sublist_of` (es ≫= sk).
Proof.
  induction es as [|[k c] es IH]; [done|]. cbn. apply sublist_skip. by apply sublist_inserts_l.
Qed.
Lemma tail_seps_sublist p es : (λ k, 2 * k) <$> tail es.*1 `sublist_of` skel (TNode p es).
Proof.
  rewrite skel_node. destruct es as [|[k c] es]; [done|]. cbn.
  apply sublist_inserts_l, seps_sublist.
Qed.
Lemma flat_node p es : flat (TNode p es) = es ≫= λ e, flat e.2.
Proof.
  unfold flat. cbn [leaves]. induction es as [|e es IH]; [done|]. cbn. by rewrite bind_app, IH.
Qed.
Lemma keys_sublist_sk es : Forall (λ e, code <$> (flat e.2).*1 `sublist_of` skel e.2) es →
  code <$> (es ≫= λ e, flat e.2).*1 `sublist_of` (es ≫= sk).
Proof.
  induction 1 as [|[k c] es Hc _ IH]; [done|]. cbn -[flat]. rewrite !fmap_app.
  apply sublist_cons, sublist_app; done.
Qed.
Lemma keys_sublist t : code <$> (flat t).*1 `sublist_of` skel t.
Proof.
  induction t as [p ps|p es IH] using tree_ind'.
  - unfold flat. cbn. by rewrite app_nil_r.
  - rewrite flat_node, skel_node.
    destruct es as [|[k c] es]; [done|]. apply Forall_cons in IH as [Hc IH]. cbn -[flat] in *.
    rewrite !fmap_app. apply sublist_app; [done|]. by apply keys_sublist_sk.
Qed.

Lemma code_inc l : inc (code <$> l) → inc l.
Proof. apply inc_fmap. unfold code. lia. Qed.
Lemma flat_inc t : inc (skel t) → inc (flat t).*1.
Proof. intros H. apply code_inc. eapply inc_sublist; [apply keys_sublist|done]. Qed.

(** *** The map of a tree, seen from a leaf *)
Definition flat_l (C : list frame) := ctx_l leaves_l C ≫= snd.
Definition flat_r (C : list frame) := ctx_r leaves_r C ≫= snd.
Lemma flat_plug C t : flat (plug C t) = flat_l C ++ flat t ++ flat_r C.
Proof. unfold flat, flat_l, flat_r. by rewrite leaves_plug, !bind_app. Qed.

(** [key] belongs below the hole of the context. *)
Definition bracket (C : list frame) (key : Z) : Prop :=
  (∀ x, x ∈ ctx_l skel_l C → x < code key) ∧ (∀ x, x ∈ ctx_r skel_r C → code key < x).

Lemma keys_left f : code <$> (leaves_l f ≫= snd).*1 `sublist_of` skel_l f.
Proof.
  unfold leaves_l, leaves_of, skel_l. destruct (fr_left f) as [|[k c] es]; [apply sublist_nil_l|].
  change (((k, c) :: es) ≫= sk) with (2 * k :: skel c ++ (es ≫= sk)). cbn [app tail].
  apply sublist_inserts_r. pose proof (keys_sublist (TNode 0 ((k, c) :: es))) as H. exact H.
Qed.
Lemma keys_right f : code <$> (leaves_r f ≫= snd).*1 `sublist_of` skel_r f.
Proof.
  unfold leaves_r, leaves_of, skel_r. pose proof (flat_node 0 (fr_right f)) as H.
  unfold flat in H. cbn [leaves] in H. rewrite H. apply keys_sublist_sk.
  apply Forall_forall. intros e _. apply keys_sublist.
Qed.
Lemma keys_ctx_l C : code <$> (flat_l C).*1 `sublist_of` ctx_l skel_l C.
Proof.
  unfold flat_l. induction C as [|f C IH]; [done|]. cbn [ctx_l]. rewrite bind_app, !fmap_app.
  apply sublist_app; [done|apply keys_left].
Qed.
Lemma keys_ctx_r C : code <$> (flat_r C).*1 `sublist_of` ctx_r skel_r C.
Proof.
  unfold flat_r. induction C as [|f C IH]; [done|]. cbn [ctx_r]. rewrite bind_app, !fmap_app.
  apply sublist_app; [apply keys_right|done].
Qed.
Lemma bracket_outside C key : bracket C key → key ∉ (flat_l C).*1 ∧ key ∉ (flat_r C).*1.
Proof.
  intros [Hl Hr]. split; intros Hin.
  - specialize (Hl (code key)). enough (code key < code key) by lia. apply Hl.
    eapply elem_of_sublist, keys_ctx_l. by apply list_elem_of_fmap_2.
  - specialize (Hr (code key)). enough (code key < code key) by lia. apply Hr.
    eapply elem_of_sublist, keys_ctx_r. by apply list_elem_of_fmap_2.
Qed.

Lemma pmap_app_out l1 l2 l3 key : key ∉ l1.*1 → key ∉ l3.*1 →
  pmap (l1 ++ l2 ++ l3) !! key = pmap l2 !! key.
Proof.
  intros H1%pmap_None H3%pmap_None. unfold pmap in *. rewrite !list_to_map_app.
  rewrite lookup_union_r by done. by rewrite lookup_union_l.
Qed.
Lemma lookup_hole C t key : bracket C key → pmap (flat (plug C t)) !! key = pmap (flat t) !! key.
Proof. intros [Hl Hr]%bracket_outside. rewrite flat_plug. by apply pmap_app_out. Qed.

Lemma pmap_Permutation l l' k v : inc l'.*1 → l' ≡ₚ (k, v) :: l → pmap l' = <[k := v]> (pmap l).
Proof.
  intros H%inc_NoDup Hp. unfold pmap. rewrite <- list_to_map_cons.
  by apply list_to_map_proper.
Qed.

(** A key that belongs below the hole may be added there. *)
Lemma inc_around C ks ks' key : inc (ctx_l skel_l C ++ ks ++ ctx_r skel_r C) → bracket C key →
  inc ks' → (∀ x, x ∈ ks' → x = code key ∨ x ∈ ks) → inc (ctx_l skel_l C ++ ks' ++ ctx_r skel_r C).
Proof.
  intros (HL & (Hk & HR & HkR)%inc_app_inv & HLk)%inc_app_inv [Hl Hr] Hinc Hmem.
  apply inc_app; [done|apply inc_app; [done..|]|].
  - intros x y Hx Hy. destruct (Hmem x Hx) as [->|Hin]; [by apply Hr|by apply HkR].
  - intros x y Hx [Hy|Hy]%elem_of_app; [|apply HLk; [done|]; apply elem_of_app; by right].
    destruct (Hmem y Hy) as [->|Hin]; [by apply Hl|]. apply HLk; [done|].
    apply elem_of_app; by left.
Qed.

(** ** Sizes: between half full and full, except at the root *)
Definition leaf_min (root : bool) : Z := if root then 1 else 126.
Definition node_min (root : bool) : Z := if root then 2 else 169.
Definition leaf_sized (root : bool) (ps : list (Z * RID)) : Prop :=
  leaf_min root ≤ zlen ps ≤ Leaf.default_max_size.
Definition node_sized {A} (root : bool) (es : list A) : Prop :=
  node_min root ≤ zlen es ≤ Internal.default_max_size.

Fixpoint sized (root : bool) (h : nat) (t : tree) : Prop :=
  match h, t with
  | O, TLeaf _ ps => leaf_sized root ps
  | S h, TNode _ es => node_sized root es ∧ Forall (λ e, sized false h e.2) es
  | _, _ => False
  end.
Fixpoint sized_ctx (h : nat) (C : list frame) : Prop :=
  match C with
  | [] => True
  | f :: C =>
      node_sized (bool_decide (C = [])) (fr_left f ++ (fr_key f, TLeaf 0 []) :: fr_right f) ∧
      Forall (λ e, sized false h e.2) (fr_left f) ∧ Forall (λ e, sized false h e.2) (fr_right f) ∧
      sized_ctx (S h) C
  end.

Lemma sized_relax root h t : sized false h t → sized root h t.
Proof.
  destruct root; [|done]. destruct h, t; cbn; try done; unfold leaf_sized, node_sized; cbn.
  - lia.
  - intros [? ?]. split; [lia|done].
Qed.
Lemma sized_fill root h t f : sized false h t →
  Forall (λ e, sized false h e.2) (fr_left f) → Forall (λ e, sized false h e.2) (fr_right f) →
  node_sized root (fr_left f ++ (fr_key f, TLeaf 0 []) :: fr_right f) → sized root (S h) (fill t f).
Proof.
  intros Ht Hl Hr Hs. cbn [fill sized]. split.
  - unfold node_sized in *. rewrite length_app in *. cbn in *. done.
  - apply Forall_app. split; [done|]. by apply Forall_cons.
Qed.
Lemma sized_plug h C t : sized (bool_decide (C = [])) h t → sized_ctx h C → sized true (length C + h) (plug C t).
Proof.
  revert h t. induction C as [|f C IH]; intros h t Ht; [done|]. cbn [sized_ctx].
  intros (Hs & Hl & Hr & HC). change (plug (f :: C) t) with (plug C (fill t f)).
  replace (length (f :: C) + h)%nat with (length C + S h)%nat by (cbn; lia).
  apply IH; [|done]. by apply sized_fill.
Qed.

(** ** The pages behind a tree *)
Definition leaf_is (l : Leaf.BPlusTreeLeafPage) (parent p : page_id_t) (ps : list (Z * RID)) : Prop :=
  Leaf.hdr l = mkHdr LEAF_PAGE (zlen ps) Leaf.default_max_size parent p ∧ LeafFacts.pairs l = ps.
Definition node_is (n : Internal.BPlusTreeInternalPage) (parent p : page_id_t)
    (es : list (Z * page_id_t)) : Prop :=
  Internal.hdr n = mkHdr INTERNAL_PAGE (zlen es) Internal.default_max_size parent p ∧
  InternalFacts.ents n = es.
Definition stub (e : Z * tree) : Z * page_id_t := (e.1, tid e.2).
Definition hole_ents (f : frame) (c : page_id_t) : list (Z * page_id_t) :=
  (stub <$> fr_left f) ++ (fr_key f, c) :: (stub <$> fr_right f).

Section repr.
Implicit Types (live : gmap page_id_t (list byte)) (t : tree) (C : list frame).

Definition leaf_page live (parent p : page_id_t) (ps : list (Z * RID)) : Prop :=
  ∃ d, live !! p = Some d ∧ leaf_is (decode_leaf d) parent p ps.
Definition node_page live (parent p : page_id_t) (es : list (Z * page_id_t)) : Prop :=
  ∃ d, live !! p = Some d ∧ node_is (decode_internal d) parent p es.

Fixpoint repr live (h : nat) (parent : page_id_t) t : Prop :=
  match h, t with
  | O, TLeaf p ps => leaf_page live parent p ps
  | S h, TNode p es => node_page live parent p (stub <$> es) ∧ Forall (λ e, repr live h p e.2) es
  | _, _ => False
  end.
(** The context of a hole of height [h] whose node has [parent] and the id [c]. *)
Fixpoint repr_ctx live (h : nat) C (parent c : page_id_t) : Prop :=
  match C with
  | [] => parent = INVALID_PAGE_ID
  | f :: C => parent = fr_id f ∧ ∃ parent',
      node_page live parent' (fr_id f) (hole_ents f c) ∧
      Forall (λ e, repr live h (fr_id f) e.2) (fr_left f) ∧
      Forall (λ e, repr live h (fr_id f) e.2) (fr_right f) ∧
      repr_ctx live (S h) C parent' (fr_id f)
  end.

Lemma elem_of_ids_of p e es : e ∈ es → p ∈ ids e.2 → p ∈ ids_of es.
Proof. intros He Hp. apply list_elem_of_bind. eauto. Qed.

Lemma leaf_page_frame live live' parent p ps : live' !! p = live !! p →
  leaf_page live parent p ps → leaf_page live' parent p ps.
Proof. intros Hl (d & Hd & H). exists d. by rewrite Hl. Qed.
Lemma node_page_frame live live' parent p es : live' !! p = live !! p →
  node_page live parent p es → node_page live' parent p es.
Proof. intros Hl (d & Hd & H). exists d. by rewrite Hl. Qed.

Lemma repr_frame live live' h parent t : (∀ p, p ∈ ids t → live' !! p = live !! p) →
  repr live h parent t → repr live' h parent t.
Proof.
  revert parent t. induction h as [|h IH]; intros parent [p ps|p es] Hf; cbn [repr]; try done.
  - apply leaf_page_frame, Hf. by left.
  - intros [Hn Hc]. split; [eapply node_page_frame, Hn; apply Hf; by left|].
    rewrite Forall_forall in *. intros e He. apply IH; [|by apply Hc].
    intros q Hq. apply Hf. right. by eapply elem_of_ids_of.
Qed.
Lemma reprs_frame live live' h parent es : (∀ p, p ∈ ids_of es → live' !! p = live !! p) →
  Forall (λ e, repr live h parent e.2) es → Forall (λ e, repr live' h parent e.2) es.
Proof.
  rewrite !Forall_forall. intros Hf H e He. eapply repr_frame, H, He.
  intros p Hp. apply Hf. by eapply elem_of_ids_of.
Qed.
Lemma repr_ctx_frame live live' h C parent c : (∀ p, p ∈ ctx_ids C → live' !! p = live !! p) →
  repr_ctx live h C parent c → repr_ctx live' h C parent c.
Proof.
  revert h parent c. induction C as [|f C IH]; intros h parent c Hf; [done|]. cbn [repr_ctx].
  cbn [ctx_ids mbind list_bind] in Hf. intros (-> & pp & Hn & Hl & Hr & HC). split; [done|]. exists pp.
  assert (Hf1 : ∀ p, p ∈ frame_ids f → live' !! p = live !! p) by (intros; apply Hf, elem_of_app; by left).
  split_and!.
  - eapply node_page_frame, Hn. apply Hf1. by left.
  - eapply reprs_frame, Hl. intros p Hp. apply Hf1. right. apply elem_of_app. by left.
  - eapply reprs_frame, Hr. intros p Hp. apply Hf1. right. apply elem_of_app. by right.
  - apply IH; [|done]. intros p Hp. apply Hf, elem_of_app. by right.
Qed.

Lemma repr_plug live h C parent t : repr_ctx live h C parent (tid t) → repr live h parent t →
  repr live (length C + h) INVALID_PAGE_ID (plug C t).
Proof.
  revert h parent t. induction C as [|f C IH]; intros h parent t; cbn [repr_ctx]; [by intros ->|].
  intros (-> & pp & Hn & Hl & Hr & HC) Ht. change (plug (f :: C) t) with (plug C (fill t f)).
  replace (length (f :: C) + h)%nat with (length C + S h)%nat by (cbn; lia).
  apply (IH _ pp); [done|]. cbn [fill repr]. split; [by rewrite fmap_app|].
  apply Forall_app. split; [done|]. by apply Forall_cons.
Qed.

Lemma repr_live live h parent t p : repr live h parent t → p ∈ ids t → is_Some (live !! p).
Proof.
  revert parent t. induction h as [|h IH]; intros parent [q ps|q es]; cbn [repr ids]; try done.
  - intros (d & Hd & _) ->%list_elem_of_singleton. eauto.
  - intros [(d & Hd & _) Hc] [->|Hp]%elem_of_cons; [by eauto|].
    apply list_elem_of_bind in Hp as (e & Hp & He). rewrite Forall_forall in Hc. eapply IH; eauto.
Qed.
Lemma reprs_live live h parent es p : Forall (λ e, repr live h parent e.2) es → p ∈ ids_of es →
  is_Some (live !! p).
Proof.
  intros Hc (e & Hp & He)%list_elem_of_bind. rewrite Forall_forall in Hc. eapply repr_live; [by apply Hc|done].
Qed.
Lemma repr_ctx_live live h C parent c p : repr_ctx live h C parent c → p ∈ ctx_ids C → is_Some (live !! p).
Proof.
  revert h parent c. induction C as [|f C IH]; intros h parent c; [by intros _ ?%not_elem_of_nil|].
  cbn [repr_ctx ctx_ids mbind list_bind]. intros (-> & pp & (d & Hd & _) & Hl & Hr & HC).
  intros [[->|[Hp|Hp]%elem_of_app]%elem_of_cons|Hp]%elem_of_app;
    [by eauto|exact (reprs_live _ _ _ _ _ Hl Hp)|exact (reprs_live _ _ _ _ _ Hr Hp)|by eapply IH].
Qed.
Lemma tid_ids t : tid t ∈ ids t.
Proof. destruct t; by left. Qed.
Lemma ids_stub es : (stub <$> es).*2 ⊆ ids_of es.
Proof.
  intros p ([k c] & -> & (e & [= -> ->] & He)%list_elem_of_fmap)%list_elem_of_fmap.
  eapply elem_of_ids_of; [done|]. apply tid_ids.
Qed.
End repr.

(** *** A node under its context *)
Record located (live : gmap page_id_t (list byte)) (h : nat) (C : list frame) (parent : page_id_t)
    (t : tree) : Prop := {
  lc_tree : repr live h parent t;
  lc_ctx : repr_ctx live h C parent (tid t);
  lc_sized : sized (bool_decide (C = [])) h t;
  lc_sized_ctx : sized_ctx h C;
}.

(** The frame around the [i]-th child of a node. *)
Definition child_frame (p : page_id_t) (es : list (Z * tree)) (i : nat) (k : Z) : frame :=
  mkFrame p (take i es) k (drop (S i) es).

Lemma fill_child p es i k c : es !! i = Some (k, c) → fill c (child_frame p es i k) = TNode p es.
Proof. intros Hi. unfold fill, child_frame. cbn. f_equal. by apply take_drop_middle. Qed.

Lemma located_child live h C parent p es i k c : located live (S h) C parent (TNode p es) →
  es !! i = Some (k, c) → located live h (child_frame p es i k :: C) p c.
Proof.
  intros [[Hn Hcs] HC [Hs Hss] HsC] Hi. pose proof (take_drop_middle _ _ _ Hi) as Hes.
  rewrite <- Hes, Forall_app, Forall_cons in Hcs, Hss. destruct Hcs as (Hl & Hc & Hr), Hss as (Hsl & Hsc & Hsr).
  split; [done| |done|].
  - cbn [repr_ctx child_frame fr_id fr_left fr_key fr_right]. split; [done|]. exists parent.
    split_and!; try done. unfold hole_ents. cbn [fr_left fr_key fr_right].
    rewrite <- Hes, fmap_app in Hn. exact Hn.
  - cbn [sized_ctx child_frame fr_id fr_left fr_key fr_right]. split_and!; try done.
    unfold node_sized in *. rewrite <- Hes, length_app in Hs. rewrite length_app. cbn in *. done.
Qed.

(** Which child a key belongs to, from the separators. *)
Lemma skel_mid p es i k c : es !! i = Some (k, c) →
  skel (TNode p es) = skel_l (child_frame p es i k) ++ skel c ++ skel_r (child_frame p es i k).
Proof. intros Hi. by rewrite <- (fill_child p es i k c Hi), skel_fill. Qed.

Lemma skel_l_bound p es i k c x : es !! i = Some (k, c) → inc (skel (TNode p es)) →
  x ∈ skel_l (child_frame p es i k) → (0 < i)%nat ∧ x ≤ 2 * k.
Proof.
  intros Hi Hinc Hx. rewrite (skel_mid p es i k c Hi) in Hinc.
  apply inc_app_inv in Hinc as (Hinc & _ & _). unfold skel_l in *.
  cbn [child_frame fr_left fr_key] in *.
  destruct i as [|i]; [by apply not_elem_of_nil in Hx|]. split; [lia|].
  destruct (take (S i) es ≫= sk) as [|y l]; [by apply not_elem_of_nil in Hx|]. cbn in Hx, Hinc.
  by eapply inc_snoc_last.
Qed.
Lemma skel_r_bound p es i k c x : es !! i = Some (k, c) → inc (skel (TNode p es)) →
  x ∈ skel_r (child_frame p es i k) → ∃ k' c', es !! S i = Some (k', c') ∧ 2 * k' ≤ x.
Proof.
  intros Hi Hinc Hx. rewrite (skel_mid p es i k c Hi) in Hinc.
  apply inc_app_inv in Hinc as (_ & Hinc & _). apply inc_app_inv in Hinc as (_ & Hinc & _).
  unfold skel_r in *. cbn [child_frame fr_right] in *.
  pose proof (lookup_drop es (S i) 0) as Hd. rewrite Nat.add_0_r in Hd.
  destruct (drop (S i) es) as [|[k' c'] l]; [by apply not_elem_of_nil in Hx|].
  exists k', c'. split; [by rewrite <- Hd|]. cbn in Hx, Hinc.
  change (2 * k' :: skel c' ++ (l ≫= sk)) with ([2 * k'] ++ (skel c' ++ (l ≫= sk))) in Hinc.
  apply inc_app_inv in Hinc as (_ & _ & Hlt). apply elem_of_cons in Hx as [->|Hx]; [lia|].
  specialize (Hlt (2 * k') x ltac:(by left) Hx). lia.
Qed.

Lemma bracket_child C p es i k c key :
  inc (skel (plug C (TNode p es))) → bracket C key → es !! i = Some (k, c) →
  ((0 < i)%nat → k ≤ key) → (∀ k' c', es !! S i = Some (k', c') → key < k') →
  bracket (child_frame p es i k :: C) key.
Proof.
  rewrite skel_plug. intros (_ & (Hinc & _ & _)%inc_app_inv & _)%inc_app_inv [Hl Hr] Hi Hlo Hhi.
  unfold bracket, code in *. split; cbn [ctx_l ctx_r]; intros x [Hx|Hx]%elem_of_app; try (by auto).
  - destruct (skel_l_bound p es i k c x Hi Hinc Hx) as [H0 Hx2]. specialize (Hlo H0). lia.
  - destruct (skel_r_bound p es i k c x Hi Hinc Hx) as (k' & c' & Hk' & Hx2).
    specialize (Hhi k' c' Hk'). lia.
Qed.

(** ** The structs behind the nodes *)
Lemma node_cells parent p es d : zlen d = PAGE_SIZE →
  node_is (decode_internal d) parent p es → zlen es ≤ Internal.capacity →
  cells (Internal.arrays (decode_internal d)) Internal.capacity ∧
  0 ≤ size_ (Internal.hdr (decode_internal d)) ≤ Internal.capacity ∧
  size_ (Internal.hdr (decode_internal d)) = zlen es.
Proof.
  intros Hlen [Hh He] Hle. pose proof (decode_internal_ok d Hlen) as Hok.
  split; [apply Hok|]. rewrite Hh. cbn. lia.
Qed.
Lemma node_wf parent p (es : list (Z * tree)) d : zlen d = PAGE_SIZE →
  node_is (decode_internal d) parent p (stub <$> es) → 1 ≤ zlen es ≤ Internal.capacity →
  inc (skel (TNode p es)) → InternalFacts.wf (decode_internal d).
Proof.
  intros Hlen Hn Hs Hinc.
  destruct (node_cells parent p _ d Hlen Hn) as (Hc & Hsz & Heq); [rewrite length_fmap; lia|].
  rewrite length_fmap in Heq. split; [done|lia|].
  unfold InternalFacts.seps. destruct Hn as [_ ->].
  replace (tail (stub <$> es).*1) with (tail es.*1) by (by destruct es; cbn; rewrite ?list_fmap_compose; rewrite <- ?list_fmap_compose).
  apply (inc_fmap (λ k, 2 * k)); [lia|]. eapply inc_sublist, Hinc. apply tail_seps_sublist.
Qed.
Lemma leaf_wf d parent p ps : zlen d = PAGE_SIZE → leaf_is (decode_leaf d) parent p ps →
  zlen ps ≤ Leaf.capacity → inc ps.*1 → LeafFacts.wf (decode_leaf d).
Proof.
  intros Hlen [Hh Hp] Hs Hinc. pose proof (decode_leaf_ok d Hlen) as Hok.
  split; [apply Hok|rewrite Hh; cbn; lia|by rewrite Hp].
Qed.

(** [Lookup] in a node leads to the child the key belongs to. *)
Lemma node_lookup parent p es d key C : zlen d = PAGE_SIZE →
  node_is (decode_internal d) parent p (stub <$> es) → 1 ≤ zlen es ≤ Internal.capacity →
  inc (skel (plug C (TNode p es))) → bracket C key →
  ∃ i k c, es !! i = Some (k, c) ∧ Internal.Lookup (decode_internal d) key = Some (tid c) ∧
    bracket (child_frame p es i k :: C) key.
Proof.
  intros Hlen Hn Hs Hinc Hb. pose proof Hinc as Hinc'. rewrite skel_plug in Hinc'.
  apply inc_app_inv in Hinc' as (_ & (Hinc' & _ & _)%inc_app_inv & _).
  pose proof (node_wf parent p es d Hlen Hn Hs Hinc') as Hwf.
  destruct (InternalFacts.internal_lookup_spec _ key Hwf) as (i & c & Hl & Hc & _ & Hlo & Hhi).
  unfold InternalFacts.children in Hc. unfold InternalFacts.seps in Hlo, Hhi.
  destruct Hn as [_ He]. rewrite He in *. rewrite !list_lookup_fmap in Hc.
  destruct (es !! i) as [[k t]|] eqn:Hi; [|done]. cbn in Hc. injection Hc as <-.
  exists i, k, t. split; [done|]. split; [done|].
  assert (Hsep : ∀ (j : nat) k' t', es !! S j = Some (k', t') → tail (stub <$> es).*1 !! j = Some k').
  { intros j k' t' Hj. destruct es as [|e es]; [done|].
    change (tail (stub <$> e :: es).*1) with ((stub <$> es).*1).
    change ((e :: es) !! S j) with (es !! j) in Hj. by rewrite !list_lookup_fmap, Hj. }
  eapply bracket_child; try done.
  - intros H0. destruct i as [|i]; [lia|]. apply (Hlo i); [lia|]. by eapply Hsep.
  - intros k' t' Hk'. apply (Hhi i); [lia|]. by eapply Hsep.
Qed.

(** ** The whole index *)

(** The link to the next leaf stored in a page. *)
Definition next_at (live : gmap page_id_t (list byte)) (p : page_id_t) : option page_id_t :=
  Leaf.next_page_id_ ∘ decode_leaf <$> live !! p.
Definition leaf_ids (t : tree) : list page_id_t := (leaves t).*1.
(** The pages [ps] are chained in this order, up to the page [last]. *)
Definition linked (live : gmap page_id_t (list byte)) (ps : list page_id_t) (last : page_id_t) : Prop :=
  ∀ i p, ps !! i = Some p → next_at live p = Some (default last (ps !! S i)).

Record tree_ok (live : gmap page_id_t (list byte)) (h : nat) (t : tree) : Prop := {
  to_repr : repr live h INVALID_PAGE_ID t;
  to_sized : sized true h t;
  to_inc : inc (skel t);
  to_nodup : NoDup (ids t);
  to_linked : linked live (leaf_ids t) INVALID_PAGE_ID;
}.

(** The root id [root] stands for the map [mp], with a tree of height [h] on the
    pages [P]. *)
Definition index_rel (live : gmap page_id_t (list byte)) (h : nat) (root : page_id_t)
    (P : list page_id_t) (mp : gmap Z RID) : Prop :=
  (root = INVALID_PAGE_ID ∧ h = 0%nat ∧ P = [] ∧ mp = ∅) ∨
  (∃ t, root = tid t ∧ P = ids t ∧ tree_ok live h t ∧ mp = pmap (flat t)).

Lemma tree_located live h t : tree_ok live h t → located live h [] INVALID_PAGE_ID t.
Proof. intros []. by split. Qed.
Lemma tree_bracket key : bracket [] key.
Proof. split; intros x []%not_elem_of_nil. Qed.

Lemma linked_nil live last : linked live [] last.
Proof. by intros i p. Qed.
Lemma linked_app live l1 l2 last :
  linked live (l1 ++ l2) last ↔ linked live l1 (default last (head l2)) ∧ linked live l2 last.
Proof.
  split.
  - intros H. split; intros i p Hi.
    + rewrite (H i p) by by apply lookup_app_l_Some. f_equal. pose proof (lookup_lt_Some _ _ _ Hi).
      destruct (decide (S i < length l1)%nat) as [Hlt|Hge].
      { rewrite lookup_app_l by done. by destruct (lookup_lt_is_Some_2 l1 (S i) Hlt) as [x ->]. }
      rewrite lookup_app_r by lia. rewrite (lookup_ge_None_2 l1) by lia.
      replace (S i - length l1)%nat with 0%nat by lia. by destruct l2.
    + pose proof (H (length l1 + i)%nat p) as Hp. rewrite !(lookup_app_r l1) in Hp by lia.
      replace (length l1 + i - length l1)%nat with i in Hp by lia.
      replace (S (length l1 + i) - length l1)%nat with (S i) in Hp by lia. by apply Hp.
  - intros [H1 H2] i p Hi. apply lookup_app_Some in Hi as [Hi|[Hge Hi]].
    + rewrite (H1 i p Hi). f_equal. pose proof (lookup_lt_Some _ _ _ Hi).
      destruct (decide (S i < length l1)%nat) as [Hlt|Hge].
      * rewrite lookup_app_l by done. by destruct (lookup_lt_is_Some_2 l1 (S i) Hlt) as [x ->].
      * rewrite lookup_app_r by lia. rewrite (lookup_ge_None_2 l1) by lia.
        replace (S i - length l1)%nat with 0%nat by lia. by destruct l2.
    + rewrite (H2 _ p Hi). f_equal. rewrite (lookup_app_r l1) by lia. do 2 f_equal. lia.
Qed.
Lemma linked_cons live p l last :
  linked live (p :: l) last ↔ next_at live p = Some (default last (head l)) ∧ linked live l last.
Proof.
  change (p :: l) with ([p] ++ l). rewrite linked_app. split; intros [H1 H2]; (split; [|done]).
  - by apply (H1 0%nat p).
  - intros [|i] x; [|done]. by intros [= <-].
Qed.
Lemma linked_frame live live' ps last : (∀ p, p ∈ ps → next_at live' p = next_at live p) →
  linked live ps last → linked live' ps last.
Proof.
  intros Hf H i p Hi. rewrite Hf; [by apply H|]. by eapply list_elem_of_lookup_2.
Qed.
Lemma leaf_ids_sub t : leaf_ids t ⊆ ids t.
Proof.
  unfold leaf_ids. induction t as [p ps|p es IH] using tree_ind'; [done|]. cbn [leaves ids].
  intros q (x & -> & Hx)%list_elem_of_fmap. apply list_elem_of_bind in Hx as (e & Hx & He).
  right. apply (elem_of_ids_of _ e); [done|]. rewrite Forall_forall in IH. apply (IH e He).
  by apply list_elem_of_fmap_2.
Qed.
Lemma leaf_ids_sublist t : leaf_ids t `sublist_of` ids t.
Proof.
  unfold leaf_ids. induction t as [p ps|p es IH] using tree_ind'; [done|]. cbn [leaves ids].
  apply sublist_cons. induction IH as [|e es He _ IHes]; [done|].
  rewrite !bind_cons, fmap_app. by apply sublist_app.
Qed.

Lemma ids_plug_leaf C p ps ps' : ids (plug C (TLeaf p ps)) = ids (plug C (TLeaf p ps')).
Proof.
  assert (H : ∀ t t', ids t = ids t' → ids (plug C t) = ids (plug C t')); [|by apply H].
  induction C as [|f C IH]; intros t t' Ht; [done|]. apply IH. cbn [fill ids].
  rewrite !bind_app. cbn [mbind list_bind snd]. by rewrite Ht.
Qed.
Lemma leaf_ids_plug C p ps :
  leaf_ids (plug C (TLeaf p ps)) = (ctx_l leaves_l C).*1 ++ p :: (ctx_r leaves_r C).*1.
Proof. unfold leaf_ids. rewrite leaves_plug. cbn [leaves]. by rewrite fmap_app. Qed.
