(* ===== verification/BPlusTreeLookup.v ===== *)
(** Searching a B+ tree: [FindLeafPage] reaches the leaf the key belongs to, and
    [GetValue] answers as the finite map the tree stands for. *)
From Stdlib Require Import ZArith Lia.
From Stdlib Require Strings.Byte.
From stdpp Require Import base list gmap sorting.
From S2P Require Import Prelude Types DiskManager Replacer BufferPool PageStore BPlusTreePage BPlusTreeLayout BPlusTree BPlusTreeRep.
Open Scope Z_scope.

Section lookup.
Context (a : alloc_state) (n : Z) (Ha : alloc_ok a).
Implicit Types (t : tree) (C : list frame) (m : gmap page_id_t Z) (W : gset page_id_t).

(** The header of a page tells the kind of its node. *)
Lemma leaf_page_read parent p ps : leaf_page (al_live a) parent p ps →
  ∃ d, al_live a !! p = Some d ∧ zlen d = PAGE_SIZE ∧ leaf_is (decode_leaf d) parent p ps ∧
    IsLeafPage (decode_hdr d) = true.
Proof.
  intros (d & Hd & Hl). exists d. split_and!; [done|by eapply ao_len|done|].
  destruct Hl as [Hh _]. change (decode_hdr d) with (Leaf.hdr (decode_leaf d)). by rewrite Hh.
Qed.
Lemma node_page_read parent p es : node_page (al_live a) parent p es →
  ∃ d, al_live a !! p = Some d ∧ zlen d = PAGE_SIZE ∧ node_is (decode_internal d) parent p es ∧
    IsLeafPage (decode_hdr d) = false.
Proof.
  intros (d & Hd & Hl). exists d. split_and!; [done|by eapply ao_len|done|].
  destruct Hl as [Hh _]. change (decode_hdr d) with (Internal.hdr (decode_internal d)). by rewrite Hh.
Qed.

(** One level of the descent. *)
Lemma descend W m key fuel h C parent p es :
  pins_ok m a → Z.of_nat (size m) < n → (∀ q, q ∈ ids (TNode p es) → q ∉ W) →
  located (al_live a) (S h) C parent (TNode p es) → inc (skel (plug C (TNode p es))) → bracket C key →
  ∃ f c, plug (f :: C) c = plug C (TNode p es) ∧ located (al_live a) h (f :: C) p c ∧ bracket (f :: C) key ∧
    (∀ q, q ∈ ids c → q ∈ ids (TNode p es)) ∧
    run_store (find_leaf (S fuel) p key) (mkStore a W (pin p m) n) =
    run_store (find_leaf fuel (tid c) key) (mkStore a W (pin (tid c) m) n).
Proof.
  intros Hm Hn HW Hloc Hinc Hb. pose proof Hloc as [Ht HC Hs HsC]. pose proof Ht as [Hp Hcs]. destruct Hs as [Hes Hss].
  destruct (node_page_read _ _ _ Hp) as (d & Hd & Hlen & Hnd & Hk).
  assert (Hz : 1 ≤ zlen es ≤ Internal.capacity).
  { destruct Hes. unfold node_min, Internal.default_max_size, Internal.capacity in *. case_match; lia. }
  destruct (node_lookup parent p es d key C Hlen Hnd Hz Hinc Hb) as (i & k & c & Hi & Hlk & Hb').
  assert (Hce : (k, c) ∈ es) by by eapply list_elem_of_lookup_2.
  assert (Hcid : ∀ q, q ∈ ids c → q ∈ ids (TNode p es)).
  { intros q Hq. right. by apply (elem_of_ids_of q (k, c)). }
  exists (child_frame p es i k), c. change (plug (child_frame p es i k :: C) c) with (plug C (fill c (child_frame p es i k))).
  rewrite (fill_child p es i k c Hi). split; [done|]. split; [by eapply located_child|]. split; [done|]. split; [exact Hcid|].
  cbn [find_leaf]. run_step (apply step_read; [apply pin_self|exact Hd]).
  rewrite Hk, Hlk, run_mem. run_step (apply step_drop; [exact Hm|right; left; apply HW; by left]).
  assert (Hcl : is_Some (al_live a !! tid c)) by (eapply repr_live; [exact Ht|apply Hcid, tid_ids]).
  run_step (apply step_pin; [exact Ha|exact Hcl|exact Hn]). done.
Qed.

(** The descent: it ends at the leaf the key belongs to, pinned once more. *)
Lemma find_run W m key fuel h C parent t :
  pins_ok m a → Z.of_nat (size m) < n → (∀ p, p ∈ ids t → p ∉ W) → (h < fuel)%nat →
  located (al_live a) h C parent t → inc (skel (plug C t)) → bracket C key →
  ∃ C' parent' p ps, plug C' (TLeaf p ps) = plug C t ∧
    located (al_live a) 0 C' parent' (TLeaf p ps) ∧ bracket C' key ∧ p ∈ ids t ∧
    (length C' + 0 = length C + h)%nat ∧
    run_store (find_leaf fuel (tid t) key) (mkStore a W (pin (tid t) m) n) =
      Some (Ret p, mkStore a W (pin p m) n).
Proof.
  intros Hm Hn. revert fuel C parent t. induction h as [|h IH]; intros [|fuel] C parent t HW Hfuel Hloc Hinc Hb;
    try lia; pose proof Hloc as [Ht HC Hs HsC].
  - destruct t as [p ps|]; [|done]. exists C, parent, p, ps. cbn [repr] in Ht.
    destruct (leaf_page_read _ _ _ Ht) as (d & Hd & Hlen & Hl & Hk).
    split_and!; try done; [by left|]. cbn [tid find_leaf].
    run_step (apply step_read; [apply pin_self|exact Hd]). by rewrite Hk.
  - destruct t as [|p es]; [done|].
    destruct (descend W m key fuel h C parent p es Hm Hn HW Hloc Hinc Hb) as (f & c & Hfc & Hlc & Hbc & Hcid & Hstep).
    destruct (IH fuel (f :: C) p c) as (C' & pp & q & ps & Hpl & Hloc' & Hb2 & Hq & Hlen' & Hrun);
      [intros q Hq; by apply HW, Hcid|lia|done|by rewrite Hfc|done|].
    exists C', pp, q, ps. rewrite <- Hfc. split_and!; try done; [by apply Hcid|cbn in Hlen'; lia|].
    cbn [tid]. by rewrite Hstep.
Qed.
(** With one unit of fuel less per level it does not get there. *)
Lemma find_short W m key fuel h C parent t :
  pins_ok m a → Z.of_nat (size m) < n → (∀ p, p ∈ ids t → p ∉ W) → (fuel <= h)%nat →
  located (al_live a) h C parent t → inc (skel (plug C t)) → bracket C key →
  ∃ st, run_store (find_leaf fuel (tid t) key) (mkStore a W (pin (tid t) m) n) = Some (UB, st).
Proof.
  intros Hm Hn. revert h C parent t. induction fuel as [|fuel IH]; intros h C parent t HW Hfuel Hloc Hinc Hb; [by eexists|].
  destruct h as [|h]; [lia|]. pose proof Hloc as [Ht _ _ _]. destruct t as [|p es]; [done|].
  destruct (descend W m key fuel h C parent p es Hm Hn HW Hloc Hinc Hb) as (f & c & Hfc & Hlc & Hbc & Hcid & Hstep).
  cbn [tid]. rewrite Hstep. eapply (IH h); [intros q Hq; by apply HW, Hcid|lia|exact Hlc|by rewrite Hfc|exact Hbc].
Qed.

Lemma find_leaf_page_run W m key fuel h t :
  pins_ok m a → Z.of_nat (size m) < n → (∀ p, p ∈ ids t → p ∉ W) → (h < fuel)%nat →
  tree_ok (al_live a) h t →
  ∃ C parent p ps, plug C (TLeaf p ps) = t ∧ located (al_live a) 0 C parent (TLeaf p ps) ∧
    bracket C key ∧ p ∈ ids t ∧ length C = h ∧
    run_store (FindLeafPage fuel (tid t) key) (mkStore a W m n) =
      Some (Ret (Some p), mkStore a W (pin p m) n).
Proof.
  intros Hm Hn HW Hfuel Ht. pose proof (tree_located _ _ _ Ht) as Hloc.
  destruct (find_run W m key fuel h [] _ t Hm Hn HW Hfuel Hloc (to_inc _ _ _ Ht) (tree_bracket key))
    as (C & pp & p & ps & Hpl & Hloc' & Hb & Hp & Hl & Hrun).
  exists C, pp, p, ps. split_and!; try done; [cbn in Hl; lia|].
  assert (Hrl : is_Some (al_live a !! tid t)) by (eapply repr_live; [apply Ht|apply tid_ids]).
  destruct (alloc_ok_id _ _ Ha Hrl) as [Hne _]. unfold FindLeafPage. rewrite decide_False by done.
  run_step (apply step_pin; [exact Ha|exact Hrl|exact Hn]). by rewrite run_store_bind, Hrun.
Qed.

(** The leaf found holds the value of the key. *)
Lemma found_leaf h t C parent p ps key : tree_ok (al_live a) h t → plug C (TLeaf p ps) = t →
  located (al_live a) 0 C parent (TLeaf p ps) → bracket C key →
  ∃ d, al_live a !! p = Some d ∧ zlen d = PAGE_SIZE ∧ leaf_is (decode_leaf d) parent p ps ∧
    LeafFacts.wf (decode_leaf d) ∧ zlen ps ≤ Leaf.default_max_size ∧
    pmap (flat t) !! key = pmap ps !! key.
Proof.
  intros Ht Hpl [Hl _ Hs _] Hb. destruct (leaf_page_read _ _ _ Hl) as (d & Hd & Hlen & Hleaf & _).
  destruct Hs as [_ Hs]. pose proof (to_inc _ _ _ Ht) as Hinc. rewrite <- Hpl, skel_plug in Hinc.
  apply inc_app_inv in Hinc as (_ & (Hinc & _ & _)%inc_app_inv & _).
  exists d. split_and!; try done.
  - eapply leaf_wf; [done..| |by apply code_inc]. unfold Leaf.default_max_size, Leaf.capacity in *. lia.
  - rewrite <- Hpl, (lookup_hole _ _ _ Hb). unfold flat. cbn. by rewrite app_nil_r.
Qed.

Lemma get_value_run W m fuel key h root P mp : pins_ok m a → Z.of_nat (size m) < n →
  (∀ p, p ∈ P → p ∉ W) → index_rel (al_live a) h root P mp → (h < fuel)%nat →
  run_store (BPlusTree_GetValue fuel key root) (mkStore a W m n) =
    Some (Ret (mp !! key), mkStore a W m n).
Proof.
  intros Hm Hn HW [(-> & _ & _ & ->)|(t & -> & -> & Ht & ->)] Hfuel; unfold BPlusTree_GetValue, IsEmpty; [done|].
  assert (Hrl : is_Some (al_live a !! tid t)) by (eapply repr_live; [apply Ht|apply tid_ids]).
  destruct (alloc_ok_id _ _ Ha Hrl) as [Hne _]. rewrite bool_decide_false by done.
  destruct (find_leaf_page_run W m key fuel h t Hm Hn HW Hfuel Ht) as (C & pp & p & ps & Hpl & Hloc & Hb & Hp & _ & Hrun).
  destruct (found_leaf _ _ _ _ _ _ _ Ht Hpl Hloc Hb) as (d & Hd & _ & Hl & Hwf & _ & Hval).
  rewrite run_store_bind, Hrun. cbn iota beta.
  run_step (apply step_read; [apply pin_self|exact Hd]).
  rewrite (LeafFacts.leaf_lookup_spec _ key Hwf). destruct Hl as [_ ->]. rewrite run_mem, Hval.
  run_step (apply step_drop; [exact Hm|right; left; by apply HW]). done.
Qed.
Lemma get_value_short W m fuel key h root P mp : pins_ok m a → Z.of_nat (size m) < n →
  (∀ p, p ∈ P → p ∉ W) → index_rel (al_live a) h root P mp → root ≠ INVALID_PAGE_ID → (fuel <= h)%nat →
  ∃ st, run_store (BPlusTree_GetValue fuel key root) (mkStore a W m n) = Some (UB, st).
Proof.
  intros Hm Hn HW [(-> & _)|(t & -> & -> & Ht & ->)] Hne Hfuel; [done|]. unfold BPlusTree_GetValue, IsEmpty.
  assert (Hrl : is_Some (al_live a !! tid t)) by (eapply repr_live; [apply Ht|apply tid_ids]).
  rewrite bool_decide_false by done. destruct (find_short W m key fuel h [] _ t Hm Hn HW Hfuel (tree_located _ _ _ Ht)
    (to_inc _ _ _ Ht) (tree_bracket key)) as [st Hrun]. exists st.
  assert (Hf : run_store (FindLeafPage fuel (tid t) key) (mkStore a W m n) = Some (UB, st)); [|by rewrite run_store_bind, Hf].
  unfold FindLeafPage. rewrite decide_False by done.
  run_step (apply step_pin; [exact Ha|exact Hrl|exact Hn]). by rewrite run_store_bind, Hrun.
Qed.
End lookup.
