(* ===== verification/BPlusTreeSplit.v ===== *)
(** The pages an insertion into a B+ tree writes: one page under each operation of
    its struct, the parent pointers of moved children, and what the steps of a split
    make of the tree behind the pages. *)
From Stdlib Require Import ZArith Lia.
From Stdlib Require Strings.Byte.
From stdpp Require Import base list gmap sorting.
From S2P Require Import Prelude Types DiskManager Replacer BufferPool PageStore BPlusTreePage BPlusTreeLayout BPlusTree BPlusTreeRep BPlusTreeLookup.
Open Scope Z_scope.

(** ** One page *)

(** A struct whose fields are in range survives the page. *)
Lemma internal_stored n parent p es d : zlen d = PAGE_SIZE → node_is n parent p es →
  cells (Internal.arrays n) Internal.capacity → within i64_ok u32_ok (Internal.arrays n) →
  u32_ok parent → u32_ok p → zlen es ≤ Internal.capacity →
  decode_internal (encode_internal n d) = n ∧ zlen (encode_internal n d) = PAGE_SIZE.
Proof.
  intros Hlen [Hh _] Hc Hw Hpp Hp Hs. apply decode_encode_internal; [|done].
  apply internal_ok_within. split_and!; try done. rewrite Hh. unfold Internal.capacity in *.
  split; cbn; try done; split; unfold INTERNAL_PAGE, Internal.default_max_size; lia.
Qed.
Lemma leaf_stored l parent p ps d : zlen d = PAGE_SIZE → leaf_is l parent p ps →
  cells (Leaf.arrays l) Leaf.capacity → within i64_ok rid_ok (Leaf.arrays l) →
  u32_ok parent → u32_ok p → u32_ok (Leaf.next_page_id_ l) → zlen ps ≤ Leaf.capacity →
  decode_leaf (encode_leaf l d) = l ∧ zlen (encode_leaf l d) = PAGE_SIZE.
Proof.
  intros Hlen [Hh _] Hc Hw Hpp Hp Hn Hs. apply decode_encode_leaf; [|done].
  apply leaf_ok_within. split_and!; try done. rewrite Hh. unfold Leaf.capacity in *.
  split; cbn; try done; split; unfold LEAF_PAGE, Leaf.default_max_size; lia.
Qed.

Lemma internal_page_ok d : zlen d = PAGE_SIZE →
  cells (Internal.arrays (decode_internal d)) Internal.capacity ∧
  within i64_ok u32_ok (Internal.arrays (decode_internal d)) ∧
  u32_ok (parent_page_id_ (decode_hdr d)) ∧ u32_ok (page_id_ (decode_hdr d)).
Proof.
  intros Hlen. pose proof (decode_internal_ok d Hlen) as Hok. apply internal_ok_within in Hok as (Hh & Hc & Hw).
  split_and!; try done; apply Hh.
Qed.
Lemma leaf_page_ok d : zlen d = PAGE_SIZE →
  cells (Leaf.arrays (decode_leaf d)) Leaf.capacity ∧
  within i64_ok rid_ok (Leaf.arrays (decode_leaf d)) ∧
  u32_ok (Leaf.next_page_id_ (decode_leaf d)) ∧
  u32_ok (parent_page_id_ (decode_hdr d)) ∧ u32_ok (page_id_ (decode_hdr d)).
Proof.
  intros Hlen. pose proof (decode_leaf_ok d Hlen) as Hok. apply leaf_ok_within in Hok as (Hh & Hn & Hc & Hw).
  split_and!; try done; apply Hh.
Qed.

(** [InsertNodeAfter] on a page with room in its arrays. *)
Lemma insert_after_page d parent p es i k old key new : zlen d = PAGE_SIZE →
  node_is (decode_internal d) parent p es → zlen es < Internal.capacity → NoDup es.*2 →
  es !! i = Some (k, old) → i64_ok key → u32_ok new →
  ∃ n, Internal.InsertNodeAfter old key new (decode_internal d) = Some n ∧
    decode_internal (encode_internal n d) = n ∧ zlen (encode_internal n d) = PAGE_SIZE ∧
    node_is n parent p (ins (Z.of_nat i + 1) (key, new) es).
Proof.
  intros Hlen Hn Hs Hnd Hi Hk Hu. pose proof Hn as [Hh He].
  destruct (internal_page_ok d Hlen) as (Hc & Hw & Hpp & Hp).
  destruct (node_cells parent p es d Hlen Hn ltac:(lia)) as (_ & Hsz & Heq).
  destruct (InternalFacts.insert_after_spec (decode_internal d) old key new i Hc) as (n & Hex & Hc' & Hid & Hsz' & He').
  { lia. }
  { unfold InternalFacts.children. by rewrite He. }
  { unfold InternalFacts.children. by rewrite He, list_lookup_fmap, Hi. }
  assert (Hn' : node_is n parent p (ins (Z.of_nat i + 1) (key, new) es)).
  { split; [|by rewrite He', He]. rewrite Hid, Hsz', Hh, length_ins. cbn. unfold set_size. cbn. f_equal. lia. }
  exists n. split; [done|]. change (decode_hdr d) with (Internal.hdr (decode_internal d)) in Hpp, Hp.
  rewrite Hh in Hpp, Hp. cbn in Hpp, Hp.
  destruct (internal_stored n parent p _ d Hlen Hn' Hc') as [H1 H2]; try done.
  - exact (insert_after_within _ _ _ _ _ Hw Hk Hu Hex).
  - rewrite length_ins. lia.
Qed.

(** Splitting an internal page into a new page. *)
Lemma split_page d rd parent p q es : zlen d = PAGE_SIZE → zlen rd = PAGE_SIZE →
  node_is (decode_internal d) parent p es → zlen es ≤ Internal.capacity → u32_ok q →
  let k := Z.to_nat (zlen es - zlen es / 2) in
  ∃ n1 n2, Internal.MoveHalfTo (decode_internal d)
      (Internal.Init q (parent_page_id_ (Internal.hdr (decode_internal d)))
         Internal.default_max_size (decode_internal rd)) = Some (n1, n2) ∧
    node_is n1 parent p (take k es) ∧ node_is n2 parent q (drop k es) ∧
    cells (Internal.arrays n2) Internal.capacity ∧
    decode_internal (encode_internal n1 d) = n1 ∧ zlen (encode_internal n1 d) = PAGE_SIZE ∧
    decode_internal (encode_internal n2 rd) = n2 ∧ zlen (encode_internal n2 rd) = PAGE_SIZE.
Proof.
  intros Hlen Hlenr Hn Hs Hq k. pose proof Hn as [Hh He].
  destruct (internal_page_ok d Hlen) as (Hc & Hw & Hpp & Hp).
  destruct (internal_page_ok rd Hlenr) as (Hcr & Hwr & _ & _).
  change (decode_hdr d) with (Internal.hdr (decode_internal d)) in Hpp, Hp. rewrite Hh in Hpp, Hp. cbn in Hpp, Hp.
  destruct (node_cells parent p es d Hlen Hn Hs) as (_ & Hsz & Heq).
  rewrite Hh. cbn [parent_page_id_].
  set (r := Internal.Init q parent Internal.default_max_size (decode_internal rd)).
  assert (Hd2 : 0 ≤ zlen es / 2 ≤ zlen es) by (Z.div_mod_to_equations; lia).
  destruct (InternalFacts.internal_move_half_spec (decode_internal d) r Hc Hsz Hcr)
    as (n1 & n2 & Hex & Hc1 & Hc2 & Hid1 & Hid2 & Hs1 & Hs2 & Hsplit).
  destruct (internal_half_within (decode_internal d) r n1 n2 Hw Hwr Hex) as [Hw1 Hw2].
  rewrite Heq in Hs1, Hs2. rewrite He in Hsplit.
  assert (Hl1 : length (InternalFacts.ents n1) = k).
  { pose proof (InternalFacts.zlen_ents n1 Hc1 ltac:(lia)). lia. }
  assert (H1 : InternalFacts.ents n1 = take k es) by (rewrite Hsplit; symmetry; by apply take_app_length').
  assert (H2 : InternalFacts.ents n2 = drop k es) by (rewrite Hsplit; symmetry; by apply drop_app_length').
  assert (Hn1 : node_is n1 parent p (take k es)).
  { split; [|done]. rewrite Hid1, Hs1, Hh, length_take. unfold set_size. cbn. f_equal. lia. }
  assert (Hn2 : node_is n2 parent q (drop k es)).
  { split; [|done]. rewrite Hid2, Hs2, length_drop. unfold set_size. cbn. f_equal. lia. }
  exists n1, n2. split; [done|].
  destruct (internal_stored n1 parent p _ d Hlen Hn1 Hc1 Hw1) as [? ?]; [done..|rewrite length_take; lia|].
  destruct (internal_stored n2 parent q _ rd Hlenr Hn2 Hc2 Hw2) as [? ?]; [done..|rewrite length_drop; lia|].
  by split_and!.
Qed.

(** A new root over two children. *)
Lemma populate_page rd p v0 key v1 : zlen rd = PAGE_SIZE → u32_ok p → u32_ok v0 → i64_ok key → u32_ok v1 →
  ∃ n k0, Internal.Populate v0 key v1
      (Internal.Init p INVALID_PAGE_ID Internal.default_max_size (decode_internal rd)) = Some n ∧
    node_is n INVALID_PAGE_ID p [(k0, v0); (key, v1)] ∧
    decode_internal (encode_internal n rd) = n ∧ zlen (encode_internal n rd) = PAGE_SIZE.
Proof.
  intros Hlen Hp H0 Hk H1. destruct (internal_page_ok rd Hlen) as (Hc & Hw & _ & _).
  set (r := Internal.Init p INVALID_PAGE_ID Internal.default_max_size (decode_internal rd)).
  destruct (InternalFacts.populate_spec r v0 key v1 Hc) as (n & k0 & Hex & Hcn & Hid & Hs & He).
  assert (Hn : node_is n INVALID_PAGE_ID p [(k0, v0); (key, v1)]) by (split; [by rewrite Hid, Hs|done]).
  exists n, k0. split; [done|]. split; [done|].
  apply (internal_stored n INVALID_PAGE_ID p _ rd Hlen Hn Hcn); try done.
  exact (populate_within v0 key v1 r n Hw H0 Hk H1 Hex).
Qed.

(** Reading the children and the first key of a struct. *)
Lemma child_ids_spec n parent p es : node_is n parent p es → cells (Internal.arrays n) Internal.capacity →
  zlen es ≤ Internal.capacity → child_ids n = Some es.*2.
Proof.
  intros [Hh He] Hc Hs. assert (Hsz : size_ (Internal.hdr n) = zlen es) by by rewrite Hh.
  unfold child_ids. apply mapM_Some, Forall2_same_length_lookup. rewrite length_seqZ, length_fmap.
  split; [lia|]. intros i j c Hj Hi. apply lookup_seqZ in Hj as [-> Hj]. rewrite Z.add_0_l.
  apply (InternalFacts.children_get n Hc ltac:(lia)). unfold InternalFacts.children. by rewrite He.
Qed.
Lemma first_key_spec n parent p k c es : node_is n parent p ((k, c) :: es) →
  cells (Internal.arrays n) Internal.capacity → zlen ((k, c) :: es) ≤ Internal.capacity →
  Internal.KeyAt n 0 = Some k.
Proof.
  intros [Hh He] Hc Hs. assert (Hsz : size_ (Internal.hdr n) = zlen ((k, c) :: es)) by by rewrite Hh.
  destruct (InternalFacts.ents_get n Hc ltac:(lia) 0) as (k' & c' & Hi & Hk & _); [cbn in *; lia|].
  rewrite He in Hi. by injection Hi as -> ->.
Qed.
Lemma leaf_first_key l parent p k v ps : leaf_is l parent p ((k, v) :: ps) → LeafFacts.wf l →
  Leaf.KeyAt l 0 = Some k.
Proof.
  intros [Hh He] Hwf. destruct (LeafFacts.pairs_get l 0 Hwf) as (k' & v' & Hi & Hk & _).
  { rewrite Hh. cbn. lia. }
  rewrite He in Hi. by injection Hi as -> ->.
Qed.

(** Splitting a leaf page into a new page. *)
Lemma split_leaf_page d rd parent p q ps : zlen d = PAGE_SIZE → zlen rd = PAGE_SIZE →
  leaf_is (decode_leaf d) parent p ps → LeafFacts.wf (decode_leaf d) → zlen ps ≤ Leaf.capacity →
  u32_ok q →
  let k := Z.to_nat (zlen ps - zlen ps / 2) in
  let leaf := decode_leaf d in
  ∃ l1 l2, Leaf.MoveHalfTo (Leaf.set_next q leaf)
      (Leaf.set_next (Leaf.next_page_id_ leaf)
         (Leaf.Init q (parent_page_id_ (Leaf.hdr leaf)) Leaf.default_max_size (decode_leaf rd))) = Some (l1, l2) ∧
    leaf_is l1 parent p (take k ps) ∧ leaf_is l2 parent q (drop k ps) ∧ LeafFacts.wf l2 ∧
    Leaf.next_page_id_ l1 = q ∧ Leaf.next_page_id_ l2 = Leaf.next_page_id_ leaf ∧
    decode_leaf (encode_leaf l1 d) = l1 ∧ zlen (encode_leaf l1 d) = PAGE_SIZE ∧
    decode_leaf (encode_leaf l2 rd) = l2 ∧ zlen (encode_leaf l2 rd) = PAGE_SIZE.
Proof.
  intros Hlen Hlenr Hl Hwf Hs Hq k leaf. pose proof Hl as [Hh He]. subst leaf.
  destruct (leaf_page_ok d Hlen) as (Hc & Hw & Hnx & Hpp & Hp).
  destruct (leaf_page_ok rd Hlenr) as (Hcr & Hwr & _ & _ & _).
  change (decode_hdr d) with (Leaf.hdr (decode_leaf d)) in Hpp, Hp. rewrite Hh in Hpp, Hp. cbn in Hpp, Hp.
  rewrite Hh. cbn [parent_page_id_].
  set (l := Leaf.set_next q (decode_leaf d)).
  set (r := Leaf.set_next _ (Leaf.Init q parent Leaf.default_max_size (decode_leaf rd))).
  assert (Hd2 : 0 ≤ zlen ps / 2 ≤ zlen ps) by (Z.div_mod_to_equations; lia).
  assert (Hwl : LeafFacts.wf l) by (destruct Hwf; by split).
  assert (Hhl : Leaf.hdr l = mkHdr LEAF_PAGE (zlen ps) Leaf.default_max_size parent p) by exact Hh.
  assert (Hsl : size_ (Leaf.hdr l) = zlen ps) by by rewrite Hhl.
  assert (Hpl : LeafFacts.pairs l = ps) by exact He.
  destruct (LeafFacts.leaf_move_half_spec l r Hwl Hcr) as (l1 & l2 & Hex & Hw1 & Hw2 & Hk1 & Hk2 & Hs1 & Hs2 & Hsplit).
  destruct (leaf_half_within l r l1 l2 Hw Hwr Hex) as [Hi1 Hi2].
  rewrite Hsl in Hs1, Hs2. rewrite Hpl in Hsplit.
  assert (Hlen1 : length (LeafFacts.pairs l1) = k) by (pose proof (LeafFacts.zlen_pairs l1 Hw1); lia).
  assert (H1 : LeafFacts.pairs l1 = take k ps) by (rewrite Hsplit; symmetry; by apply take_app_length').
  assert (H2 : LeafFacts.pairs l2 = drop k ps) by (rewrite Hsplit; symmetry; by apply drop_app_length').
  assert (Hn1 : leaf_is l1 parent p (take k ps)).
  { split; [|done]. rewrite (LeafFacts.sl_hdr _ _ Hk1), Hs1, Hhl, length_take. unfold set_size. cbn. f_equal. lia. }
  assert (Hn2 : leaf_is l2 parent q (drop k ps)).
  { split; [|done]. rewrite (LeafFacts.sl_hdr _ _ Hk2), Hs2, length_drop. unfold set_size. cbn. f_equal. lia. }
  pose proof (LeafFacts.sl_next _ _ Hk1) as Hx1. pose proof (LeafFacts.sl_next _ _ Hk2) as Hx2. cbn in Hx1, Hx2.
  exists l1, l2. split; [done|].
  destruct (leaf_stored l1 parent p _ d Hlen Hn1 (LeafFacts.lw_cells _ Hw1) Hi1) as [? ?];
    [done..|by rewrite Hx1|rewrite length_take; lia|].
  destruct (leaf_stored l2 parent q _ rd Hlenr Hn2 (LeafFacts.lw_cells _ Hw2) Hi2) as [? ?];
    [done..|by rewrite Hx2|rewrite length_drop; lia|].
  by split_and!.
Qed.

(** [Insert] of a new key on a leaf page. *)
Lemma insert_leaf_page d parent p ps key v : zlen d = PAGE_SIZE → leaf_is (decode_leaf d) parent p ps →
  LeafFacts.wf (decode_leaf d) → zlen ps < Leaf.capacity → pmap ps !! key = None → i64_ok key → rid_ok v →
  ∃ l ps', Leaf.Insert key v (decode_leaf d) = Some (zlen ps + 1, l) ∧ leaf_is l parent p ps' ∧
    LeafFacts.wf l ∧ Leaf.next_page_id_ l = Leaf.next_page_id_ (decode_leaf d) ∧
    ps' ≡ₚ (key, v) :: ps ∧ inc ps'.*1 ∧
    decode_leaf (encode_leaf l d) = l ∧ zlen (encode_leaf l d) = PAGE_SIZE.
Proof.
  intros Hlen Hl Hwf Hs Hnone Hk Hv. pose proof Hl as [Hh He].
  destruct (leaf_page_ok d Hlen) as (Hc & Hw & Hnx & Hpp & Hp).
  change (decode_hdr d) with (Leaf.hdr (decode_leaf d)) in Hpp, Hp. rewrite Hh in Hpp, Hp. cbn in Hpp, Hp.
  assert (Hsz : size_ (Leaf.hdr (decode_leaf d)) = zlen ps) by by rewrite Hh.
  pose proof (LeafFacts.leaf_insert_spec (decode_leaf d) key v Hwf ltac:(lia)) as Hi.
  rewrite He, Hnone in Hi. destruct Hi as (l & i & Hex & Hwl & Hsl & Hsz' & Hpl & Hpairs & _).
  rewrite Hsz in Hex, Hsz'. pose proof (LeafFacts.lw_inc _ Hwl) as Hinc. rewrite Hpairs in Hinc.
  assert (Hl' : leaf_is l parent p (ins i (key, v) ps)).
  { split; [|done]. rewrite (LeafFacts.sl_hdr _ _ Hsl), Hsz', Hh, length_ins. unfold set_size. cbn. f_equal. lia. }
  exists l, (ins i (key, v) ps). split; [done|].
  destruct (leaf_stored l parent p _ d Hlen Hl' (LeafFacts.lw_cells _ Hwl)
    (leaf_insert_within _ _ _ _ _ Hw Hk Hv Hex)) as [? ?];
    [done..|by rewrite (LeafFacts.sl_next _ _ Hsl)|rewrite length_ins; lia|].
  split_and!; try done; [apply (LeafFacts.sl_next _ _ Hsl)|apply ins_Permutation].
Qed.

(** ** Parent pointers *)

(** The pages [cs] get the parent [q]; nothing else changes. *)
Record adopted (q : page_id_t) (cs : list page_id_t) (a a' : alloc_state) : Prop := {
  ad_ok : alloc_ok a';
  ad_num : al_num a' = al_num a;
  ad_live p : al_live a' !! p =
    if decide (p ∈ cs) then set_parent_bytes q <$> al_live a !! p else al_live a !! p;
}.

Lemma adopted_cons q c cs a a1 a2 : c ∉ cs → adopted q [c] a a1 → adopted q cs a1 a2 →
  adopted q (c :: cs) a a2.
Proof.
  intros Hc Had1 Had2.
  split; [apply Had2|by rewrite (ad_num _ _ _ _ Had2), (ad_num _ _ _ _ Had1)|]. intros p.
  rewrite (ad_live _ _ _ _ Had2), (ad_live _ _ _ _ Had1).
  destruct (decide (p ∈ cs)) as [Hp|Hp], (decide (p = c)) as [->|Hpc]; try done.
  - by rewrite decide_False, decide_True by (rewrite ?list_elem_of_singleton, ?elem_of_cons; tauto).
  - by rewrite decide_True, decide_True by (rewrite ?list_elem_of_singleton, ?elem_of_cons; tauto).
  - by rewrite decide_False, decide_False by (rewrite ?list_elem_of_singleton, ?elem_of_cons; tauto).
Qed.
Lemma adopted_next q cs a a' p : alloc_ok a → adopted q cs a a' → u32_ok q →
  next_at (al_live a') p = next_at (al_live a) p.
Proof.
  intros Ha Had Hq. unfold next_at. rewrite (ad_live _ _ _ _ Had). case_decide; [|done].
  destruct (al_live a !! p) as [d|] eqn:Hd; [|done].
  change (Some (Leaf.next_page_id_ (decode_leaf (set_parent_bytes q d))) =
    Some (Leaf.next_page_id_ (decode_leaf d))).
  by rewrite (decode_leaf_set_parent q d Hq (ao_len _ Ha _ _ Hd)).
Qed.
Lemma adopted_pins q cs a a' m : adopted q cs a a' → pins_ok m a → pins_ok m a'.
Proof.
  intros Had Hm. eapply pins_ok_mono; [done|]. intros p [d Hd]. rewrite (ad_live _ _ _ _ Had), Hd.
  case_decide; cbn; eauto.
Qed.

(** A subtree under a new parent. *)
Lemma repr_adopt live live' h parent q t : u32_ok q → NoDup (ids t) →
  (∀ p d, live !! p = Some d → zlen d = PAGE_SIZE) →
  live' !! tid t = set_parent_bytes q <$> live !! tid t →
  (∀ p, p ∈ ids t → p ≠ tid t → live' !! p = live !! p) →
  repr live h parent t → repr live' h q t.
Proof.
  intros Hq Hnd Hlen Hid Hf. destruct h as [|h], t as [p ps|p es]; cbn [repr tid] in *; try done.
  - intros (d & Hd & Hh & Hp). exists (set_parent_bytes q d). rewrite Hid, Hd. split; [done|].
    unfold leaf_is. rewrite (decode_leaf_set_parent q d Hq (Hlen _ _ Hd)).
    split; [|exact Hp]. cbn [Leaf.set_hdr Leaf.hdr]. by rewrite Hh.
  - intros [(d & Hd & Hh & He) Hc]. split.
    + exists (set_parent_bytes q d). rewrite Hid, Hd. split; [done|].
      unfold node_is. rewrite (decode_internal_set_parent q d Hq (Hlen _ _ Hd)).
      split; [|exact He]. cbn [Internal.set_hdr Internal.hdr]. by rewrite Hh.
    + cbn [ids] in Hnd. apply NoDup_cons in Hnd as [Hp _]. eapply reprs_frame, Hc.
      intros x Hx. apply Hf; [by right|]. by intros ->.
Qed.

Lemma NoDup_ids_of es e : NoDup (ids_of es) → e ∈ es → NoDup (ids e.2).
Proof.
  intros Hnd [i Hi]%list_elem_of_lookup_1. rewrite <- (take_drop_middle _ _ _ Hi) in Hnd.
  unfold ids_of in Hnd. rewrite bind_app, bind_cons in Hnd.
  by apply NoDup_app in Hnd as (_ & _ & (? & _)%NoDup_app).
Qed.
(** Ids of one child that are ids of the roots of the children. *)
Lemma ids_roots es e p : NoDup (ids_of es) → e ∈ es → p ∈ ids e.2 → p ∈ (stub <$> es).*2 → p = tid e.2.
Proof.
  intros Hnd [i Hi]%list_elem_of_lookup_1 Hp ([k c] & -> & (e' & [= -> ->] & He')%list_elem_of_fmap)%list_elem_of_fmap.
  rewrite <- (take_drop_middle _ _ _ Hi) in Hnd, He'. unfold ids_of in Hnd.
  rewrite bind_app, bind_cons in Hnd. cbn in Hp |- *.
  apply NoDup_app in Hnd as (_ & Hd & (_ & Hd2 & _)%NoDup_app).
  apply elem_of_app in He' as [He'|[->|He']%elem_of_cons]; [|done|].
  - exfalso. apply (Hd (tid e'.2)); [|apply elem_of_app; by left].
    apply list_elem_of_bind. exists e'. split; [apply tid_ids|done].
  - exfalso. apply (Hd2 (tid e'.2)); [done|]. apply list_elem_of_bind. exists e'. split; [apply tid_ids|done].
Qed.
Lemma reprs_adopt live live' h parent q es : u32_ok q → NoDup (ids_of es) →
  (∀ p d, live !! p = Some d → zlen d = PAGE_SIZE) →
  (∀ p, p ∈ ids_of es → live' !! p =
     if decide (p ∈ (stub <$> es).*2) then set_parent_bytes q <$> live !! p else live !! p) →
  Forall (λ e, repr live h parent e.2) es → Forall (λ e, repr live' h q e.2) es.
Proof.
  intros Hq Hnd Hlen Hlive Hc. rewrite Forall_forall in *. intros e He.
  assert (Hin : ∀ p, p ∈ ids e.2 → p ∈ ids_of es) by (intros; by eapply elem_of_ids_of).
  apply (repr_adopt live _ h parent); [done|by eapply NoDup_ids_of|done|..|by apply Hc].
  - rewrite (Hlive _ (Hin _ (tid_ids _))), decide_True; [done|].
    apply list_elem_of_fmap. exists (stub e). split; [done|by apply list_elem_of_fmap_2].
  - intros p Hp Hne. rewrite (Hlive _ (Hin _ Hp)), decide_False; [done|].
    intros Hin'. by apply Hne, (ids_roots es).
Qed.

Section adopt.
Context (n : Z).

Lemma set_parent_run a W m p q d : alloc_ok a → is_Some (m !! p) → al_live a !! p = Some d → u32_ok q →
  run_store (set_parent_page p q) (mkStore a W m n) =
    Some (Ret tt, mkStore (set_live p (set_parent_bytes q d) a) ({[p]} ∪ W) m n).
Proof.
  intros Ha Hm Hd Hq. unfold set_parent_page. run_step (apply step_read; [exact Hm|exact Hd]).
  pose proof (zlen_set_parent q d (ao_len _ Ha _ _ Hd)) as Hz. cbn [run_store call].
  by rewrite (step_write _ _ _ _ _ _ Hm Hz).
Qed.
Lemma set_parent_adopted a p q d : alloc_ok a → al_live a !! p = Some d →
  adopted q [p] a (set_live p (set_parent_bytes q d) a).
Proof.
  intros Ha Hd. pose proof (zlen_set_parent q d (ao_len _ Ha _ _ Hd)) as Hz. split; [|done|].
  - apply set_live_ok; [done|by eauto|done].
  - intros x. cbn. rewrite lookup_insert. destruct (decide (p = x)) as [->|Hne].
    + rewrite decide_True by (by left). by rewrite Hd.
    + rewrite decide_False; [done|]. intros ->%list_elem_of_singleton. done.
Qed.

Lemma adopt_child_run a W m c q : alloc_ok a → pins_ok m a → Z.of_nat (size m) < n →
  is_Some (al_live a !! c) → u32_ok q →
  ∃ a' W', run_store (adopt_child q c) (mkStore a W m n) = Some (Ret tt, mkStore a' W' m n) ∧
    adopted q [c] a a' ∧ W' ⊆ W.
Proof.
  intros Ha Hm Hn [d Hd] Hq. exists (set_live c (set_parent_bytes q d) a), (unpin_W true c ({[c]} ∪ W)).
  split; [|split; [by apply set_parent_adopted|cbn; set_solver]].
  unfold adopt_child. run_step (apply step_pin; [exact Ha|by eauto|exact Hn]).
  rewrite run_store_bind, (set_parent_run _ _ _ _ _ _ Ha (pin_self _ _) Hd Hq). cbn iota beta.
  run_step (apply step_drop; [|by left];
    apply (adopted_pins q [c] a); [by apply set_parent_adopted|exact Hm]). done.
Qed.

Lemma adopt_children_run a W m cs q : alloc_ok a → pins_ok m a → Z.of_nat (size m) < n →
  (∀ c, c ∈ cs → is_Some (al_live a !! c)) → NoDup cs → u32_ok q →
  ∃ a' W', run_store (adopt_children q cs) (mkStore a W m n) = Some (Ret tt, mkStore a' W' m n) ∧
    adopted q cs a a' ∧ W' ⊆ W.
Proof.
  revert a W. induction cs as [|c cs IH]; intros a W Ha Hm Hn Hcs Hnd Hq.
  - exists a, W. split; [done|]. split; [|done]. by split.
  - apply NoDup_cons in Hnd as [Hc Hnd].
    destruct (adopt_child_run a W m c q Ha Hm Hn) as (a1 & W1 & Hr1 & Had1 & HW1); [apply Hcs; by left|done|].
    destruct (IH a1 W1 (ad_ok _ _ _ _ Had1) (adopted_pins _ _ _ _ _ Had1 Hm) Hn) as (a2 & W2 & Hr2 & Had2 & HW2);
      [|done..|].
    { intros x Hx. rewrite (ad_live _ _ _ _ Had1). destruct (Hcs x) as [d ->]; [by right|].
      case_decide; cbn; eauto. }
    exists a2, W2. split; [|split; [|by etrans]].
    + cbn [adopt_children]. rewrite run_store_bind, Hr1. cbn iota beta. exact Hr2.
    + by eapply adopted_cons.
Qed.
End adopt.

(** ** A split below a context

    Two trees of the same height, the second one new, wait to be put under the
    parent of the first. *)
Record pending (live : gmap page_id_t (list byte)) (h : nat) (C : list frame) (parent : page_id_t)
    (t1 t2 : tree) : Prop := {
  pd_t1 : repr live h parent t1;
  pd_t2 : ∃ p2, repr live h p2 t2;
  pd_ctx : repr_ctx live h C parent (tid t1);
  pd_sized1 : sized false h t1;
  pd_sized2 : sized false h t2;
  pd_sized_ctx : sized_ctx h C;
  pd_nodup : NoDup (ids t1 ++ ids t2 ++ ctx_ids C);
}.

(** The children of the frame's node with both trees in place. *)
Definition both (f : frame) (t1 : tree) (key : Z) (t2 : tree) : list (Z * tree) :=
  fr_left f ++ (fr_key f, t1) :: (key, t2) :: fr_right f.

Lemma both_ins f t1 key t2 :
  ins (Z.of_nat (length (fr_left f)) + 1) (key, tid t2) (hole_ents f (tid t1)) = stub <$> both f t1 key t2.
Proof.
  unfold ins, hole_ents, both. replace (Z.to_nat _) with (S (length (fr_left f))) by lia.
  rewrite fmap_app. replace (S (length (fr_left f))) with (length (stub <$> fr_left f) + 1)%nat
    by (rewrite length_fmap; lia).
  by rewrite take_app_add, drop_app_add, <- app_assoc.
Qed.
Lemma both_hole f t1 : hole_ents f (tid t1) !! length (fr_left f) = Some (fr_key f, tid t1).
Proof.
  unfold hole_ents. rewrite lookup_app_r by (rewrite length_fmap; lia).
  by rewrite length_fmap, Nat.sub_diag.
Qed.
Lemma skel_both f t1 key t2 p :
  skel (TNode p (both f t1 key t2)) = skel_l f ++ skel t1 ++ 2 * key :: skel t2 ++ skel_r f.
Proof.
  rewrite skel_node. unfold both, skel_l, skel_r. rewrite bind_app, !bind_cons.
  destruct (fr_left f ≫= sk) as [|x l]; cbn; [done|]. by rewrite <- !app_assoc.
Qed.
Lemma skel_split p q e es k c es' :
  skel (TNode p ((e :: es) ++ (k, c) :: es')) = skel (TNode p (e :: es)) ++ 2 * k :: skel (TNode q ((k, c) :: es')).
Proof. rewrite !skel_node, bind_app. by destruct e. Qed.
Lemma leaves_both f t1 key t2 :
  leaves_of (both f t1 key t2) = leaves_l f ++ leaves t1 ++ leaves t2 ++ leaves_r f.
Proof. unfold both, leaves_of, leaves_l, leaves_r. rewrite bind_app, !bind_cons. done. Qed.
Lemma ids_both f t1 key t2 : fr_id f :: ids_of (both f t1 key t2) ≡ₚ ids t1 ++ ids t2 ++ frame_ids f.
Proof.
  unfold both, frame_ids, ids_of. rewrite bind_app, !bind_cons. cbn [snd]. solve_Permutation.
Qed.

Lemma roots_submseteq es : (stub <$> es).*2 `sublist_of` ids_of es.
Proof.
  induction es as [|[k t] es IH]; [done|]. unfold ids_of. rewrite bind_cons. cbn [fmap list_fmap snd stub fst].
  destruct t as [p ps|p es']; cbn [ids tid app]; apply sublist_skip; [exact IH|].
  by apply sublist_inserts_l.
Qed.
Lemma hole_nodup f t1 : NoDup (ids t1 ++ frame_ids f) → NoDup (hole_ents f (tid t1)).*2.
Proof.
  intros Hnd. pose proof (roots_submseteq (fr_left f ++ (fr_key f, t1) :: fr_right f)) as Hs.
  rewrite fmap_app in Hs. eapply sublist_NoDup; [|exact Hs].
  assert (Hp : ids t1 ++ frame_ids f ≡ₚ fr_id f :: ids_of (fr_left f ++ (fr_key f, t1) :: fr_right f)).
  { unfold frame_ids, ids_of. rewrite bind_app, bind_cons. cbn [snd]. solve_Permutation. }
  rewrite Hp in Hnd. by apply NoDup_cons in Hnd as [_ ?].
Qed.

(** Putting the new tree under the parent: the parent's entries and the new tree's
    parent pointer are written. *)
Lemma insert_step live live' h f C parent pp t1 key t2 : u32_ok (fr_id f) →
  (∀ p d, live !! p = Some d → zlen d = PAGE_SIZE) →
  pending live h (f :: C) parent t1 t2 →
  node_page live' pp (fr_id f) (stub <$> both f t1 key t2) →
  repr_ctx live (S h) C pp (fr_id f) →
  Forall (λ e, repr live h (fr_id f) e.2) (fr_left f) → Forall (λ e, repr live h (fr_id f) e.2) (fr_right f) →
  live' !! tid t2 = set_parent_bytes (fr_id f) <$> live !! tid t2 →
  (∀ p, p ≠ fr_id f → p ≠ tid t2 → live' !! p = live !! p) →
  repr live' (S h) pp (TNode (fr_id f) (both f t1 key t2)) ∧ repr_ctx live' (S h) C pp (fr_id f).
Proof.
  intros Hu Hlen [H1 [p2 H2] Hctx _ _ _ Hnd] Hn HC Hl Hr Ht2 Hf.
  cbn [repr_ctx] in Hctx. destruct Hctx as [-> _].
  pose proof (tid_ids t2) as Hid2. cbn [ctx_ids mbind list_bind] in Hnd. unfold frame_ids in Hnd.
  assert (Hside : ∀ q, q ∈ ids t1 ∨ q ∈ ids_of (fr_left f) ∨ q ∈ ids_of (fr_right f) ∨ q ∈ ctx_ids C →
    q ≠ fr_id f ∧ q ≠ tid t2).
  { intros q Hq. apply NoDup_app in Hnd as (_ & Hd1 & (_ & Hd2 & Hnd)%NoDup_app).
    rewrite <- app_comm_cons in Hnd. apply NoDup_cons in Hnd as [Hp Hnd].
    assert (Hq2 : q ∈ ids t1 ∨ q ∈ (ids_of (fr_left f) ++ ids_of (fr_right f)) ++ ctx_ids C).
    { rewrite !elem_of_app. tauto. }
    split; intros ->; destruct Hq2 as [Hq2|Hq2].
    - apply (Hd1 (fr_id f)); [done|]. rewrite !elem_of_app, elem_of_cons. tauto.
    - done.
    - apply (Hd1 (tid t2)); [done|]. rewrite !elem_of_app. tauto.
    - apply (Hd2 (tid t2)); [done|]. rewrite !elem_of_app in Hq2. rewrite !elem_of_app, elem_of_cons, !elem_of_app. tauto. }
  assert (Hfr : ∀ q, q ∈ ids t1 ∨ q ∈ ids_of (fr_left f) ∨ q ∈ ids_of (fr_right f) ∨ q ∈ ctx_ids C →
    live' !! q = live !! q) by (intros q [? ?]%Hside; by apply Hf).
  split.
  - cbn [repr]. split; [done|]. unfold both. apply Forall_app. split; [|apply Forall_cons; split; [|apply Forall_cons; split]].
    + eapply reprs_frame, Hl. intros q Hq. apply Hfr. tauto.
    + eapply repr_frame, H1. intros q Hq. apply Hfr. tauto.
    + eapply (repr_adopt live); [done| |done|done| |exact H2].
      * by apply NoDup_app in Hnd as (_ & _ & (? & _)%NoDup_app).
      * intros q Hq Hne. apply Hf; [|done]. intros ->.
        apply NoDup_app in Hnd as (_ & _ & (_ & Hd2 & _)%NoDup_app).
        apply (Hd2 (fr_id f)); [done|]. rewrite elem_of_app, elem_of_cons. tauto.
    + eapply reprs_frame, Hr. intros q Hq. apply Hfr. tauto.
  - eapply repr_ctx_frame, HC. intros q Hq. apply Hfr. tauto.
Qed.

(** Moving the upper children of an overfull node to a new one. *)
Lemma split_step live live' h C pp p q es1 es2 : u32_ok q →
  (∀ x d, live !! x = Some d → zlen d = PAGE_SIZE) →
  repr live (S h) pp (TNode p (es1 ++ es2)) → repr_ctx live (S h) C pp p →
  NoDup (ids (TNode p (es1 ++ es2)) ++ ctx_ids C) → live !! q = None →
  node_page live' pp p (stub <$> es1) → node_page live' pp q (stub <$> es2) →
  (∀ x, x ≠ p → x ≠ q → live' !! x =
     if decide (x ∈ (stub <$> es2).*2) then set_parent_bytes q <$> live !! x else live !! x) →
  node_sized false es1 → node_sized false es2 →
  Forall (λ e, sized false h e.2) es1 → Forall (λ e, sized false h e.2) es2 → sized_ctx (S h) C →
  pending live' (S h) C pp (TNode p es1) (TNode q es2).
Proof.
  intros Hu Hlen [(d & Hpd & _) Hcs] HC Hnd Hq Hp1 Hp2 Hlive Hs1 Hs2 Hss1 Hss2 HsC.
  apply Forall_app in Hcs as [Hc1 Hc2].
  assert (Hfresh : ∀ x, is_Some (live !! x) → x ≠ q) by (intros x [? ?] ->; congruence).
  assert (Hnd' : NoDup (p :: ids_of es1 ++ ids_of es2 ++ ctx_ids C)).
  { cbn [ids] in Hnd. change (_ ≫= _) with (ids_of (es1 ++ es2)) in Hnd. unfold ids_of in Hnd |- *.
    by rewrite bind_app, <- app_comm_cons, <- app_assoc in Hnd. }
  apply NoDup_cons in Hnd' as [Hp Hnd']. rewrite !elem_of_app in Hp.
  pose proof (ids_stub es2) as Hst. pose proof Hnd' as (Hnd1 & Hd1 & (Hnd2 & Hd2 & HndC)%NoDup_app)%NoDup_app.
  assert (Hkeep : ∀ x, x ∈ ids_of es1 ∨ x ∈ ctx_ids C → is_Some (live !! x) → live' !! x = live !! x).
  { intros x Hx Hlx. rewrite Hlive; [|intros ->; tauto|by apply Hfresh]. rewrite decide_False; [done|].
    intros Hin%Hst. destruct Hx as [Hx|Hx]; [apply (Hd1 x Hx), elem_of_app; by left|by apply (Hd2 x)]. }
  split; try done.
  - cbn [repr]. split; [done|]. eapply reprs_frame, Hc1. intros x Hx. apply Hkeep; [by left|].
    exact (reprs_live _ _ _ _ _ Hc1 Hx).
  - exists pp. cbn [repr]. split; [done|]. apply (reprs_adopt live live' h p q es2 Hu Hnd2 Hlen); [|done].
    intros x Hx. apply Hlive; [intros ->; tauto|]. apply Hfresh. exact (reprs_live _ _ _ _ _ Hc2 Hx).
  - eapply repr_ctx_frame, HC. intros x Hx. apply Hkeep; [by right|]. exact (repr_ctx_live _ _ _ _ _ _ HC Hx).
  - cbn [ids]. change (es1 ≫= _) with (ids_of es1). change (es2 ≫= _) with (ids_of es2).
    assert (Hqn : q ∉ ids_of es1 ++ ids_of es2 ++ ctx_ids C).
    { rewrite !elem_of_app. intros [Hx|[Hx|Hx]]; eapply Hfresh; try reflexivity;
        [exact (reprs_live _ _ _ _ _ Hc1 Hx)|exact (reprs_live _ _ _ _ _ Hc2 Hx)|exact (repr_ctx_live _ _ _ _ _ _ HC Hx)]. }
    assert (Hpq : p ≠ q) by (apply Hfresh; by eauto).
    assert (Hperm : (p :: ids_of es1) ++ (q :: ids_of es2) ++ ctx_ids C ≡ₚ
      p :: q :: ids_of es1 ++ ids_of es2 ++ ctx_ids C) by solve_Permutation.
    rewrite Hperm. apply NoDup_cons. rewrite elem_of_cons, !elem_of_app. split; [tauto|]. by apply NoDup_cons.
Qed.
