(* ===== verification/BPlusTreeInsert.v ===== *)
(** [InsertIntoParent] along the path to the root: new roots, the entry in the
    parent, and the splits of internal nodes. *)
From Stdlib Require Import ZArith Lia.
From Stdlib Require Strings.Byte.
From stdpp Require Import base list gmap sorting.
From S2P Require Import Prelude Types DiskManager Replacer BufferPool PageStore BPlusTreePage BPlusTreeLayout BPlusTree BPlusTreeRep BPlusTreeLookup BPlusTreeSplit.
Open Scope Z_scope.

(** ** [InsertIntoParent] *)
Lemma repr_hdr live h parent t : repr live h parent t →
  ∃ d, live !! tid t = Some d ∧ page_id_ (decode_hdr d) = tid t ∧ parent_page_id_ (decode_hdr d) = parent.
Proof.
  destruct h as [|h], t as [p ps|p es]; cbn [repr tid]; try done.
  - intros (d & Hd & Hh & _). exists d. change (decode_hdr d) with (Leaf.hdr (decode_leaf d)). by rewrite Hh.
  - intros [(d & Hd & Hh & _) _]. exists d. change (decode_hdr d) with (Internal.hdr (decode_internal d)).
    by rewrite Hh.
Qed.
Lemma tid_plug C t t' : tid t = tid t' → tid (plug C t) = tid (plug C t').
Proof. revert t t'. induction C as [|f C IH]; intros t t' Ht; [done|]. by apply IH. Qed.

(** What an insertion makes of the pages: a whole tree again, of the old pages and
    some new ones; other pages are untouched. *)
Record grown (a a' : alloc_state) (old : list page_id_t) (k : Z) (h : nat) (t : tree) : Prop := {
  gr_ok : alloc_ok a';
  gr_num : al_num a' ≤ al_num a + k;
  gr_repr : repr (al_live a') h INVALID_PAGE_ID t;
  gr_sized : sized true h t;
  gr_nodup : NoDup (ids t);
  gr_ids : ∃ new, ids t ≡ₚ new ++ old ∧ ∀ p, p ∈ new → al_live a !! p = None;
  gr_frame p : p ∉ ids t → al_live a' !! p = al_live a !! p;
}.

Section insert_parent.
Context (n : Z).
Implicit Types (a : alloc_state) (W : gset page_id_t) (m : gmap page_id_t Z).

(** A new root over the two trees. *)
Lemma new_root_step live live' h p2 q k0 key t1 t2 : u32_ok q →
  (∀ p d, live !! p = Some d → zlen d = PAGE_SIZE) →
  repr live h INVALID_PAGE_ID t1 → repr live h p2 t2 → NoDup (ids t1 ++ ids t2) → live !! q = None →
  node_page live' INVALID_PAGE_ID q [(k0, tid t1); (key, tid t2)] →
  (∀ p, p ≠ q → live' !! p =
     if decide (p ∈ [tid t1; tid t2]) then set_parent_bytes q <$> live !! p else live !! p) →
  repr live' (S h) INVALID_PAGE_ID (TNode q [(k0, t1); (key, t2)]) ∧
  NoDup (q :: ids t1 ++ ids t2).
Proof.
  intros Hu Hlen H1 H2 Hnd Hq Hn Hlive.
  assert (Hqn : ∀ p, p ∈ ids t1 ∨ p ∈ ids t2 → p ≠ q).
  { intros p [Hp|Hp] ->; [destruct (repr_live _ _ _ _ _ H1 Hp)|destruct (repr_live _ _ _ _ _ H2 Hp)]; congruence. }
  split; [|apply NoDup_cons; split; [|done]; rewrite elem_of_app; intros Hin; by apply (Hqn q)].
  cbn [repr]. split; [exact Hn|]. rewrite !Forall_cons.
  apply NoDup_app in Hnd as (Hnd1 & Hd & Hnd2). split_and!; [| |by apply Forall_nil].
  - apply (Forall_singleton (λ e, repr live' h q e.2) (k0, t1)).
    apply (reprs_adopt live live' h INVALID_PAGE_ID); [done|by cbn; rewrite app_nil_r|done| |by apply Forall_singleton].
    intros p Hp. cbn in Hp. rewrite app_nil_r in Hp. rewrite Hlive by (apply Hqn; by left).
    assert (p ≠ tid t2) by (intros ->; apply (Hd _ Hp), tid_ids). cbn.
    destruct (decide (p = tid t1)) as [->|].
    + by rewrite !decide_True by (by left).
    + by rewrite !decide_False by set_solver.
  - apply (Forall_singleton (λ e, repr live' h q e.2) (key, t2)).
    apply (reprs_adopt live live' h p2); [done|by cbn; rewrite app_nil_r|done| |by apply Forall_singleton].
    intros p Hp. cbn in Hp. rewrite app_nil_r in Hp. rewrite Hlive by (apply Hqn; by right).
    assert (p ≠ tid t1) by (intros ->; apply (Hd _ (tid_ids _) Hp)). cbn.
    destruct (decide (p = tid t2)) as [->|].
    + by rewrite !decide_True by set_solver.
    + by rewrite !decide_False by set_solver.
Qed.

(** The pages of a new root, and of the parent pointers to it. *)
Lemma unpin_root (q x y : page_id_t) W :
  unpin_W true q ({[y]} ∪ ({[x]} ∪ ({[q]} ∪ ({[q]} ∪ W)))) ⊆ W ∪ {[x; y]}.
Proof. cbn. set_solver. Qed.

(** The parent pointers of two pinned pages. *)
Lemma set_parents_run {A} a W m p1 p2 q d1 d2 : alloc_ok a → is_Some (m !! p1) → is_Some (m !! p2) → p1 ≠ p2 →
  al_live a !! p1 = Some d1 → al_live a !! p2 = Some d2 → u32_ok q →
  ∃ a', adopted q [p1; p2] a a' ∧ ∀ k : prog A,
    run_store (_ ← set_parent_page p1 q; _ ← set_parent_page p2 q; k) (mkStore a W m n) =
      run_store k (mkStore a' ({[p2]} ∪ ({[p1]} ∪ W)) m n).
Proof.
  intros Ha H1 H2 Hne Hd1 Hd2 Hq. pose proof (set_parent_adopted a p1 q d1 Ha Hd1) as Had1.
  set (a1 := set_live p1 (set_parent_bytes q d1) a) in *.
  assert (Hd2' : al_live a1 !! p2 = Some d2) by (cbn; by rewrite lookup_insert_ne).
  pose proof (set_parent_adopted a1 p2 q d2 (ad_ok _ _ _ _ Had1) Hd2') as Had2.
  eexists. split; [apply (adopted_cons _ _ _ _ a1); [by intros Heq%list_elem_of_singleton|exact Had1|exact Had2]|].
  intros k. rewrite run_store_bind, (set_parent_run _ _ _ _ _ _ _ Ha H1 Hd1 Hq). cbn iota beta.
  by rewrite run_store_bind, (set_parent_run _ _ _ _ _ _ _ (ad_ok _ _ _ _ Had1) H2 Hd2' Hq).
Qed.
Lemma insert_new_root_run a W m h p2 t1 t2 key root :
  alloc_ok a → pins_ok m a → al_num a < INVALID_PAGE_ID → Z.of_nat (size m) < n →
  is_Some (m !! tid t1) → is_Some (m !! tid t2) → i64_ok key →
  repr (al_live a) h INVALID_PAGE_ID t1 → repr (al_live a) h p2 t2 → NoDup (ids t1 ++ ids t2) →
  ∃ q k0 a' W',
    run_store (insert_new_root (tid t1) (tid t1) key (tid t2) (tid t2) root) (mkStore a W m n) =
      Some (Ret q, mkStore a' W' m n) ∧
    repr (al_live a') (S h) INVALID_PAGE_ID (TNode q [(k0, t1); (key, t2)]) ∧
    NoDup (q :: ids t1 ++ ids t2) ∧ al_live a !! q = None ∧ alloc_ok a' ∧ al_num a' ≤ al_num a + 1 ∧
    W' ⊆ W ∪ {[tid t1; tid t2]} ∧
    (∀ p, p ≠ q → p ≠ tid t1 → p ≠ tid t2 → al_live a' !! p = al_live a !! p) ∧
    ∀ p, p ≠ q → next_at (al_live a') p = next_at (al_live a) p.
Proof.
  intros Ha Hm Hroom Hn Hm1 Hm2 Hk H1 H2 Hnd.
  destruct (repr_hdr _ _ _ _ H1) as (d1 & Hd1 & _). destruct (repr_hdr _ _ _ _ H2) as (d2 & Hd2 & _).
  destruct (fresh_cell a Ha Hroom) as (q & a1 & z & Hf & Hnum1 & Ha1 & Hqn & Hl1 & Hzp & Hqu).
  destruct (alloc_ok_id _ (tid t1) Ha) as [_ Hu1]; [by eauto|].
  destruct (alloc_ok_id _ (tid t2) Ha) as [_ Hu2]; [by eauto|].
  assert (Hne1 : tid t1 ≠ q) by congruence. assert (Hne2 : tid t2 ≠ q) by congruence.
  assert (Hne : tid t1 ≠ tid t2).
  { intros Heq. apply NoDup_app in Hnd as (_ & Hd & _). apply (Hd (tid t1) (tid_ids _)). rewrite Heq. apply tid_ids. }
  destruct (populate_page z q (tid t1) key (tid t2) Hzp Hqu Hu1 Hk Hu2) as (nr & k0 & Hpop & Hnr & Hst & Hlen).
  set (a2 := set_live q (encode_internal nr z) a1).
  assert (Ha2 : alloc_ok a2) by (apply set_live_ok; [done|rewrite Hl1, lookup_insert_eq; by eauto|done]).
  assert (H2d1 : al_live a2 !! tid t1 = Some d1) by (cbn; by rewrite Hl1, !lookup_insert_ne).
  assert (H2d2 : al_live a2 !! tid t2 = Some d2) by (cbn; by rewrite Hl1, !lookup_insert_ne).
  destruct (set_parents_run (A := page_id_t) a2 ({[q]} ∪ ({[q]} ∪ W)) (pin q m) (tid t1) (tid t2) q d1 d2) as (a4 & Had & Hrun);
    [done|by apply pin_keep..|done|done|done|done|].
  assert (Hl2 : ∀ p, p ≠ q → al_live a2 !! p = al_live a !! p).
  { intros p Hp. cbn. by rewrite Hl1, !lookup_insert_ne. }
  assert (Hout : ∀ p, p ≠ tid t1 → p ≠ tid t2 → p ∉ [tid t1; tid t2]).
  { intros p ? ?. rewrite elem_of_cons, list_elem_of_singleton. tauto. }
  destruct (new_root_step (al_live a) (al_live a4) h p2 q k0 key t1 t2 Hqu (ao_len _ Ha) H1 H2 Hnd Hqn)
    as [Hrepr Hnd'].
  { exists (encode_internal nr z). rewrite (ad_live _ _ _ _ Had), decide_False by by apply Hout.
    cbn. by rewrite lookup_insert_eq, Hst. }
  { intros p Hp. by rewrite (ad_live _ _ _ _ Had), Hl2. }
  assert (Hnum : al_num a4 = al_num a1) by exact (ad_num _ _ _ _ Had).
  assert (Hm4 : pins_ok m a4).
  { eapply pins_ok_mono; [exact Hm|]. intros p Hp. rewrite (ad_live _ _ _ _ Had), Hl2 by (intros ->; destruct Hp; congruence).
    case_decide; [by apply fmap_is_Some|done]. }
  eexists q, k0, a4, _. split; [|split_and!; [done..|apply Had|lia|apply unpin_root| |]].
  - unfold insert_new_root. run_step (exact (step_new_pin a W m n q a1 Ha Hm Hf Hn)).
    run_step (apply step_read; [apply pin_self|rewrite Hl1; apply lookup_insert_eq]).
    rewrite Hpop, run_mem. run_step (apply step_write; [apply pin_self|exact Hlen]).
    rewrite Hrun. by run_step (apply step_drop; [exact Hm4|by left]).
  - intros p Hp ? ?. by rewrite (ad_live _ _ _ _ Had), decide_False, Hl2 by auto.
  - intros p Hp. rewrite (adopted_next _ _ _ _ p Ha2 Had Hqu). unfold next_at. by rewrite Hl2.
Qed.

(** The new tree under the parent of the first one. *)
Lemma hole_ents_length f c t : length (hole_ents f c) = length (fr_left f ++ (fr_key f, t) :: fr_right f).
Proof. unfold hole_ents. by rewrite !length_app, length_fmap; cbn; rewrite length_fmap. Qed.

Lemma insert_child_run a W m h f C parent t1 t2 key :
  alloc_ok a → is_Some (m !! fr_id f) → is_Some (m !! tid t2) → i64_ok key →
  pending (al_live a) h (f :: C) parent t1 t2 →
  ∃ n1 a2 W2 pp,
    run_store (insert_child (fr_id f) (tid t1) key (tid t2) (tid t2)) (mkStore a W m n) =
      Some (Ret n1, mkStore a2 W2 m n) ∧
    size_ (Internal.hdr n1) = zlen (both f t1 key t2) ∧
    max_size_ (Internal.hdr n1) = Internal.default_max_size ∧
    repr (al_live a2) (S h) pp (TNode (fr_id f) (both f t1 key t2)) ∧
    repr_ctx (al_live a2) (S h) C pp (fr_id f) ∧ alloc_ok a2 ∧ al_num a2 = al_num a ∧
    W2 ⊆ W ∪ {[fr_id f; tid t2]} ∧
    (∀ p, p ≠ fr_id f → p ≠ tid t2 → al_live a2 !! p = al_live a !! p) ∧
    ∀ p, p ≠ fr_id f → next_at (al_live a2) p = next_at (al_live a) p.
Proof.
  intros Ha HmP Hm2 Hk Hpd. pose proof Hpd as [H1 [p2 H2] Hctx _ _ HsC Hnd].
  cbn [repr_ctx] in Hctx. destruct Hctx as (-> & pp & (d & Hd & Hn) & Hl & Hr & HC).
  cbn [sized_ctx] in HsC. destruct HsC as (Hfs & _ & _ & _).
  assert (Hes : zlen (hole_ents f (tid t1)) < Internal.capacity).
  { destruct Hfs as [_ Hfs]. rewrite (hole_ents_length _ _ (TLeaf 0 [])).
    unfold Internal.default_max_size, Internal.capacity in *. lia. }
  destruct (repr_hdr _ _ _ _ H2) as (d2 & Hd2 & _).
  destruct (alloc_ok_id _ (fr_id f) Ha) as [_ HuP]; [by eauto|].
  destruct (alloc_ok_id _ (tid t2) Ha) as [_ Hu2]; [by eauto|].
  cbn [ctx_ids mbind list_bind] in Hnd.
  assert (HneP : tid t2 ≠ fr_id f).
  { intros Heq. apply NoDup_app in Hnd as (_ & _ & (_ & Hd' & _)%NoDup_app).
    apply (Hd' (tid t2) (tid_ids _)). rewrite Heq. by left. }
  assert (Hndh : NoDup (hole_ents f (tid t1)).*2).
  { apply hole_nodup. rewrite !app_assoc in Hnd. apply NoDup_app in Hnd as (Hnd & _).
    rewrite <- app_assoc, (Permutation_app_comm (ids t2)), app_assoc in Hnd. by apply NoDup_app in Hnd as (? & _). }
  destruct (insert_after_page d pp (fr_id f) _ _ _ _ key (tid t2) (ao_len _ Ha _ _ Hd) Hn Hes Hndh
    (both_hole f t1) Hk Hu2) as (n1 & Hex & Hst & Hlen & Hn1).
  rewrite both_ins in Hn1. set (a1 := set_live (fr_id f) (encode_internal n1 d) a).
  assert (Ha1 : alloc_ok a1) by (apply set_live_ok; [done|by eauto|done]).
  assert (H1d2 : al_live a1 !! tid t2 = Some d2) by (cbn; by rewrite lookup_insert_ne).
  pose proof (set_parent_adopted a1 (tid t2) (fr_id f) d2 Ha1 H1d2) as Had.
  set (a2 := set_live (tid t2) (set_parent_bytes (fr_id f) d2) a1) in *.
  assert (Hlive : ∀ p, p ≠ fr_id f → p ≠ tid t2 → al_live a2 !! p = al_live a !! p).
  { intros p ? ?. cbn. by rewrite !lookup_insert_ne. }
  destruct (insert_step (al_live a) (al_live a2) h f C (fr_id f) pp t1 key t2 HuP (ao_len _ Ha) Hpd)
    as [Hrepr HC2]; [|done..| |done|].
  { exists (encode_internal n1 d). cbn. by rewrite lookup_insert_ne, lookup_insert_eq, Hst. }
  { cbn. by rewrite lookup_insert_eq, Hd2. }
  exists n1, a2, ({[tid t2]} ∪ ({[fr_id f]} ∪ W)), pp. destruct Hn1 as [Hh1 _].
  split; [|split_and!; [by rewrite Hh1; cbn; rewrite length_fmap|by rewrite Hh1|done..|apply Had|done|clear; set_solver|done|]].
  - unfold insert_child. run_step (apply step_read; [exact HmP|exact Hd]). rewrite Hex, run_mem.
    run_step (apply step_write; [exact HmP|exact Hlen]).
    by rewrite run_store_bind, (set_parent_run _ _ _ _ _ _ _ Ha1 Hm2 H1d2 HuP).
  - intros p Hp. rewrite (adopted_next _ _ _ _ p Ha1 Had HuP). unfold next_at. cbn. by rewrite lookup_insert_ne.
Qed.

(** Splitting an overfull node: the upper children go under a new page. *)
Lemma split_sizes {A} (es : list A) : zlen es = 339 →
  let k := Z.to_nat (zlen es - zlen es / 2) in
  node_sized false (take k es) ∧ node_sized false (drop k es) ∧ (0 < k)%nat.
Proof.
  intros Hl k. unfold node_sized, node_min, Internal.default_max_size. rewrite length_take, length_drop.
  unfold k. rewrite Hl. change (339 / 2) with 169. lia.
Qed.

(** The pages of a split node before its children are adopted. *)
Lemma split_written a p q d e1 e2 a1 z : alloc_ok a → fresh_page a = Some (q, a1) →
  al_live a1 = <[q := z]> (al_live a) → al_live a !! p = Some d →
  zlen e1 = PAGE_SIZE → zlen e2 = PAGE_SIZE →
  let a3 := set_live q e2 (set_live p e1 a1) in
  p ≠ q ∧ alloc_ok a3 ∧ al_num a3 = al_num a1 ∧ al_live a3 !! p = Some e1 ∧ al_live a3 !! q = Some e2 ∧
  (∀ x, x ≠ p → x ≠ q → al_live a3 !! x = al_live a !! x) ∧
  ∀ x, is_Some (al_live a !! x) → is_Some (al_live a3 !! x).
Proof.
  intros Ha Hf Hl1 Hd H1 H2 a3. destruct (fresh_page_ok _ _ _ Ha Hf) as (Ha1 & Hqn & _).
  assert (Hpq : p ≠ q) by congruence. split; [done|]. split_and!.
  - apply set_live_ok; [apply set_live_ok|..]; try done; cbn; rewrite Hl1, ?lookup_insert_ne by done.
    + by eauto.
    + rewrite lookup_insert_eq. by eauto.
  - done.
  - cbn. by rewrite lookup_insert_ne, lookup_insert_eq.
  - cbn. by rewrite lookup_insert_eq.
  - intros x ? ?. cbn. by rewrite Hl1, !lookup_insert_ne.
  - intros x Hx. cbn. rewrite Hl1, !lookup_insert. repeat case_decide; by eauto.
Qed.

(** The children that move to the new node [q]. *)
Lemma upper_kids live h p q es1 es2 K : NoDup (ids (TNode p (es1 ++ es2)) ++ K) →
  Forall (λ e, repr live h p e.2) es2 → live !! q = None →
  (∀ x, x ∈ ids_of es2 → x ≠ p ∧ x ≠ q ∧ is_Some (live !! x)) ∧ NoDup (stub <$> es2).*2.
Proof.
  intros Hnd Hcs Hq. cbn [ids] in Hnd. change (_ ≫= _) with (ids_of (es1 ++ es2)) in Hnd. unfold ids_of in Hnd.
  rewrite bind_app, <- app_comm_cons, <- app_assoc in Hnd. apply NoDup_cons in Hnd as [Hnp Hnd]. split.
  - intros x Hx. pose proof (reprs_live _ _ _ _ _ Hcs Hx) as Hlx.
    split_and!; [|intros ->; destruct Hlx; congruence|done]. intros ->. apply Hnp. rewrite !elem_of_app. tauto.
  - eapply sublist_NoDup, roots_submseteq. by apply NoDup_app in Hnd as (_ & _ & (? & _)%NoDup_app).
Qed.
(** The pages after the two nodes are written and the children have their new parent. *)
Lemma split_adopted a a3 a4 p q cs : alloc_ok a3 → u32_ok q → adopted q cs a3 a4 → p ∉ cs → q ∉ cs →
  (∀ x, x ≠ p → x ≠ q → al_live a3 !! x = al_live a !! x) → is_Some (al_live a3 !! p) → al_live a !! q = None →
  (∀ x, x ≠ p → x ≠ q → al_live a4 !! x =
     if decide (x ∈ cs) then set_parent_bytes q <$> al_live a !! x else al_live a !! x) ∧
  (∀ x, x = p ∨ x = q → al_live a4 !! x = al_live a3 !! x) ∧
  (∀ x, is_Some (al_live a !! x) → is_Some (al_live a4 !! x)) ∧
  ∀ x, x ≠ p → x ≠ q → next_at (al_live a4) x = next_at (al_live a) x.
Proof.
  intros Ha3 Hqu Had Hpc Hqc H3 H3p Hqn.
  assert (Hl : ∀ x, x ≠ p → x ≠ q → al_live a4 !! x =
    if decide (x ∈ cs) then set_parent_bytes q <$> al_live a !! x else al_live a !! x).
  { intros x ? ?. by rewrite (ad_live _ _ _ _ Had), H3. }
  assert (Hn : ∀ x, x = p ∨ x = q → al_live a4 !! x = al_live a3 !! x).
  { intros x Hx. rewrite (ad_live _ _ _ _ Had), decide_False; [done|]. by destruct Hx as [-> | ->]. }
  split; [exact Hl|]. split; [exact Hn|]. split.
  - intros x [dx Hx]. destruct (decide (x = p)) as [->|Hne]; [by rewrite Hn by tauto|].
    rewrite Hl by (done || congruence). rewrite Hx. case_decide; cbn; eauto.
  - intros x Hxp Hxq. rewrite (adopted_next _ _ _ _ x Ha3 Had Hqu). unfold next_at. by rewrite H3.
Qed.

(** The two halves on their pages, up to the adoption of the children that moved. *)
Lemma split_node_pages a W m p q a1 z d n1 n2 cs k : alloc_ok a → pins_ok m a → Z.of_nat (size m) < n → is_Some (m !! p) →
  al_live a !! p = Some d → fresh_page a = Some (q, a1) → al_live a1 = <[q := z]> (al_live a) → p ≠ q →
  Internal.MoveHalfTo (decode_internal d) (Internal.Init q (parent_page_id_ (Internal.hdr (decode_internal d)))
    Internal.default_max_size (decode_internal z)) = Some (n1, n2) →
  zlen (encode_internal n1 d) = PAGE_SIZE → zlen (encode_internal n2 z) = PAGE_SIZE →
  child_ids n2 = Some cs → Internal.KeyAt n2 0 = Some k →
  run_store (split_node p) (mkStore a W m n) = run_store (_ ← adopt_children q cs; mret (Some (q, k)))
    (mkStore (set_live q (encode_internal n2 z) (set_live p (encode_internal n1 d) a1)) ({[q]} ∪ ({[p]} ∪ ({[q]} ∪ W)))
       (pin q m) n).
Proof.
  intros Ha Hm Hn Hmp Hd Hf Hl1 Hpq Hex Hz1 Hz2 Hcs Hk. unfold split_node.
  run_step (exact (step_new_pin a W m n q a1 Ha Hm Hf Hn)).
  run_step (apply step_read; [by apply pin_keep|by rewrite Hl1, lookup_insert_ne]).
  run_step (apply step_read; [apply pin_self|rewrite Hl1; apply lookup_insert_eq]).
  rewrite Hex, run_mem. run_step (apply step_write; [by apply pin_keep|exact Hz1]).
  run_step (apply step_write; [apply pin_self|exact Hz2]). rewrite Hcs, run_mem. cbv beta.
  rewrite !run_store_bind. case_match; [|done]. case_match. subst. case_match; try done. by rewrite Hk, run_mem.
Qed.
Lemma split_node_run a W m h C pp p es :
  alloc_ok a → pins_ok m a → al_num a < INVALID_PAGE_ID → Z.of_nat (size m) + 1 < n →
  is_Some (m !! p) → repr (al_live a) (S h) pp (TNode p es) → repr_ctx (al_live a) (S h) C pp p →
  sized_ctx (S h) C → zlen es = 339 → Forall (λ e, sized false h e.2) es →
  NoDup (ids (TNode p es) ++ ctx_ids C) →
  ∃ q es1 k c es2 a2 W2, es = es1 ++ (k, c) :: es2 ∧ es1 ≠ [] ∧
    run_store (split_node p) (mkStore a W m n) = Some (Ret (Some (q, k)), mkStore a2 W2 (pin q m) n) ∧
    pending (al_live a2) (S h) C pp (TNode p es1) (TNode q ((k, c) :: es2)) ∧
    al_live a !! q = None ∧ alloc_ok a2 ∧ al_num a2 ≤ al_num a + 1 ∧ pins_ok (pin q m) a2 ∧ i64_ok k ∧
    W2 ⊆ W ∪ {[p; q]} ∧
    (∀ x, x ≠ q → x ∉ p :: ids_of es → al_live a2 !! x = al_live a !! x) ∧
    (∀ x, is_Some (al_live a !! x) → is_Some (al_live a2 !! x)) ∧
    ∀ x, x ≠ p → x ≠ q → next_at (al_live a2) x = next_at (al_live a) x.
Proof.
  intros Ha Hm Hroom Hn Hmp Hrepr HC HsC Hlen Hss Hnd.
  pose proof Hrepr as [(d & Hd & Hnd_p) Hcs]. destruct (split_sizes es Hlen) as (Hz1 & Hz2 & Hk0).
  destruct (fresh_cell a Ha Hroom) as (q & a1 & z & Hf & Hnum1 & Ha1 & Hqn & Hl1 & Hzp & Hqu).
  pose proof (ao_len _ Ha _ _ Hd) as Hdl.
  destruct (split_page d z pp p q (stub <$> es) Hdl Hzp Hnd_p) as (n1 & n2 & Hex & Hn1 & Hn2 & Hc2 & Hst1 & Hl1' & Hst2 & Hl2');
    [rewrite length_fmap, Hlen; done|done|].
  rewrite length_fmap in Hn1, Hn2. set (k := Z.to_nat (zlen es - zlen es / 2)) in *.
  rewrite <- fmap_take in Hn1. rewrite <- fmap_drop in Hn2.
  destruct (split_written a p q d _ _ a1 z Ha Hf Hl1 Hd Hl1' Hl2') as (Hpq & Ha3 & Hnum3 & H3p & H3q & H3 & Hkeep3).
  set (a3 := set_live q _ _) in *. rewrite <- (take_drop k es) in Hcs, Hss, Hrepr, Hnd.
  apply Forall_app in Hcs as [_ Hcs2]. apply Forall_app in Hss as [Hss1 Hss2].
  destruct (upper_kids (al_live a) h p q _ _ _ Hnd Hcs2 Hqn) as [Hch Hroots].
  assert (Hsub : ∀ x, x ∈ (stub <$> drop k es).*2 → x ∈ ids_of (drop k es)) by apply ids_stub.
  assert (Hm3 : pins_ok (pin q m) a3).
  { apply pins_ok_pin; [by eapply pins_ok_mono|by rewrite H3q; eauto]. }
  pose proof (size_pin q m) as Hsz.
  destruct (adopt_children_run n a3 ({[q]} ∪ ({[p]} ∪ ({[q]} ∪ W))) (pin q m) (stub <$> drop k es).*2 q Ha3 Hm3)
    as (a4 & W4 & Hrun & Had & HW4); [lia| |exact Hroots|done|].
  { intros x (? & ? & Hx)%Hsub%Hch. by rewrite H3. }
  destruct (split_adopted a a3 a4 p q _ Ha3 Hqu Had) as (Hlive & Hnch & Hkeep & Hnext);
    [intros (? & ? & _)%Hsub%Hch; tauto|intros (? & ? & _)%Hsub%Hch; tauto|exact H3|by rewrite H3p; eauto|done|].
  assert (Hp4 : pending (al_live a4) (S h) C pp (TNode p (take k es)) (TNode q (drop k es))).
  { apply (split_step (al_live a)); try done; [apply (ao_len _ Ha)|..].
    - exists (encode_internal n1 d). by rewrite (Hnch p), H3p, Hst1 by tauto.
    - exists (encode_internal n2 z). by rewrite (Hnch q), H3q, Hst2 by tauto. }
  exists q, (take k es).
  destruct (drop k es) as [|[kk c] es2] eqn:Hdrop; [exfalso; destruct Hz2 as [Hz2 _]; cbn in Hz2; lia|].
  exists kk, c, es2, a4, W4. split; [by rewrite <- Hdrop, take_drop|].
  split; [intros Hnil; destruct Hz1 as [Hz1 _]; rewrite Hnil in Hz1; cbn in Hz1; lia|].
  assert (Hkey : Internal.KeyAt n2 0 = Some kk).
  { apply (first_key_spec n2 pp q kk (tid c) (stub <$> es2)); [exact Hn2|done|].
    cbn [length]. rewrite length_fmap. destruct Hz2 as [_ Hz2]. cbn [length] in Hz2. unfold Internal.default_max_size, Internal.capacity in *. lia. }
  split; [|split_and!; try done; [apply Had| |by eapply adopted_pins| |etrans; [exact HW4|clear; set_solver]|..]].
  - rewrite (split_node_pages a W m p q a1 z d n1 n2 (stub <$> (kk, c) :: es2).*2 kk); try done; [|lia|].
    + fold a3. rewrite run_store_bind, Hrun. done.
    + apply (child_ids_spec n2 pp q _ Hn2 Hc2).
      rewrite length_fmap. destruct Hz2. unfold Internal.default_max_size, Internal.capacity in *. lia.
  - rewrite (ad_num _ _ _ _ Had). lia.
  - rewrite <- Hst2 in Hkey. destruct (internal_page_ok _ Hl2') as (_ & [Hw _] & _). by eapply zget_Forall.
  - intros x Hxq Hx. rewrite elem_of_cons in Hx. rewrite Hlive by tauto. rewrite decide_False; [done|].
    intros Hin. apply Hx. right. rewrite <- (take_drop k es), Hdrop. unfold ids_of. rewrite bind_app, elem_of_app.
    right. by apply Hsub.
Qed.

(** The leaves with the hole of a context filled. *)
Definition spread (C : list frame) (lv : list (page_id_t * list (Z * RID))) :=
  ctx_l leaves_l C ++ lv ++ ctx_r leaves_r C.
Definition skel_spread (C : list frame) (ks : list Z) : list Z := ctx_l skel_l C ++ ks ++ ctx_r skel_r C.

Lemma leaf_ids_of es x : x ∈ (leaves_of es).*1 → x ∈ ids_of es.
Proof.
  intros ([p ps] & -> & (e & He & Hin)%list_elem_of_bind)%list_elem_of_fmap.
  eapply elem_of_ids_of; [exact Hin|]. apply leaf_ids_sub. by apply (list_elem_of_fmap_2 fst).
Qed.
Lemma spread_ids C lv x : x ∈ (spread C lv).*1 → x ∈ lv.*1 ∨ x ∈ ctx_ids C.
Proof.
  revert lv. induction C as [|f C IH]; intros lv; unfold spread; cbn [ctx_l ctx_r].
  - rewrite app_nil_r. by left.
  - rewrite <- app_assoc. intros Hx.
    destruct (IH (leaves_l f ++ lv ++ leaves_r f)) as [Hin|Hin].
    + unfold spread. rewrite <- ?app_assoc in *. exact Hx.
    + rewrite !fmap_app, !elem_of_app in Hin. destruct Hin as [Hin%leaf_ids_of|[Hin|Hin%leaf_ids_of]];
        [right|by left|right]; cbn [ctx_ids mbind list_bind]; unfold frame_ids;
        rewrite elem_of_app, elem_of_cons, elem_of_app; tauto.
    + right. cbn [ctx_ids mbind list_bind]. apply elem_of_app. by right.
Qed.
Lemma spread_frame f C t1 key t2 :
  spread (f :: C) (leaves t1 ++ leaves t2) = spread C (leaves_of (both f t1 key t2)).
Proof. unfold spread. cbn [ctx_l ctx_r]. by rewrite leaves_both, <- !app_assoc. Qed.
Lemma skel_frame f C t1 key t2 p :
  skel_spread (f :: C) (skel t1 ++ 2 * key :: skel t2) = skel_spread C (skel (TNode p (both f t1 key t2))).
Proof.
  unfold skel_spread. cbn [ctx_l ctx_r]. rewrite skel_both, <- !app_assoc. do 3 f_equal. cbn. by rewrite <- app_assoc.
Qed.
Lemma ids_split p q es1 es2 : ids (TNode p es1) ++ ids (TNode q es2) ≡ₚ q :: ids (TNode p (es1 ++ es2)).
Proof. cbn [ids]. rewrite bind_app. solve_Permutation. Qed.
Lemma ids_frame f C t1 key t2 :
  ids t1 ++ ids t2 ++ ctx_ids (f :: C) ≡ₚ ids (TNode (fr_id f) (both f t1 key t2)) ++ ctx_ids C.
Proof.
  cbn [ids ctx_ids mbind list_bind]. change (both f t1 key t2 ≫= _) with (ids_of (both f t1 key t2)).
  rewrite ids_both. by rewrite <- !app_assoc.
Qed.
Lemma both_length f t1 key t2 t : length (both f t1 key t2) = S (length (fr_left f ++ (fr_key f, t) :: fr_right f)).
Proof. unfold both. rewrite !length_app. cbn. lia. Qed.

(** The outcome of [InsertIntoParent] for the trees [t1] and [t2] under [C]. *)
Record joined (a a' : alloc_state) (W W' : gset page_id_t) (h : nat) (C : list frame) (t1 : tree)
    (key : Z) (t2 : tree) (h' : nat) (t' : tree) : Prop := {
  jn_grown : grown a a' (ids t1 ++ ids t2 ++ ctx_ids C) (Z.of_nat (length C) + 1) h' t';
  jn_height : (h' <= S (length C + h))%nat;
  jn_skel : skel t' = skel_spread C (skel t1 ++ 2 * key :: skel t2);
  jn_leaves : leaves t' = spread C (leaves t1 ++ leaves t2);
  jn_W : W' ⊆ W ∪ {[tid t1; tid t2]};
  jn_next p : p ∈ leaf_ids t' → next_at (al_live a') p = next_at (al_live a) p;
}.

Lemma join_root a W m h p2 t1 t2 key root :
  alloc_ok a → pins_ok m a → al_num a + 0 < INVALID_PAGE_ID → Z.of_nat (size m) + 0 < n →
  is_Some (m !! tid t1) → is_Some (m !! tid t2) → i64_ok key →
  repr (al_live a) h INVALID_PAGE_ID t1 → repr (al_live a) h p2 t2 → sized false h t1 → sized false h t2 →
  NoDup (ids t1 ++ ids t2) →
  ∃ a' W' h' t', run_store (insert_new_root (tid t1) (tid t1) key (tid t2) (tid t2) root) (mkStore a W m n) =
      Some (Ret (tid t'), mkStore a' W' m n) ∧ joined a a' W W' h [] t1 key t2 h' t'.
Proof.
  intros Ha Hm Hroom Hn Hm1 Hm2 Hk H1 H2 Hs1 Hs2 Hnd.
  destruct (insert_new_root_run a W m h p2 t1 t2 key root Ha Hm) as
    (q & k0 & a' & W' & -> & Hr & Hnd' & Hq & Ha' & Hnum & HW & Hfr & Hnx); [lia|lia|done..|].
  exists a', W', (S h), (TNode q [(k0, t1); (key, t2)]). split; [done|].
  assert (Hids : ids (TNode q [(k0, t1); (key, t2)]) = q :: ids t1 ++ ids t2).
  { cbn [ids mbind list_bind snd]. by rewrite app_nil_r. }
  split; [split; rewrite ?Hids|lia|..|done|]; try done.
  - cbn [sized]. split; [unfold node_sized, node_min, Internal.default_max_size; cbn; lia|].
    rewrite !Forall_cons. split_and!; [done..|by apply Forall_nil].
  - exists [q]. cbn [ctx_ids mbind list_bind]. rewrite app_nil_r. split; [done|]. by intros p ->%list_elem_of_singleton.
  - intros p Hp. rewrite elem_of_cons, elem_of_app in Hp. pose proof (tid_ids t1). pose proof (tid_ids t2).
    apply Hfr; intros ->; tauto.
  - unfold skel_spread. cbn. by rewrite !app_nil_r.
  - unfold spread. cbn. by rewrite !app_nil_r.
  - intros p Hp. apply Hnx. intros ->. apply NoDup_cons in Hnd' as [Hqn _]. apply Hqn.
    unfold leaf_ids in Hp. cbn [leaves mbind list_bind snd] in Hp. rewrite app_nil_r, fmap_app, elem_of_app in Hp.
    apply elem_of_app. destruct Hp as [Hp|Hp]; [left|right]; by apply leaf_ids_sub.
Qed.

(** The pages after the entry is in the parent: those of its node and those above. *)
Record placed (a a2 : alloc_state) (h : nat) (f : frame) (C : list frame) (pp : page_id_t)
    (t1 : tree) (key : Z) (t2 : tree) : Prop := {
  pl_ok : alloc_ok a2;
  pl_num : al_num a2 = al_num a;
  pl_repr : repr (al_live a2) (S h) pp (TNode (fr_id f) (both f t1 key t2));
  pl_ctx : repr_ctx (al_live a2) (S h) C pp (fr_id f);
  pl_sized : Forall (λ e, sized false h e.2) (both f t1 key t2);
  pl_sized_ctx : sized_ctx (S h) C;
  pl_nodup : NoDup (ids (TNode (fr_id f) (both f t1 key t2)) ++ ctx_ids C);
  pl_frame p : p ∉ ids (TNode (fr_id f) (both f t1 key t2)) → al_live a2 !! p = al_live a !! p;
  pl_next p : p ≠ fr_id f → next_at (al_live a2) p = next_at (al_live a) p;
}.

Lemma placed_mono a a2 h f C pp t1 key t2 p : placed a a2 h f C pp t1 key t2 →
  is_Some (al_live a !! p) → is_Some (al_live a2 !! p).
Proof.
  intros Hpl Hp. destruct (decide (p ∈ ids (TNode (fr_id f) (both f t1 key t2)))) as [Hin|Hout].
  - eapply repr_live; [apply Hpl|exact Hin].
  - by rewrite (pl_frame _ _ _ _ _ _ _ _ _ Hpl).
Qed.
Lemma frame_leaf f C t1 key t2 x : NoDup (ids (TNode (fr_id f) (both f t1 key t2)) ++ ctx_ids C) →
  x ∈ (spread C (leaves_of (both f t1 key t2))).*1 →
  x ≠ fr_id f ∧ x ∈ ids (TNode (fr_id f) (both f t1 key t2)) ++ ctx_ids C.
Proof.
  cbn [ids]. change (?l ≫= _) with (ids_of l). rewrite <- app_comm_cons, NoDup_cons, elem_of_app.
  intros [Hn _] Hx. assert (Hin : x ∈ ids_of (both f t1 key t2) ∨ x ∈ ctx_ids C).
  { apply spread_ids in Hx as [Hx%leaf_ids_of|Hx]; tauto. }
  split; [by intros ->|]. right. by apply elem_of_app.
Qed.
Lemma placed_leaf a a2 h f C pp t1 key t2 x : placed a a2 h f C pp t1 key t2 →
  x ∈ (spread C (leaves_of (both f t1 key t2))).*1 → x ≠ fr_id f ∧ is_Some (al_live a2 !! x).
Proof.
  intros Hpl Hx. destruct (frame_leaf _ _ _ _ _ _ (pl_nodup _ _ _ _ _ _ _ _ _ Hpl) Hx) as [Hne Hin].
  split; [done|]. apply elem_of_app in Hin as [Hin|Hin].
  - eapply repr_live; [apply Hpl|exact Hin].
  - eapply repr_ctx_live; [apply Hpl|exact Hin].
Qed.

(** No split: the tree is whole again. *)
Lemma join_fit a a2 W W2 h f C parent pp t1 key t2 : placed a a2 h f C pp t1 key t2 →
  sized_ctx h (f :: C) → zlen (both f t1 key t2) ≤ Internal.default_max_size →
  repr_ctx (al_live a) h (f :: C) parent (tid t1) →
  W2 ⊆ W ∪ {[tid t1; tid t2]} →
  joined a a2 W W2 h (f :: C) t1 key t2 (length C + S h) (plug C (TNode (fr_id f) (both f t1 key t2))).
Proof.
  intros Hpl (Hfs & _ & _ & _) Hle Hctx HW. pose proof (ids_frame f C t1 key t2) as Hids.
  pose proof (ids_plug C (TNode (fr_id f) (both f t1 key t2))) as Hperm.
  split; [split| |..|done|].
  - apply Hpl.
  - rewrite (pl_num _ _ _ _ _ _ _ _ _ Hpl). lia.
  - eapply repr_plug; apply Hpl.
  - apply sized_plug; [|apply Hpl]. cbn [sized]. split; [|apply Hpl].
    unfold node_sized in *. pose proof (both_length f t1 key t2 (TLeaf 0 [])). lia.
  - rewrite Hperm. apply Hpl.
  - exists []. split; [by rewrite Hids|]. by intros p ?%not_elem_of_nil.
  - intros p Hp. apply Hpl. intros Hin. apply Hp. rewrite Hperm. apply elem_of_app. by left.
  - cbn [length]. lia.
  - rewrite skel_plug. symmetry. apply skel_frame.
  - rewrite leaves_plug. symmetry. apply spread_frame.
  - intros p Hp. apply Hpl. unfold leaf_ids in Hp. rewrite leaves_plug in Hp.
    by destruct (placed_leaf _ _ _ _ _ _ _ _ _ p Hpl Hp).
Qed.

(** The parent was split, and its halves were joined further up. *)
Record halved (a2 a4 : alloc_state) (es : list (Z * tree)) (p q : page_id_t) (es1 : list (Z * tree))
    (k : Z) (c : tree) (es2 : list (Z * tree)) : Prop := {
  hv_split : es = es1 ++ (k, c) :: es2;
  hv_left : es1 ≠ [];
  hv_new : al_live a2 !! q = None;
  hv_num : al_num a4 ≤ al_num a2 + 1;
  hv_live x : is_Some (al_live a2 !! x) → is_Some (al_live a4 !! x);
  hv_frame x : x ≠ q → x ∉ p :: ids_of es → al_live a4 !! x = al_live a2 !! x;
  hv_next x : x ≠ p → x ≠ q → next_at (al_live a4) x = next_at (al_live a2) x;
}.

Lemma halved_leaves f C t1 key t2 es1 k c es2 p q : both f t1 key t2 = es1 ++ (k, c) :: es2 →
  spread C (leaves (TNode p es1) ++ leaves (TNode q ((k, c) :: es2))) = spread (f :: C) (leaves t1 ++ leaves t2).
Proof. intros Hsp. rewrite (spread_frame f C t1 key t2), Hsp. unfold leaves_of. by rewrite bind_app. Qed.

Lemma join_split a a2 a4 a' W W' h f C pp t1 key t2 q es1 k c es2 W4 h' t' :
  placed a a2 h f C pp t1 key t2 → halved a2 a4 (both f t1 key t2) (fr_id f) q es1 k c es2 →
  joined a4 a' W4 W' (S h) C (TNode (fr_id f) es1) k (TNode q ((k, c) :: es2)) h' t' →
  W4 ⊆ W ∪ {[fr_id f; tid t2; q]} →
  joined a a' W (W' ∖ {[fr_id f; q]}) h (f :: C) t1 key t2 h' t'.
Proof.
  intros Hpl [Hsp Hne Hq Hnum Hlive Hfr Hnx] [[Ha' Hnum' Hr Hs Hnd (new & Hids & Hnew) Hfr'] Hh Hsk Hlv HW' Hnx'] HW.
  assert (Hdead : ∀ p, al_live a4 !! p = None → al_live a !! p = None).
  { intros p Hp. apply eq_None_not_Some. intros Hin%(placed_mono _ _ _ _ _ _ _ _ _ _ Hpl)%Hlive.
    destruct Hin; congruence. }
  assert (Hqa : al_live a !! q = None).
  { apply eq_None_not_Some. intros [? Hin]%(placed_mono _ _ _ _ _ _ _ _ _ _ Hpl). congruence. }
  assert (Hids' : ids t' ≡ₚ (new ++ [q]) ++ ids t1 ++ ids t2 ++ ctx_ids (f :: C)).
  { rewrite Hids, (app_assoc (ids (TNode _ _))), ids_split, (ids_frame f C t1 key t2), Hsp. solve_Permutation. }
  assert (Hin : ∀ p, p ∈ ids t' ↔ p ∈ new ∨ p = q ∨ p ∈ ids (TNode (fr_id f) (both f t1 key t2)) ++ ctx_ids C).
  { intros p. rewrite Hids', (ids_frame f C t1 key t2), !elem_of_app, list_elem_of_singleton. tauto. }
  split; [split; try done| |..].
  - rewrite (pl_num _ _ _ _ _ _ _ _ _ Hpl) in Hnum. cbn [length]. lia.
  - exists (new ++ [q]). split; [done|]. intros p [Hp| ->%list_elem_of_singleton]%elem_of_app; [by apply Hdead, Hnew|done].
  - intros p Hp. rewrite Hfr' by done. rewrite Hin, elem_of_app in Hp.
    rewrite Hfr; [apply Hpl; tauto|intros ->; tauto|]. intros Hx. apply Hp. right. right. left. exact Hx.
  - cbn [length]. lia.
  - rewrite Hsk, (skel_frame f C t1 key t2 (fr_id f)), Hsp. destruct es1 as [|e es1]; [done|].
    by rewrite (skel_split _ q).
  - rewrite Hlv. exact (halved_leaves f C t1 key t2 _ _ _ _ _ _ Hsp).
  - clear -HW HW'. cbn [tid] in HW'. set_solver.
  - intros p Hp. rewrite Hnx' by done. unfold leaf_ids in Hp.
    rewrite Hlv, (halved_leaves f C t1 key t2 _ _ _ _ _ _ Hsp), (spread_frame f C t1 key t2) in Hp.
    destruct (placed_leaf _ _ _ _ _ _ _ _ _ p Hpl Hp) as [HpP [d Hd]].
    rewrite Hnx; [apply Hpl; done|done|congruence].
Qed.

Lemma insert_child_placed a W m h f C parent t1 t2 key :
  alloc_ok a → is_Some (m !! fr_id f) → is_Some (m !! tid t2) → i64_ok key →
  pending (al_live a) h (f :: C) parent t1 t2 →
  ∃ n1 a2 W2 pp,
    run_store (insert_child (fr_id f) (tid t1) key (tid t2) (tid t2)) (mkStore a W m n) =
      Some (Ret n1, mkStore a2 W2 m n) ∧
    size_ (Internal.hdr n1) = zlen (both f t1 key t2) ∧
    max_size_ (Internal.hdr n1) = Internal.default_max_size ∧
    placed a a2 h f C pp t1 key t2 ∧ W2 ⊆ W ∪ {[fr_id f; tid t2]}.
Proof.
  intros Ha HmP Hm2 Hk Hpd.
  destruct (insert_child_run a W m h f C parent t1 t2 key Ha HmP Hm2 Hk Hpd) as
    (n1 & a2 & W2 & pp & Hrun & Hsz & Hmax & Hr2 & HC2 & Ha2 & Hnum2 & HW2 & Hfr2 & Hnx2).
  exists n1, a2, W2, pp. destruct Hpd as [_ _ _ Hs1 Hs2 (_ & Hsl & Hsr & HsC) Hnd].
  pose proof (ids_frame f C t1 key t2) as Hids.
  split_and!; try done. split; try done.
  - unfold both. rewrite Forall_app, !Forall_cons. done.
  - by rewrite <- Hids.
  - intros p Hp. apply Hfr2; intros ->; apply Hp; [apply (tid_ids (TNode _ _))|].
    cbn [ids]. change (?l ≫= _) with (ids_of l). rewrite ids_both, !elem_of_app. right. left. apply tid_ids.
Qed.

Lemma split_node_halved a a2 W m h f C pp t1 key t2 : placed a a2 h f C pp t1 key t2 →
  sized_ctx h (f :: C) → Internal.default_max_size < zlen (both f t1 key t2) →
  pins_ok m a2 → al_num a2 < INVALID_PAGE_ID → Z.of_nat (size m) + 1 < n → is_Some (m !! fr_id f) →
  ∃ q es1 k c es2 a4 W4,
    run_store (split_node (fr_id f)) (mkStore a2 W m n) = Some (Ret (Some (q, k)), mkStore a4 W4 (pin q m) n) ∧
    halved a2 a4 (both f t1 key t2) (fr_id f) q es1 k c es2 ∧
    pending (al_live a4) (S h) C pp (TNode (fr_id f) es1) (TNode q ((k, c) :: es2)) ∧
    alloc_ok a4 ∧ pins_ok (pin q m) a4 ∧ i64_ok k ∧ W4 ⊆ W ∪ {[fr_id f; q]}.
Proof.
  intros Hpl (Hfs & _) Hgt Hm Hroom Hn Hmp.
  assert (Hlen : zlen (both f t1 key t2) = 339).
  { pose proof (both_length f t1 key t2 (TLeaf 0 [])). destruct Hfs as [_ Hfs].
    unfold Internal.default_max_size in *. lia. }
  destruct (split_node_run a2 W m h C pp (fr_id f) (both f t1 key t2) (pl_ok _ _ _ _ _ _ _ _ _ Hpl) Hm Hroom Hn Hmp)
    as (q & es1 & k & c & es2 & a4 & W4 & Hsp & Hne & Hrun & Hpd & Hq & Ha4 & Hnum & Hm4 & Hk & HW & Hfr & Hlv & Hnx);
    [apply Hpl..|done| |apply Hpl|]; [apply Hpl|].
  by exists q, es1, k, c, es2, a4, W4.
Qed.

Lemma grown_mono a a' old k h t p : grown a a' old k h t → is_Some (al_live a !! p) → is_Some (al_live a' !! p).
Proof.
  intros Hg Hp. destruct (decide (p ∈ ids t)) as [Hin|Hout].
  - eapply repr_live; [apply Hg|exact Hin].
  - by rewrite (gr_frame _ _ _ _ _ _ Hg).
Qed.
Lemma joined_pins a2 a4 a' W W' es p es1 k c es2 h C h' t' pp m q : halved a2 a4 es p q es1 k c es2 →
  pending (al_live a4) (S h) C pp (TNode p es1) (TNode q ((k, c) :: es2)) →
  joined a4 a' W W' (S h) C (TNode p es1) k (TNode q ((k, c) :: es2)) h' t' →
  pins_ok m a2 → pins_ok m a' ∧ pins_ok (pin q m) a'.
Proof.
  intros Hhv [_ [p2 H2] _ _ _ _ _] [Hg _ _ _ _ _] Hm.
  assert (Hm' : pins_ok m a').
  { eapply pins_ok_mono; [exact Hm|]. intros x Hx. by eapply grown_mono, (hv_live _ _ _ _ _ _ _ _ _ Hhv). }
  split; [done|]. apply pins_ok_pin; [done|]. eapply grown_mono; [exact Hg|].
  eapply repr_live; [exact H2|apply (tid_ids (TNode _ _))].
Qed.

Lemma insert_parent_run C : ∀ h a W m parent t1 t2 key fuel,
  alloc_ok a → pins_ok m a → al_num a + Z.of_nat (length C) < INVALID_PAGE_ID →
  Z.of_nat (size m) + 2 * Z.of_nat (length C) < n →
  is_Some (m !! tid t1) → is_Some (m !! tid t2) → i64_ok key →
  pending (al_live a) h C parent t1 t2 → (length C < fuel)%nat →
  ∃ a' W' h' t',
    run_store (InsertIntoParent fuel (tid t1) key (tid t2) (tid (plug C t1))) (mkStore a W m n) =
      Some (Ret (tid t'), mkStore a' W' m n) ∧ joined a a' W W' h C t1 key t2 h' t'.
Proof.
  induction C as [|f C IH]; intros h a W m parent t1 t2 key [|fuel] Ha Hm Hroom Hn Hm1 Hm2 Hk Hpd Hfuel;
    try (cbn in Hfuel; lia); pose proof Hpd as [H1 [p2 H2] Hctx Hs1 Hs2 HsC Hnd];
    destruct (repr_hdr _ _ _ _ H1) as (d1 & Hd1 & Hid1 & Hpar1);
    destruct (repr_hdr _ _ _ _ H2) as (d2 & Hd2 & Hid2 & _); cbn [length] in *; cbn [InsertIntoParent];
    (run_step (apply step_read; [exact Hm1|exact Hd1])); (run_step (apply step_read; [exact Hm2|exact Hd2]));
    unfold IsRootPage; rewrite Hpar1, Hid1, Hid2.
  - cbn [repr_ctx] in Hctx. subst parent. rewrite Z.eqb_refl.
    cbn [ctx_ids mbind list_bind] in Hnd. rewrite app_nil_r in Hnd. by eapply join_root.
  - pose proof Hctx as [-> _].
    assert (HlP : is_Some (al_live a !! fr_id f)).
    { eapply repr_ctx_live; [exact Hctx|]. cbn [ctx_ids mbind list_bind frame_ids]. by left. }
    destruct (alloc_ok_id _ _ Ha HlP) as [HPne _].
    rewrite (proj2 (Z.eqb_neq _ _) HPne). run_step (apply step_pin; [exact Ha|exact HlP|lia]).
    destruct (insert_child_placed a W (pin (fr_id f) m) h f C (fr_id f) t1 t2 key Ha (pin_self _ _)
      (pin_keep _ _ _ Hm2) Hk Hpd) as (n1 & a2 & W2 & pp & Hrun & Hsz & Hmax & Hpl & HW2).
    rewrite run_store_bind, Hrun. cbn iota beta. rewrite Hsz, Hmax.
    pose proof (pl_num _ _ _ _ _ _ _ _ _ Hpl) as Hnum2. pose proof (size_pin (fr_id f) m) as Hsz2.
    assert (Hm2' : pins_ok m a2) by (eapply pins_ok_mono; [exact Hm|]; intros p; by eapply placed_mono).
    destruct (decide _) as [Hle|Hgt].
    + run_step (apply step_drop; [exact Hm2'|by left]). 
      eexists a2, _, _, (plug C (TNode (fr_id f) (both f t1 key t2))). split; [by rewrite (tid_plug C _ (fill t1 f))|].
      apply (join_fit a a2 W _ h f C (fr_id f) pp); try done. clear -HW2. cbn. set_solver.
    + destruct (split_node_halved a a2 W2 (pin (fr_id f) m) h f C pp t1 key t2 Hpl HsC) as
        (q & es1 & k & c & es2 & a4 & W4 & Hrun2 & Hhv & Hpd4 & Ha4 & Hm4 & Hk4 & HW4);
        [lia|apply pins_ok_pin; [done|by eapply placed_mono]|lia|lia|apply pin_self|].
      rewrite run_store_bind, Hrun2. cbn iota beta.
      pose proof (hv_num _ _ _ _ _ _ _ _ _ Hhv) as Hnum4. pose proof (size_pin q (pin (fr_id f) m)) as Hsz4.
      destruct (IH (S h) a4 W4 (pin q (pin (fr_id f) m)) pp (TNode (fr_id f) es1) (TNode q ((k, c) :: es2)) k fuel)
        as (a' & W' & h' & t' & Hrun3 & Hj);
        [done|done|lia|lia|apply pin_keep, pin_self|apply pin_self|done|done|lia|].
      cbn [tid] in Hrun3. change (tid (plug (f :: C) t1)) with (tid (plug C (fill t1 f))).
      rewrite (tid_plug C (fill t1 f) (TNode (fr_id f) es1) eq_refl), run_store_bind, Hrun3, pin_comm. cbn iota beta.
      destruct (joined_pins _ _ _ _ _ _ _ _ _ _ _ _ _ _ _ _ m q Hhv Hpd4 Hj Hm2') as [Hm' Hmq'].
      run_step (apply step_drop; [exact Hmq'|by left]). run_step (apply step_drop; [exact Hm'|by left]).
      eexists a', _, h', t'. split; [reflexivity|].
      replace (unpin_W _ _ _) with (W' ∖ {[fr_id f; q]}) by (cbn; clear; set_solver).
      eapply join_split; try done. clear -HW2 HW4. cbn. set_solver.
Qed.
End insert_parent.
