(* ===== verification/BPlusTreeMerge.v ===== *)
(** What redistributing and merging neighbouring nodes makes of their pages and of
    the subtree of the parent: the same entries under rearranged children. *)
From Stdlib Require Import ZArith Lia.
From Stdlib Require Strings.Byte.
From stdpp Require Import base list gmap sorting.
From S2P Require Import Prelude Types DiskManager Replacer BufferPool PageStore BPlusTreePage BPlusTreeLayout BPlusTree BPlusTreeRep BPlusTreeLookup BPlusTreeSplit BPlusTreeInsert.
Open Scope Z_scope.

(** ** The structs of two neighbours *)
Definition leaf_saved (l : Leaf.BPlusTreeLeafPage) (d : list byte) : Prop :=
  decode_leaf (encode_leaf l d) = l ∧ zlen (encode_leaf l d) = PAGE_SIZE.
Definition node_saved (n : Internal.BPlusTreeInternalPage) (d : list byte) : Prop :=
  decode_internal (encode_internal n d) = n ∧ zlen (encode_internal n d) = PAGE_SIZE.

(** A struct with other entries, in its page. *)
Lemma leaf_kept d parent p ps l : zlen d = PAGE_SIZE → leaf_is (decode_leaf d) parent p ps →
  LeafFacts.wf l → Leaf.hdr l = set_size (size_ (Leaf.hdr l)) (Leaf.hdr (decode_leaf d)) →
  u32_ok (Leaf.next_page_id_ l) → within i64_ok rid_ok (Leaf.arrays l) →
  leaf_is l parent p (LeafFacts.pairs l) ∧ leaf_saved l d.
Proof.
  intros Hlen [Hh _] Hwf Hl Hn Hw. destruct (leaf_page_ok d Hlen) as (_ & _ & _ & Hpp & Hp).
  change (decode_hdr d) with (Leaf.hdr (decode_leaf d)) in Hpp, Hp. rewrite Hh in Hpp, Hp. cbn in Hpp, Hp.
  pose proof (LeafFacts.zlen_pairs l Hwf) as Hz. pose proof (LeafFacts.lw_size _ Hwf).
  assert (Hi : leaf_is l parent p (LeafFacts.pairs l)) by (split; [|done]; by rewrite Hl, Hh, Hz).
  split; [done|]. apply (leaf_stored l parent p _ d Hlen Hi (LeafFacts.lw_cells _ Hwf) Hw); [done..|lia].
Qed.
Lemma node_kept d parent p es n : zlen d = PAGE_SIZE → node_is (decode_internal d) parent p es →
  cells (Internal.arrays n) Internal.capacity → 0 ≤ size_ (Internal.hdr n) ≤ Internal.capacity →
  InternalFacts.same_id (decode_internal d) n → within i64_ok u32_ok (Internal.arrays n) →
  node_is n parent p (InternalFacts.ents n) ∧ node_saved n d.
Proof.
  intros Hlen [Hh _] Hc Hs Hl Hw. destruct (internal_page_ok d Hlen) as (_ & _ & Hpp & Hp).
  change (decode_hdr d) with (Internal.hdr (decode_internal d)) in Hpp, Hp. rewrite Hh in Hpp, Hp. cbn in Hpp, Hp.
  pose proof (InternalFacts.zlen_ents n Hc Hs) as Hz.
  assert (Hi : node_is n parent p (InternalFacts.ents n)) by (split; [|done]; by rewrite Hl, Hh, Hz).
  split; [done|]. apply (internal_stored n parent p _ d Hlen Hi Hc Hw); [done..|lia].
Qed.

Lemma below_inc ps qs : inc (ps ++ qs).*1 → inc ps.*1 ∧ inc qs.*1 ∧ LeafFacts.below ps qs.
Proof. rewrite fmap_app. intros (H1 & H2 & H)%inc_app_inv. split_and!; [done..|]. intros x y. apply H. Qed.
Lemma leaf_first_i64 l d parent p k v ps : leaf_is l parent p ((k, v) :: ps) → LeafFacts.wf l → leaf_saved l d →
  Leaf.KeyAt l 0 = Some k ∧ i64_ok k.
Proof.
  intros Hl Hwf [Hd Hlen]. pose proof (leaf_first_key _ _ _ _ _ _ Hl Hwf) as Hk. split; [done|].
  rewrite <- Hd in Hk. destruct (leaf_page_ok _ Hlen) as (_ & [Hw _] & _). exact (zget_Forall _ _ _ _ Hk Hw).
Qed.

Section leaf_pages.
Context (sd od : list byte) (parent p q : page_id_t) (ps qs : list (Z * RID)).
Context (Hsd : zlen sd = PAGE_SIZE) (Hod : zlen od = PAGE_SIZE).

(** The last entry of the left leaf [p] goes to the front of the right leaf [q]. *)
Lemma leaf_last_page k v : leaf_is (decode_leaf sd) parent p (ps ++ [(k, v)]) →
  leaf_is (decode_leaf od) parent q qs → zlen (ps ++ [(k, v)]) ≤ Leaf.capacity → zlen qs < Leaf.capacity →
  inc ((ps ++ [(k, v)]) ++ qs).*1 →
  ∃ s o, Leaf.MoveLastToFrontOf (decode_leaf sd) (decode_leaf od) = Some (s, o) ∧
    leaf_is s parent p ps ∧ leaf_is o parent q ((k, v) :: qs) ∧
    Leaf.next_page_id_ s = Leaf.next_page_id_ (decode_leaf sd) ∧
    Leaf.next_page_id_ o = Leaf.next_page_id_ (decode_leaf od) ∧
    leaf_saved s sd ∧ leaf_saved o od ∧ Leaf.KeyAt o 0 = Some k ∧ i64_ok k.
Proof.
  intros Hs Ho Hzs Hzo (H1 & H2 & Hb)%below_inc.
  pose proof (leaf_wf sd parent p _ Hsd Hs Hzs H1) as Hws. pose proof (leaf_wf od parent q _ Hod Ho ltac:(lia) H2) as Hwo.
  pose proof Hs as [Hhs Hps]. pose proof Ho as [Hho Hpo]. rewrite <- Hps, <- Hpo in Hb.
  destruct (LeafFacts.leaf_move_last_spec _ _ Hws Hwo) as (s & o & e & Hex & Hws' & Hwo' & [Hls Hns] & [Hlo Hno] & He & He');
    [rewrite Hhs; cbn; rewrite length_app; cbn; lia|rewrite Hho; cbn; lia|done|].
  rewrite Hps in He. apply app_inj_tail in He as [He <-]. rewrite Hpo in He'.
  destruct (leaf_page_ok sd Hsd) as (_ & Hiw & Hnx & _). destruct (leaf_page_ok od Hod) as (_ & Hiwo & Hnxo & _).
  destruct (leaf_last_within _ _ _ _ Hiw Hiwo Hex) as [Hw1 Hw2].
  destruct (leaf_kept sd parent p _ s Hsd Hs Hws' Hls ltac:(by rewrite Hns) Hw1) as [Hi1 Hsv1].
  destruct (leaf_kept od parent q _ o Hod Ho Hwo' Hlo ltac:(by rewrite Hno) Hw2) as [Hi2 Hsv2].
  rewrite <- He in Hi1. rewrite He' in Hi2. exists s, o.
  destruct (leaf_first_i64 o od parent q k v qs Hi2 Hwo' Hsv2). by split_and!.
Qed.

(** The first entry of the right leaf [q] goes to the end of the left leaf [p]. *)
Lemma leaf_first_page k v k2 v2 : leaf_is (decode_leaf sd) parent q ((k, v) :: (k2, v2) :: qs) →
  leaf_is (decode_leaf od) parent p ps → zlen ((k, v) :: (k2, v2) :: qs) ≤ Leaf.capacity → zlen ps < Leaf.capacity →
  inc (ps ++ (k, v) :: (k2, v2) :: qs).*1 →
  ∃ s o, Leaf.MoveFirstToEndOf (decode_leaf sd) (decode_leaf od) = Some (s, o) ∧
    leaf_is s parent q ((k2, v2) :: qs) ∧ leaf_is o parent p (ps ++ [(k, v)]) ∧
    Leaf.next_page_id_ s = Leaf.next_page_id_ (decode_leaf sd) ∧
    Leaf.next_page_id_ o = Leaf.next_page_id_ (decode_leaf od) ∧
    leaf_saved s sd ∧ leaf_saved o od ∧ Leaf.KeyAt s 0 = Some k2 ∧ i64_ok k2.
Proof.
  intros Hs Ho Hzs Hzo (H1 & H2 & Hb)%below_inc.
  pose proof (leaf_wf sd parent q _ Hsd Hs Hzs H2) as Hws. pose proof (leaf_wf od parent p _ Hod Ho ltac:(lia) H1) as Hwo.
  pose proof Hs as [Hhs Hps]. pose proof Ho as [Hho Hpo]. rewrite <- Hps, <- Hpo in Hb.
  destruct (LeafFacts.leaf_move_first_spec _ _ Hws Hwo) as (s & o & e & Hex & Hws' & Hwo' & [Hls Hns] & [Hlo Hno] & He & He');
    [rewrite Hhs; cbn; lia|rewrite Hho; cbn; lia|done|].
  rewrite Hps in He. injection He as <- He. rewrite Hpo in He'.
  destruct (leaf_page_ok sd Hsd) as (_ & Hiw & Hnx & _). destruct (leaf_page_ok od Hod) as (_ & Hiwo & Hnxo & _).
  destruct (leaf_first_within _ _ _ _ Hiw Hiwo Hex) as [Hw1 Hw2].
  destruct (leaf_kept sd parent q _ s Hsd Hs Hws' Hls ltac:(by rewrite Hns) Hw1) as [Hi1 Hsv1].
  destruct (leaf_kept od parent p _ o Hod Ho Hwo' Hlo ltac:(by rewrite Hno) Hw2) as [Hi2 Hsv2].
  rewrite <- He in Hi1. rewrite He' in Hi2. exists s, o.
  destruct (leaf_first_i64 s sd parent q k2 v2 qs Hi1 Hws' Hsv1). by split_and!.
Qed.

(** All entries of the right leaf [q] go to the left leaf [p]. *)
Lemma leaf_all_page : leaf_is (decode_leaf sd) parent q qs → leaf_is (decode_leaf od) parent p ps →
  zlen ps + zlen qs ≤ Leaf.capacity → inc (ps ++ qs).*1 →
  ∃ s o, Leaf.MoveAllTo (decode_leaf sd) (decode_leaf od) = Some (s, o) ∧
    leaf_is o parent p (ps ++ qs) ∧ Leaf.next_page_id_ o = Leaf.next_page_id_ (decode_leaf sd) ∧
    leaf_saved s sd ∧ leaf_saved o od.
Proof.
  intros Hs Ho Hz (H1 & H2 & Hb)%below_inc.
  pose proof (leaf_wf sd parent q _ Hsd Hs ltac:(lia) H2) as Hws. pose proof (leaf_wf od parent p _ Hod Ho ltac:(lia) H1) as Hwo.
  pose proof Hs as [Hhs Hps]. pose proof Ho as [Hho Hpo]. rewrite <- Hps, <- Hpo in Hb.
  destruct (LeafFacts.leaf_move_all_spec _ _ Hws Hwo) as (s & o & Hex & Hwo' & Hlo & Hno & _ & He & He');
    [rewrite Hhs, Hho; cbn; lia|done|]. rewrite Hps, Hpo in He.
  destruct (leaf_page_ok sd Hsd) as (Hcs & Hiw & Hnx & _). destruct (leaf_page_ok od Hod) as (_ & Hiwo & Hnxo & _).
  destruct (leaf_all_within _ _ _ _ Hiw Hiwo Hex) as [Hw1 Hw2].
  assert (Heq : s = Leaf.set_hdr (set_size 0 (Leaf.hdr (decode_leaf sd))) (decode_leaf sd)).
  { unfold Leaf.MoveAllTo in Hex. destruct (copy_range _ _ _ _ _); [|done]. cbn in Hex. by injection Hex. }
  assert (Hws' : LeafFacts.wf s).
  { split; [by rewrite Heq|rewrite Heq; cbn; unfold Leaf.capacity; lia|rewrite He'; by intros [|i] j x y]. }
  destruct (leaf_kept sd parent q _ s Hsd Hs Hws' ltac:(by rewrite Heq) ltac:(by rewrite Heq) Hw1) as [_ Hsv1].
  destruct (leaf_kept od parent p _ o Hod Ho Hwo' Hlo ltac:(by rewrite Hno) Hw2) as [Hi2 Hsv2].
  rewrite He in Hi2. exists s, o. by split_and!.
Qed.
End leaf_pages.

(** *** Internal pages *)
Lemma node_sz n parent p es : node_is n parent p es → size_ (Internal.hdr n) = zlen es.
Proof. by intros [-> _]. Qed.
(** An entry in the middle. *)
Lemma node_entry n parent p es1 k c es2 : node_is n parent p (es1 ++ (k, c) :: es2) →
  cells (Internal.arrays n) Internal.capacity → zlen (es1 ++ (k, c) :: es2) ≤ Internal.capacity →
  Internal.KeyAt n (zlen es1) = Some k ∧ Internal.ValueAt n (zlen es1) = Some c.
Proof.
  intros Hn Hc Hz. pose proof (node_sz _ _ _ _ Hn) as Hs.
  destruct (InternalFacts.ents_get n Hc ltac:(lia) (zlen es1)) as (k' & c' & He & Hk & Hv).
  { rewrite Hs, length_app. cbn. lia. }
  destruct Hn as [_ Hn]. rewrite Hn, Nat2Z.id, list_lookup_middle in He by done. by injection He as -> ->.
Qed.

Section node_pages.
Context (sd od : list byte) (parent p q : page_id_t) (es1 es2 : list (Z * page_id_t)) (pk : Z).
Context (Hsd : zlen sd = PAGE_SIZE) (Hod : zlen od = PAGE_SIZE) (Hpk : i64_ok pk).

(** The last child of the left node [p] goes to the front of the right node [q]. *)
Lemma node_last_page kc c k0 c0 : node_is (decode_internal sd) parent p (es1 ++ [(kc, c)]) →
  node_is (decode_internal od) parent q ((k0, c0) :: es2) →
  zlen (es1 ++ [(kc, c)]) ≤ Internal.capacity → zlen ((k0, c0) :: es2) < Internal.capacity →
  ∃ s o, Internal.MoveLastToFrontOf pk (decode_internal sd) (decode_internal od) = Some (s, o) ∧
    node_is s parent p es1 ∧ node_is o parent q ((k0, c) :: (pk, c0) :: es2) ∧
    node_saved s sd ∧ node_saved o od ∧
    Internal.KeyAt (decode_internal sd) (zlen es1) = Some kc ∧ i64_ok kc ∧ Internal.ValueAt o 0 = Some c.
Proof.
  intros Hs Ho Hzs Hzo. pose proof (node_sz _ _ _ _ Hs) as Hss. pose proof (node_sz _ _ _ _ Ho) as Hso.
  destruct (internal_page_ok sd Hsd) as (Hc & Hw & _). destruct (internal_page_ok od Hod) as (Hco & Hwo & _).
  destruct (node_entry _ _ _ _ _ _ [] Hs Hc Hzs) as [Hk _]. rewrite length_app in Hss, Hzs. cbn [length] in *.
  destruct (InternalFacts.internal_move_last_spec _ _ pk Hc ltac:(lia) Hco ltac:(lia)) as
    (s & o & k' & c' & k0' & c0' & Hex & Hc1 & Hc2 & Hi1 & Hi2 & Hs1 & Hs2 & He & Ht & He').
  pose proof Hs as [_ Hes]. rewrite Hes in He. apply app_inj_tail in He as [He [= -> ->]].
  pose proof Ho as [_ Heo]. rewrite Heo in Ht, He'. cbn [tail] in Ht, He'. injection Ht as <- <-.
  destruct (internal_last_within _ _ _ _ _ Hw Hwo Hpk Hex) as [Hw1 Hw2].
  destruct (node_kept sd parent p _ s Hsd Hs Hc1 ltac:(lia) Hi1 Hw1) as [Hn1 Hsv1].
  destruct (node_kept od parent q _ o Hod Ho Hc2 ltac:(lia) Hi2 Hw2) as [Hn2 Hsv2].
  rewrite <- He in Hn1. rewrite He' in Hn2. exists s, o. split_and!; try done.
  - destruct Hw as [Hw _]. exact (zget_Forall _ _ _ _ Hk Hw).
  - destruct (node_entry _ _ _ [] _ _ _ Hn2 Hc2) as [_ Hv]; [cbn in *; lia|done].
Qed.

(** The first child of the right node [q] goes to the end of the left node [p]. *)
Lemma node_first_page k0 c k1 c1 : node_is (decode_internal sd) parent q ((k0, c) :: (k1, c1) :: es2) →
  node_is (decode_internal od) parent p es1 →
  zlen ((k0, c) :: (k1, c1) :: es2) ≤ Internal.capacity → zlen es1 < Internal.capacity →
  ∃ s o, Internal.MoveFirstToEndOf pk (decode_internal sd) (decode_internal od) = Some (s, o) ∧
    node_is s parent q ((k1, c1) :: es2) ∧ node_is o parent p (es1 ++ [(pk, c)]) ∧
    node_saved s sd ∧ node_saved o od ∧
    Internal.KeyAt (decode_internal sd) 1 = Some k1 ∧ i64_ok k1 ∧ Internal.ValueAt o (zlen es1) = Some c.
Proof.
  intros Hs Ho Hzs Hzo. pose proof (node_sz _ _ _ _ Hs) as Hss. pose proof (node_sz _ _ _ _ Ho) as Hso.
  destruct (internal_page_ok sd Hsd) as (Hc & Hw & _). destruct (internal_page_ok od Hod) as (Hco & Hwo & _).
  destruct (node_entry _ _ _ [(k0, c)] _ _ _ Hs Hc Hzs) as [Hk _]. cbn [length] in *.
  destruct (InternalFacts.internal_move_first_spec _ _ pk Hc ltac:(lia) Hco ltac:(lia)) as
    (s & o & k' & c' & Hex & Hc1 & Hc2 & Hi1 & Hi2 & Hs1 & Hs2 & He & He').
  pose proof Hs as [_ Hes]. rewrite Hes in He. injection He as <- <- He.
  pose proof Ho as [_ Heo]. rewrite Heo in He'.
  destruct (internal_first_within _ _ _ _ _ Hw Hwo Hpk Hex) as [Hw1 Hw2].
  destruct (node_kept sd parent q _ s Hsd Hs Hc1 ltac:(lia) Hi1 Hw1) as [Hn1 Hsv1].
  destruct (node_kept od parent p _ o Hod Ho Hc2 ltac:(lia) Hi2 Hw2) as [Hn2 Hsv2].
  rewrite <- He in Hn1. rewrite He' in Hn2. exists s, o. split_and!; try done.
  - destruct Hw as [Hw _]. exact (zget_Forall _ _ _ _ Hk Hw).
  - destruct (node_entry _ _ _ es1 _ _ [] Hn2 Hc2) as [_ Hv]; [rewrite length_app; cbn; lia|done].
Qed.

(** All children of the right node [q] go to the left node [p]. *)
Lemma node_all_page k0 c0 : node_is (decode_internal sd) parent q ((k0, c0) :: es2) →
  node_is (decode_internal od) parent p es1 → zlen es1 + zlen ((k0, c0) :: es2) ≤ Internal.capacity →
  ∃ s o, Internal.MoveAllTo pk (decode_internal sd) (decode_internal od) = Some (s, o) ∧
    node_is o parent p (es1 ++ (pk, c0) :: es2) ∧ node_saved s sd ∧ node_saved o od ∧
    child_ids o = Some (es1 ++ (pk, c0) :: es2).*2.
Proof.
  intros Hs Ho Hz. pose proof (node_sz _ _ _ _ Hs) as Hss. pose proof (node_sz _ _ _ _ Ho) as Hso.
  destruct (internal_page_ok sd Hsd) as (Hc & Hw & _). destruct (internal_page_ok od Hod) as (Hco & Hwo & _).
  cbn [length] in *.
  destruct (InternalFacts.internal_move_all_spec _ _ pk Hc ltac:(lia) Hco ltac:(lia) ltac:(lia)) as
    (s & o & k' & c' & Hex & Hc2 & Hi2 & Hs2 & He & He').
  pose proof Hs as [_ Hes]. rewrite Hes in He, He'. cbn [tail] in He, He'. injection He as <- <-.
  pose proof Ho as [_ Heo]. rewrite Heo in He'.
  destruct (internal_all_within _ _ _ _ _ Hw Hwo Hpk Hex) as [Hw1 Hw2].
  assert (Heq : s = Internal.set_hdr (set_size 0 (Internal.hdr (decode_internal sd))) (decode_internal sd)).
  { unfold Internal.MoveAllTo in Hex. destruct (zget _ 0); [|done]. cbn in Hex.
    destruct (set_entry _ _ _ _); [|done]. cbn in Hex. destruct (copy_range _ _ _ _ _); [|done]. cbn in Hex. by injection Hex. }
  destruct (node_kept sd parent q _ s Hsd Hs) as [_ Hsv1]; [by rewrite Heq|rewrite Heq; cbn; unfold Internal.capacity; lia|by rewrite Heq|done|].
  destruct (node_kept od parent p _ o Hod Ho Hc2 ltac:(lia) Hi2 Hw2) as [Hn2 Hsv2]. rewrite He' in Hn2.
  exists s, o. split_and!; try done. apply (child_ids_spec o parent p _ Hn2 Hc2). rewrite length_app. cbn. lia.
Qed.
End node_pages.

(** *** The parent *)
Lemma parent_key_page pd pp p es1 k c es2 key : zlen pd = PAGE_SIZE →
  node_is (decode_internal pd) pp p (es1 ++ (k, c) :: es2) → zlen (es1 ++ (k, c) :: es2) ≤ Internal.capacity →
  i64_ok key →
  ∃ n, Internal.SetKeyAt (zlen es1) key (decode_internal pd) = Some n ∧
    node_is n pp p (es1 ++ (key, c) :: es2) ∧ node_saved n pd.
Proof.
  intros Hlen Hn Hz Hk. pose proof (node_sz _ _ _ _ Hn) as Hs. destruct (internal_page_ok pd Hlen) as (Hc & Hw & _).
  assert (Hc1 : zlen (Internal.keys_ (decode_internal pd)) = Internal.capacity) by apply Hc.
  assert (Hc2 : zlen (Internal.values_ (decode_internal pd)) = Internal.capacity) by apply Hc.
  rewrite length_app in Hz, Hs. cbn [length] in *.
  set (n := Internal.mkInternal (Internal.hdr (decode_internal pd))
    (<[length es1 := key]> (Internal.keys_ (decode_internal pd))) (Internal.values_ (decode_internal pd))).
  assert (Hex : Internal.SetKeyAt (zlen es1) key (decode_internal pd) = Some n).
  { unfold Internal.SetKeyAt, zset. rewrite decide_True by lia. cbn [mbind option_bind]. by rewrite Nat2Z.id. }
  assert (Hcn : cells (Internal.arrays n) Internal.capacity) by (split; [by etrans; [apply (f_equal Z.of_nat), length_insert|]|exact Hc2]).
  destruct (node_kept pd pp p _ n Hlen Hn Hcn ltac:(change (Internal.hdr n) with (Internal.hdr (decode_internal pd)); lia) ltac:(done) (set_key_within _ _ _ _ Hw Hk Hex)) as [Hi Hsv].
  exists n. split; [done|]. split; [|done].
  enough (InternalFacts.ents n = es1 ++ (key, c) :: es2) as <- by done.
  destruct Hn as [_ Hn]. unfold InternalFacts.ents in *. cbn [Internal.hdr Internal.keys_ Internal.values_ n].
  unfold used in *. rewrite take_insert_lt by lia.
  assert (Hv : take (Z.to_nat (size_ (Internal.hdr (decode_internal pd)))) (Internal.values_ (decode_internal pd)) !! length es1 = Some c).
  { pose proof (list_lookup_middle es1 es2 (k, c) _ eq_refl) as Hm. rewrite <- Hn in Hm.
    apply lookup_zip_with_Some in Hm as (x & y & [= <- <-] & _ & Hy). exact Hy. }
  rewrite <- (list_insert_id _ _ _ Hv), <- insert_zip_with, Hn.
  rewrite insert_app_r_alt, Nat.sub_diag by lia. done.
Qed.
Lemma parent_remove_page pd pp p es1 k c es2 : zlen pd = PAGE_SIZE →
  node_is (decode_internal pd) pp p (es1 ++ (k, c) :: es2) → zlen (es1 ++ (k, c) :: es2) ≤ Internal.capacity →
  ∃ n, Internal.Remove (zlen es1) (decode_internal pd) = Some n ∧
    node_is n pp p (es1 ++ es2) ∧ node_saved n pd.
Proof.
  intros Hlen Hn Hz. pose proof (node_sz _ _ _ _ Hn) as Hs. destruct (internal_page_ok pd Hlen) as (Hc & Hw & _).
  rewrite length_app in Hz, Hs. cbn [length] in *.
  destruct (InternalFacts.internal_remove_spec (decode_internal pd) (zlen es1) Hc ltac:(lia) ltac:(lia)) as
    (n & Hex & Hcn & Hid & Hsz & He).
  destruct (node_kept pd pp p _ n Hlen Hn Hcn ltac:(lia) Hid (internal_remove_within _ _ _ Hw Hex)) as [Hi Hsv].
  exists n. split; [done|]. split; [|done]. destruct Hn as [_ Hn].
  rewrite He, Hn, Nat2Z.id, delete_middle in Hi. exact Hi.
Qed.

(** ** What becomes of the children of a node *)

Definition tsize (t : tree) : Z := match t with TLeaf _ ps => zlen ps | TNode _ es => zlen es end.
Definition half (h : nat) : Z := match h with O => 126 | S _ => 169 end.
Definition full (h : nat) : Z := match h with O => Leaf.default_max_size | S _ => Internal.default_max_size end.
Definition kids_sized (h : nat) (t : tree) : Prop :=
  match h, t with
  | O, TLeaf _ _ => True
  | S h, TNode _ es => Forall (λ e, sized false h e.2) es
  | _, _ => False
  end.
Lemma sized_iff h t : sized false h t ↔ kids_sized h t ∧ half h ≤ tsize t ≤ full h.
Proof. destruct h, t; cbn; unfold leaf_sized, node_sized; cbn; tauto. Qed.

(** The children [es] of a node have become [es'], with the same entries in the same
    order; pages that satisfy [K] are still allocated. *)
Record reshaped (a a' : alloc_state) (K : page_id_t → Prop) (h : nat) (pp P : page_id_t)
    (es es' : list (Z * tree)) : Prop := {
  rs_ok : alloc_ok a';
  rs_num : al_num a' = al_num a;
  rs_repr : repr (al_live a') (S h) pp (TNode P es');
  rs_sized : Forall (λ e, sized false h e.2) es';
  rs_flat : flat (TNode P es') = flat (TNode P es);
  rs_inc l r : inc (l ++ skel (TNode P es) ++ r) → inc (l ++ skel (TNode P es') ++ r);
  rs_ids : ∃ gone, ids (TNode P es) ≡ₚ gone ++ ids (TNode P es');
  rs_frame p : p ∉ ids (TNode P es) → al_live a' !! p = al_live a !! p;
  rs_keep p : K p → is_Some (al_live a !! p) → is_Some (al_live a' !! p);
  rs_head : head (leaf_ids (TNode P es')) = head (leaf_ids (TNode P es));
  rs_linked last : linked (al_live a) (leaf_ids (TNode P es)) last →
    linked (al_live a') (leaf_ids (TNode P es')) last;
}.

(** Freeing a page that is no longer part of the tree. *)
Lemma reshaped_dead a a' h pp P es es' q : reshaped a a' (λ _, True) h pp P es es' →
  q ∈ ids (TNode P es) → q ∉ ids (TNode P es') → is_Some (al_live a' !! q) →
  reshaped a (dead_page q a') (λ p, p ≠ q) h pp P es es'.
Proof.
  intros [Ha Hnum Hr Hs Hfl Hinc Hids Hfr Hk Hh Hl] Hin Hout Hq.
  assert (Hl' : ∀ p, p ≠ q → al_live (dead_page q a') !! p = al_live a' !! p).
  { intros p Hp. cbn. by rewrite lookup_delete_ne. }
  assert (Hin' : ∀ p, p ∈ ids (TNode P es') → al_live (dead_page q a') !! p = al_live a' !! p).
  { intros p Hp. apply Hl'. by intros ->. }
  split; try done.
  - by apply dead_page_ok.
  - eapply repr_frame, Hr. exact Hin'.
  - intros p Hp. rewrite Hl'; [by apply Hfr|]. by intros ->.
  - intros p Hp Hlp. rewrite Hl' by done. by apply Hk.
  - intros last Hlast. eapply linked_frame; [|by apply Hl]. intros p Hp. unfold next_at.
    rewrite Hin'; [done|]. by apply leaf_ids_sub.
Qed.

(** *** Two neighbours below a node *)
Lemma three_written a x y z dx dy dz : alloc_ok a →
  is_Some (al_live a !! x) → is_Some (al_live a !! y) → is_Some (al_live a !! z) →
  x ≠ y → x ≠ z → y ≠ z → zlen dx = PAGE_SIZE → zlen dy = PAGE_SIZE → zlen dz = PAGE_SIZE →
  let a3 := set_live z dz (set_live y dy (set_live x dx a)) in
  alloc_ok a3 ∧ al_num a3 = al_num a ∧
  al_live a3 !! x = Some dx ∧ al_live a3 !! y = Some dy ∧ al_live a3 !! z = Some dz ∧
  (∀ w, w ≠ x → w ≠ y → w ≠ z → al_live a3 !! w = al_live a !! w) ∧
  ∀ w, is_Some (al_live a !! w) → is_Some (al_live a3 !! w).
Proof.
  intros Ha Hx Hy Hz Hxy Hxz Hyz H1 H2 H3 a3.
  assert (Hk : ∀ w, is_Some (al_live a !! w) → is_Some (al_live a3 !! w)).
  { intros w Hw. cbn. rewrite !lookup_insert. repeat case_decide; eauto. }
  split_and!; try done.
  - apply set_live_ok; [apply set_live_ok; [by apply set_live_ok|..]|..]; try done;
      cbn; rewrite !lookup_insert; repeat case_decide; eauto.
  - cbn. by rewrite !lookup_insert_ne, lookup_insert_eq by done.
  - cbn. by rewrite !lookup_insert_ne, lookup_insert_eq by done.
  - cbn. by rewrite lookup_insert_eq.
  - intros w ? ? ?. cbn. by rewrite !lookup_insert_ne by done.
Qed.

Section siblings.
Context (h : nat) (pp : page_id_t) (f : frame) (tx : tree) (y : Z) (ty : tree).

(** The pages of the pair and of the nodes beside it. *)
Lemma pair_pages : NoDup (ids (TNode (fr_id f) (both f tx y ty))) →
  NoDup (ids tx) ∧ NoDup (ids ty) ∧ fr_id f ∉ ids tx ∧ fr_id f ∉ ids ty ∧ (∀ p, p ∈ ids tx → p ∉ ids ty) ∧
  ∀ p, p ∈ ids_of (fr_left f) ∨ p ∈ ids_of (fr_right f) → p ≠ fr_id f ∧ p ∉ ids tx ∧ p ∉ ids ty.
Proof.
  cbn [ids]. change (_ ≫= _) with (ids_of (both f tx y ty)). rewrite ids_both. unfold frame_ids.
  intros (H1 & Hx & (H2 & Hy & Hf)%NoDup_app)%NoDup_app. apply NoDup_cons in Hf as [HP _].
  repeat setoid_rewrite elem_of_app in Hx. setoid_rewrite elem_of_cons in Hx. setoid_rewrite elem_of_app in Hx.
  setoid_rewrite elem_of_cons in Hy. setoid_rewrite elem_of_app in Hy. rewrite elem_of_app in HP.
  split_and!; try done.
  - intros Hp. apply (Hx _ Hp). tauto.
  - intros Hp. apply (Hy _ Hp). tauto.
  - intros p Hp Hq. apply (Hx _ Hp). tauto.
  - intros p Hp. split_and!.
    + intros ->. tauto.
    + intros Hq. apply (Hx _ Hq). tauto.
    + intros Hq. apply (Hy _ Hq). tauto.
Qed.

Lemma both_forall (I : tree → Prop) : Forall (λ e, I e.2) (both f tx y ty) ↔
  Forall (λ e, I e.2) (fr_left f) ∧ I tx ∧ I ty ∧ Forall (λ e, I e.2) (fr_right f).
Proof. unfold both. by rewrite Forall_app, !Forall_cons. Qed.
Lemma fill_forall (I : tree → Prop) : Forall (λ e, I e.2) (fr_left f ++ (fr_key f, tx) :: fr_right f) ↔
  Forall (λ e, I e.2) (fr_left f) ∧ I tx ∧ Forall (λ e, I e.2) (fr_right f).
Proof. by rewrite Forall_app, Forall_cons. Qed.
Lemma in_pair p : p ∈ ids (TNode (fr_id f) (both f tx y ty)) ↔
  p = fr_id f ∨ p ∈ ids tx ∨ p ∈ ids ty ∨ p ∈ ids_of (fr_left f) ∨ p ∈ ids_of (fr_right f).
Proof.
  cbn [ids]. change (both f tx y ty ≫= _) with (ids_of (both f tx y ty)). rewrite ids_both. unfold frame_ids.
  rewrite !elem_of_app, elem_of_cons, elem_of_app. tauto.
Qed.
End siblings.

(** The same leaves under other nodes. *)
Lemma same_reshaped a a' h pp P es es' : alloc_ok a' → al_num a' = al_num a →
  repr (al_live a') (S h) pp (TNode P es') → Forall (λ e, sized false h e.2) es' →
  leaves (TNode P es') = leaves (TNode P es) → skel (TNode P es') = skel (TNode P es) →
  (∃ gone, ids (TNode P es) ≡ₚ gone ++ ids (TNode P es')) →
  (∀ p, p ∉ ids (TNode P es) → al_live a' !! p = al_live a !! p) →
  (∀ p, is_Some (al_live a !! p) → is_Some (al_live a' !! p)) →
  (∀ p, p ∈ leaf_ids (TNode P es) → next_at (al_live a') p = next_at (al_live a) p) →
  reshaped a a' (λ _, True) h pp P es es'.
Proof.
  intros Ha Hn Hr Hs Hl Hsk Hi Hf Hk Hx. split; try done.
  - unfold flat. by rewrite Hl.
  - intros l r. by rewrite Hsk.
  - intros p _. apply Hk.
  - unfold leaf_ids. by rewrite Hl.
  - intros last. unfold leaf_ids in *. rewrite Hl. by apply linked_frame.
Qed.

Lemma repr_children live h pp P es : repr live (S h) pp (TNode P es) ↔
  node_page live pp P (stub <$> es) ∧ Forall (λ e, repr live h P e.2) es.
Proof. done. Qed.
Lemma both_repr live h f tx y ty : Forall (λ e, repr live h (fr_id f) e.2) (both f tx y ty) ↔
  Forall (λ e, repr live h (fr_id f) e.2) (fr_left f) ∧ repr live h (fr_id f) tx ∧ repr live h (fr_id f) ty ∧
  Forall (λ e, repr live h (fr_id f) e.2) (fr_right f).
Proof. apply (both_forall f tx y ty (λ t, repr live h (fr_id f) t)). Qed.
Lemma fill_repr live h f t : Forall (λ e, repr live h (fr_id f) e.2) (fr_left f ++ (fr_key f, t) :: fr_right f) ↔
  Forall (λ e, repr live h (fr_id f) e.2) (fr_left f) ∧ repr live h (fr_id f) t ∧
  Forall (λ e, repr live h (fr_id f) e.2) (fr_right f).
Proof. apply (fill_forall f t (λ t, repr live h (fr_id f) t)). Qed.

Section leaf_pair.
Context (a a' : alloc_state) (pp : page_id_t) (f : frame) (p q : page_id_t) (ps qs : list (Z * RID)) (y : Z).
Context (Hr : repr (al_live a) 1 pp (TNode (fr_id f) (both f (TLeaf p ps) y (TLeaf q qs)))).
Context (Hnd : NoDup (ids (TNode (fr_id f) (both f (TLeaf p ps) y (TLeaf q qs))))).
Context (Ha' : alloc_ok a') (Hnum : al_num a' = al_num a).
Context (Hfr : ∀ w, w ≠ p → w ≠ q → w ≠ fr_id f → al_live a' !! w = al_live a !! w).
Context (Hkeep : ∀ w, is_Some (al_live a !! w) → is_Some (al_live a' !! w)).
Context (HsL : Forall (λ e, sized false 0 e.2) (fr_left f)) (HsR : Forall (λ e, sized false 0 e.2) (fr_right f)).

Lemma leaf_sides : Forall (λ e, repr (al_live a') 0 (fr_id f) e.2) (fr_left f) ∧
  Forall (λ e, repr (al_live a') 0 (fr_id f) e.2) (fr_right f).
Proof.
  apply repr_children in Hr as [_ Hc]. apply both_repr in Hc as (HL & _ & _ & HR).
  destruct (pair_pages _ _ _ _ Hnd) as (_ & _ & _ & _ & _ & Hd). cbn [ids] in Hd.
  split; eapply reprs_frame; try eassumption; intros w Hw;
    (destruct (Hd w) as (? & H1 & H2); [tauto|]); rewrite list_elem_of_singleton in H1, H2; by apply Hfr.
Qed.
Lemma leaf_pair_frame w : w ∉ ids (TNode (fr_id f) (both f (TLeaf p ps) y (TLeaf q qs))) →
  al_live a' !! w = al_live a !! w.
Proof.
  rewrite in_pair. cbn [ids]. rewrite !list_elem_of_singleton. intros Hw. apply Hfr; tauto.
Qed.
(** The leaves beside the pair keep their links. *)
Lemma leaf_side_next w : w ∈ (leaves_l f).*1 ∨ w ∈ (leaves_r f).*1 → next_at (al_live a') w = next_at (al_live a) w.
Proof.
  intros Hw. destruct (pair_pages _ _ _ _ Hnd) as (_ & _ & _ & _ & _ & Hd). cbn [ids] in Hd.
  destruct (Hd w) as (? & H1 & H2).
  { destruct Hw as [Hw|Hw]; apply leaf_ids_of in Hw; tauto. }
  rewrite list_elem_of_singleton in H1, H2. unfold next_at. by rewrite Hfr.
Qed.
Lemma leaf_ids_pair ps1 y1 qs1 : leaf_ids (TNode (fr_id f) (both f (TLeaf p ps1) y1 (TLeaf q qs1))) =
  (leaves_l f).*1 ++ p :: q :: (leaves_r f).*1.
Proof. unfold leaf_ids. cbn [leaves]. change (_ ≫= _) with (leaves_of (both f (TLeaf p ps1) y1 (TLeaf q qs1))). by rewrite leaves_both, !fmap_app. Qed.
Lemma flat_pair ps1 y1 qs1 : flat (TNode (fr_id f) (both f (TLeaf p ps1) y1 (TLeaf q qs1))) =
  (leaves_l f ≫= snd) ++ (ps1 ++ qs1) ++ (leaves_r f ≫= snd).
Proof.
  unfold flat. cbn [leaves]. change (both f (TLeaf p ps1) y1 (TLeaf q qs1) ≫= _) with (leaves_of (both f (TLeaf p ps1) y1 (TLeaf q qs1))).
  rewrite leaves_both, !bind_app. cbn [leaves mbind list_bind snd]. by rewrite !app_nil_r, <- app_assoc.
Qed.

Lemma leaf_pair_reshaped ps' y' qs' :
  node_page (al_live a') pp (fr_id f) (stub <$> both f (TLeaf p ps') y' (TLeaf q qs')) →
  leaf_page (al_live a') (fr_id f) p ps' → leaf_page (al_live a') (fr_id f) q qs' →
  next_at (al_live a') p = next_at (al_live a) p → next_at (al_live a') q = next_at (al_live a) q →
  leaf_sized false ps' → leaf_sized false qs' → ps' ++ qs' = ps ++ qs →
  (∀ l r, inc (l ++ (code <$> ps.*1) ++ 2 * y :: (code <$> qs.*1) ++ r) →
     inc (l ++ (code <$> ps'.*1) ++ 2 * y' :: (code <$> qs'.*1) ++ r)) →
  reshaped a a' (λ _, True) 0 pp (fr_id f) (both f (TLeaf p ps) y (TLeaf q qs)) (both f (TLeaf p ps') y' (TLeaf q qs')).
Proof.
  intros Hn Hp Hq Hxp Hxq Hzp Hzq Heq Hinc. destruct leaf_sides as [HL HR]. split; try done.
  - apply repr_children. split; [done|]. by apply both_repr.
  - by apply (both_forall _ _ _ _ (sized false 0)).
  - by rewrite !flat_pair, Heq.
  - intros l r. rewrite !skel_both. cbn [skel]. intros H.
    pose proof (Hinc (l ++ skel_l f) (skel_r f ++ r)) as G. rewrite <- ?app_assoc in *. cbn [app] in *.
    rewrite <- ?app_assoc in *. by apply G.
  - exists []. cbn [ids app]. change (?l ≫= _) with (ids_of l). by rewrite !ids_both.
  - intros w. apply leaf_pair_frame.
  - intros w _. apply Hkeep.
  - by rewrite !leaf_ids_pair.
  - intros last. rewrite !leaf_ids_pair. apply linked_frame. intros w Hw.
    rewrite !elem_of_app, !elem_of_cons in Hw. destruct Hw as [Hw|[->|[->|Hw]]]; [apply leaf_side_next; tauto|done..|].
    apply leaf_side_next. tauto.
Qed.

Lemma leaf_merge_reshaped :
  node_page (al_live a') pp (fr_id f) (stub <$> fr_left f ++ (fr_key f, TLeaf p (ps ++ qs)) :: fr_right f) →
  leaf_page (al_live a') (fr_id f) p (ps ++ qs) → next_at (al_live a') p = next_at (al_live a) q →
  leaf_sized false (ps ++ qs) →
  reshaped a a' (λ _, True) 0 pp (fr_id f) (both f (TLeaf p ps) y (TLeaf q qs))
    (fr_left f ++ (fr_key f, TLeaf p (ps ++ qs)) :: fr_right f).
Proof.
  intros Hn Hp Hxp Hz. destruct leaf_sides as [HL HR].
  set (t := TLeaf p (ps ++ qs)). change (TNode (fr_id f) (fr_left f ++ (fr_key f, t) :: fr_right f)) with (fill t f) in *.
  assert (Hli : leaf_ids (fill t f) = (leaves_l f).*1 ++ p :: (leaves_r f).*1).
  { unfold leaf_ids. change (fill t f) with (plug [f] t). rewrite leaves_plug. cbn [ctx_l ctx_r leaves t app].
    by rewrite app_nil_r, !fmap_app. }
  split; try done;
    change (TNode (fr_id f) (fr_left f ++ (fr_key f, t) :: fr_right f)) with (fill t f).
  - apply repr_children. split; [done|]. by apply fill_repr.
  - by apply (fill_forall f t (sized false 0)).
  - rewrite flat_pair. change (fill t f) with (plug [f] t). rewrite flat_plug. unfold flat_l, flat_r, flat.
    cbn [ctx_l ctx_r leaves t mbind list_bind snd app]. by rewrite !app_nil_r.
  - intros l r. rewrite skel_both, skel_fill. cbn [skel t]. apply inc_sublist. rewrite !fmap_app, <- !app_assoc.
    do 3 (apply sublist_app; [done|]). cbn [app]. rewrite <- !app_assoc. by apply sublist_cons.
  - exists [q]. rewrite ids_fill. cbn [ids]. change (?l ≫= _) with (ids_of l). rewrite ids_both. cbn [ids t]. solve_Permutation.
  - intros w. apply leaf_pair_frame.
  - intros w _. apply Hkeep.
  - rewrite Hli, leaf_ids_pair. by destruct (leaves_l f).*1.
  - intros last. rewrite Hli, leaf_ids_pair, !linked_app, !linked_cons. cbn [head default]. rewrite Hxp.
    intros (H1 & _ & H2 & H3). split_and!; [|done|]; (eapply linked_frame; [|eassumption]);
      intros w Hw; apply leaf_side_next; tauto.
Qed.
End leaf_pair.

(** *** Children that change their parent *)
Lemma carry_kids live live' g src p1 p2 d c st1 st2 : u32_ok d →
  (∀ p b, live !! p = Some b → zlen b = PAGE_SIZE) →
  NoDup (ids c ++ ids_of st1 ++ ids_of st2) →
  (∀ w, w ∈ ids c ∨ w ∈ ids_of st1 ∨ w ∈ ids_of st2 →
     live' !! w = if decide (w ∈ [tid c]) then set_parent_bytes d <$> live !! w else live !! w) →
  repr live g src c → Forall (λ e, repr live g p1 e.2) st1 → Forall (λ e, repr live g p2 e.2) st2 →
  repr live' g d c ∧ Forall (λ e, repr live' g p1 e.2) st1 ∧ Forall (λ e, repr live' g p2 e.2) st2.
Proof.
  intros Hu Hlen (Hndc & Hd & _)%NoDup_app Hl Hc H1 H2.
  assert (Hst : ∀ w, w ∈ ids_of st1 ∨ w ∈ ids_of st2 → live' !! w = live !! w).
  { intros w Hw. rewrite Hl by tauto. rewrite decide_False; [done|]. intros ->%list_elem_of_singleton.
    apply (Hd (tid c)); [apply tid_ids|]. by apply elem_of_app. }
  split_and!.
  - apply (repr_adopt live live' g src d c Hu Hndc Hlen); [|..|done].
    + rewrite Hl by (left; apply tid_ids). by rewrite decide_True by (by left).
    + intros w Hw Hne. rewrite Hl by tauto. rewrite decide_False; [done|]. by rewrite list_elem_of_singleton.
  - eapply reprs_frame, H1. intros w Hw. apply Hst. tauto.
  - eapply reprs_frame, H2. intros w Hw. apply Hst. tauto.
Qed.

(** All children of two nodes under one of them. *)
Lemma merge_kids live live' g p q es1 k0 k1 c0 es2 : u32_ok p →
  (∀ x b, live !! x = Some b → zlen b = PAGE_SIZE) →
  NoDup (ids_of es1 ++ ids_of ((k0, c0) :: es2)) →
  (∀ w, w ∈ ids_of es1 ∨ w ∈ ids_of ((k0, c0) :: es2) →
     live' !! w = if decide (w ∈ (stub <$> es1 ++ (k1, c0) :: es2).*2) then set_parent_bytes p <$> live !! w else live !! w) →
  Forall (λ e, repr live g p e.2) es1 → Forall (λ e, repr live g q e.2) ((k0, c0) :: es2) →
  Forall (λ e, repr live' g p e.2) (es1 ++ (k1, c0) :: es2).
Proof.
  intros Hu Hlen (Hnd1 & Hd & Hnd2)%NoDup_app Hl H1 H2.
  assert (Hroots : (stub <$> es1 ++ (k1, c0) :: es2).*2 = (stub <$> es1).*2 ++ (stub <$> (k0, c0) :: es2).*2).
  { by rewrite !fmap_app. }
  rewrite Hroots in Hl. apply Forall_app. split.
  - apply (reprs_adopt live live' g p p es1 Hu Hnd1 Hlen); [|done]. intros w Hw. rewrite Hl by tauto.
    apply decide_ext. rewrite elem_of_app. split; [|tauto]. intros [?|Hin]; [done|].
    exfalso. apply (Hd w Hw). by apply ids_stub.
  - enough (Forall (λ e, repr live' g p e.2) ((k0, c0) :: es2)) as [? ?]%Forall_cons by by apply Forall_cons.
    apply (reprs_adopt live live' g q p _ Hu Hnd2 Hlen); [|done]. intros w Hw. rewrite Hl by tauto.
    apply decide_ext. rewrite elem_of_app. split; [|tauto]. intros [Hin|?]; [|done].
    exfalso. apply (Hd w); [by apply ids_stub|done].
Qed.

(** *** Two internal nodes *)
Section node_pair.
Context (a a' : alloc_state) (g : nat) (pp : page_id_t) (f : frame) (p q : page_id_t)
  (es1 es2 : list (Z * tree)) (y : Z).
Abbreviation old := (both f (TNode p es1) y (TNode q es2)).
Context (Hr : repr (al_live a) (S (S g)) pp (TNode (fr_id f) old)) (Hnd : NoDup (ids (TNode (fr_id f) old))).

Lemma node_kid w : w ∈ ids_of es1 ∨ w ∈ ids_of es2 → w ≠ p ∧ w ≠ q ∧ w ≠ fr_id f.
Proof.
  destruct (pair_pages _ _ _ _ Hnd) as (H1 & H2 & HP1 & HP2 & Hd & _). cbn [ids] in *.
  change (es1 ≫= _) with (ids_of es1) in *. change (es2 ≫= _) with (ids_of es2) in *.
  apply NoDup_cons in H1 as [H1 _]. apply NoDup_cons in H2 as [H2 _]. rewrite elem_of_cons in HP1, HP2.
  intros [Hw|Hw]; split_and!; intros ->; try tauto.
  - apply (Hd q); [by right|by left].
  - apply (Hd p); [by left|by right].
Qed.
Lemma node_leaf w : w ∈ leaf_ids (TNode (fr_id f) old) → w ≠ p ∧ w ≠ q ∧ w ≠ fr_id f.
Proof.
  unfold leaf_ids. cbn [leaves]. change (old ≫= _) with (leaves_of old). rewrite leaves_both, !fmap_app, !elem_of_app.
  destruct (pair_pages _ _ _ _ Hnd) as (_ & _ & _ & _ & _ & Hs). cbn [leaves].
  change (es1 ≫= _) with (leaves_of es1). change (es2 ≫= _) with (leaves_of es2).
  intros [Hw%leaf_ids_of|[Hw%leaf_ids_of|[Hw%leaf_ids_of|Hw%leaf_ids_of]]]; try (apply node_kid; tauto);
    (destruct (Hs w) as (? & H1 & H2); [tauto|]); cbn [ids] in H1, H2; rewrite elem_of_cons in H1, H2; tauto.
Qed.
Lemma node_kids_nodup : NoDup (ids_of es1 ++ ids_of es2).
Proof.
  destruct (pair_pages _ _ _ _ Hnd) as (H1 & H2 & _ & _ & Hd & _). cbn [ids] in *.
  apply NoDup_cons in H1 as [_ H1]. apply NoDup_cons in H2 as [_ H2]. apply NoDup_app. split_and!; [done| |done].
  intros w Hw Hw'. apply (Hd w); by right.
Qed.

Context (cs : list page_id_t) (d : page_id_t) (a3 : alloc_state) (Ha : alloc_ok a) (Ha3 : alloc_ok a3) (Hd : u32_ok d).
Context (Hnum3 : al_num a3 = al_num a) (Hfr3 : ∀ w, w ≠ p → w ≠ q → w ≠ fr_id f → al_live a3 !! w = al_live a !! w).
Context (Hk3 : ∀ w, is_Some (al_live a !! w) → is_Some (al_live a3 !! w)).
Context (Had : adopted d cs a3 a') (Hcs : ∀ w, w ∈ cs → w ∈ ids_of es1 ∨ w ∈ ids_of es2).
Context (HsL : Forall (λ e, sized false (S g) e.2) (fr_left f)) (HsR : Forall (λ e, sized false (S g) e.2) (fr_right f)).

Lemma node_pair_live w : w ≠ p → w ≠ q → w ≠ fr_id f →
  al_live a' !! w = if decide (w ∈ cs) then set_parent_bytes d <$> al_live a !! w else al_live a !! w.
Proof. intros. by rewrite (ad_live _ _ _ _ Had), Hfr3. Qed.
(** The three nodes themselves are not adopted. *)
Lemma node_pair_self w : w = p ∨ w = q ∨ w = fr_id f → al_live a' !! w = al_live a3 !! w.
Proof.
  intros Hw. rewrite (ad_live _ _ _ _ Had), decide_False; [done|]. intros Hin%Hcs%node_kid. tauto.
Qed.
Lemma node_pair_out w : w ≠ p → w ≠ q → w ≠ fr_id f → w ∉ ids_of es1 → w ∉ ids_of es2 →
  al_live a' !! w = al_live a !! w.
Proof. intros. rewrite node_pair_live by done. rewrite decide_False; [done|]. intros [?|?]%Hcs; tauto. Qed.

Lemma node_pair_reshaped es' : node_page (al_live a') pp (fr_id f) (stub <$> es') →
  Forall (λ e, repr (al_live a') (S g) (fr_id f) e.2) es' → Forall (λ e, sized false (S g) e.2) es' →
  leaves (TNode (fr_id f) es') = leaves (TNode (fr_id f) old) → skel (TNode (fr_id f) es') = skel (TNode (fr_id f) old) →
  (∃ gone, ids (TNode (fr_id f) old) ≡ₚ gone ++ ids (TNode (fr_id f) es')) →
  reshaped a a' (λ _, True) (S g) pp (fr_id f) old es'.
Proof.
  intros Hn Hre Hs Hl Hsk Hi. apply same_reshaped; try done.
  - apply Had.
  - by rewrite (ad_num _ _ _ _ Had).
  - intros w Hw. rewrite in_pair in Hw. cbn [ids] in Hw. rewrite !elem_of_cons in Hw.
    change (es1 ≫= _) with (ids_of es1) in Hw. change (es2 ≫= _) with (ids_of es2) in Hw. apply node_pair_out; tauto.
  - intros w Hw%Hk3. rewrite (ad_live _ _ _ _ Had). case_decide; [by apply fmap_is_Some|done].
  - intros w (? & ? & ?)%node_leaf. rewrite (adopted_next _ _ _ _ _ Ha3 Had Hd). unfold next_at. by rewrite Hfr3.
Qed.

Lemma node_sides : Forall (λ e, repr (al_live a') (S g) (fr_id f) e.2) (fr_left f) ∧
  Forall (λ e, repr (al_live a') (S g) (fr_id f) e.2) (fr_right f).
Proof.
  apply repr_children in Hr as [_ Hc]. apply both_repr in Hc as (HL & _ & _ & HR).
  destruct (pair_pages _ _ _ _ Hnd) as (_ & _ & _ & _ & _ & Hs).
  split; eapply reprs_frame; try eassumption; intros w Hw;
    (destruct (Hs w) as (? & H1 & H2); [tauto|]); cbn [ids] in H1, H2; rewrite elem_of_cons in H1, H2;
    change (es1 ≫= _) with (ids_of es1) in H1; change (es2 ≫= _) with (ids_of es2) in H2; apply node_pair_out; tauto.
Qed.
Lemma node_kids : Forall (λ e, repr (al_live a) g p e.2) es1 ∧ Forall (λ e, repr (al_live a) g q e.2) es2.
Proof.
  apply repr_children in Hr as [_ Hc]. apply both_repr in Hc as (_ & H1 & H2 & _).
  split; [apply (repr_children _ _ (fr_id f)) in H1 as [_ ?]|apply (repr_children _ _ (fr_id f)) in H2 as [_ ?]]; done.
Qed.
(** One child goes to the other node. *)
Lemma carry_pair src c st1 st2 : cs = [tid c] → ids_of es1 ++ ids_of es2 ≡ₚ ids c ++ ids_of st1 ++ ids_of st2 →
  repr (al_live a) g src c → Forall (λ e, repr (al_live a) g p e.2) st1 → Forall (λ e, repr (al_live a) g q e.2) st2 →
  repr (al_live a') g d c ∧ Forall (λ e, repr (al_live a') g p e.2) st1 ∧ Forall (λ e, repr (al_live a') g q e.2) st2.
Proof.
  intros Hc Hp. pose proof node_kids_nodup as Hk. rewrite Hp in Hk.
  apply (carry_kids (al_live a) (al_live a') g src p q d c st1 st2 Hd (ao_len _ Ha) Hk). intros w Hw.
  assert (Hin : w ∈ ids_of es1 ∨ w ∈ ids_of es2) by (rewrite <- elem_of_app, Hp, !elem_of_app; tauto).
  destruct (node_kid w Hin) as (? & ? & ?). rewrite <- Hc. by apply node_pair_live.
Qed.
End node_pair.

(** Writing a page before or after the children of another are adopted. *)
Lemma adopted_write q cs a a' P e : adopted q cs a a' → P ∉ cs → is_Some (al_live a !! P) → zlen e = PAGE_SIZE →
  adopted q cs (set_live P e a) (set_live P e a').
Proof.
  intros [Ha Hn Hl] HP HlP Hz. split; [apply set_live_ok; [done|by rewrite Hl, decide_False|done]|done|].
  intros x. cbn. rewrite !lookup_insert. destruct (decide (P = x)) as [<-|Hne]; [by rewrite decide_False|apply Hl].
Qed.
