(* ===== verification/BPlusTreeSiblings.v ===== *)
(** [Redistribute] and [Merge] on the pages of two neighbours and their parent, for
    leaves, for internal nodes, and at any height. *)
From Stdlib Require Import ZArith Lia.
From Stdlib Require Strings.Byte.
From stdpp Require Import base list gmap sorting.
From S2P Require Import Prelude Types DiskManager Replacer BufferPool PageStore BPlusTreePage BPlusTreeLayout BPlusTree BPlusTreeRep BPlusTreeLookup BPlusTreeSplit BPlusTreeInsert BPlusTreeMerge.
Open Scope Z_scope.

(** ** [Redistribute] and [Merge] on the store *)
Section runs.
Context (n : Z).
Implicit Types (a : alloc_state) (W : gset page_id_t) (m : gmap page_id_t Z).

Lemma leaf_move_run a W m mv self other sd od s o : is_Some (m !! self) → is_Some (m !! other) →
  al_live a !! self = Some sd → al_live a !! other = Some od →
  mv (decode_leaf sd) (decode_leaf od) = Some (s, o) → leaf_saved s sd → leaf_saved o od →
  run_store (leaf_move mv self other) (mkStore a W m n) =
    Some (Ret (s, o), mkStore (set_live other (encode_leaf o od) (set_live self (encode_leaf s sd) a))
                        ({[other]} ∪ ({[self]} ∪ W)) m n).
Proof.
  intros H1 H2 Hs Ho Hex [_ Hzs] [_ Hzo]. unfold leaf_move. run_step (apply step_read; [exact H1|exact Hs]).
  run_step (apply step_read; [exact H2|exact Ho]). rewrite Hex, run_mem.
  run_step (apply step_write; [exact H1|exact Hzs]). by run_step (apply step_write; [exact H2|exact Hzo]).
Qed.
Lemma internal_move_run a W m mv self other sd od s o : is_Some (m !! self) → is_Some (m !! other) →
  al_live a !! self = Some sd → al_live a !! other = Some od →
  mv (decode_internal sd) (decode_internal od) = Some (s, o) → node_saved s sd → node_saved o od →
  run_store (internal_move mv self other) (mkStore a W m n) =
    Some (Ret (s, o), mkStore (set_live other (encode_internal o od) (set_live self (encode_internal s sd) a))
                        ({[other]} ∪ ({[self]} ∪ W)) m n).
Proof.
  intros H1 H2 Hs Ho Hex [_ Hzs] [_ Hzo]. unfold internal_move. run_step (apply step_read; [exact H1|exact Hs]).
  run_step (apply step_read; [exact H2|exact Ho]). rewrite Hex, run_mem.
  run_step (apply step_write; [exact H1|exact Hzs]). by run_step (apply step_write; [exact H2|exact Hzo]).
Qed.
Lemma set_key_at_run a W m P i key pd pn : is_Some (m !! P) → al_live a !! P = Some pd →
  Internal.SetKeyAt i key (decode_internal pd) = Some pn → node_saved pn pd →
  run_store (set_key_at P i key) (mkStore a W m n) =
    Some (Ret tt, mkStore (set_live P (encode_internal pn pd) a) ({[P]} ∪ W) m n).
Proof.
  intros Hm Hp Hex [_ Hz]. unfold set_key_at. run_step (apply step_read; [exact Hm|exact Hp]). rewrite Hex, run_mem.
  cbn [run_store call]. by rewrite (step_write _ _ _ _ _ _ Hm Hz).
Qed.
Lemma remove_at_run a W m P i pd pn : is_Some (m !! P) → al_live a !! P = Some pd →
  Internal.Remove i (decode_internal pd) = Some pn → node_saved pn pd →
  run_store (remove_at P i) (mkStore a W m n) =
    Some (Ret tt, mkStore (set_live P (encode_internal pn pd) a) ({[P]} ∪ W) m n).
Proof.
  intros Hm Hp Hex [_ Hz]. unfold remove_at. run_step (apply step_read; [exact Hm|exact Hp]). rewrite Hex, run_mem.
  cbn [run_store call]. by rewrite (step_write _ _ _ _ _ _ Hm Hz).
Qed.
Lemma key_at_run a W m P i pd k : is_Some (m !! P) → al_live a !! P = Some pd →
  Internal.KeyAt (decode_internal pd) i = Some k →
  run_store (key_at P i) (mkStore a W m n) = Some (Ret k, mkStore a W m n).
Proof. intros Hm Hp Hk. unfold key_at. run_step (apply step_read; [exact Hm|exact Hp]). by rewrite Hk. Qed.

(** Two neighbours [tx] and [ty] below the pinned node of the frame [f], with the
    separator [y], both pinned. *)
Record pair_ok a m (h : nat) (pp : page_id_t) (f : frame) (tx : tree) (y : Z) (ty : tree) : Prop := {
  po_ok : alloc_ok a;
  po_pins : pins_ok m a;
  po_room : Z.of_nat (size m) < n;
  po_repr : repr (al_live a) (S h) pp (TNode (fr_id f) (both f tx y ty));
  po_nodup : NoDup (ids (TNode (fr_id f) (both f tx y ty)));
  po_inc : inc (skel (TNode (fr_id f) (both f tx y ty)));
  po_size : zlen (both f tx y ty) ≤ Internal.default_max_size;
  po_left : Forall (λ e, sized false h e.2) (fr_left f);
  po_right : Forall (λ e, sized false h e.2) (fr_right f);
  po_x : kids_sized h tx;
  po_y : kids_sized h ty;
  po_mP : is_Some (m !! fr_id f);
  po_mx : is_Some (m !! tid tx);
  po_my : is_Some (m !! tid ty);
}.

Definition before (f : frame) (tx : tree) : list (Z * page_id_t) := (stub <$> fr_left f) ++ [(fr_key f, tid tx)].
Lemma both_stub f tx y ty : stub <$> both f tx y ty = before f tx ++ (y, tid ty) :: (stub <$> fr_right f).
Proof. unfold both, before. by rewrite fmap_app, <- app_assoc. Qed.
Lemma before_length f tx : zlen (before f tx) = zlen (fr_left f) + 1.
Proof. unfold before. rewrite length_app, length_fmap. cbn. lia. Qed.

(** The page of the parent: the separator between the two, and what writing it or
    removing the entry of the right one gives. *)
Lemma pair_parent a m h pp f tx y ty : pair_ok a m h pp f tx y ty →
  ∃ pd, al_live a !! fr_id f = Some pd ∧ zlen pd = PAGE_SIZE ∧
    Internal.KeyAt (decode_internal pd) (zlen (fr_left f) + 1) = Some y ∧ i64_ok y ∧
    (∀ key, i64_ok key → ∃ pn, Internal.SetKeyAt (zlen (fr_left f) + 1) key (decode_internal pd) = Some pn ∧
       node_saved pn pd ∧ ∀ tx' ty', tid tx' = tid tx → tid ty' = tid ty →
         node_is pn pp (fr_id f) (stub <$> both f tx' key ty')) ∧
    ∃ pn, Internal.Remove (zlen (fr_left f) + 1) (decode_internal pd) = Some pn ∧ node_saved pn pd ∧
      ∀ tx', tid tx' = tid tx → node_is pn pp (fr_id f) (stub <$> fr_left f ++ (fr_key f, tx') :: fr_right f).
Proof.
  intros [Ha _ _ [(pd & Hpd & Hn) _]%repr_children _ _ Hz _ _ _ _ _ _ _]. exists pd.
  pose proof (ao_len _ Ha _ _ Hpd) as Hlen. destruct (internal_page_ok pd Hlen) as (Hc & [Hw _] & _).
  rewrite both_stub in Hn.
  assert (Hcap : zlen (before f tx ++ (y, tid ty) :: (stub <$> fr_right f)) ≤ Internal.capacity).
  { rewrite <- both_stub, length_fmap. unfold Internal.default_max_size, Internal.capacity in *. lia. }
  pose proof (before_length f tx) as Hbl. destruct (node_entry _ _ _ _ _ _ _ Hn Hc Hcap) as [Hk _]. rewrite Hbl in Hk.
  split; [done|]. split; [done|]. split; [done|]. split; [exact (zget_Forall _ _ _ _ Hk Hw)|]. split.
  - intros key Hkey. destruct (parent_key_page pd pp _ _ _ _ _ key Hlen Hn Hcap Hkey) as (pn & Hex & Hi & Hsv).
    rewrite Hbl in Hex. exists pn. split; [done|]. split; [done|]. intros tx' ty' Hx Hy.
    rewrite both_stub. unfold before. by rewrite Hx, Hy.
  - destruct (parent_remove_page pd pp _ _ _ _ _ Hlen Hn Hcap) as (pn & Hex & Hi & Hsv).
    rewrite Hbl in Hex. exists pn. split; [done|]. split; [done|]. intros tx' Hx. rewrite fmap_app. cbn.
    unfold before in Hi. rewrite <- app_assoc in Hi. unfold stub at 2. cbn [fst snd]. by rewrite Hx.
Qed.
Lemma pair_distinct a m h pp f tx y ty : pair_ok a m h pp f tx y ty →
  tid tx ≠ tid ty ∧ tid tx ≠ fr_id f ∧ tid ty ≠ fr_id f.
Proof.
  intros Hok. destruct (pair_pages _ _ _ _ (po_nodup _ _ _ _ _ _ _ _ Hok)) as (_ & _ & HP1 & HP2 & Hd & _).
  pose proof (tid_ids tx) as Hx. pose proof (tid_ids ty) as Hy.
  split_and!; intros Heq; rewrite Heq in *; [by apply (Hd (tid ty))|done|done].
Qed.
Lemma pair_live a m h pp f tx y ty : pair_ok a m h pp f tx y ty →
  is_Some (al_live a !! tid tx) ∧ is_Some (al_live a !! tid ty) ∧ is_Some (al_live a !! fr_id f).
Proof.
  intros Hok. pose proof (po_repr _ _ _ _ _ _ _ _ Hok) as Hr. split_and!; (eapply repr_live; [exact Hr|]);
    rewrite in_pair; [right; left; apply tid_ids|right; right; left; apply tid_ids|by left].
Qed.

(** Two leaves and their entries. *)
Lemma leaf_pair_data a m pp f p ps y q qs : pair_ok a m 0 pp f (TLeaf p ps) y (TLeaf q qs) →
  ∃ xd yd, al_live a !! p = Some xd ∧ al_live a !! q = Some yd ∧ zlen xd = PAGE_SIZE ∧ zlen yd = PAGE_SIZE ∧
    leaf_is (decode_leaf xd) (fr_id f) p ps ∧ leaf_is (decode_leaf yd) (fr_id f) q qs ∧ inc (ps ++ qs).*1.
Proof.
  intros [Ha _ _ [_ Hc]%repr_children _ Hinc _ _ _ _ _ _ _ _]. apply both_repr in Hc as (_ & Hp & Hq & _).
  destruct Hp as (xd & Hx & Hlx), Hq as (yd & Hy & Hly). exists xd, yd.
  split_and!; try done; try (by eapply ao_len). rewrite skel_both in Hinc. cbn [skel] in Hinc.
  apply inc_app_inv in Hinc as (_ & Hinc & _). apply code_inc. eapply inc_sublist; [|exact Hinc].
  rewrite !fmap_app. apply sublist_app; [done|]. cbn [app]. apply sublist_cons, sublist_inserts_r. done.
Qed.

Lemma inc_give_last l ps k v y qs r : ps ≠ [] →
  inc (l ++ (code <$> (ps ++ [(k, v)]).*1) ++ 2 * y :: (code <$> qs.*1) ++ r) →
  inc (l ++ (code <$> ps.*1) ++ 2 * k :: (code <$> ((k, v) :: qs : list (Z * RID)).*1) ++ r).
Proof.
  intros Hne H. destruct (exists_last Hne) as (ps1 & [k0 v0] & ->).
  rewrite !fmap_app. rewrite !fmap_app in H. cbn [fmap list_fmap fst] in H |- *.
  pose proof (inc_sep (l ++ (code <$> ps1.*1)) k0 k ((code <$> qs.*1) ++ r)) as G.
  rewrite <- !app_assoc in *. cbn [app] in *. apply G. eapply inc_sublist; [|exact H].
  do 2 (apply sublist_app; [done|]). do 2 apply sublist_skip. by apply sublist_cons.
Qed.
Lemma inc_give_first l ps k v y k2 v2 qs r :
  inc (l ++ (code <$> ps.*1) ++ 2 * y :: (code <$> ((k, v) :: (k2, v2) :: qs).*1) ++ r) →
  inc (l ++ (code <$> (ps ++ [(k, v)] : list (Z * RID)).*1) ++ 2 * k2 :: (code <$> ((k2, v2) :: qs : list (Z * RID)).*1) ++ r).
Proof.
  intros H. rewrite !fmap_app. cbn [fmap list_fmap fst] in H |- *.
  pose proof (inc_sep (l ++ (code <$> ps.*1)) k k2 ((code <$> qs.*1) ++ r)) as G.
  rewrite <- !app_assoc in *. cbn [app] in *. apply G. eapply inc_sublist; [|exact H].
  do 2 (apply sublist_app; [done|]). by apply sublist_cons.
Qed.

Lemma leaf_saved_page live parent p ps l d : leaf_is l parent p ps → leaf_saved l d →
  live !! p = Some (encode_leaf l d) → leaf_page live parent p ps.
Proof. intros Hl [Hd _] Hp. exists (encode_leaf l d). by rewrite Hd. Qed.
Lemma leaf_saved_next live p l d : leaf_saved l d → live !! p = Some (encode_leaf l d) →
  next_at live p = Some (Leaf.next_page_id_ l).
Proof.
  intros [Hd _] Hp. unfold next_at. rewrite Hp.
  change (Some (Leaf.next_page_id_ (decode_leaf (encode_leaf l d))) = Some (Leaf.next_page_id_ l)). by rewrite Hd.
Qed.
Lemma leaf_next live p d : live !! p = Some d → next_at live p = Some (Leaf.next_page_id_ (decode_leaf d)).
Proof. intros Hp. unfold next_at. by rewrite Hp. Qed.
Lemma node_saved_page live parent p es nd d : node_is nd parent p es → node_saved nd d →
  live !! p = Some (encode_internal nd d) → node_page live parent p es.
Proof. intros Hn [Hd _] Hp. exists (encode_internal nd d). by rewrite Hd. Qed.

Lemma leaf_left_run a W m pp f p ps0 y q qs :
  pair_ok a m 0 pp f (TLeaf p ps0) y (TLeaf q qs) → 126 < zlen ps0 ≤ 253 → zlen qs = 125 →
  ∃ a' ps' y' qs', run_store (Redistribute q p (fr_id f) (zlen (fr_left f) + 1) true) (mkStore a W m n) =
      Some (Ret tt, mkStore a' ({[fr_id f]} ∪ ({[q]} ∪ ({[p]} ∪ W))) m n) ∧
    reshaped a a' (λ _, True) 0 pp (fr_id f) (both f (TLeaf p ps0) y (TLeaf q qs)) (both f (TLeaf p ps') y' (TLeaf q qs')).
Proof.
  intros Hok Hzp Hzq. destruct (leaf_pair_data _ _ _ _ _ _ _ _ _ Hok) as (xd & yd & Hx & Hy & Hlx & Hly & Hix & Hiy & Hinc).
  destruct (pair_parent _ _ _ _ _ _ _ _ Hok) as (pd & Hpd & Hlp & _ & _ & Hset & _).
  destruct (pair_distinct _ _ _ _ _ _ _ _ Hok) as (Hpq & HpP & HqP). cbn [tid] in *.
  destruct (pair_live _ _ _ _ _ _ _ _ Hok) as (Hvx & Hvy & HvP). cbn [tid] in *.
  destruct Hok as [Ha _ _ Hr Hnd _ _ HL HR _ _ HmP Hmx Hmy]. cbn [tid] in *.
  assert (Hne : ps0 ≠ []) by (intros ->; cbn in Hzp; lia).
  destruct (exists_last Hne) as (ps & [k v] & ->). rewrite length_app in Hzp. cbn [length] in Hzp.
  destruct (leaf_last_page xd yd (fr_id f) p q ps qs Hlx Hly k v Hix Hiy) as
    (s & o & Hex & Hs & Ho & Hns & Hno & Hss & Hso & Hk & Hki);
    [rewrite length_app; cbn; unfold Leaf.capacity; lia|unfold Leaf.capacity; lia|done|].
  destruct (Hset k Hki) as (pn & Hpex & Hps & Hpn).
  destruct (three_written a p q (fr_id f) _ _ _ Ha Hvx Hvy HvP Hpq HpP HqP (proj2 Hss) (proj2 Hso) (proj2 Hps))
    as (Ha3 & Hnum & H3x & H3y & H3P & Hfr & Hkeep).
  eexists _, ps, k, ((k, v) :: qs). split.
  - unfold Redistribute. run_step (apply step_read; [exact Hmy|exact Hy]).
    destruct Hiy as [Hhy _]. change (decode_hdr yd) with (Leaf.hdr (decode_leaf yd)). rewrite Hhy.
    change (IsLeafPage (mkHdr _ _ _ _ _)) with true. cbn iota.
    rewrite run_store_bind, (leaf_move_run _ _ _ _ _ _ _ _ _ _ Hmx Hmy Hx Hy Hex Hss Hso). cbn iota beta.
    rewrite Hk, run_mem. cbv beta.
    apply (set_key_at_run _ _ _ _ _ _ pd pn); [done| |done|done].
    cbn. by rewrite !lookup_insert_ne.
  - apply leaf_pair_reshaped; try done.
    + apply (node_saved_page _ _ _ _ pn pd); [by apply Hpn|done|exact H3P].
    + by eapply leaf_saved_page.
    + by eapply leaf_saved_page.
    + by rewrite (leaf_saved_next _ _ _ _ Hss H3x), (leaf_next _ _ _ Hx), Hns.
    + by rewrite (leaf_saved_next _ _ _ _ Hso H3y), (leaf_next _ _ _ Hy), Hno.
    + unfold leaf_sized, leaf_min, Leaf.default_max_size. lia.
    + unfold leaf_sized, leaf_min, Leaf.default_max_size. cbn [length]. lia.
    + by rewrite <- app_assoc.
    + intros l r. apply inc_give_last. intros ->. cbn in Hzp. lia.
Qed.

Lemma leaf_right_run a W m pp f p ps y q qs0 :
  pair_ok a m 0 pp f (TLeaf p ps) y (TLeaf q qs0) → zlen ps = 125 → 126 < zlen qs0 ≤ 253 →
  ∃ a' ps' y' qs', run_store (Redistribute p q (fr_id f) (zlen (fr_left f)) false) (mkStore a W m n) =
      Some (Ret tt, mkStore a' ({[fr_id f]} ∪ ({[p]} ∪ ({[q]} ∪ W))) m n) ∧
    reshaped a a' (λ _, True) 0 pp (fr_id f) (both f (TLeaf p ps) y (TLeaf q qs0)) (both f (TLeaf p ps') y' (TLeaf q qs')).
Proof.
  intros Hok Hzp Hzq. destruct (leaf_pair_data _ _ _ _ _ _ _ _ _ Hok) as (xd & yd & Hx & Hy & Hlx & Hly & Hix & Hiy & Hinc).
  destruct (pair_parent _ _ _ _ _ _ _ _ Hok) as (pd & Hpd & Hlp & _ & _ & Hset & _).
  destruct (pair_distinct _ _ _ _ _ _ _ _ Hok) as (Hpq & HpP & HqP). cbn [tid] in *.
  destruct (pair_live _ _ _ _ _ _ _ _ Hok) as (Hvx & Hvy & HvP). cbn [tid] in *.
  destruct Hok as [Ha _ _ Hr Hnd _ _ HL HR _ _ HmP Hmx Hmy]. cbn [tid] in *.
  destruct qs0 as [|[k v] [|[k2 v2] qs]]; [cbn in Hzq; lia..|]. cbn [length] in Hzq.
  destruct (leaf_first_page yd xd (fr_id f) p q ps qs Hly Hlx k v k2 v2 Hiy Hix) as
    (s & o & Hex & Hs & Ho & Hns & Hno & Hss & Hso & Hk & Hki);
    [cbn [length]; unfold Leaf.capacity; lia|unfold Leaf.capacity; lia|done|].
  destruct (Hset k2 Hki) as (pn & Hpex & Hps & Hpn).
  destruct (three_written a q p (fr_id f) _ _ _ Ha Hvy Hvx HvP ltac:(done) HqP HpP (proj2 Hss) (proj2 Hso) (proj2 Hps))
    as (Ha3 & Hnum & H3y & H3x & H3P & Hfr & Hkeep).
  eexists _, (ps ++ [(k, v)]), k2, ((k2, v2) :: qs). split.
  - unfold Redistribute. run_step (apply step_read; [exact Hmx|exact Hx]).
    destruct Hix as [Hhx _]. change (decode_hdr xd) with (Leaf.hdr (decode_leaf xd)). rewrite Hhx.
    change (IsLeafPage (mkHdr _ _ _ _ _)) with true. cbn iota.
    rewrite run_store_bind, (leaf_move_run _ _ _ _ _ _ _ _ _ _ Hmy Hmx Hy Hx Hex Hss Hso). cbn iota beta.
    rewrite Hk, run_mem. cbv beta.
    apply (set_key_at_run _ _ _ _ _ _ pd pn); [done| |done|done].
    cbn. by rewrite !lookup_insert_ne.
  - apply leaf_pair_reshaped; try done.
    + intros w ? ? ?. by apply Hfr.
    + apply (node_saved_page _ _ _ _ pn pd); [by apply Hpn|done|exact H3P].
    + by eapply leaf_saved_page.
    + by eapply leaf_saved_page.
    + by rewrite (leaf_saved_next _ _ _ _ Hso H3x), (leaf_next _ _ _ Hx), Hno.
    + by rewrite (leaf_saved_next _ _ _ _ Hss H3y), (leaf_next _ _ _ Hy), Hns.
    + unfold leaf_sized, leaf_min, Leaf.default_max_size. rewrite length_app. cbn [length]. lia.
    + unfold leaf_sized, leaf_min, Leaf.default_max_size. cbn [length]. lia.
    + by rewrite <- app_assoc.
    + intros l r. apply inc_give_first.
Qed.

Lemma leaf_merge_run a W m pp f p ps y q qs :
  pair_ok a m 0 pp f (TLeaf p ps) y (TLeaf q qs) → 126 ≤ zlen ps + zlen qs ≤ 253 →
  ∃ a', run_store (Merge p q (fr_id f) (zlen (fr_left f) + 1)) (mkStore a W m n) =
      Some (Ret tt, mkStore a' ({[fr_id f]} ∪ ({[p]} ∪ ({[q]} ∪ W))) m n) ∧
    reshaped a a' (λ _, True) 0 pp (fr_id f) (both f (TLeaf p ps) y (TLeaf q qs))
      (fr_left f ++ (fr_key f, TLeaf p (ps ++ qs)) :: fr_right f) ∧
    ∀ w, is_Some (al_live a !! w) → is_Some (al_live a' !! w).
Proof.
  intros Hok Hz. destruct (leaf_pair_data _ _ _ _ _ _ _ _ _ Hok) as (xd & yd & Hx & Hy & Hlx & Hly & Hix & Hiy & Hinc).
  destruct (pair_parent _ _ _ _ _ _ _ _ Hok) as (pd & Hpd & Hlp & _ & _ & _ & pn & Hpex & Hps & Hpn).
  destruct (pair_distinct _ _ _ _ _ _ _ _ Hok) as (Hpq & HpP & HqP). cbn [tid] in *.
  destruct (pair_live _ _ _ _ _ _ _ _ Hok) as (Hvx & Hvy & HvP). cbn [tid] in *.
  destruct Hok as [Ha _ _ Hr Hnd _ _ HL HR _ _ HmP Hmx Hmy]. cbn [tid] in *.
  destruct (leaf_all_page yd xd (fr_id f) p q ps qs Hly Hlx Hiy Hix) as (s & o & Hex & Ho & Hno & Hss & Hso);
    [unfold Leaf.capacity; lia|done|].
  destruct (three_written a q p (fr_id f) _ _ _ Ha Hvy Hvx HvP ltac:(done) HqP HpP (proj2 Hss) (proj2 Hso) (proj2 Hps))
    as (Ha3 & Hnum & H3y & H3x & H3P & Hfr & Hkeep).
  eexists _. split; [|split; [|exact Hkeep]].
  - unfold Merge. run_step (apply step_read; [exact Hmx|exact Hx]).
    destruct Hix as [Hhx _]. change (decode_hdr xd) with (Leaf.hdr (decode_leaf xd)). rewrite Hhx.
    change (IsLeafPage (mkHdr _ _ _ _ _)) with true. cbn iota.
    rewrite run_store_bind, (leaf_move_run _ _ _ _ _ _ _ _ _ _ Hmy Hmx Hy Hx Hex Hss Hso). cbn iota beta.
    apply (remove_at_run _ _ _ _ _ pd pn); [done| |done|done].
    cbn. by rewrite !lookup_insert_ne.
  - apply leaf_merge_reshaped; try done.
    + intros w ? ? ?. by apply Hfr.
    + apply (node_saved_page _ _ _ _ pn pd); [by apply Hpn|done|exact H3P].
    + by eapply leaf_saved_page.
    + by rewrite (leaf_saved_next _ _ _ _ Hso H3x), (leaf_next _ _ _ Hy), Hno.
    + unfold leaf_sized, leaf_min, Leaf.default_max_size. rewrite length_app. lia.
Qed.

(** Two internal nodes. *)
Lemma node_pair_data a m g pp f p es1 y q es2 : pair_ok a m (S g) pp f (TNode p es1) y (TNode q es2) →
  ∃ xd yd, al_live a !! p = Some xd ∧ al_live a !! q = Some yd ∧ zlen xd = PAGE_SIZE ∧ zlen yd = PAGE_SIZE ∧
    node_is (decode_internal xd) (fr_id f) p (stub <$> es1) ∧ node_is (decode_internal yd) (fr_id f) q (stub <$> es2) ∧
    u32_ok p ∧ u32_ok q.
Proof.
  intros [Ha _ _ [_ Hc]%repr_children _ _ _ _ _ _ _ _ _ _]. apply both_repr in Hc as (_ & Hp & Hq & _).
  apply repr_children in Hp as [(xd & Hx & Hlx) _], Hq as [(yd & Hy & Hly) _]. exists xd, yd.
  split_and!; try done; try (by eapply ao_len); eapply alloc_ok_id; eauto.
Qed.

(** The whole pair, from its three pages and the children of its two nodes. *)
Lemma node_pair_done a a' a3 m g pp f p es1 y q es2 es1' y' es2' cs d dx dy dz :
  pair_ok a m (S g) pp f (TNode p es1) y (TNode q es2) → alloc_ok a3 → al_num a3 = al_num a →
  (∀ w, w ≠ p → w ≠ q → w ≠ fr_id f → al_live a3 !! w = al_live a !! w) →
  (∀ w, is_Some (al_live a !! w) → is_Some (al_live a3 !! w)) → u32_ok d → adopted d cs a3 a' →
  (∀ w, w ∈ cs → w ∈ ids_of es1 ∨ w ∈ ids_of es2) →
  al_live a3 !! p = Some dx → node_is (decode_internal dx) (fr_id f) p (stub <$> es1') →
  al_live a3 !! q = Some dy → node_is (decode_internal dy) (fr_id f) q (stub <$> es2') →
  al_live a3 !! fr_id f = Some dz →
  node_is (decode_internal dz) pp (fr_id f) (stub <$> both f (TNode p es1') y' (TNode q es2')) →
  Forall (λ e, repr (al_live a') g p e.2) es1' → Forall (λ e, repr (al_live a') g q e.2) es2' →
  node_sized false es1' → node_sized false es2' → snd <$> es1' ++ es2' = snd <$> es1 ++ es2 →
  skel (TNode p es1') ++ 2 * y' :: skel (TNode q es2') = skel (TNode p es1) ++ 2 * y :: skel (TNode q es2) →
  reshaped a a' (λ _, True) (S g) pp (fr_id f) (both f (TNode p es1) y (TNode q es2))
    (both f (TNode p es1') y' (TNode q es2')).
Proof.
  intros [Ha _ _ Hr Hnd _ _ HsL HsR Hkx Hky _ _ _] Ha3 Hnum Hfr Hk Hd Had Hcs Hx Hlx Hy Hly Hz Hlz Hr1 Hr2 Hz1 Hz2 Hsnd Hsk.
  assert (Hself : ∀ w, w = p ∨ w = q ∨ w = fr_id f → al_live a' !! w = al_live a3 !! w).
  { intros w. by apply (node_pair_self a' f p q es1 es2 y Hnd cs d a3 Had Hcs). }
  assert (Hbind : ∀ {X} (F : tree → list X), (es1' ++ es2') ≫= (λ e, F e.2) = (es1 ++ es2) ≫= λ e, F e.2).
  { intros X F. assert (Hb : ∀ l : list (Z * tree), (l ≫= λ e, F e.2) = (snd <$> l) ≫= F).
    { induction l as [|e l IH]; [done|]. cbn. by rewrite IH. }
    by rewrite !Hb, Hsnd. }
  assert (Hall : Forall (λ e, sized false g e.2) (es1' ++ es2')).
  { cbn [kids_sized] in Hkx, Hky. assert (Hs : Forall (sized false g) (snd <$> es1 ++ es2)).
    { apply Forall_fmap, Forall_app. by split. }
    rewrite <- Hsnd in Hs. exact (proj1 (Forall_fmap _ _ _) Hs). }
  apply Forall_app in Hall as [Hk1 Hk2].
  destruct (node_sides a a' g pp f p q es1 es2 y Hr Hnd cs d a3 Hfr Had Hcs) as [HL HR].
  apply (node_pair_reshaped a a' g pp f p q es1 es2 y Hnd cs d a3); try done.
  - exists dz. by rewrite Hself by tauto.
  - apply both_repr. split_and!; [done|apply (repr_children _ _ (fr_id f))..|done]; (split; [|done]).
    + exists dx. by rewrite Hself by tauto.
    + exists dy. by rewrite Hself by tauto.
  - apply (both_forall _ _ _ _ (sized false (S g))). by split_and!.
  - cbn [leaves]. change (?l ≫= _) with (leaves_of l). rewrite !leaves_both. f_equal.
    rewrite !(app_assoc (leaves _)). f_equal. cbn [leaves]. rewrite <- !bind_app. apply Hbind.
  - rewrite !skel_both, !app_comm_cons, !app_assoc. f_equal. rewrite <- !app_assoc. f_equal. exact Hsk.
  - exists []. cbn [app ids]. change (both ?f ?a ?b ?c ≫= _) with (ids_of (both f a b c)). rewrite !ids_both.
    cbn [ids]. rewrite !app_assoc. apply Permutation_app_tail.
    assert (Hi : (es1' ≫= λ e, ids e.2) ++ (es2' ≫= λ e, ids e.2) = (es1 ≫= λ e, ids e.2) ++ (es2 ≫= λ e, ids e.2)).
    { rewrite <- !bind_app. apply Hbind. }
    rewrite <- !app_comm_cons, <- !Permutation_middle. by rewrite Hi.
Qed.

Lemma skel_join p q es1 k k0 c es2 : es1 ≠ [] →
  skel (TNode p (es1 ++ (k, c) :: es2)) = skel (TNode p es1) ++ 2 * k :: skel (TNode q ((k0, c) :: es2)).
Proof. intros Hne. destruct es1 as [|e es1]; [done|]. by rewrite (skel_split p q). Qed.
Lemma stub_ids e es : e ∈ es → tid e.2 ∈ ids_of es.
Proof. intros He. by eapply elem_of_ids_of, tid_ids. Qed.

Lemma node_not_leaf d pp p es : node_is (decode_internal d) pp p es → IsLeafPage (decode_hdr d) = false.
Proof. intros [Hh _]. change (decode_hdr d) with (Internal.hdr (decode_internal d)). by rewrite Hh. Qed.

(** *** What the code does on the three pages of two internal nodes and their parent

    [x] gives to, or is merged with, [y]; the child that moved is adopted last. *)
Section node_pages.
Context a W m (x y P : page_id_t) (xd yd pd : list byte) (pn s o : Internal.BPlusTreeInternalPage).
Hypothesis (Hmx : is_Some (m !! x)) (Hmy : is_Some (m !! y)) (HmP : is_Some (m !! P)).
Hypothesis (Hx : al_live a !! x = Some xd) (Hy : al_live a !! y = Some yd) (Hpd : al_live a !! P = Some pd).
Hypothesis (HxP : x ≠ P) (HyP : y ≠ P).
Hypothesis (Hss : node_saved s xd) (Hso : node_saved o yd) (Hps : node_saved pn pd).
Hypothesis (Hh : IsLeafPage (decode_hdr yd) = false).

Definition pages_written : store :=
  mkStore (set_live P (encode_internal pn pd) (set_live y (encode_internal o yd) (set_live x (encode_internal s xd) a)))
    ({[P]} ∪ ({[y]} ∪ ({[x]} ∪ W))) m n.
Lemma third_set i key : Internal.SetKeyAt i key (decode_internal pd) = Some pn →
  run_store (set_key_at P i key) (mkStore (set_live y (encode_internal o yd) (set_live x (encode_internal s xd) a))
    ({[y]} ∪ ({[x]} ∪ W)) m n) = Some (Ret tt, pages_written).
Proof using HmP Hpd HxP HyP Hps. intros Hex. apply set_key_at_run; try done. cbn. by rewrite !lookup_insert_ne. Qed.

Lemma left_pages i key sep c : Internal.KeyAt (decode_internal pd) i = Some key →
  Internal.KeyAt (decode_internal xd) (size_ (Internal.hdr (decode_internal xd)) - 1) = Some sep →
  Internal.MoveLastToFrontOf key (decode_internal xd) (decode_internal yd) = Some (s, o) →
  Internal.SetKeyAt i sep (decode_internal pd) = Some pn → Internal.ValueAt o 0 = Some c →
  run_store (Redistribute y x P i true) (mkStore a W m n) =
    run_store (adopt_child (page_id_ (Internal.hdr o)) c) pages_written.
Proof using All.
  intros Hk Hsep Hex Hset Hv. unfold Redistribute. run_step (apply step_read; [exact Hmy|exact Hy]).
  rewrite Hh. cbn iota. rewrite run_store_bind, (key_at_run _ _ _ _ _ _ _ HmP Hpd Hk). cbn iota beta.
  run_step (apply step_read; [exact Hmx|exact Hx]). cbv zeta. rewrite Hsep, run_mem. cbv beta.
  rewrite run_store_bind, (internal_move_run _ _ _ _ _ _ _ _ _ _ Hmx Hmy Hx Hy Hex Hss Hso). cbn iota beta.
  rewrite run_store_bind, (third_set _ _ Hset). cbn iota beta. by rewrite Hv, run_mem.
Qed.
Lemma right_pages i key sep c : Internal.KeyAt (decode_internal pd) (i + 1) = Some key →
  Internal.KeyAt (decode_internal xd) 1 = Some sep →
  Internal.MoveFirstToEndOf key (decode_internal xd) (decode_internal yd) = Some (s, o) →
  Internal.SetKeyAt (i + 1) sep (decode_internal pd) = Some pn →
  Internal.ValueAt o (size_ (Internal.hdr o) - 1) = Some c →
  run_store (Redistribute y x P i false) (mkStore a W m n) =
    run_store (adopt_child (page_id_ (Internal.hdr o)) c) pages_written.
Proof using All.
  intros Hk Hsep Hex Hset Hv. unfold Redistribute. run_step (apply step_read; [exact Hmy|exact Hy]).
  rewrite Hh. cbn iota. rewrite run_store_bind, (key_at_run _ _ _ _ _ _ _ HmP Hpd Hk). cbn iota beta.
  run_step (apply step_read; [exact Hmx|exact Hx]). rewrite Hsep, run_mem. cbv beta.
  rewrite run_store_bind, (internal_move_run _ _ _ _ _ _ _ _ _ _ Hmx Hmy Hx Hy Hex Hss Hso). cbn iota beta.
  rewrite run_store_bind, (third_set _ _ Hset). cbn iota beta. by rewrite Hv, run_mem.
Qed.
Lemma merge_pages i key cs : Internal.KeyAt (decode_internal pd) i = Some key →
  Internal.MoveAllTo key (decode_internal xd) (decode_internal yd) = Some (s, o) → child_ids o = Some cs →
  run_store (Merge y x P i) (mkStore a W m n) =
    run_store (_ ← adopt_children (page_id_ (Internal.hdr o)) cs; remove_at P i)
      (mkStore (set_live y (encode_internal o yd) (set_live x (encode_internal s xd) a)) ({[y]} ∪ ({[x]} ∪ W)) m n).
Proof using Hmx Hmy HmP Hx Hy Hpd Hss Hso Hh.
  intros Hk Hex Hcs. unfold Merge. run_step (apply step_read; [exact Hmy|exact Hy]).
  rewrite Hh. cbn iota. rewrite run_store_bind, (key_at_run _ _ _ _ _ _ _ HmP Hpd Hk). cbn iota beta.
  rewrite run_store_bind, (internal_move_run _ _ _ _ _ _ _ _ _ _ Hmx Hmy Hx Hy Hex Hss Hso). cbn iota beta.
  by rewrite Hcs, run_mem.
Qed.
End node_pages.

Lemma node_left_run a W m g pp f p es0 y q es2 :
  pair_ok a m (S g) pp f (TNode p es0) y (TNode q es2) → 169 < zlen es0 ≤ 338 → zlen es2 = 168 →
  ∃ a' W' es1' y' es2', run_store (Redistribute q p (fr_id f) (zlen (fr_left f) + 1) true) (mkStore a W m n) =
      Some (Ret tt, mkStore a' W' m n) ∧ W' ⊆ {[fr_id f]} ∪ ({[q]} ∪ ({[p]} ∪ W)) ∧
    reshaped a a' (λ _, True) (S g) pp (fr_id f) (both f (TNode p es0) y (TNode q es2)) (both f (TNode p es1') y' (TNode q es2')).
Proof.
  intros Hok Hzp Hzq. destruct (node_pair_data _ _ _ _ _ _ _ _ _ _ Hok) as (xd & yd & Hx & Hy & Hlx & Hly & Hix & Hiy & Hup & Huq).
  destruct (pair_parent _ _ _ _ _ _ _ _ Hok) as (pd & Hpd & Hlp & Hky & Hyi & Hset & _).
  destruct (pair_distinct _ _ _ _ _ _ _ _ Hok) as (Hpq & HpP & HqP). cbn [tid] in *.
  destruct (pair_live _ _ _ _ _ _ _ _ Hok) as (Hvx & Hvy & HvP). cbn [tid] in *.
  pose proof Hok as [Ha Hpins Hroom Hr Hnd _ _ HL HR Hsx Hsy HmP Hmx Hmy]. cbn [tid kids_sized] in *.
  assert (Hne : es0 ≠ []) by (intros ->; cbn in Hzp; lia).
  destruct (exists_last Hne) as (es1 & [kc c] & ->). rewrite length_app in Hzp. cbn [length] in Hzp.
  destruct es2 as [|[k0 c0] es2]; [cbn in Hzq; lia|]. cbn [length] in Hzq.
  rewrite fmap_app in Hix. change (stub <$> [(kc, c)]) with [(kc, tid c)] in Hix.
  change (stub <$> (k0, c0) :: es2) with ((k0, tid c0) :: (stub <$> es2)) in Hiy.
  destruct (node_last_page xd yd (fr_id f) p q (stub <$> es1) (stub <$> es2) y Hlx Hly Hyi kc (tid c) k0 (tid c0) Hix Hiy)
    as (s & o & Hex & Hs & Ho & Hss & Hso & Hk & Hki & Hv);
    [rewrite length_app, length_fmap; cbn; unfold Internal.capacity; lia|cbn; rewrite length_fmap; unfold Internal.capacity; lia|].
  destruct (Hset kc Hki) as (pn & Hpex & Hps & Hpn).
  destruct (three_written a p q (fr_id f) _ _ _ Ha Hvx Hvy HvP Hpq HpP HqP (proj2 Hss) (proj2 Hso) (proj2 Hps))
    as (Ha3 & Hnum & H3x & H3y & H3P & Hfr & Hkeep).
  set (a3 := set_live (fr_id f) _ _) in *.
  assert (Hce : (kc, c) ∈ es1 ++ [(kc, c)]) by (apply elem_of_app; right; by left).
  assert (Hcin : ∀ w, w ∈ [tid c] → w ∈ ids_of (es1 ++ [(kc, c)]) ∨ w ∈ ids_of ((k0, c0) :: es2)).
  { intros w ->%list_elem_of_singleton. left. exact (stub_ids _ _ Hce). }
  destruct (node_kids a g pp f p q _ _ y Hr) as [HrX HrY].
  assert (Hlc : is_Some (al_live a3 !! tid c)).
  { apply Hkeep. eapply reprs_live; [exact HrX|exact (stub_ids _ _ Hce)]. }
  destruct (adopt_child_run n a3 ({[fr_id f]} ∪ ({[q]} ∪ ({[p]} ∪ W))) m (tid c) q Ha3
    (pins_ok_mono _ _ _ Hpins Hkeep) Hroom Hlc Huq) as (a' & W' & Hrun & Had & HW').
  exists a', W', es1, kc, ((k0, c) :: (y, c0) :: es2). split; [|split; [done|]].
  - rewrite <- Hrun. destruct Ho as [Hho _]. replace q with (page_id_ (Internal.hdr o)) at 2 by by rewrite Hho.
    eapply (left_pages a W m p q (fr_id f)); try done; [by eapply node_not_leaf|].
    rewrite (node_sz _ _ _ _ Hix), length_app. cbn [length]. rewrite <- Hk. f_equal. lia.
  - apply Forall_app in HrX as [Hr1 [Hrc _]%Forall_cons]. apply Forall_cons in HrY as [Hr0 Hr2].
    destruct (carry_pair a a' g f p q _ _ y Hnd [tid c] q a3 Ha Huq Hfr Had p c es1 ((y, c0) :: es2))
      as (Hrc' & Hr1' & Hr2'); [done| |done..|by apply Forall_cons|].
    { unfold ids_of. rewrite bind_app, !bind_cons. cbn [mbind list_bind snd]. solve_Permutation. }
    eapply (node_pair_done a a' a3 m g pp f p _ y q _ es1 kc _ [tid c] q (encode_internal s xd) (encode_internal o yd)
      (encode_internal pn pd) Hok); try done.
    + by rewrite (proj1 Hss).
    + by rewrite (proj1 Hso).
    + rewrite (proj1 Hps). by apply Hpn.
    + by apply Forall_cons.
    + unfold node_sized, node_min, Internal.default_max_size. lia.
    + unfold node_sized, node_min, Internal.default_max_size. cbn [length]. lia.
    + by rewrite <- app_assoc, !fmap_app.
    + assert (es1 ≠ []) by (intros ->; cbn in Hzp; lia).
      rewrite (skel_join p q es1 kc k0) by done. change ((k0, c) :: ?l) with ([(k0, c)] ++ l).
      rewrite (skel_join q q [(k0, c)] y k0) by done. by rewrite <- app_assoc.
Qed.

Lemma node_right_run a W m g pp f p es1 y q es0 :
  pair_ok a m (S g) pp f (TNode p es1) y (TNode q es0) → zlen es1 = 168 → 169 < zlen es0 ≤ 338 →
  ∃ a' W' es1' y' es2', run_store (Redistribute p q (fr_id f) (zlen (fr_left f)) false) (mkStore a W m n) =
      Some (Ret tt, mkStore a' W' m n) ∧ W' ⊆ {[fr_id f]} ∪ ({[p]} ∪ ({[q]} ∪ W)) ∧
    reshaped a a' (λ _, True) (S g) pp (fr_id f) (both f (TNode p es1) y (TNode q es0)) (both f (TNode p es1') y' (TNode q es2')).
Proof.
  intros Hok Hzp Hzq. destruct (node_pair_data _ _ _ _ _ _ _ _ _ _ Hok) as (xd & yd & Hx & Hy & Hlx & Hly & Hix & Hiy & Hup & Huq).
  destruct (pair_parent _ _ _ _ _ _ _ _ Hok) as (pd & Hpd & Hlp & Hky & Hyi & Hset & _).
  destruct (pair_distinct _ _ _ _ _ _ _ _ Hok) as (Hpq & HpP & HqP). cbn [tid] in *.
  destruct (pair_live _ _ _ _ _ _ _ _ Hok) as (Hvx & Hvy & HvP). cbn [tid] in *.
  pose proof Hok as [Ha Hpins Hroom Hr Hnd _ _ HL HR Hsx Hsy HmP Hmx Hmy]. cbn [tid kids_sized] in *.
  destruct es0 as [|[k0 c] [|[k1 c1] es2]]; [cbn in Hzq; lia..|]. cbn [length] in Hzq.
  change (stub <$> (k0, c) :: (k1, c1) :: es2) with ((k0, tid c) :: (k1, tid c1) :: (stub <$> es2)) in Hiy.
  destruct (node_first_page yd xd (fr_id f) p q (stub <$> es1) (stub <$> es2) y Hly Hlx Hyi k0 (tid c) k1 (tid c1) Hiy Hix)
    as (s & o & Hex & Hs & Ho & Hss & Hso & Hk & Hki & Hv);
    [cbn; rewrite length_fmap; unfold Internal.capacity; lia|rewrite length_fmap; unfold Internal.capacity; lia|].
  destruct (Hset k1 Hki) as (pn & Hpex & Hps & Hpn).
  destruct (three_written a q p (fr_id f) _ _ _ Ha Hvy Hvx HvP ltac:(done) HqP HpP (proj2 Hss) (proj2 Hso) (proj2 Hps))
    as (Ha3 & Hnum & H3y & H3x & H3P & Hfr & Hkeep).
  set (a3 := set_live (fr_id f) _ _) in *.
  assert (Hfr' : ∀ w, w ≠ p → w ≠ q → w ≠ fr_id f → al_live a3 !! w = al_live a !! w) by (intros; by apply Hfr).
  destruct (node_kids a g pp f p q _ _ y Hr) as [HrX HrY].
  apply Forall_cons in HrY as [Hrc Hr2].
  assert (Hlc : is_Some (al_live a3 !! tid c)) by (apply Hkeep; eapply repr_live; [exact Hrc|apply tid_ids]).
  destruct (adopt_child_run n a3 ({[fr_id f]} ∪ ({[p]} ∪ ({[q]} ∪ W))) m (tid c) p Ha3
    (pins_ok_mono _ _ _ Hpins Hkeep) Hroom Hlc Hup) as (a' & W' & Hrun & Had & HW').
  exists a', W', (es1 ++ [(y, c)]), k1, ((k1, c1) :: es2). split; [|split; [done|]].
  - rewrite <- Hrun. pose proof Ho as [Hho _]. replace p with (page_id_ (Internal.hdr o)) at 2 by by rewrite Hho.
    eapply (right_pages a W m q p (fr_id f)); try done; [by eapply node_not_leaf|].
    rewrite (node_sz _ _ _ _ Ho), length_app. cbn [length]. rewrite <- Hv. f_equal. lia.
  - destruct (carry_pair a a' g f p q _ _ y Hnd [tid c] p a3 Ha Hup Hfr' Had q c es1 ((k1, c1) :: es2))
      as (Hrc' & Hr1' & Hr2'); [done| |done..|].
    { unfold ids_of. rewrite !bind_cons. cbn [snd]. solve_Permutation. }
    eapply (node_pair_done a a' a3 m g pp f p _ y q _ (es1 ++ [(y, c)]) k1 _ [tid c] p (encode_internal o xd) (encode_internal s yd)
      (encode_internal pn pd) Hok); try done.
    + intros w ->%list_elem_of_singleton. right. apply (stub_ids (k0, c)). by left.
    + rewrite (proj1 Hso). by rewrite fmap_app.
    + by rewrite (proj1 Hss).
    + rewrite (proj1 Hps). by apply Hpn.
    + apply Forall_app. split; [done|]. by apply Forall_singleton.
    + unfold node_sized, node_min, Internal.default_max_size. rewrite length_app. cbn [length]. lia.
    + unfold node_sized, node_min, Internal.default_max_size. cbn [length]. lia.
    + by rewrite <- app_assoc, !fmap_app.
    + assert (es1 ≠ []) by (intros ->; cbn in Hzp; lia).
      rewrite (skel_join p q es1 y k0) by done. change ((k0, c) :: ?l) with ([(k0, c)] ++ l).
      rewrite (skel_join q q [(k0, c)] k1 k1) by done. by rewrite <- app_assoc.
Qed.

(** The node that takes over the entries of its right sibling, as pages and as a tree. *)
Lemma node_merge_done a a' a3 m g pp f p es1 y q k0 c0 es2 cs dx dz : let es := es1 ++ (y, c0) :: es2 in
  pair_ok a m (S g) pp f (TNode p es1) y (TNode q ((k0, c0) :: es2)) → alloc_ok a3 → al_num a3 = al_num a →
  (∀ w, w ≠ p → w ≠ q → w ≠ fr_id f → al_live a3 !! w = al_live a !! w) →
  (∀ w, is_Some (al_live a !! w) → is_Some (al_live a3 !! w)) → adopted p cs a3 a' → cs = (stub <$> es).*2 →
  (∀ w, w ∈ cs → w ∈ ids_of es1 ∨ w ∈ ids_of ((k0, c0) :: es2)) →
  al_live a3 !! p = Some dx → node_is (decode_internal dx) (fr_id f) p (stub <$> es) →
  al_live a3 !! fr_id f = Some dz →
  node_is (decode_internal dz) pp (fr_id f) (stub <$> fr_left f ++ (fr_key f, TNode p es) :: fr_right f) →
  node_sized false es → es1 ≠ [] → q :: ids (TNode p es) ≡ₚ ids (TNode p es1) ++ ids (TNode q ((k0, c0) :: es2)) →
  reshaped a a' (λ _, True) (S g) pp (fr_id f) (both f (TNode p es1) y (TNode q ((k0, c0) :: es2)))
    (fr_left f ++ (fr_key f, TNode p es) :: fr_right f).
Proof.
  intros es Hok Ha3 Hnum Hfr Hk Had Hcs Hsub Hx Hlx Hz Hlz Hsz Hne Hids.
  destruct (node_pair_data _ _ _ _ _ _ _ _ _ _ Hok) as (_ & _ & _ & _ & _ & _ & _ & _ & Hup & _).
  pose proof Hok as [Ha _ _ Hr Hnd _ _ HL HR Hsx Hsy _ _ _]. cbn [kids_sized] in *.
  destruct (node_kids a g pp f p q _ _ y Hr) as [HrX HrY].
  assert (Hself : ∀ w, w = p ∨ w = q ∨ w = fr_id f → al_live a' !! w = al_live a3 !! w).
  { intros w. by apply (node_pair_self a' f p q _ _ y Hnd cs p a3 Had). }
  destruct (node_sides a a' g pp f p q _ _ y Hr Hnd cs p a3 Hfr Had Hsub) as [HL' HR'].
  apply (node_pair_reshaped a a' g pp f p q _ _ y Hnd cs p a3); try done.
  - exists dz. by rewrite Hself by tauto.
  - apply fill_repr. split_and!; [done| |done]. apply (repr_children _ _ (fr_id f)). split.
    + exists dx. by rewrite Hself by tauto.
    + apply (merge_kids (al_live a) (al_live a') g p q es1 k0 y c0 es2 Hup (ao_len _ Ha)); [|..|done|done].
      * exact (node_kids_nodup f p q _ _ y Hnd).
      * intros w Hw. destruct (node_kid f p q _ _ y Hnd w Hw) as (? & ? & ?). subst cs.
        by apply (node_pair_live a a' f p q _ p a3 Hfr Had).
  - apply (fill_forall f _ (sized false (S g))). split_and!; [done| |done]. cbn [sized]. split; [exact Hsz|].
    apply Forall_app. split; [done|]. apply Forall_cons in Hsy as [? ?]. by apply Forall_cons.
  - change (TNode _ (_ ++ _ :: _)) with (plug [f] (TNode p es)). rewrite leaves_plug. cbn [ctx_l ctx_r leaves app].
    change (both ?f ?a ?b ?c ≫= _) with (leaves_of (both f a b c)). rewrite leaves_both, app_nil_r. cbn [leaves].
    unfold es. rewrite bind_app, <- app_assoc. done.
  - change (TNode _ (_ ++ _ :: _)) with (fill (TNode p es) f). rewrite skel_fill, skel_both.
    unfold es. by rewrite (skel_join p q es1 y k0), <- app_assoc.
  - exists [q]. change (TNode _ (_ ++ _ :: _)) with (fill (TNode p es) f). rewrite ids_fill.
    change (ids (TNode (fr_id f) ?l)) with (fr_id f :: ids_of l). rewrite ids_both, (app_assoc (ids (TNode p es1))), <- Hids.
    done.
Qed.

Lemma node_merge_run a W m g pp f p es1 y q es0 :
  pair_ok a m (S g) pp f (TNode p es1) y (TNode q es0) → 169 ≤ zlen es1 + zlen es0 ≤ 338 → 0 < zlen es1 → 0 < zlen es0 →
  ∃ a' W' es1', run_store (Merge p q (fr_id f) (zlen (fr_left f) + 1)) (mkStore a W m n) =
      Some (Ret tt, mkStore a' W' m n) ∧ W' ⊆ {[fr_id f]} ∪ ({[p]} ∪ ({[q]} ∪ W)) ∧
    reshaped a a' (λ _, True) (S g) pp (fr_id f) (both f (TNode p es1) y (TNode q es0))
      (fr_left f ++ (fr_key f, TNode p es1') :: fr_right f) ∧
    (∀ w, is_Some (al_live a !! w) → is_Some (al_live a' !! w)) ∧
    q :: ids (TNode p es1') ≡ₚ ids (TNode p es1) ++ ids (TNode q es0).
Proof.
  intros Hok Hz Hzp Hzq. destruct (node_pair_data _ _ _ _ _ _ _ _ _ _ Hok) as (xd & yd & Hx & Hy & Hlx & Hly & Hix & Hiy & Hup & Huq).
  destruct (pair_parent _ _ _ _ _ _ _ _ Hok) as (pd & Hpd & Hlp & Hky & Hyi & _ & pn & Hpex & Hps & Hpn).
  destruct (pair_distinct _ _ _ _ _ _ _ _ Hok) as (Hpq & HpP & HqP). cbn [tid] in *.
  destruct (pair_live _ _ _ _ _ _ _ _ Hok) as (Hvx & Hvy & HvP). cbn [tid] in *.
  pose proof Hok as [Ha Hpins Hroom Hr Hnd _ _ HL HR Hsx Hsy HmP Hmx Hmy]. cbn [tid kids_sized] in *.
  destruct es0 as [|[k0 c0] es2]; [cbn in Hzq; lia|]. cbn [length] in Hz.
  change (stub <$> (k0, c0) :: es2) with ((k0, tid c0) :: (stub <$> es2)) in Hiy.
  destruct (node_all_page yd xd (fr_id f) p q (stub <$> es1) (stub <$> es2) y Hly Hlx Hyi k0 (tid c0) Hiy Hix)
    as (s & o & Hex & Ho & Hss & Hso & Hch); [cbn; rewrite !length_fmap; unfold Internal.capacity; lia|].
  destruct (three_written a q p (fr_id f) _ _ _ Ha Hvy Hvx HvP ltac:(done) HqP HpP (proj2 Hss) (proj2 Hso) (proj2 Hps))
    as (Ha3 & Hnum & H3y & H3x & H3P & Hfr & Hkeep).
  set (a2 := set_live p (encode_internal o xd) (set_live q (encode_internal s yd) a)) in *.
  set (a3 := set_live (fr_id f) _ _) in *.
  assert (Hfr' : ∀ w, w ≠ p → w ≠ q → w ≠ fr_id f → al_live a3 !! w = al_live a !! w) by (intros; by apply Hfr).
  assert (Hk2 : ∀ w, is_Some (al_live a !! w) → is_Some (al_live a2 !! w)).
  { intros w Hw. cbn. rewrite !lookup_insert. repeat case_decide; eauto. }
  assert (Ha2 : alloc_ok a2).
  { apply set_live_ok; [apply set_live_ok; [done..|apply Hss]| |apply Hso]. cbn. by rewrite lookup_insert_ne. }
  destruct (node_kids a g pp f p q _ _ y Hr) as [HrX HrY].
  set (es := es1 ++ (y, c0) :: es2). set (cs := (stub <$> es).*2).
  assert (Hsub : ∀ w, w ∈ cs → w ∈ ids_of es1 ∨ w ∈ ids_of ((k0, c0) :: es2)).
  { intros w Hw%ids_stub. unfold es, ids_of in Hw. rewrite bind_app, elem_of_app in Hw. exact Hw. }
  destruct (adopt_children_run n a2 ({[p]} ∪ ({[q]} ∪ W)) m cs p Ha2 (pins_ok_mono _ _ _ Hpins Hk2) Hroom)
    as (a4 & W4 & Hrun & Had2 & HW4); [|eapply sublist_NoDup; [|apply roots_submseteq]|done|].
  { intros w [Hw|Hw]%Hsub; apply Hk2; eapply reprs_live; [exact HrX|exact Hw|exact HrY|exact Hw]. }
  { unfold es, ids_of. rewrite bind_app. exact (node_kids_nodup f p q _ _ y Hnd). }
  assert (HPcs : fr_id f ∉ cs) by (intros Hw%Hsub%(node_kid f p q _ _ y Hnd); tauto).
  assert (HP4 : al_live a4 !! fr_id f = Some pd).
  { rewrite (ad_live _ _ _ _ Had2), decide_False by done. cbn. by rewrite !lookup_insert_ne. }
  pose proof (adopted_write p cs a2 a4 (fr_id f) _ Had2 HPcs (Hk2 _ HvP) (proj2 Hps)) as Had. fold a3 in Had.
  set (a' := set_live (fr_id f) (encode_internal pn pd) a4) in *.
  assert (Hids : q :: ids (TNode p es) ≡ₚ ids (TNode p es1) ++ ids (TNode q ((k0, c0) :: es2))).
  { cbn [ids]. unfold es. rewrite bind_app, !bind_cons. cbn [snd]. solve_Permutation. }
  exists a', ({[fr_id f]} ∪ W4), es. split; [|split; [clear -HW4; set_solver|split; [|split; [|exact Hids]]]].
  - erewrite (merge_pages a W m q p (fr_id f)); try done; [|by eapply node_not_leaf].
    destruct Ho as [Ho _]. rewrite Ho. cbn [page_id_].
    replace (((stub <$> es1) ++ _).*2) with cs by (unfold cs, es; by rewrite (fmap_app stub)).
    fold a2. rewrite run_store_bind, Hrun. cbn iota beta. by apply (remove_at_run _ _ _ _ _ pd pn).
  - apply (node_merge_done a a' a3 m g pp f p es1 y q k0 c0 es2 cs (encode_internal o xd) (encode_internal pn pd) Hok);
      try done.
    + rewrite (proj1 Hso). unfold es. by rewrite fmap_app.
    + rewrite (proj1 Hps). by apply Hpn.
    + unfold node_sized, node_min, Internal.default_max_size, es. rewrite length_app. cbn [length]. lia.
    + intros ->. cbn in Hzp. lia.
  - intros w Hw%Hkeep. rewrite (ad_live _ _ _ _ Had). case_decide; [by apply fmap_is_Some|done].
Qed.

(** *** At any height *)
Lemma redistribute_left_run a W m h pp f tx y ty : pair_ok a m h pp f tx y ty →
  half h < tsize tx ≤ full h → tsize ty = half h - 1 →
  ∃ a' W' tx' y' ty', run_store (Redistribute (tid ty) (tid tx) (fr_id f) (zlen (fr_left f) + 1) true) (mkStore a W m n) =
      Some (Ret tt, mkStore a' W' m n) ∧ W' ⊆ W ∪ {[fr_id f; tid tx; tid ty]} ∧
    reshaped a a' (λ _, True) h pp (fr_id f) (both f tx y ty) (both f tx' y' ty').
Proof.
  intros Hok Hx Hy. pose proof (po_x _ _ _ _ _ _ _ _ Hok) as Hkx. pose proof (po_y _ _ _ _ _ _ _ _ Hok) as Hky.
  destruct h as [|g], tx as [p ps|p es1]; try done; destruct ty as [q qs|q es2]; try done; cbn [tid tsize half full] in *.
  - destruct (leaf_left_run a W m pp f p ps y q qs Hok Hx ltac:(lia)) as (a' & ps' & y' & qs' & Hrun & Hre).
    exists a', ({[fr_id f]} ∪ ({[q]} ∪ ({[p]} ∪ W))), (TLeaf p ps'), y', (TLeaf q qs'). split; [exact Hrun|split; [clear; set_solver|exact Hre]].
  - destruct (node_left_run a W m g pp f p es1 y q es2 Hok Hx ltac:(lia)) as (a' & W' & es1' & y' & es2' & Hrun & HW & Hre).
    exists a', W', (TNode p es1'), y', (TNode q es2'). split; [exact Hrun|split; [clear -HW; set_solver|exact Hre]].
Qed.
Lemma redistribute_right_run a W m h pp f tx y ty : pair_ok a m h pp f tx y ty →
  tsize tx = half h - 1 → half h < tsize ty ≤ full h →
  ∃ a' W' tx' y' ty', run_store (Redistribute (tid tx) (tid ty) (fr_id f) (zlen (fr_left f)) false) (mkStore a W m n) =
      Some (Ret tt, mkStore a' W' m n) ∧ W' ⊆ W ∪ {[fr_id f; tid tx; tid ty]} ∧
    reshaped a a' (λ _, True) h pp (fr_id f) (both f tx y ty) (both f tx' y' ty').
Proof.
  intros Hok Hx Hy. pose proof (po_x _ _ _ _ _ _ _ _ Hok) as Hkx. pose proof (po_y _ _ _ _ _ _ _ _ Hok) as Hky.
  destruct h as [|g], tx as [p ps|p es1]; try done; destruct ty as [q qs|q es2]; try done; cbn [tid tsize half full] in *.
  - destruct (leaf_right_run a W m pp f p ps y q qs Hok ltac:(lia) Hy) as (a' & ps' & y' & qs' & Hrun & Hre).
    exists a', ({[fr_id f]} ∪ ({[p]} ∪ ({[q]} ∪ W))), (TLeaf p ps'), y', (TLeaf q qs'). split; [exact Hrun|split; [clear; set_solver|exact Hre]].
  - destruct (node_right_run a W m g pp f p es1 y q es2 Hok ltac:(lia) Hy) as (a' & W' & es1' & y' & es2' & Hrun & HW & Hre).
    exists a', W', (TNode p es1'), y', (TNode q es2'). split; [exact Hrun|split; [clear -HW; set_solver|exact Hre]].
Qed.
Lemma merge_run a W m h pp f tx y ty : pair_ok a m h pp f tx y ty →
  half h ≤ tsize tx + tsize ty ≤ full h → 0 < tsize tx → 0 < tsize ty →
  ∃ a' W' t, run_store (Merge (tid tx) (tid ty) (fr_id f) (zlen (fr_left f) + 1)) (mkStore a W m n) =
      Some (Ret tt, mkStore a' W' m n) ∧ W' ⊆ W ∪ {[fr_id f; tid tx; tid ty]} ∧
    reshaped a a' (λ _, True) h pp (fr_id f) (both f tx y ty) (fr_left f ++ (fr_key f, t) :: fr_right f) ∧
    (∀ w, is_Some (al_live a !! w) → is_Some (al_live a' !! w)) ∧ tid ty :: ids t ≡ₚ ids tx ++ ids ty.
Proof.
  intros Hok Hz Hx Hy. pose proof (po_x _ _ _ _ _ _ _ _ Hok) as Hkx. pose proof (po_y _ _ _ _ _ _ _ _ Hok) as Hky.
  destruct h as [|g], tx as [p ps|p es1]; try done; destruct ty as [q qs|q es2]; try done; cbn [tid tsize half full] in *.
  - destruct (leaf_merge_run a W m pp f p ps y q qs Hok Hz) as (a' & Hrun & Hre & Hk).
    exists a', ({[fr_id f]} ∪ ({[p]} ∪ ({[q]} ∪ W))), (TLeaf p (ps ++ qs)).
    split_and!; [exact Hrun|clear; set_solver|exact Hre|exact Hk|]. cbn [ids app]. by rewrite Permutation_swap.
  - destruct (node_merge_run a W m g pp f p es1 y q es2 Hok Hz Hx Hy) as (a' & W' & es1' & Hrun & HW & Hre & Hk & Hi).
    exists a', W', (TNode p es1'). split_and!; [exact Hrun|clear -HW; set_solver|exact Hre|exact Hk|exact Hi].
Qed.

End runs.
