(* ===== verification/BPlusTreeDelete.v ===== *)
(** Deletion from a B+ tree: [HandleUnderflow] along the path to the root, and
    [Delete] on a whole tree. *)
From Stdlib Require Import ZArith Lia.
From Stdlib Require Strings.Byte.
From stdpp Require Import base list gmap sorting.
From S2P Require Import Prelude Types DiskManager Replacer BufferPool PageStore BPlusTreePage BPlusTreeLayout BPlusTree BPlusTreeRep BPlusTreeLookup BPlusTreeSplit BPlusTreeInsert BPlusTreeMerge BPlusTreeSiblings.
Open Scope Z_scope.

(** ** Trees with one node that may be too small *)

(** The tree with the node [t] below the context [C], whatever the size of [t]. *)
Record cut (live : gmap page_id_t (list byte)) (h : nat) (C : list frame) (parent : page_id_t) (t : tree) : Prop := {
  ct_repr : repr live h parent t;
  ct_ctx : repr_ctx live h C parent (tid t);
  ct_kids : kids_sized h t;
  ct_sized_ctx : sized_ctx h C;
  ct_inc : inc (skel (plug C t));
  ct_nodup : NoDup (ids (plug C t));
  ct_linked : linked live (leaf_ids (plug C t)) INVALID_PAGE_ID;
}.

(** From the tree [t] to the tree [t']: the same entries, on some of the pages;
    pages in [K] stay allocated, and so does the root of [t] if [t'] has another. *)
Record rebuilt (a a' : alloc_state) (K : page_id_t → Prop) (t t' : tree) : Prop := {
  rb_ok : alloc_ok a';
  rb_num : al_num a' = al_num a;
  rb_flat : flat t' = flat t;
  rb_ids : ∃ gone, ids t ≡ₚ gone ++ ids t';
  rb_frame p : p ∉ ids t → al_live a' !! p = al_live a !! p;
  rb_keep p : K p → is_Some (al_live a !! p) → is_Some (al_live a' !! p);
  rb_live : is_Some (al_live a !! tid t) → is_Some (al_live a' !! tid t);
  rb_root : tid t' = tid t ∨ tid t ∉ ids t';
}.
Lemma rebuilt_refl a K t : alloc_ok a → rebuilt a a K t t.
Proof. intros Ha. split; try done; [by exists []|by left]. Qed.
Lemma rebuilt_pins a a' (K : page_id_t → Prop) t t' (m : gmap page_id_t Z) : rebuilt a a' K t t' →
  (∀ p, is_Some (m !! p) → K p) → pins_ok m a → pins_ok m a'.
Proof. intros Hrb HK Hm p k Hp. destruct (Hm p k Hp). split; [done|]. apply (rb_keep _ _ _ _ _ Hrb); eauto. Qed.
Lemma rebuilt_mono a a' (K K' : page_id_t → Prop) t t' : rebuilt a a' K' t t' → (∀ p, K p → K' p) → rebuilt a a' K t t'.
Proof. intros [] HK. split; auto. Qed.
Lemma rebuilt_trans a1 a2 a3 (K K' : page_id_t → Prop) t1 t2 t3 : (∀ p, K p → K' p) →
  rebuilt a1 a2 K t1 t2 → rebuilt a2 a3 K' t2 t3 → rebuilt a1 a3 K t1 t3.
Proof.
  intros HK [H1 H2 H3 (g1 & H4) H5 H6 H7 H8] [G1 G2 G3 (g2 & G4) G5 G6 G7 G8]. split; [done|congruence|congruence|..].
  - exists (g1 ++ g2). by rewrite H4, G4, app_assoc.
  - intros p Hp. rewrite G5; [by apply H5|]. intros Hin. apply Hp. rewrite H4. apply elem_of_app. by right.
  - auto.
  - intros Hl. destruct H8 as [He|Hn]; [rewrite <- He in *; auto|rewrite G5; auto].
  - destruct H8 as [He|Hn]; [by rewrite <- He|]. right. intros Hin. apply Hn. rewrite G4. apply elem_of_app. by right.
Qed.
Lemma tid_plug_cases C t : tid (plug C t) = tid t ∨ tid (plug C t) ∈ ctx_ids C.
Proof.
  revert t. induction C as [|f C IH]; intros t; [by left|]. right. cbn [ctx_ids mbind list_bind]. apply elem_of_app.
  destruct (IH (fill t f)) as [He|Hin]; [left|by right]. change (plug (f :: C) t) with (plug C (fill t f)). rewrite He. by left.
Qed.

Lemma cut_whole live h C parent t : cut live h C parent t → sized (bool_decide (C = [])) h t →
  tree_ok live (length C + h) (plug C t).
Proof. intros [Hr HC _ HsC Hi Hn Hl] Hs. split; [by eapply repr_plug|by apply sized_plug|done..]. Qed.

(** The header of the page of a node. *)
Lemma repr_page live h parent t : repr live h parent t →
  ∃ d, live !! tid t = Some d ∧
    decode_hdr d = mkHdr (match h with O => LEAF_PAGE | S _ => INTERNAL_PAGE end) (tsize t) (full h) parent (tid t).
Proof.
  destruct h as [|h], t as [p ps|p es]; cbn [repr tid tsize full]; try done.
  - intros (d & Hd & Hh & _). exists d. split; [done|]. by change (decode_hdr d) with (Leaf.hdr (decode_leaf d)).
  - intros [(d & Hd & Hh & _) _]. exists d. split; [done|].
    change (decode_hdr d) with (Internal.hdr (decode_internal d)). by rewrite Hh, length_fmap.
Qed.
Lemma half_full h : Z.quot (full h) 2 = half h.
Proof. by destruct h. Qed.

(** The node above, whose children are then [fr_left f], [t] and [fr_right f]. *)
Lemma cut_up live h f C parent t : cut live h (f :: C) parent t →
  parent = fr_id f ∧ ∃ pp, repr live (S h) pp (fill t f) ∧ repr_ctx live (S h) C pp (fr_id f).
Proof.
  intros [Hr HC _ _ _ _ _]. cbn [repr_ctx] in HC. destruct HC as (-> & pp & Hn & HL & HR & HC). split; [done|].
  exists pp. split; [|done]. apply repr_children. split; [by rewrite fmap_app|]. by apply fill_repr.
Qed.

Lemma ctx_leaf_ids C p : p ∈ (ctx_l leaves_l C).*1 ∨ p ∈ (ctx_r leaves_r C).*1 → p ∈ ctx_ids C.
Proof.
  intros Hp. destruct (spread_ids C [] p) as [Hx|Hx]; [|by apply not_elem_of_nil in Hx|done].
  unfold spread. rewrite !fmap_app, !elem_of_app. tauto.
Qed.
Lemma head_app_eq {A} (l1 l2 r : list A) : head l1 = head l2 → head (l1 ++ r) = head (l2 ++ r).
Proof. destruct l1, l2; cbn; congruence. Qed.

(** The children of a node are rearranged. *)
Lemma reshaped_cut a a' K h C pp P es es' : alloc_ok a → reshaped a a' K h pp P es es' →
  repr_ctx (al_live a) (S h) C pp P → sized_ctx (S h) C → inc (skel (plug C (TNode P es))) →
  NoDup (ids (plug C (TNode P es))) → linked (al_live a) (leaf_ids (plug C (TNode P es))) INVALID_PAGE_ID →
  cut (al_live a') (S h) C pp (TNode P es') ∧ rebuilt a a' K (plug C (TNode P es)) (plug C (TNode P es')).
Proof.
  intros Ha [Ha' Hnum Hr Hs Hfl Hinc (gone & Hids) Hfr Hk Hh Hl] HC HsC Hi Hnd Hlk.
  pose proof (ids_plug C (TNode P es)) as Hp. pose proof (ids_plug C (TNode P es')) as Hp'.
  rewrite Hp in Hnd. pose proof Hnd as (_ & HdC & _)%NoDup_app.
  assert (HfrC : ∀ p, p ∈ ctx_ids C → al_live a' !! p = al_live a !! p).
  { intros p Hpc. apply Hfr. intros Hin. by apply (HdC p). }
  assert (Hnx : ∀ p, p ∈ (ctx_l leaves_l C).*1 ∨ p ∈ (ctx_r leaves_r C).*1 → next_at (al_live a') p = next_at (al_live a) p).
  { intros p Hx. unfold next_at. rewrite HfrC; [done|]. by apply ctx_leaf_ids. }
  split; split; try done.
  - by eapply repr_ctx_frame.
  - rewrite skel_plug in *. by apply Hinc.
  - rewrite Hp'. rewrite Hids, <- app_assoc in Hnd. by apply NoDup_app in Hnd as (_ & _ & ?).
  - unfold leaf_ids in *. rewrite leaves_plug, !fmap_app in Hlk |- *. apply linked_app in Hlk as [HL Hlk].
    apply linked_app in Hlk as [Hm HR]. apply linked_app. split; [|apply linked_app; split; [by apply Hl|]].
    + replace (head _) with (head ((leaves (TNode P es)).*1 ++ (ctx_r leaves_r C).*1)) by by apply head_app_eq.
      eapply linked_frame, HL. intros p Hp1. apply Hnx. by left.
    + eapply linked_frame, HR. intros p Hp1. apply Hnx. by right.
  - rewrite !flat_plug. by rewrite Hfl.
  - exists gone. by rewrite Hp, Hp', Hids, app_assoc.
  - intros p Hin. apply Hfr. intros Hx. apply Hin. rewrite Hp. apply elem_of_app. by left.
  - destruct (tid_plug_cases C (TNode P es)) as [->|Hin]; [intros _|by rewrite HfrC].
    apply (repr_live _ _ _ _ _ Hr (tid_ids (TNode P es'))).
  - left. by apply tid_plug.
Qed.

(** ** The pair of an underfull node and a sibling *)
Section underflow.
Context (n : Z).
Implicit Types (a : alloc_state) (W : gset page_id_t) (m : gmap page_id_t Z) (C : list frame) (f : frame) (t s : tree).

(** The pinned node [t] below the frame [f] has lost one entry too many; the pages
    around it are not in use. *)
Record lacking a W m h f C t : Prop := {
  la_ok : alloc_ok a;
  la_pins : pins_ok m a;
  la_room : Z.of_nat (size m) + Z.of_nat (length C) + 3 < n;
  la_cut : cut (al_live a) h (f :: C) (fr_id f) t;
  la_small : tsize t = half h - 1;
  la_pin : is_Some (m !! tid t);
  la_free p : p ∈ ctx_ids (f :: C) → m !! p = None ∧ p ∉ W;
}.
Definition kids (f : frame) (t : tree) : list (Z * tree) := fr_left f ++ (fr_key f, t) :: fr_right f.

Lemma lacking_node a W m h f C t : lacking a W m h f C t →
  ∃ pp, repr (al_live a) (S h) pp (TNode (fr_id f) (kids f t)) ∧ repr_ctx (al_live a) (S h) C pp (fr_id f) ∧
    sized_ctx (S h) C ∧ NoDup (ids (TNode (fr_id f) (kids f t))) ∧ inc (skel (TNode (fr_id f) (kids f t))) ∧
    node_sized (bool_decide (C = [])) (kids f t) ∧
    Forall (λ e, sized false h e.2) (fr_left f) ∧ Forall (λ e, sized false h e.2) (fr_right f).
Proof.
  intros [_ _ _ Hcut _ _ _]. destruct (cut_up _ _ _ _ _ _ Hcut) as (_ & pp & Hr & HC). exists pp.
  destruct Hcut as [_ _ _ (Hs & HL & HR & HsC) Hi Hn _]. change (plug (f :: C) t) with (plug C (fill t f)) in *.
  rewrite ids_plug in Hn. rewrite skel_plug in Hi. split_and!; try done.
  - by apply NoDup_app in Hn as (? & _).
  - by apply inc_app_inv in Hi as (_ & (? & _)%inc_app_inv & _).
  - unfold node_sized, kids in *. rewrite length_app in *. cbn [length] in *. done.
Qed.

(** A sibling on either side. *)
Lemma kids_left f t L k s : fr_left f = L ++ [(k, s)] →
  kids f t = both (mkFrame (fr_id f) L k (fr_right f)) s (fr_key f) t.
Proof. intros Hf. unfold kids, both. cbn. by rewrite Hf, <- app_assoc. Qed.
Lemma kids_right f t k s R : fr_right f = (k, s) :: R →
  kids f t = both (mkFrame (fr_id f) (fr_left f) (fr_key f) R) t k s.
Proof. intros Hf. unfold kids, both. cbn. by rewrite Hf. Qed.

Lemma sibling_in f k s : (k, s) ∈ fr_left f ∨ (k, s) ∈ fr_right f → tid s ∈ frame_ids f.
Proof.
  intros Hs. right. apply elem_of_app. destruct Hs as [Hs|Hs]; [left|right]; exact (stub_ids _ _ Hs).
Qed.

Lemma pair_left a W m h f C t L k s : lacking a W m h f C t → fr_left f = L ++ [(k, s)] →
  ∃ pp, pair_ok n a (pin (tid s) (pin (fr_id f) m)) h pp (mkFrame (fr_id f) L k (fr_right f)) s (fr_key f) t ∧
    repr_ctx (al_live a) (S h) C pp (fr_id f).
Proof.
  intros Hla Hf. destruct (lacking_node _ _ _ _ _ _ _ Hla) as (pp & Hr & HC & HsC & Hn & Hi & Hz & HL & HR). exists pp.
  rewrite (kids_left f t L k s Hf) in *. pose proof Hla as [Ha Hm Hroom Hcut _ Hpin _].
  rewrite Hf in HL. apply Forall_app in HL as [HL [Hs _]%Forall_cons].
  assert (Hls : is_Some (al_live a !! tid s)).
  { eapply repr_live; [exact Hr|]. apply (in_pair (mkFrame (fr_id f) L k (fr_right f)) s (fr_key f) t).
    right. left. apply tid_ids. }
  assert (HlP : is_Some (al_live a !! fr_id f)) by (eapply repr_live; [exact Hr|by left]).
  pose proof (size_pin (fr_id f) m). pose proof (size_pin (tid s) (pin (fr_id f) m)).
  split; [|done]. split; cbn [fr_id fr_left fr_right fr_key]; try done.
  - apply pins_ok_pin; [by apply pins_ok_pin|done].
  - lia.
  - apply Hz.
  - by apply sized_iff in Hs as [? _].
  - apply Hcut.
  - apply pin_keep, pin_self.
  - apply pin_self.
  - by apply pin_keep, pin_keep.
Qed.
Lemma pair_right a W m h f C t k s R : lacking a W m h f C t → fr_right f = (k, s) :: R →
  ∃ pp, pair_ok n a (pin (tid s) (pin (fr_id f) m)) h pp (mkFrame (fr_id f) (fr_left f) (fr_key f) R) t k s ∧
    repr_ctx (al_live a) (S h) C pp (fr_id f).
Proof.
  intros Hla Hf. destruct (lacking_node _ _ _ _ _ _ _ Hla) as (pp & Hr & HC & HsC & Hn & Hi & Hz & HL & HR). exists pp.
  rewrite (kids_right f t k s R Hf) in *. pose proof Hla as [Ha Hm Hroom Hcut _ Hpin _].
  rewrite Hf in HR. apply Forall_cons in HR as [Hs HR].
  assert (Hls : is_Some (al_live a !! tid s)).
  { eapply repr_live; [exact Hr|]. apply (in_pair (mkFrame (fr_id f) (fr_left f) (fr_key f) R) t k s).
    right. right. left. apply tid_ids. }
  assert (HlP : is_Some (al_live a !! fr_id f)) by (eapply repr_live; [exact Hr|by left]).
  pose proof (size_pin (fr_id f) m). pose proof (size_pin (tid s) (pin (fr_id f) m)).
  split; [|done]. split; cbn [fr_id fr_left fr_right fr_key]; try done.
  - apply pins_ok_pin; [by apply pins_ok_pin|done].
  - lia.
  - apply Hz.
  - apply Hcut.
  - by apply sized_iff in Hs as [? _].
  - apply pin_keep, pin_self.
  - by apply pin_keep, pin_keep.
  - apply pin_self.
Qed.

(** The entry of a child in the page of the node. *)
Lemma kids_value a W m h f C t es1 k s es2 : lacking a W m h f C t → kids f t = es1 ++ (k, s) :: es2 →
  ∃ pd, al_live a !! fr_id f = Some pd ∧ size_ (decode_hdr pd) = zlen (kids f t) ∧
    Internal.ValueAt (decode_internal pd) (zlen es1) = Some (tid s).
Proof.
  intros Hla Hk. destruct (lacking_node _ _ _ _ _ _ _ Hla) as (pp & [(pd & Hpd & Hn) _] & _ & _ & _ & _ & [_ Hz] & _).
  exists pd. split; [done|]. pose proof (node_sz _ _ _ _ Hn) as Hs.
  change (Internal.hdr (decode_internal pd)) with (decode_hdr pd) in Hs. rewrite length_fmap in Hs. split; [done|].
  destruct (internal_page_ok pd (ao_len _ (la_ok _ _ _ _ _ _ _ Hla) _ _ Hpd)) as (Hc & _).
  rewrite Hk in Hn, Hz. rewrite fmap_app in Hn. change (stub <$> (k, s) :: es2) with ((k, tid s) :: (stub <$> es2)) in Hn.
  destruct (node_entry _ _ _ _ _ _ _ Hn Hc) as [_ Hv]; [|by rewrite length_fmap in Hv].
  rewrite length_app in *. cbn [length] in *. rewrite !length_fmap. unfold Internal.default_max_size, Internal.capacity in *. lia.
Qed.

Lemma try_sibling_run a W m h f C t pp es1 k s es2 i fl : lacking a W m h f C t →
  repr_ctx (al_live a) (S h) C pp (fr_id f) →
  kids f t = es1 ++ (k, s) :: es2 → (k, s) ∈ fr_left f ∨ (k, s) ∈ fr_right f →
  (half h < tsize s ≤ full h → let m2 := pin (tid s) (pin (fr_id f) m) in
    ∃ a' W' es', run_store (Redistribute (tid t) (tid s) (fr_id f) i fl) (mkStore a W m2 n) =
        Some (Ret tt, mkStore a' W' m2 n) ∧ W' ⊆ W ∪ {[fr_id f; tid s; tid t]} ∧
      reshaped a a' (λ _, True) h pp (fr_id f) (kids f t) es' ∧ zlen es' = zlen (kids f t)) →
  (tsize s = half h ∧ run_store (try_sibling (tid t) (fr_id f) i (zlen es1) fl) (mkStore a W (pin (fr_id f) m) n) =
     Some (Ret false, mkStore a W (pin (fr_id f) m) n)) ∨
  ∃ a' W' es', run_store (try_sibling (tid t) (fr_id f) i (zlen es1) fl) (mkStore a W (pin (fr_id f) m) n) =
      Some (Ret true, mkStore a' W' m n) ∧ W' ⊆ W ∪ {[tid t]} ∧
    reshaped a a' (λ _, True) h pp (fr_id f) (kids f t) es' ∧ zlen es' = zlen (kids f t).
Proof.
  intros Hla HC Hk Hin Hre. destruct (kids_value _ _ _ _ _ _ _ _ _ _ _ Hla Hk) as (pd & Hpd & _ & Hv).
  pose proof Hla as [Ha Hm Hroom Hcut Hsm Hpin Hfree].
  destruct (lacking_node _ _ _ _ _ _ _ Hla) as (pp' & Hr & _ & _ & _ & _ & _ & HL & HR).
  assert (Hs : sized false h s ∧ ∃ d, al_live a !! tid s = Some d ∧
    decode_hdr d = mkHdr (match h with O => LEAF_PAGE | S _ => INTERNAL_PAGE end) (tsize s) (full h) (fr_id f) (tid s)).
  { apply repr_children in Hr as [_ Hc]. rewrite Hk in Hc. apply Forall_app in Hc as [_ [Hc _]%Forall_cons].
    split; [|by apply repr_page]. rewrite Forall_forall in HL, HR. destruct Hin as [Hin|Hin]; [apply (HL _ Hin)|apply (HR _ Hin)]. }
  destruct Hs as [Hs (sd & Hsd & Hh)]. apply sized_iff in Hs as [_ Hs].
  pose proof (size_pin (fr_id f) m) as Hz1.
  assert (HlP : is_Some (al_live a !! fr_id f)) by eauto.
  assert (Hm1 : pins_ok (pin (fr_id f) m) a) by by apply pins_ok_pin.
  destruct (Hfree (tid s)) as [_ HsW]; [apply elem_of_app; left; by eapply sibling_in|].
  unfold try_sibling. destruct (decide (half h < tsize s)) as [Hlt|Hge].
  - right. destruct (Hre ltac:(lia)) as (a' & W' & es' & Hrun & HW & Hre' & Hlen).
    exists a', (unpin_W true (fr_id f) (unpin_W true (tid s) W')), es'.
    split; [|split; [clear -HW; cbn; set_solver|done]].
    assert (Hm' : pins_ok m a') by (eapply pins_ok_mono; [exact Hm|]; intros x; by apply (rs_keep _ _ _ _ _ _ _ _ Hre')).
    assert (HlP' : is_Some (al_live a' !! fr_id f)) by by apply (rs_keep _ _ _ _ _ _ _ _ Hre').
    run_step (apply step_read; [apply pin_self|exact Hpd]). rewrite Hv, run_mem.
    run_step (apply step_pin; [exact Ha|eauto|lia]).
    run_step (apply step_read; [apply pin_self|exact Hsd]). rewrite Hh. cbn [max_size_ size_]. rewrite half_full.
    rewrite decide_True by done. rewrite run_store_bind, Hrun. cbn iota beta.
    run_step (apply step_drop; [by apply pins_ok_pin|by left]). by run_step (apply step_drop; [exact Hm'|by left]).
  - left. split; [lia|].
    run_step (apply step_read; [apply pin_self|exact Hpd]). rewrite Hv, run_mem.
    run_step (apply step_pin; [exact Ha|eauto|lia]).
    run_step (apply step_read; [apply pin_self|exact Hsd]). rewrite Hh. cbn [max_size_ size_]. rewrite half_full.
    rewrite decide_False by done. run_step (apply step_drop; [exact Hm1|by right; left]).
    cbn [run_store mret prog_ret unpin_W]. done.
Qed.

(** The outcome of asking one sibling: it has no entry to spare, or it gave one. *)
Definition refused a W m f (p : prog bool) : Prop :=
  run_store p (mkStore a W (pin (fr_id f) m) n) = Some (Ret false, mkStore a W (pin (fr_id f) m) n).
Definition gave a W m h f C t (p : prog bool) : Prop :=
  ∃ a' W' es' pp, run_store p (mkStore a W (pin (fr_id f) m) n) = Some (Ret true, mkStore a' W' m n) ∧
    W' ⊆ W ∪ {[tid t]} ∧ repr_ctx (al_live a) (S h) C pp (fr_id f) ∧
    reshaped a a' (λ _, True) h pp (fr_id f) (kids f t) es' ∧ zlen es' = zlen (kids f t).

Lemma both_zlen f tx y ty tx' y' ty' : zlen (both f tx y ty) = zlen (both f tx' y' ty').
Proof. unfold both. by rewrite !length_app. Qed.

Lemma try_left_run a W m h f C t L k s : lacking a W m h f C t → fr_left f = L ++ [(k, s)] →
  let p := try_sibling (tid t) (fr_id f) (zlen (fr_left f)) (zlen (fr_left f) - 1) true in
  (tsize s = half h ∧ refused a W m f p) ∨ gave a W m h f C t p.
Proof.
  intros Hla Hf p. destruct (pair_left a W m h f C t L k s Hla Hf) as (pp & Hok & HC).
  assert (Hz : zlen (fr_left f) = zlen L + 1) by (rewrite Hf, length_app; cbn; lia).
  assert (Hk : kids f t = L ++ (k, s) :: (fr_key f, t) :: fr_right f) by exact (kids_left f t L k s Hf).
  destruct (try_sibling_run a W m h f C t pp L k s _ (zlen (fr_left f)) true Hla HC Hk) as [Hr|Hg].
  - left. rewrite Hf. apply elem_of_app. right. by left.
  - intros Hs m2. destruct (redistribute_left_run n a W m2 h pp _ s _ t Hok Hs (la_small _ _ _ _ _ _ _ Hla)) as
      (a' & W' & tx' & y' & ty' & Hrun & HW & Hre). cbn [fr_id fr_left] in Hrun, HW, Hre.
    rewrite (kids_left f t L k s Hf). exists a', W'. eexists. split; [by rewrite Hz|split; [done|split; [exact Hre|apply both_zlen]]].
  - left. unfold p. by replace (zlen (fr_left f) - 1) with (zlen L) by lia.
  - right. destruct Hg as (a' & W' & es' & Hrun & HW & Hre & Hl). exists a', W', es', pp.
    unfold p. by replace (zlen (fr_left f) - 1) with (zlen L) by lia.
Qed.
Lemma try_right_run a W m h f C t k s R : lacking a W m h f C t → fr_right f = (k, s) :: R →
  let p := try_sibling (tid t) (fr_id f) (zlen (fr_left f)) (zlen (fr_left f) + 1) false in
  (tsize s = half h ∧ refused a W m f p) ∨ gave a W m h f C t p.
Proof.
  intros Hla Hf p. destruct (pair_right a W m h f C t k s R Hla Hf) as (pp & Hok & HC).
  assert (Hz : zlen (fr_left f ++ [(fr_key f, t)]) = zlen (fr_left f) + 1) by (rewrite length_app; cbn; lia).
  assert (Hk : kids f t = (fr_left f ++ [(fr_key f, t)]) ++ (k, s) :: R).
  { rewrite (kids_right f t k s R Hf). unfold both. by rewrite <- app_assoc. }
  destruct (try_sibling_run a W m h f C t pp _ k s _ (zlen (fr_left f)) false Hla HC Hk) as [Hr|Hg].
  - right. rewrite Hf. by left.
  - intros Hs m2. destruct (redistribute_right_run n a W m2 h pp _ t _ s Hok (la_small _ _ _ _ _ _ _ Hla) Hs) as
      (a' & W' & tx' & y' & ty' & Hrun & HW & Hre). cbn [fr_id fr_left] in Hrun, HW, Hre.
    rewrite (kids_right f t k s R Hf). exists a', W'. eexists.
    split; [exact Hrun|split; [clear -HW; set_solver|split; [exact Hre|apply both_zlen]]].
  - left. unfold p. by rewrite <- Hz.
  - right. destruct Hg as (a' & W' & es' & Hrun & HW & Hre & Hl). exists a', W', es', pp.
    unfold p. by rewrite <- Hz.
Qed.

(** *** The merge *)
Lemma merge_left_run a W m h f C t L k s : lacking a W m h f C t → fr_left f = L ++ [(k, s)] → tsize s = half h →
  ∃ a' W' es' pp, run_store (merge_sibling (tid t) (fr_id f) (zlen (fr_left f))) (mkStore a W (pin (fr_id f) m) n) =
      Some (Ret tt, mkStore a' W' (pin (fr_id f) m) n) ∧ W' ⊆ W ∪ {[fr_id f; tid t]} ∧
    repr_ctx (al_live a) (S h) C pp (fr_id f) ∧
    reshaped a a' (λ p, is_Some (m !! p)) h pp (fr_id f) (kids f t) es' ∧ zlen es' = zlen (kids f t) - 1.
Proof.
  intros Hla Hf Hs. destruct (pair_left a W m h f C t L k s Hla Hf) as (pp & Hok & HC).
  assert (Hz : zlen (fr_left f) = zlen L + 1) by (rewrite Hf, length_app; cbn; lia).
  assert (Hk : kids f t = L ++ (k, s) :: (fr_key f, t) :: fr_right f) by exact (kids_left f t L k s Hf).
  destruct (kids_value _ _ _ _ _ _ _ _ _ _ _ Hla Hk) as (pd & Hpd & _ & Hv).
  pose proof Hla as [Ha Hm Hroom Hcut Hsm Hpin Hfree].
  destruct (repr_page _ _ _ _ (ct_repr _ _ _ _ _ Hcut)) as (nd & Hnd & Hh).
  destruct (merge_run n a W _ h pp _ s _ t Hok) as (a' & W' & tm & Hrun & HW & Hre & Hkeep & Hids);
    [destruct h; cbn [half full] in *; unfold Leaf.default_max_size, Internal.default_max_size; lia|
     destruct h; cbn [half] in *; lia|destruct h; cbn [half] in *; lia|].
  cbn [fr_id fr_left fr_key fr_right] in Hrun, HW, Hre. rewrite <- (kids_left f t L k s Hf) in Hre.
  pose proof (size_pin (fr_id f) m) as Hz1. destruct (pair_live _ _ _ _ _ _ _ _ _ Hok) as (Hls & _ & _).
  assert (Hm1 : pins_ok (pin (fr_id f) m) a') by (eapply pins_ok_mono; [apply pins_ok_pin; [exact Hm|eauto]|done]).
  eexists a', (unpin_W true (tid s) W'), _, pp. split; [|split; [clear -HW; cbn; set_solver|split; [exact HC|split]]].
  - unfold merge_sibling. run_step (apply step_read; [by apply pin_keep|exact Hnd]).
    run_step (apply step_read; [apply pin_self|exact Hpd]). rewrite decide_True by lia.
    replace (zlen (fr_left f) - 1) with (zlen L) by lia. rewrite Hv, run_mem.
    run_step (apply step_pin; [exact Ha|exact Hls|lia]).
    rewrite Hz, run_store_bind, Hrun. cbn iota beta. run_step (apply step_drop; [exact Hm1|by left]).
    rewrite Hh. cbn [page_id_]. destruct (pin_keep (fr_id f) _ _ Hpin) as [j Hj].
    erewrite run_call by (cbn; rewrite Hj; reflexivity). done.
  - destruct Hre. split; try done. intros p _. by apply Hkeep.
  - rewrite Hk, !length_app. cbn [length]. lia.
Qed.
Lemma merge_right_run a W m h f C t k s R : lacking a W m h f C t → fr_left f = [] → fr_right f = (k, s) :: R →
  tsize s = half h →
  ∃ a' W' es' pp, run_store (merge_sibling (tid t) (fr_id f) (zlen (fr_left f))) (mkStore a W (pin (fr_id f) m) n) =
      Some (Ret tt, mkStore a' W' (pin (fr_id f) m) n) ∧ W' ⊆ W ∪ {[fr_id f; tid t]} ∧
    repr_ctx (al_live a) (S h) C pp (fr_id f) ∧
    reshaped a a' (λ p, is_Some (m !! p)) h pp (fr_id f) (kids f t) es' ∧ zlen es' = zlen (kids f t) - 1.
Proof.
  intros Hla Hl Hf Hs. destruct (pair_right a W m h f C t k s R Hla Hf) as (pp & Hok & HC).
  assert (Hz : zlen (fr_left f ++ [(fr_key f, t)]) = zlen (fr_left f) + 1) by (rewrite length_app; cbn; lia).
  assert (Hk : kids f t = (fr_left f ++ [(fr_key f, t)]) ++ (k, s) :: R).
  { rewrite (kids_right f t k s R Hf). unfold both. by rewrite <- app_assoc. }
  destruct (kids_value _ _ _ _ _ _ _ _ _ _ _ Hla Hk) as (pd & Hpd & _ & Hv).
  pose proof Hla as [Ha Hm Hroom Hcut Hsm Hpin Hfree].
  destruct (repr_page _ _ _ _ (ct_repr _ _ _ _ _ Hcut)) as (nd & Hnd & Hh).
  destruct (merge_run n a W _ h pp _ t _ s Hok) as (a' & W' & tm & Hrun & HW & Hre & Hkeep & Hids);
    [destruct h; cbn [half full] in *; unfold Leaf.default_max_size, Internal.default_max_size; lia|
     destruct h; cbn [half] in *; lia|destruct h; cbn [half] in *; lia|].
  pose proof (size_pin (fr_id f) m) as Hz1. destruct (pair_live _ _ _ _ _ _ _ _ _ Hok) as (_ & Hls & HlP).
  destruct (pair_distinct _ _ _ _ _ _ _ _ _ Hok) as (_ & _ & HsP). cbn [fr_id] in HsP, HlP.
  assert (Hm1 : pins_ok (pin (fr_id f) m) a') by (eapply pins_ok_mono; [apply pins_ok_pin; [exact Hm|exact HlP]|done]).
  assert (Hms : m !! tid s = None).
  { apply Hfree, elem_of_app. left. apply (sibling_in f k s). right. rewrite Hf. by left. }
  assert (Hin : tid s ∈ ids (TNode (fr_id f) (kids f t))).
  { rewrite (kids_right f t k s R Hf). apply (in_pair (mkFrame (fr_id f) (fr_left f) (fr_key f) R)).
    right. right. left. apply tid_ids. }
  destruct (lacking_node _ _ _ _ _ _ _ Hla) as (_ & _ & _ & _ & Hnod & _).
  pose proof (reshaped_dead _ _ _ _ _ _ _ (tid s) Hre) as Hdead. cbn [fr_id fr_left fr_key fr_right] in Hdead, Hrun, HW.
  rewrite <- (kids_right f t k s R Hf) in Hdead. specialize (Hdead Hin).
  eexists _, (unpin_W true (tid s) W'), _, pp. split; [|split; [clear -HW; cbn; set_solver|split; [exact HC|split]]].
  - unfold merge_sibling. run_step (apply step_read; [by apply pin_keep|exact Hnd]).
    run_step (apply step_read; [apply pin_self|exact Hpd]). rewrite decide_False by (rewrite Hl; cbn; lia).
    rewrite <- Hz, Hv, run_mem. run_step (apply step_pin; [exact Ha|exact Hls|lia]).
    rewrite Hz, run_store_bind, Hrun. cbn iota beta. run_step (apply step_drop; [exact Hm1|by left]).
    erewrite run_call; [reflexivity|]. cbn. unfold pin. rewrite lookup_insert_ne, Hms by done.
    by rewrite decide_True by by apply Hkeep.
  - enough (Hout : tid s ∉ ids (TNode (fr_id f) (fr_left f ++ (fr_key f, tm) :: R))).
    { specialize (Hdead Hout (Hkeep _ Hls)). destruct Hdead as [? ? ? ? ? ? ? ? Hkp ? ?]. split; try done.
      intros p [j Hp]. apply Hkp. intros ->. congruence. }
    rewrite (kids_right f t k s R Hf) in Hnod. cbn [ids] in Hnod. change (?l ≫= _) with (ids_of l) in Hnod.
    change (TNode _ (_ ++ _ :: _)) with (fill tm (mkFrame (fr_id f) (fr_left f) (fr_key f) R)). rewrite ids_fill.
    rewrite (ids_both (mkFrame (fr_id f) (fr_left f) (fr_key f) R)), app_assoc, <- Hids in Hnod.
    by apply NoDup_cons in Hnod as [? _].
  - rewrite Hk, !length_app. rewrite Hl. cbn [length]. lia.
Qed.

(** Both siblings are asked before the merge. *)
Definition tries (node parent_id : page_id_t) (child_idx size root_page_id : Z) (rest : prog page_id_t) : prog page_id_t :=
  done_left ← (if decide (0 < child_idx)
               then try_sibling node parent_id child_idx (child_idx - 1) true else mret false);
  if (done_left : bool) then mret root_page_id else
  done_right ← (if decide (child_idx < size - 1)
                then try_sibling node parent_id child_idx (child_idx + 1) false else mret false);
  if (done_right : bool) then mret root_page_id else rest.

Lemma tries_run a W m h f C t root rest : lacking a W m h f C t →
  let p := tries (tid t) (fr_id f) (zlen (fr_left f)) (zlen (kids f t)) root rest in
  (∃ a' W' es' pp, run_store p (mkStore a W (pin (fr_id f) m) n) = Some (Ret root, mkStore a' W' m n) ∧
    W' ⊆ W ∪ {[tid t]} ∧ repr_ctx (al_live a) (S h) C pp (fr_id f) ∧
    reshaped a a' (λ _, True) h pp (fr_id f) (kids f t) es' ∧ zlen es' = zlen (kids f t)) ∨
  ((∀ L e, fr_left f = L ++ [e] → tsize e.2 = half h) ∧ (∀ e R, fr_right f = e :: R → tsize e.2 = half h) ∧
   run_store p (mkStore a W (pin (fr_id f) m) n) = run_store rest (mkStore a W (pin (fr_id f) m) n)).
Proof.
  intros Hla p. unfold p, tries.
  set (dl := if decide (0 < zlen (fr_left f)) then _ else _).
  set (dr := if decide (zlen (fr_left f) < _) then _ else _).
  assert (HL : gave a W m h f C t dl ∨ refused a W m f dl ∧ ∀ L e, fr_left f = L ++ [e] → tsize e.2 = half h).
  { unfold dl. destruct (decide (fr_left f = [])) as [Hn|Hn]; [|destruct (exists_last Hn) as (L & [k s] & Hf)].
    - right. rewrite decide_False by (rewrite Hn; cbn; lia). split; [done|]. intros L e He. by destruct L; rewrite Hn in He.
    - rewrite decide_True by (rewrite Hf, length_app; cbn; lia).
      destruct (try_left_run a W m h f C t L k s Hla Hf) as [[Hs Hr]|Hg]; [right|by left]. split; [done|].
      intros L' e He. rewrite Hf in He. by apply app_inj_tail in He as [_ <-]. }
  assert (HR : gave a W m h f C t dr ∨ refused a W m f dr ∧ ∀ e R, fr_right f = e :: R → tsize e.2 = half h).
  { assert (Hz : zlen (kids f t) = zlen (fr_left f) + 1 + zlen (fr_right f)) by (unfold kids; rewrite length_app; cbn; lia).
    unfold dr. destruct (fr_right f) as [|[k s] R] eqn:Hf.
    - right. rewrite decide_False by (rewrite Hz; cbn; lia). by split.
    - rewrite decide_True by (rewrite Hz; cbn; lia).
      destruct (try_right_run a W m h f C t k s R Hla Hf) as [[Hs Hr]|Hg]; [right|by left]. split; [done|].
      intros e R' [= <- <-]. done. }
  destruct HL as [(a' & W' & es' & pp & Hrun & H)|[Hl HL]].
  { left. exists a', W', es', pp. by rewrite run_store_bind, Hrun. }
  unfold refused in Hl. destruct HR as [(a' & W' & es' & pp & Hrun & H)|[Hr HR]].
  - left. exists a', W', es', pp. rewrite run_store_bind, Hl. cbn iota beta. by rewrite run_store_bind, Hrun.
  - right. unfold refused in Hr. split; [done|split; [done|]]. rewrite run_store_bind, Hl. cbn iota beta. by rewrite run_store_bind, Hr.
Qed.
Lemma merge_sibling_run a W m h f C t : lacking a W m h f C t →
  (∀ L e, fr_left f = L ++ [e] → tsize e.2 = half h) → (∀ e R, fr_right f = e :: R → tsize e.2 = half h) →
  ∃ a' W' es' pp, run_store (merge_sibling (tid t) (fr_id f) (zlen (fr_left f))) (mkStore a W (pin (fr_id f) m) n) =
      Some (Ret tt, mkStore a' W' (pin (fr_id f) m) n) ∧ W' ⊆ W ∪ {[fr_id f; tid t]} ∧
    repr_ctx (al_live a) (S h) C pp (fr_id f) ∧
    reshaped a a' (λ p, is_Some (m !! p)) h pp (fr_id f) (kids f t) es' ∧ zlen es' = zlen (kids f t) - 1.
Proof.
  intros Hla HL HR. destruct (decide (fr_left f = [])) as [Hn|Hn].
  - destruct (fr_right f) as [|[k s] R] eqn:Hf.
    + destruct (lacking_node _ _ _ _ _ _ _ Hla) as (_ & _ & _ & _ & _ & _ & [Hz _] & _).
      unfold kids in Hz. rewrite Hn, Hf in Hz. cbn in Hz. unfold node_min in Hz. case_match; lia.
    + eapply merge_right_run; [exact Hla|exact Hn|exact Hf|]. by apply (HR (k, s) R).
  - destruct (exists_last Hn) as (L & [k s] & Hf). eapply merge_left_run; [exact Hla|exact Hf|]. by apply (HL L (k, s)).
Qed.

(** ** The root *)
Lemma root_run a W m h t fuel : alloc_ok a → pins_ok m a → Z.of_nat (size m) < n → is_Some (m !! tid t) →
  cut (al_live a) (S h) [] INVALID_PAGE_ID t → 1 ≤ tsize t ≤ full (S h) →
  ∃ a' W' h' t', run_store (HandleUnderflow (S fuel) (tid t) (tid t)) (mkStore a W m n) =
      Some (Ret (tid t'), mkStore a' W' m n) ∧ W' ⊆ W ∧ tree_ok (al_live a') h' t' ∧ (h' <= S h)%nat ∧
    rebuilt a a' (λ _, True) t t'.
Proof.
  intros Ha Hm Hroom Hpin Hcut Hz. pose proof Hcut as [Hr _ Hks _ Hi Hnd Hlk]. cbn [plug foldl] in *.
  destruct t as [|p es]; [done|]. cbn [tid tsize kids_sized full] in *.
  pose proof Hr as [(d & Hd & Hn) Hc]. destruct Hn as [Hh He]. cbn [HandleUnderflow].
  change (Internal.hdr (decode_internal d)) with (decode_hdr d) in Hh. rewrite length_fmap in Hh.
  destruct (decide (zlen es = 1)) as [Hone|Hmore].
  - destruct es as [|[k c] [|]]; [done| |cbn in Hone; lia].
    apply Forall_cons in Hc as [Hc _]. apply Forall_cons in Hks as [Hsc _]. cbn [snd] in *.
    destruct (internal_page_ok d (ao_len _ Ha _ _ Hd)) as (Hcells & _).
    destruct (node_entry (decode_internal d) INVALID_PAGE_ID p [] k (tid c) []) as [_ Hv]; [by split|done|cbn; unfold Internal.capacity; lia|]. change (zlen []) with 0 in Hv.
    assert (Hlc : is_Some (al_live a !! tid c)) by (eapply repr_live; [exact Hc|apply tid_ids]).
    destruct (adopt_child_run n a W m (tid c) INVALID_PAGE_ID Ha Hm Hroom Hlc ltac:(done)) as (a' & W' & Hrun & Had & HW).
    assert (Hids : ids (TNode p [(k, c)]) = p :: ids c) by (cbn; by rewrite app_nil_r).
    rewrite Hids in Hnd. apply NoDup_cons in Hnd as [Hpc Hnd].
    exists a', W', h, c. split; [|split; [done|split; [|split; [lia|]]]].
    + run_step (apply step_read; [exact Hpin|exact Hd]). rewrite Hh. cbn [IsRootPage parent_page_id_ size_].
      unfold IsRootPage. cbn [parent_page_id_]. rewrite Z.eqb_refl. change (IsLeafPage (mkHdr _ _ _ _ _)) with false.
      cbn [negb andb]. rewrite bool_decide_true by done. rewrite Hv, run_mem.
      rewrite run_store_bind, Hrun. cbn iota beta. destruct Hpin as [j Hj].
      erewrite run_call by (cbn; rewrite Hj; reflexivity). done.
    + split.
      * apply (repr_adopt (al_live a) (al_live a') h p INVALID_PAGE_ID c); try done; [apply (ao_len _ Ha)|..].
        -- by rewrite (ad_live _ _ _ _ Had), decide_True by by left.
        -- intros x _ Hx. by rewrite (ad_live _ _ _ _ Had), decide_False by by rewrite list_elem_of_singleton.
      * by apply sized_relax.
      * rewrite skel_node in Hi. cbn in Hi. by rewrite app_nil_r in Hi.
      * done.
      * unfold leaf_ids in Hlk. cbn [leaves mbind list_bind snd] in Hlk. rewrite app_nil_r in Hlk.
        eapply linked_frame, Hlk. intros x _. by apply (adopted_next _ _ _ _ _ Ha Had).
    + assert (Hkeep : ∀ x, is_Some (al_live a !! x) → is_Some (al_live a' !! x)).
      { intros x Hx. rewrite (ad_live _ _ _ _ Had). case_decide; [by apply fmap_is_Some|done]. }
      split; [apply Had|by rewrite (ad_num _ _ _ _ Had)| |exists [p]; by rewrite Hids| |auto|auto|by right].
      * rewrite flat_node. cbn -[flat]. by rewrite app_nil_r.
      * intros x Hx. rewrite (ad_live _ _ _ _ Had), decide_False; [done|]. intros ->%list_elem_of_singleton.
        apply Hx. rewrite Hids. right. apply tid_ids.
  - exists a, W, (S h), (TNode p es). split; [|split; [done|split; [|split; [lia|by apply rebuilt_refl]]]].
    + run_step (apply step_read; [exact Hpin|exact Hd]). rewrite Hh. unfold IsRootPage. cbn [parent_page_id_ size_].
      rewrite Z.eqb_refl. rewrite bool_decide_false by done. by rewrite andb_false_r.
    + split; try done. cbn [sized]. split; [|done]. unfold node_sized, node_min. lia.
Qed.

(** ** [HandleUnderflow] *)

(** The size of the node: one less than half, or the root's. *)
Definition low (C : list frame) (h : nat) (t : tree) : Prop :=
  match C with [] => h ≠ 0%nat ∧ 1 ≤ tsize t ≤ full h | _ => tsize t = half h - 1 end.

(** The children of the parent rearranged, as a step of the whole tree. *)
Lemma lacking_step a a' W m h f C t pp es' (K : page_id_t → Prop) : lacking a W m h f C t →
  repr_ctx (al_live a) (S h) C pp (fr_id f) → reshaped a a' K h pp (fr_id f) (kids f t) es' →
  cut (al_live a') (S h) C pp (TNode (fr_id f) es') ∧
  rebuilt a a' K (plug (f :: C) t) (plug C (TNode (fr_id f) es')).
Proof.
  intros Hla HC Hre. pose proof Hla as [Ha _ _ [_ _ _ (_ & _ & _ & HsC) Hi Hn Hl] _ _ _].
  by apply (reshaped_cut a a' K h C pp (fr_id f) (kids f t) es').
Qed.
Lemma lacking_size a W m h f C t : lacking a W m h f C t →
  node_sized (bool_decide (C = [])) (kids f t).
Proof. intros Hla. by destruct (lacking_node _ _ _ _ _ _ _ Hla) as (_ & _ & _ & _ & _ & _ & ? & _). Qed.

Lemma lacking_index a W m h f C t : lacking a W m h f C t →
  ∃ pd, al_live a !! fr_id f = Some pd ∧ size_ (decode_hdr pd) = zlen (kids f t) ∧
    Internal.index_of (tid t) (decode_internal pd) = Some (zlen (fr_left f)).
Proof.
  intros Hla. destruct (lacking_node _ _ _ _ _ _ _ Hla) as (pp & [(pd & Hpd & Hn) _] & _ & _ & Hnd & _ & [_ Hz] & _).
  exists pd. pose proof (node_sz _ _ _ _ Hn) as Hs. rewrite length_fmap in Hs. split; [done|split; [exact Hs|]].
  destruct (internal_page_ok pd (ao_len _ (la_ok _ _ _ _ _ _ _ Hla) _ _ Hpd)) as (Hc & _).
  unfold Internal.default_max_size in Hz.
  apply (InternalFacts.index_of_spec _ (length (fr_left f))); [done|unfold Internal.capacity; lia|..];
    unfold InternalFacts.children; destruct Hn as [_ ->].
  - eapply sublist_NoDup, roots_submseteq. cbn [ids] in Hnd. by apply NoDup_cons in Hnd as [_ ?].
  - unfold kids. rewrite !fmap_app, lookup_app_r by (by rewrite !length_fmap).
    by rewrite !length_fmap, Nat.sub_diag.
Qed.

(** The pages above the parent stay free while the parent is pinned. *)
Lemma above_free (m : gmap page_id_t Z) (W W' : gset page_id_t) f C t : NoDup (ids (plug (f :: C) t)) →
  (∀ p, p ∈ ctx_ids (f :: C) → m !! p = None ∧ p ∉ W) → W' ⊆ W ∪ {[fr_id f; tid t]} →
  ∀ x, x ∈ ctx_ids C → pin (fr_id f) m !! x = None ∧ x ∉ W'.
Proof.
  intros Hnod Hfree HW x Hx. rewrite ids_plug in Hnod. pose proof Hnod as (_ & Hdis & HndC)%NoDup_app.
  cbn [ctx_ids mbind list_bind] in HndC. apply NoDup_app in HndC as (_ & HdisC & _).
  assert (Hx2 : x ∈ ctx_ids (f :: C)) by (cbn [ctx_ids mbind list_bind]; apply elem_of_app; by right).
  assert (HxP : x ≠ fr_id f) by (intros ->; apply (HdisC (fr_id f)); [by left|done]).
  assert (Hxt : x ≠ tid t) by (intros ->; apply (Hdis (tid t)); [apply tid_ids|done]).
  destruct (Hfree x Hx2) as [Hmx HxW]. split; [unfold pin; by rewrite lookup_insert_ne|].
  clear -HW HxW HxP Hxt. set_solver.
Qed.
(** The parent after a merge: one entry less, so low if it was at its minimum. *)
Lemma merged_low C h f t es' : node_sized (bool_decide (C = [])) (kids f t) → zlen es' = zlen (kids f t) - 1 →
  zlen es' < 169 → low C (S h) (TNode (fr_id f) es').
Proof.
  intros [Hk1 Hk2] Hl Hlt. unfold low. destruct C as [|f' C']; cbn [tsize full half]; cbn in Hk1; [split; [done|]|]; lia.
Qed.
(** A parent that kept enough entries ends the repair. *)
Lemma repaired_whole a a' K h C pp f t es' : cut (al_live a') (S h) C pp (TNode (fr_id f) es') →
  reshaped a a' K h pp (fr_id f) (kids f t) es' → node_sized (bool_decide (C = [])) es' →
  tree_ok (al_live a') (length C + S h) (plug C (TNode (fr_id f) es')).
Proof.
  intros Hcut Hre Hz. apply (cut_whole _ _ _ _ _ Hcut). cbn [sized]. split; [exact Hz|].
  by apply (rs_sized _ _ _ _ _ _ _ _ Hre).
Qed.

(** [HandleUnderflow] below a parent, up to the two siblings; what follows them. *)
Definition merge_and_go_up (fuel : nat) (node parent_id : page_id_t) (child_idx root_page_id : Z) : prog page_id_t :=
  _ ← merge_sibling node parent_id child_idx;
  pd ← call (Read parent_id);
  let parent_min_size := Z.quot (max_size_ (decode_hdr pd)) 2 in
  root_page_id ← (if decide (size_ (decode_hdr pd) < parent_min_size)
                  then HandleUnderflow fuel parent_id root_page_id else mret root_page_id);
  _ ← call (Unpin parent_id true);
  mret root_page_id.
Lemma handle_tries a W m h f C t fuel root : lacking a W m h f C t →
  run_store (HandleUnderflow (S fuel) (tid t) root) (mkStore a W m n) =
    run_store (tries (tid t) (fr_id f) (zlen (fr_left f)) (zlen (kids f t)) root
                 (merge_and_go_up fuel (tid t) (fr_id f) (zlen (fr_left f)) root)) (mkStore a W (pin (fr_id f) m) n).
Proof.
  intros Hla. destruct (lacking_index _ _ _ _ _ _ _ Hla) as (pd & Hpd & Hsz & Hix).
  pose proof Hla as [Ha Hm Hroom Hcut _ Hpin _]. destruct (repr_page _ _ _ _ (ct_repr _ _ _ _ _ Hcut)) as (nd & Hnd & Hh).
  assert (HlP : is_Some (al_live a !! fr_id f)) by eauto. destruct (alloc_ok_id _ _ Ha HlP) as [HPne _].
  cbn [HandleUnderflow]. run_step (apply step_read; [exact Hpin|exact Hnd]). rewrite Hh. unfold IsRootPage.
  cbn [parent_page_id_ page_id_]. rewrite (proj2 (Z.eqb_neq _ _) HPne).
  run_step (apply step_pin; [exact Ha|exact HlP|lia]). run_step (apply step_read; [apply pin_self|exact Hpd]).
  by rewrite Hix, run_mem, Hsz.
Qed.

Lemma underflow_run C : ∀ h a W m parent t fuel,
  alloc_ok a → pins_ok m a → Z.of_nat (size m) + Z.of_nat (length C) + 2 < n →
  cut (al_live a) h C parent t → low C h t → is_Some (m !! tid t) →
  (∀ p, p ∈ ctx_ids C → m !! p = None ∧ p ∉ W) → (length C < fuel)%nat →
  ∃ a' W' h' t', run_store (HandleUnderflow fuel (tid t) (tid (plug C t))) (mkStore a W m n) =
      Some (Ret (tid t'), mkStore a' W' m n) ∧ W' ⊆ W ∪ {[tid t]} ∧ tree_ok (al_live a') h' t' ∧
    (h' <= length C + h)%nat ∧ rebuilt a a' (λ p, is_Some (m !! p)) (plug C t) t'.
Proof.
  induction C as [|f C IH]; intros h a W m parent t [|fuel] Ha Hm Hroom Hcut Hlow Hpin Hfree Hfuel; try (cbn in Hfuel; lia).
  - destruct Hlow as [Hh Hz]. destruct h as [|h]; [done|]. assert (parent = INVALID_PAGE_ID) as -> by apply Hcut.
    destruct (root_run a W m h t fuel Ha Hm ltac:(cbn in Hroom; lia) Hpin Hcut Hz) as (a' & W' & h' & t' & Hrun & HW & Ht & Hh' & Hrb).
    exists a', W', h', t'. split_and!; [exact Hrun|clear -HW; set_solver|done|cbn; lia|].
    destruct Hrb. split; auto.
  - destruct (cut_up _ _ _ _ _ _ Hcut) as (-> & _). cbn [length] in *.
    assert (Hla : lacking a W m h f C t) by (split; try done; lia).
    pose proof (lacking_size _ _ _ _ _ _ _ Hla) as Hks.
    change (tid (plug (f :: C) t)) with (tid (plug C (TNode (fr_id f) (kids f t)))). rewrite (handle_tries _ _ _ _ _ _ _ fuel _ Hla).
    assert (HlP : is_Some (al_live a !! fr_id f)) by (destruct (lacking_index _ _ _ _ _ _ _ Hla) as (pd & Hpd & _); by eauto).
    destruct (tries_run a W m h f C t (tid (plug C (TNode (fr_id f) (kids f t))))
      (merge_and_go_up fuel (tid t) (fr_id f) (zlen (fr_left f)) (tid (plug C (TNode (fr_id f) (kids f t))))) Hla)
      as [(a' & W' & es' & pp & -> & HW & HC & Hre & Hl)|(HL & HR & ->)].
    + destruct (lacking_step _ _ _ _ _ _ _ _ _ _ _ Hla HC Hre) as [Hcut' Hrb].
      exists a', W', (length C + S h)%nat, (plug C (TNode (fr_id f) es')).
      split; [by rewrite (tid_plug C (TNode (fr_id f) es') (TNode (fr_id f) (kids f t)))|split; [done|split; [|split; [lia|by eapply rebuilt_mono]]]].
      eapply repaired_whole; [done..|]. unfold node_sized in *. by rewrite Hl.
    + destruct (merge_sibling_run a W m h f C t Hla HL HR) as (a' & W' & es' & pp & Hrun & HW & HC & Hre & Hl).
      unfold merge_and_go_up. rewrite run_store_bind, Hrun. cbn iota beta. clear Hrun.
      destruct (lacking_step _ _ _ _ _ _ _ _ _ _ _ Hla HC Hre) as [Hcut' Hrb].
      assert (Hm' : pins_ok m a') by (eapply rebuilt_pins; [exact Hrb|auto|done]).
      pose proof (rb_ok _ _ _ _ _ Hrb) as Ha'.
      destruct (repr_page _ _ _ _ (ct_repr _ _ _ _ _ Hcut')) as (pd' & Hpd' & Hh'). cbn [tid tsize] in Hpd', Hh'.
      run_step (apply step_read; [apply pin_self|exact Hpd']). rewrite Hh'. cbn [size_ max_size_]. rewrite half_full.
      cbv zeta. cbn [half]. rewrite (tid_plug C (TNode (fr_id f) (kids f t)) (TNode (fr_id f) es') eq_refl).
      destruct (decide (zlen es' < 169)) as [Hlt|Hge].
      * pose proof (size_pin (fr_id f) m) as Hz1.
        destruct (IH (S h) a' W' (pin (fr_id f) m) pp (TNode (fr_id f) es') fuel Ha')
          as (a2 & W2 & h2 & t2 & Hrun2 & HW2 & Ht2 & Hh2 & Hrb2);
          [apply pins_ok_pin; [done|eauto]|lia|done|by eapply merged_low|apply pin_self|
           by eapply above_free; [eapply ct_nodup|..]|lia|].
        cbn [tid] in Hrun2, HW2. rewrite run_store_bind, Hrun2. cbn iota beta.
        exists a2, (unpin_W true (fr_id f) W2), h2, t2.
        split; [|split; [clear -HW HW2; cbn; set_solver|split; [done|split; [lia|]]]].
        -- assert (Hm2 : pins_ok m a2) by (eapply rebuilt_pins; [exact Hrb2|intros x; apply pin_keep|done]).
           by run_step (apply step_drop; [exact Hm2|by left]).
        -- eapply rebuilt_trans; [|exact Hrb|exact Hrb2]. intros x. apply pin_keep.
      * exists a', (unpin_W true (fr_id f) W'), (length C + S h)%nat, (plug C (TNode (fr_id f) es')).
        split; [|split; [clear -HW; cbn; set_solver|split; [|split; [lia|done]]]].
        -- rewrite run_store_bind. change (run_store (mret ?r) ?s) with (Some (@Ret page_id_t r, s)). cbn iota beta.
           by run_step (apply step_drop; [exact Hm'|by left]).
        -- eapply repaired_whole; [done..|]. destruct Hks as [_ Hks]. unfold node_sized, node_min. destruct (bool_decide (C = [])); lia.
Qed.
End underflow.

(** ** A leaf with one entry less *)
Lemma leaf_remove_page d parent p ps key v : zlen d = PAGE_SIZE → leaf_is (decode_leaf d) parent p ps →
  LeafFacts.wf (decode_leaf d) → pmap ps !! key = Some v →
  ∃ l ps1 ps2, Leaf.Remove key (decode_leaf d) = Some (true, l) ∧ ps = ps1 ++ (key, v) :: ps2 ∧
    leaf_is l parent p (ps1 ++ ps2) ∧ leaf_saved l d ∧ Leaf.next_page_id_ l = Leaf.next_page_id_ (decode_leaf d).
Proof.
  intros Hlen Hl Hwf Hk. pose proof Hl as [_ Hps]. rewrite <- Hps in Hk.
  destruct (LeafFacts.leaf_remove_entry _ key v Hwf Hk) as (l & ps1 & ps2 & Hex & Hwf' & [Hh Hn] & Hp & Hp').
  destruct (leaf_page_ok d Hlen) as (_ & Hw & Hnx & _).
  destruct (leaf_kept d parent p ps l Hlen Hl Hwf' Hh ltac:(by rewrite Hn) (leaf_remove_within _ _ _ _ Hw Hex)) as [Hi Hs].
  exists l, ps1, ps2. rewrite Hp' in Hi. split_and!; try done. by rewrite <- Hps.
Qed.

Lemma flat_leaf C p ps : flat (plug C (TLeaf p ps)) = flat_l C ++ ps ++ flat_r C.
Proof. rewrite flat_plug. unfold flat. cbn. by rewrite app_nil_r. Qed.

Lemma leaf_removed C p ps1 key v ps2 : inc (skel (plug C (TLeaf p (ps1 ++ (key, v) :: ps2)))) →
  inc (skel (plug C (TLeaf p (ps1 ++ ps2)))) ∧
  pmap (flat (plug C (TLeaf p (ps1 ++ ps2)))) = delete key (pmap (flat (plug C (TLeaf p (ps1 ++ (key, v) :: ps2))))).
Proof.
  intros Hinc. split.
  - eapply inc_sublist, Hinc. rewrite !skel_plug. apply sublist_app; [done|]. apply sublist_app; [|done].
    cbn [skel]. rewrite !fmap_app. apply sublist_app; [done|]. by apply sublist_cons.
  - pose proof (flat_inc _ Hinc) as Hf. rewrite !flat_leaf in *.
    assert (Hp : flat_l C ++ (ps1 ++ (key, v) :: ps2) ++ flat_r C ≡ₚ (key, v) :: flat_l C ++ (ps1 ++ ps2) ++ flat_r C) by solve_Permutation.
    rewrite (pmap_Permutation _ _ key v Hf Hp), delete_insert_id; [done|].
    apply pmap_None. apply inc_NoDup in Hf. rewrite Hp in Hf. by apply NoDup_cons in Hf as [? _].
Qed.

Lemma leaf_cut live live' h C parent p ps ps' d d' : located live 0 C parent (TLeaf p ps) →
  tree_ok live h (plug C (TLeaf p ps)) → live !! p = Some d → leaf_is (decode_leaf d') parent p ps' →
  Leaf.next_page_id_ (decode_leaf d') = Leaf.next_page_id_ (decode_leaf d) →
  live' !! p = Some d' → (∀ q, q ≠ p → live' !! q = live !! q) → inc (skel (plug C (TLeaf p ps'))) →
  cut live' 0 C parent (TLeaf p ps').
Proof.
  intros [_ HC _ HsC] [_ _ _ Hnd Hlk] Hd Hl Hnx Hd' Hfr Hinc.
  assert (HpC : p ∉ ctx_ids C).
  { rewrite ids_plug in Hnd. cbn [ids] in Hnd. apply NoDup_app in Hnd as (_ & Hx & _). apply Hx. by left. }
  split; try done.
  - by exists d'.
  - eapply repr_ctx_frame, HC. intros q Hq. apply Hfr. by intros ->.
  - by rewrite (ids_plug_leaf C p ps' ps).
  - rewrite leaf_ids_plug in *. eapply linked_frame, Hlk. intros q _. unfold next_at.
    destruct (decide (q = p)) as [->|Hne]; [|by rewrite Hfr]. rewrite Hd, Hd'. exact (f_equal Some Hnx).
Qed.

(** ** [Delete] *)
Section delete.
Context (n : Z).
Implicit Types (a : alloc_state) (W : gset page_id_t) (m : gmap page_id_t Z) (C : list frame).

(** What a deletion makes of the index: the pages of the new tree are pages of the
    old one, and no other page has changed.  The page of a root leaf that lost its
    last entry stays pinned, and written without the dirty flag.  The page of a root
    that is given up stays allocated, outside of the tree. *)
Record deleted a a' W W' m m' (h : nat) (root : page_id_t) (P : list page_id_t) (mp' : gmap Z RID)
    (h' : nat) (root' : page_id_t) (P' : list page_id_t) : Prop := {
  de_ok : alloc_ok a';
  de_num : al_num a' = al_num a;
  de_rel : index_rel (al_live a') h' root' P' mp';
  de_height : (h' <= h)%nat;
  de_ids : ∃ gone, P ≡ₚ gone ++ P';
  de_frame p : p ∉ P → al_live a' !! p = al_live a !! p;
  de_pins : m' = m ∧ W' ⊆ W ∧ (P = [] ∨ P' ≠ []) ∨ P = [root] ∧ P' = [] ∧ is_Some (al_live a' !! root) ∧ m' = pin root m ∧ W' = {[root]} ∪ W;
  de_root : P ≠ [] → is_Some (al_live a' !! root) ∧ (root' = root ∨ root ∉ P');
}.

Lemma ids_ne t : ids t ≠ [].
Proof. by destruct t. Qed.
Lemma deleted_tree a a1 a' W W' m h C p ps ps' t' h' mp' : (h' <= h)%nat → W' ⊆ W →
  is_Some (al_live a1 !! tid (plug C (TLeaf p ps))) →
  al_num a1 = al_num a → (∀ q, q ≠ p → al_live a1 !! q = al_live a !! q) →
  pmap (flat (plug C (TLeaf p ps'))) = mp' →
  tree_ok (al_live a') h' t' → rebuilt a1 a' (λ p, is_Some (m !! p)) (plug C (TLeaf p ps')) t' →
  deleted a a' W W' m m h (tid (plug C (TLeaf p ps))) (ids (plug C (TLeaf p ps))) mp' h' (tid t') (ids t').
Proof.
  intros Hh HW Hlr Hn Hl Hmp Ht [Ha' Hnum Hfl Hids Hfr Hk Hlv Hrt]. rewrite (ids_plug_leaf C p ps ps').
  rewrite (tid_plug C (TLeaf p ps) (TLeaf p ps') eq_refl) in *.
  split; try done; [congruence| | |left; split_and!; try done; right; apply ids_ne|by split; [apply Hlv|]].
  - right. exists t'. split_and!; try done. by rewrite Hfl.
  - intros q Hq. rewrite Hfr by done. apply Hl. intros ->. apply Hq. rewrite ids_plug. by left.
Qed.

(** [Delete] from the leaf found on. *)
Definition delete_at (fuel : nat) (key : Z) (root_page_id leaf_page : page_id_t) : prog (bool * page_id_t) :=
  d ← call (Read leaf_page);
  '(deleted, leaf) ← from_mem (Leaf.Remove key (decode_leaf d));
  if negb deleted then _ ← call (Unpin leaf_page false); mret (false, root_page_id) else
  _ ← call (Write leaf_page (encode_leaf leaf d));
  if IsRootPage (Leaf.hdr leaf) then
    if decide (size_ (Leaf.hdr leaf) = 0) then
      _ ← call (Delete root_page_id); mret (true, INVALID_PAGE_ID)
    else _ ← call (Unpin leaf_page true); mret (true, root_page_id)
  else
    let min_size := Z.quot (max_size_ (Leaf.hdr leaf)) 2 in
    if decide (min_size ≤ size_ (Leaf.hdr leaf)) then
      _ ← call (Unpin leaf_page true); mret (true, root_page_id)
    else
      root_page_id ← HandleUnderflow fuel leaf_page root_page_id;
      _ ← call (Unpin leaf_page true);
      mret (true, root_page_id).
Lemma delete_found fuel key root : root ≠ INVALID_PAGE_ID →
  BPlusTree_Delete fuel key root =
    (leaf_page ← FindLeafPage fuel root key;
     match leaf_page with None => mret (false, root) | Some p => delete_at fuel key root p end).
Proof. intros Hr. unfold BPlusTree_Delete, IsEmpty. by rewrite bool_decide_false. Qed.

(** A leaf that is short of an entry and has a parent. *)
Lemma leaf_underflow a1 W m fuel h f C p ps : alloc_ok a1 → pins_ok m a1 → cut (al_live a1) 0 (f :: C) (fr_id f) (TLeaf p ps) →
  (∀ x, x ∈ ids (plug (f :: C) (TLeaf p ps)) → m !! x = None ∧ x ∉ W) → length (f :: C) = h → (h < fuel)%nat →
  Z.of_nat (size m) + Z.of_nat h + 3 < n → is_Some (al_live a1 !! p) → zlen ps = 125 →
  ∃ a' W' h' t',
    run_store (root ← HandleUnderflow fuel p (tid (plug (f :: C) (TLeaf p ps)));
               _ ← call (Unpin p true); mret (true, root)) (mkStore a1 ({[p]} ∪ W) (pin p m) n) =
      Some (Ret (true, tid t'), mkStore a' (unpin_W true p W') m n) ∧ unpin_W true p W' ⊆ W ∧
    tree_ok (al_live a') h' t' ∧ (h' <= h)%nat ∧ rebuilt a1 a' (λ x, is_Some (m !! x)) (plug (f :: C) (TLeaf p ps)) t'.
Proof.
  intros Ha1 Hm1 Hcut Hfree Hlen Hfuel Hn Hp Hz. pose proof (pin_self p m) as Hpin. pose proof (size_pin p m) as Hsz.
  destruct (underflow_run n (f :: C) 0 a1 ({[p]} ∪ W) (pin p m) (fr_id f) (TLeaf p ps) fuel Ha1)
    as (a' & W' & h' & t' & Hrun & HW & Ht' & Hh' & Hrb);
    [by apply pins_ok_pin|lia|done|cbn [low tsize half]; lia|exact Hpin| |lia|].
  { intros x Hx. pose proof (ct_nodup _ _ _ _ _ Hcut) as Hnd. rewrite ids_plug in Hnd.
    apply NoDup_app in Hnd as (_ & Hdis & _).
    assert (Hxp : x ≠ p) by (intros ->; apply (Hdis p); [by left|done]).
    destruct (Hfree x) as [Hx1 Hx2]; [rewrite ids_plug; apply elem_of_app; by right|].
    split; [unfold pin; by rewrite lookup_insert_ne|clear -Hxp Hx2; set_solver]. }
  cbn [tid] in Hrun, HW. exists a', W', h', t'. split; [|split; [clear -HW; cbn; set_solver|split; [done|split; [lia|]]]].
  - assert (Hm' : pins_ok m a').
    { eapply rebuilt_pins; [exact Hrb|intros x; apply pin_keep|done]. }
    rewrite run_store_bind, Hrun. cbn iota beta. by run_step (apply step_drop; [exact Hm'|by left]).
  - eapply rebuilt_mono; [exact Hrb|]. intros x. apply pin_keep.
Qed.

(** The last entry of a root leaf: [DeletePage] refuses, as the leaf is pinned. *)
Lemma last_entry_run a a1 W m p : alloc_ok a1 → al_num a1 = al_num a → (∀ q, q ≠ p → al_live a1 !! q = al_live a !! q) →
  is_Some (al_live a1 !! p) →
  ∃ a' W' m' h' root' P',
    run_store (_ ← call (Delete p); mret (true, INVALID_PAGE_ID)) (mkStore a1 ({[p]} ∪ W) (pin p m) n) =
      Some (Ret (true, root'), mkStore a' W' m' n) ∧
    deleted a a' W W' m m' 0 p [p] ∅ h' root' P'.
Proof.
  intros Ha1 Hnum Hfr Hp. exists a1, ({[p]} ∪ W), (pin p m), 0%nat, INVALID_PAGE_ID, [].
  destruct (pin_self p m) as [j Hj]. split; [by erewrite run_call by (cbn; rewrite Hj; reflexivity)|].
  split; try done; [by left|by exists [p]| |right; by split_and!|].
  - intros q Hq. apply Hfr. intros ->. apply Hq. by left.
  - intros _. split; [done|right; apply not_elem_of_nil].
Qed.

(** The entry is in the leaf [p]. *)
Lemma delete_at_run a W m fuel key v h C parent p ps d : alloc_ok a → pins_ok m a →
  tree_ok (al_live a) h (plug C (TLeaf p ps)) → located (al_live a) 0 C parent (TLeaf p ps) → length C = h →
  (∀ x, x ∈ ids (plug C (TLeaf p ps)) → m !! x = None ∧ x ∉ W) → (h < fuel)%nat →
  Z.of_nat (size m) + Z.of_nat h + 3 < n →
  al_live a !! p = Some d → leaf_is (decode_leaf d) parent p ps → LeafFacts.wf (decode_leaf d) →
  zlen ps ≤ Leaf.default_max_size → pmap ps !! key = Some v →
  ∃ a' W' m' h' root' P',
    run_store (delete_at fuel key (tid (plug C (TLeaf p ps))) p) (mkStore a W (pin p m) n) =
      Some (Ret (true, root'), mkStore a' W' m' n) ∧
    deleted a a' W W' m m' h (tid (plug C (TLeaf p ps))) (ids (plug C (TLeaf p ps)))
      (delete key (pmap (flat (plug C (TLeaf p ps))))) h' root' P'.
Proof.
  intros Ha Hm Ht Hloc Hlen Hfree Hfuel Hn Hd Hl Hwf Hz Hk. pose proof (ao_len _ Ha _ _ Hd) as Hdl.
  destruct (leaf_remove_page d parent p ps key v Hdl Hl Hwf Hk) as (l & ps1 & ps2 & Hex & -> & Hl' & [Hst Hlz] & Hnx).
  pose proof (to_inc _ _ _ Ht) as Hinc. destruct (leaf_removed C p ps1 key v ps2 Hinc) as [Hinc' Hmp].
  destruct (page_written a m p d _ Ha Hm Hd Hlz) as (Ha1 & Hm1 & H1 & Hfr & Hkeep). set (a1 := set_live p _ a) in *.
  assert (Hcut : cut (al_live a1) 0 C parent (TLeaf p (ps1 ++ ps2))).
  { eapply leaf_cut; [exact Hloc|exact Ht|exact Hd| | |exact H1|exact Hfr|exact Hinc']; by rewrite Hst. }
  pose proof (pin_self p m) as Hpin. pose proof (size_pin p m) as Hsz.
  assert (Hp : p ∈ ids (plug C (TLeaf p (ps1 ++ (key, v) :: ps2)))) by (rewrite ids_plug; by left).
  destruct (Hfree p Hp) as [Hmp1 HpW]. pose proof Hloc as [_ HC Hs _]. cbn [sized] in Hs. destruct Hs as [Hs _].
  destruct Hl' as [Hh _]. unfold delete_at. run_step (apply step_read; [exact Hpin|exact Hd]).
  rewrite Hex, run_mem. cbn [negb]. run_step (apply step_write; [exact Hpin|exact Hlz]). fold a1. rewrite Hh.
  unfold IsRootPage. cbn [parent_page_id_ size_ max_size_].
  assert (Hzz : zlen (ps1 ++ (key, v) :: ps2) = zlen (ps1 ++ ps2) + 1) by (rewrite !length_app; cbn; lia).
  assert (Hlr : is_Some (al_live a1 !! tid (plug C (TLeaf p (ps1 ++ (key, v) :: ps2))))).
  { apply Hkeep. eapply repr_live; [apply (to_repr _ _ _ Ht)|apply tid_ids]. }
  assert (Hstay : sized (bool_decide (C = [])) 0 (TLeaf p (ps1 ++ ps2)) →
    deleted a a1 W (unpin_W true p ({[p]} ∪ W)) m m h (tid (plug C (TLeaf p (ps1 ++ (key, v) :: ps2))))
      (ids (plug C (TLeaf p (ps1 ++ (key, v) :: ps2)))) (delete key (pmap (flat (plug C (TLeaf p (ps1 ++ (key, v) :: ps2))))))
      h (tid (plug C (TLeaf p (ps1 ++ ps2)))) (ids (plug C (TLeaf p (ps1 ++ ps2))))).
  { intros Hsize. eapply (deleted_tree a a1 a1); [done|cbn; clear; set_solver|exact Hlr|done|exact Hfr|exact Hmp|
      |by apply rebuilt_refl]. rewrite <- Hlen. rewrite <- (Nat.add_0_r (length C)). by apply (cut_whole _ _ _ _ _ Hcut). }
  pose proof (tid_plug C (TLeaf p (ps1 ++ (key, v) :: ps2)) (TLeaf p (ps1 ++ ps2)) eq_refl) as Htid. rewrite Htid in *.
  destruct C as [|f C].
  - cbn [repr_ctx] in HC. subst parent. rewrite Z.eqb_refl. cbn [plug foldl tid] in *.
    destruct (decide (zlen (ps1 ++ ps2) = 0)) as [H0|H0].
    + subst h. rewrite <- Hmp. destruct (ps1 ++ ps2); [|done]. apply last_entry_run; [done|done|exact Hfr|by eauto].
    + exists a1, (unpin_W true p ({[p]} ∪ W)), m, h, p, [p]. split.
      * by run_step (apply step_drop; [exact Hm1|by left]).
      * apply Hstay. cbn [sized]. unfold leaf_sized in *. cbn in *. lia.
  - assert (HlP : is_Some (al_live a !! fr_id f)).
    { eapply repr_ctx_live; [exact HC|]. by left. }
    cbn [repr_ctx] in HC. destruct HC as [-> _].
    destruct (alloc_ok_id _ _ Ha HlP) as [HPne _]. rewrite (proj2 (Z.eqb_neq _ _) HPne).
    change (Z.quot Leaf.default_max_size 2) with 126. cbv zeta. rewrite bool_decide_false in Hs by done. cbn [leaf_min] in Hs.
    destruct (decide (126 ≤ zlen (ps1 ++ ps2))) as [Hge|Hlt].
    + exists a1, (unpin_W true p ({[p]} ∪ W)), m, h. eexists _, _. split.
      * by run_step (apply step_drop; [exact Hm1|by left]).
      * apply Hstay. cbn [sized]. unfold leaf_sized in *. rewrite bool_decide_false by done. cbn [leaf_min]. lia.
    + destruct (leaf_underflow a1 W m fuel h f C p (ps1 ++ ps2) Ha1 Hm1 Hcut) as
        (a' & W' & h' & t' & Hrun & HW & Ht' & Hh' & Hrb); [|done|done|lia|by eauto|unfold leaf_sized in Hs; lia|].
      { intros x Hx. apply Hfree. by rewrite (ids_plug_leaf _ _ _ (ps1 ++ ps2)). }
      exists a', (unpin_W true p W'), m, h', (tid t'), (ids t'). split; [exact Hrun|]. rewrite <- Htid.
      eapply deleted_tree; [lia|exact HW|by rewrite Htid| |exact Hfr|exact Hmp|exact Ht'|exact Hrb]; done.
Qed.

Lemma delete_run a W m fuel key h root P mp : alloc_ok a → pins_ok m a → index_rel (al_live a) h root P mp →
  (∀ p, p ∈ P → m !! p = None ∧ p ∉ W) → (h < fuel)%nat → Z.of_nat (size m) + Z.of_nat h + 3 < n →
  ∃ a' W' m' h' root' P', run_store (BPlusTree_Delete fuel key root) (mkStore a W m n) =
      Some (Ret (bool_decide (is_Some (mp !! key)), root'), mkStore a' W' m' n) ∧
    deleted a a' W W' m m' h root P (delete key mp) h' root' P'.
Proof.
  intros Ha Hm Hrel Hfree Hfuel Hn. destruct Hrel as [(-> & -> & -> & ->)|(t & -> & -> & Ht & ->)].
  - exists a, W, m, 0%nat, INVALID_PAGE_ID, []. split; [done|]. split; try done; [|by exists []|left; split_and!; try done; by left].
    left. by rewrite delete_empty.
  - assert (Hrl : is_Some (al_live a !! tid t)) by (eapply repr_live; [apply Ht|apply tid_ids]).
    destruct (alloc_ok_id _ _ Ha Hrl) as [Hne _].
    assert (HW : ∀ p, p ∈ ids t → p ∉ W) by (intros p Hp; apply (Hfree p Hp)).
    destruct (find_leaf_page_run a n Ha W m key fuel h t Hm ltac:(lia) HW Hfuel Ht) as (C & pp & p & ps & Hpl & Hloc & Hb & Hp & Hl & Hrun).
    destruct (found_leaf a Ha _ _ _ _ _ _ key Ht Hpl Hloc Hb) as (d & Hd & Hlen & Hlf & Hwf & Hz & Hval).
    rewrite delete_found, Hval, run_store_bind, Hrun by done. cbn iota beta.
    assert (Hpd : is_Some (pin p m !! p)) by apply pin_self.
    destruct (pmap ps !! key) as [v|] eqn:Hk.
    + rewrite bool_decide_true by eauto. subst t. by apply (delete_at_run a W m fuel key v h C pp p ps d).
    + rewrite bool_decide_false by (by intros [? ?]).
      exists a, W, m, h, (tid t), (ids t). split.
      * unfold delete_at. run_step (apply step_read; [exact Hpd|exact Hd]).
        pose proof (LeafFacts.leaf_remove_spec _ key Hwf) as Hex. pose proof (proj2 Hlf) as Hps. rewrite Hps, Hk in Hex.
        rewrite Hex, run_mem. cbn [negb].
        by run_step (apply step_drop; [exact Hm|right; left; by apply HW]).
      * split; try done; [|by exists []|left; split_and!; try done; right; apply ids_ne|split; [done|by left]]. right. exists t. split_and!; try done.
        rewrite delete_id; [done|]. by rewrite Hval.
Qed.
End delete.
