(* ===== verification/BPlusTreeIndex.v ===== *)
(** The B+ tree as an ordered finite map: [Insert] on a whole tree, sequences of
    [Insert], [Delete] and [GetValue] against a map, and how high a tree can
    grow. *)
From Stdlib Require Import ZArith Lia.
From Stdlib Require Strings.Byte.
From stdpp Require Import base list gmap sorting.
From S2P Require Import Prelude Types DiskManager Replacer BufferPool PageStore BPlusTreePage BPlusTreeLayout BPlusTree BPlusTreeRep BPlusTreeLookup BPlusTreeSplit BPlusTreeInsert BPlusTreeMerge BPlusTreeSiblings BPlusTreeDelete.
Open Scope Z_scope.

(** ** A leaf with one more entry *)

(** The map of the tree with the entry added at the leaf. *)
Lemma flat_insert C p ps ps' key v t' : flat t' = flat_l C ++ ps' ++ flat_r C → ps' ≡ₚ (key, v) :: ps →
  inc (skel t') → pmap (flat t') = <[key := v]> (pmap (flat (plug C (TLeaf p ps)))).
Proof.
  intros Hf Hp Hinc. apply pmap_Permutation; [by apply flat_inc|]. rewrite Hf, flat_plug, Hp.
  unfold flat. cbn [leaves mbind list_bind snd]. rewrite app_nil_r. solve_Permutation.
Qed.

Lemma insert_skel C p ps ps' key v : inc (skel (plug C (TLeaf p ps))) → bracket C key →
  ps' ≡ₚ (key, v) :: ps → inc ps'.*1 → inc (ctx_l skel_l C ++ (code <$> ps'.*1) ++ ctx_r skel_r C).
Proof.
  rewrite skel_plug. intros Hinc Hb Hp Hinc'. eapply inc_around; [exact Hinc|exact Hb| |].
  - intros i j x y Hij Hx Hy. rewrite list_lookup_fmap in Hx, Hy.
    destruct (ps'.*1 !! i) as [a|] eqn:Ha, (ps'.*1 !! j) as [b|] eqn:Hbb; try done.
    injection Hx as <-. injection Hy as <-. specialize (Hinc' i j a b Hij Ha Hbb). unfold code. lia.
  - intros x (k & -> & ([k' v'] & -> & Hk)%list_elem_of_fmap)%list_elem_of_fmap. cbn [fst].
    rewrite Hp in Hk. apply elem_of_cons in Hk as [[= -> ->]|Hk]; [by left|right].
    cbn [skel]. apply list_elem_of_fmap_2, list_elem_of_fmap. by exists (k', v').
Qed.

(** *** Without a split *)
Lemma leaf_stays live live' C parent p ps ps' key v d d' : located live 0 C parent (TLeaf p ps) →
  tree_ok live (length C + 0) (plug C (TLeaf p ps)) → bracket C key →
  live !! p = Some d → leaf_is (decode_leaf d') parent p ps' →
  Leaf.next_page_id_ (decode_leaf d') = Leaf.next_page_id_ (decode_leaf d) →
  live' !! p = Some d' → (∀ q, q ≠ p → live' !! q = live !! q) →
  ps' ≡ₚ (key, v) :: ps → inc ps'.*1 → zlen ps' ≤ Leaf.default_max_size →
  tree_ok live' (length C + 0) (plug C (TLeaf p ps')) ∧
  pmap (flat (plug C (TLeaf p ps'))) = <[key := v]> (pmap (flat (plug C (TLeaf p ps)))).
Proof.
  intros [Ht HC Hs HsC] [_ _ Hinc Hnd Hlk] Hb Hd Hl' Hnx Hd' Hfr Hp Hinc' Hsz.
  pose proof (insert_skel C p ps ps' key v Hinc Hb Hp Hinc') as Hsk.
  assert (Hnext : ∀ q, next_at live' q = next_at live q).
  { intros q. unfold next_at. destruct (decide (q = p)) as [->|Hne]; [|by rewrite Hfr].
    rewrite Hd, Hd'. exact (f_equal Some Hnx). }
  assert (HpC : p ∉ ctx_ids C).
  { rewrite ids_plug in Hnd. cbn [ids] in Hnd. apply NoDup_app in Hnd as (_ & Hx & _). apply Hx. by left. }
  split; [split|].
  - eapply repr_plug; [|by exists d']. eapply repr_ctx_frame, HC. intros q Hq. apply Hfr. by intros ->.
  - apply sized_plug; [|done]. cbn [sized] in Hs |- *. destruct Hs as [Hs _].
    apply Permutation_length in Hp. cbn [length] in Hp. split; [lia|done].
  - by rewrite skel_plug.
  - by rewrite (ids_plug_leaf C p ps' ps).
  - rewrite leaf_ids_plug in *. eapply linked_frame, Hlk. done.
  - eapply flat_insert; [|exact Hp|by rewrite skel_plug]. rewrite flat_plug. unfold flat. cbn.
    by rewrite app_nil_r.
Qed.

(** *** With a split *)
Lemma linked_insert live live' l1 p q l2 last : linked live (l1 ++ p :: l2) last → NoDup (l1 ++ p :: q :: l2) →
  next_at live' p = Some q → next_at live' q = next_at live p →
  (∀ x, x ∈ l1 ++ p :: q :: l2 → x ≠ p → x ≠ q → next_at live' x = next_at live x) →
  linked live' (l1 ++ p :: q :: l2) last.
Proof.
  rewrite !linked_app, !linked_cons. cbn [head default]. intros (H1 & Hp & H2) Hnd Hp' Hq' Hfr.
  apply NoDup_app in Hnd as (_ & Hd & (Hpn & [Hqn _]%NoDup_cons)%NoDup_cons). rewrite Hp', Hq', Hp.
  split_and!; try done; (eapply linked_frame; [|eassumption]); intros x Hx; (apply Hfr; [rewrite elem_of_app, !elem_of_cons; tauto|intros ->..]).
  - apply (Hd p Hx). by left.
  - apply (Hd q Hx). right. by left.
  - apply Hpn. by right.
  - done.
Qed.

Lemma split_skel C (pa pb : list (Z * RID)) k v : inc (ctx_l skel_l C ++ (code <$> (pa ++ (k, v) :: pb).*1) ++ ctx_r skel_r C) →
  pa ≠ [] → inc (skel_spread C ((code <$> pa.*1) ++ 2 * k :: (code <$> ((k, v) :: pb).*1))).
Proof.
  intros H Hne. destruct (exists_last Hne) as (pa' & [k0 v0] & ->). unfold skel_spread.
  assert (Hk : code <$> (pa' ++ [(k0, v0)]).*1 = (code <$> pa'.*1) ++ [code k0]) by by rewrite !fmap_app.
  rewrite (fmap_app fst (pa' ++ _)), fmap_app, Hk in H. rewrite Hk.
  cbn [fmap list_fmap fst] in H |- *. rewrite <- !app_assoc in H |- *. cbn [app] in H |- *.
  pose proof (inc_sep (ctx_l skel_l C ++ (code <$> pa'.*1)) k0 k ((code <$> pb.*1) ++ ctx_r skel_r C)) as Hs.
  rewrite <- !app_assoc in Hs. by apply Hs.
Qed.

(** ** [Insert] *)
Section insert.
Context (n : Z).
Implicit Types (a : alloc_state) (W : gset page_id_t) (m : gmap page_id_t Z) (C : list frame).

(** What a leaf split makes of the tree: the entries [ps] of the page [p] are on
    [p] and on the new page [q]. *)
Record leaf_split (a a' : alloc_state) (C : list frame) (p : page_id_t) (ps : list (Z * RID)) (h' : nat)
    (t' : tree) (q : page_id_t) (pa : list (Z * RID)) (k : Z) (v : RID) (pb : list (Z * RID)) : Prop := {
  ls_entries : ps = pa ++ (k, v) :: pb;
  ls_left : pa ≠ [];
  ls_fresh : al_live a !! q = None;
  ls_grown : grown a a' (p :: ctx_ids C) (Z.of_nat (length C) + 2) h' t';
  ls_height : (h' <= S (length C))%nat;
  ls_skel : skel t' = skel_spread C ((code <$> pa.*1) ++ 2 * k :: (code <$> ((k, v) :: pb).*1));
  ls_leaves : leaves t' = spread C [(p, pa); (q, (k, v) :: pb)];
  ls_next : next_at (al_live a') p = Some q;
  ls_next_new : next_at (al_live a') q = next_at (al_live a) p;
  ls_next_frame x : x ∈ leaf_ids t' → x ≠ p → x ≠ q → next_at (al_live a') x = next_at (al_live a) x;
}.

Lemma leaf_split_sizes {A} (ps : list A) : zlen ps = 254 →
  let k := Z.to_nat (zlen ps - zlen ps / 2) in zlen (take k ps) = 127 ∧ zlen (drop k ps) = 127.
Proof. intros Hl k. rewrite length_take, length_drop. unfold k. rewrite Hl. change (254 / 2) with 127. lia. Qed.

(** The two leaves wait to be joined under the context. *)
Lemma leaf_pending live live' C parent p q pa pb d1 d2 : NoDup (p :: ctx_ids C) → live !! q = None →
  is_Some (live !! p) → repr_ctx live 0 C parent p → sized_ctx 0 C →
  live' !! p = Some d1 → leaf_is (decode_leaf d1) parent p pa →
  live' !! q = Some d2 → leaf_is (decode_leaf d2) parent q pb →
  (∀ x, x ≠ p → x ≠ q → live' !! x = live !! x) →
  126 ≤ zlen pa ≤ 252 → 126 ≤ zlen pb ≤ 252 →
  pending live' 0 C parent (TLeaf p pa) (TLeaf q pb).
Proof.
  intros [Hp Hnd]%NoDup_cons Hq Hlp HC HsC Hd1 Hl1 Hd2 Hl2 Hfr Hz1 Hz2.
  assert (Hqc : q ∉ ctx_ids C).
  { intros Hin. destruct (repr_ctx_live _ _ _ _ _ _ HC Hin). congruence. }
  split; try done.
  - by exists d1.
  - exists parent. by exists d2.
  - eapply repr_ctx_frame, HC. intros x Hx. apply Hfr; intros ->; done.
  - cbn [sized]. unfold leaf_sized, leaf_min, Leaf.default_max_size. lia.
  - cbn [sized]. unfold leaf_sized, leaf_min, Leaf.default_max_size. lia.
  - cbn [ids app]. apply NoDup_cons. rewrite elem_of_cons. split; [|by apply NoDup_cons].
    intros [->|Hin]; [destruct Hlp; congruence|done].
Qed.

Lemma spread_in C lv x : x ∈ lv.*1 → x ∈ (spread C lv).*1.
Proof. intros Hx. unfold spread. rewrite !fmap_app, !elem_of_app. tauto. Qed.

Lemma leaf_split_done a a3 a' W W' C p q ps pa k v pb h' t' :
  joined a3 a' W W' 0 C (TLeaf p pa) k (TLeaf q ((k, v) :: pb)) h' t' →
  ps = pa ++ (k, v) :: pb → pa ≠ [] → al_live a !! q = None → al_num a3 ≤ al_num a + 1 →
  is_Some (al_live a3 !! p) → (∀ x, x ≠ p → x ≠ q → al_live a3 !! x = al_live a !! x) →
  next_at (al_live a3) p = Some q → next_at (al_live a3) q = next_at (al_live a) p →
  leaf_split a a' C p ps h' t' q pa k v pb.
Proof.
  intros [[Ha' Hnum' Hr Hs Hnd (new & Hids & Hnew) Hfr'] Hh Hsk Hlv _ Hnx] Hps Hne Hq Hnum Hlp Hfr Hxp Hxq.
  assert (Hids' : ids t' ≡ₚ (new ++ [q]) ++ p :: ctx_ids C).
  { rewrite Hids. cbn [ids]. solve_Permutation. }
  assert (Hlf : ∀ x, x = p ∨ x = q → x ∈ leaf_ids t').
  { intros x Hx. unfold leaf_ids. rewrite Hlv. apply spread_in. cbn. rewrite !elem_of_cons. tauto. }
  split; try done; [split; try done|lia|..].
  - lia.
  - exists (new ++ [q]). split; [done|]. intros x [Hx| ->%list_elem_of_singleton]%elem_of_app; [|done].
    specialize (Hnew x Hx). destruct (decide (x = p)) as [->|Hxp']; [destruct Hlp; congruence|].
    destruct (decide (x = q)) as [->|Hxq']; [done|]. by rewrite <- Hfr.
  - intros x Hx. rewrite Hfr' by done. apply Hfr; intros ->; apply Hx; rewrite Hids', elem_of_app, elem_of_cons, elem_of_app, list_elem_of_singleton; tauto.
  - rewrite Hnx by (apply Hlf; tauto). done.
  - rewrite Hnx by (apply Hlf; tauto). done.
  - intros x Hx Hxp' Hxq'. rewrite Hnx by done. unfold next_at. by rewrite Hfr.
Qed.

(** The two halves on their pages, up to the call of [InsertIntoParent]; and the
    last two calls. *)
Lemma split_leaf_pages a W m fuel p root q a1 z d l1 l2 k : alloc_ok a → pins_ok m a → Z.of_nat (size (pin p m)) < n →
  al_live a !! p = Some d → fresh_page a = Some (q, a1) → al_live a1 = <[q := z]> (al_live a) → p ≠ q →
  Leaf.MoveHalfTo (Leaf.set_next q (decode_leaf d)) (Leaf.set_next (Leaf.next_page_id_ (decode_leaf d))
    (Leaf.Init q (parent_page_id_ (Leaf.hdr (decode_leaf d))) Leaf.default_max_size (decode_leaf z))) = Some (l1, l2) →
  zlen (encode_leaf l1 d) = PAGE_SIZE → zlen (encode_leaf l2 z) = PAGE_SIZE → Leaf.KeyAt l2 0 = Some k →
  run_store (split_leaf fuel p root) (mkStore a W (pin p m) n) =
    run_store (root ← InsertIntoParent fuel p k q root; _ ← call (Unpin p true); _ ← call (Unpin q true); mret (true, root))
      (mkStore (set_live q (encode_leaf l2 z) (set_live p (encode_leaf l1 d) a1)) ({[q]} ∪ ({[p]} ∪ ({[q]} ∪ W)))
         (pin q (pin p m)) n).
Proof.
  intros Ha Hm Hn Hd Hf Hl1 Hpq Hex Hz1 Hz2 Hkey. unfold split_leaf.
  run_step (exact (step_new_pin a W (pin p m) n q a1 Ha ltac:(by apply pins_ok_pin; eauto) Hf Hn)).
  run_step (apply step_read; [by apply pin_keep, pin_self|by rewrite Hl1, lookup_insert_ne]).
  run_step (apply step_read; [apply pin_self|rewrite Hl1; apply lookup_insert_eq]).
  rewrite Hex, run_mem. run_step (apply step_write; [by apply pin_keep, pin_self|exact Hz1]).
  run_step (apply step_write; [apply pin_self|exact Hz2]). by rewrite Hkey, run_mem.
Qed.
Lemma unpin_both {A} a W m p q (x : A) : pins_ok m a → is_Some (al_live a !! q) →
  run_store (_ ← call (Unpin p true); _ ← call (Unpin q true); mret x) (mkStore a W (pin q (pin p m)) n) =
    Some (Ret x, mkStore a (unpin_W true q (unpin_W true p W)) m n).
Proof.
  intros Hm Hq. rewrite pin_comm. run_step (apply step_drop; [|by left]; by apply pins_ok_pin).
  by run_step (apply step_drop; [exact Hm|by left]).
Qed.

Lemma split_leaf_run a W m C parent p ps d fuel :
  alloc_ok a → pins_ok m a → al_num a + Z.of_nat (length C) + 1 < INVALID_PAGE_ID →
  Z.of_nat (size m) + 2 * Z.of_nat (length C) + 2 < n → (length C < fuel)%nat →
  al_live a !! p = Some d → leaf_is (decode_leaf d) parent p ps → LeafFacts.wf (decode_leaf d) →
  zlen ps = 254 → repr_ctx (al_live a) 0 C parent p → sized_ctx 0 C → NoDup (p :: ctx_ids C) →
  ∃ a' W' h' t' q pa k v pb,
    run_store (split_leaf fuel p (tid (plug C (TLeaf p ps)))) (mkStore a W (pin p m) n) =
      Some (Ret (true, tid t'), mkStore a' W' m n) ∧
    leaf_split a a' C p ps h' t' q pa k v pb ∧ W' ⊆ W ∖ {[p]}.
Proof.
  intros Ha Hm Hroom Hn Hfuel Hd Hl Hwf Hlen HC HsC Hnd.
  pose proof (ao_len _ Ha _ _ Hd) as Hdl. pose proof (size_pin p m) as Hsz.
  destruct (fresh_cell a Ha ltac:(lia)) as (q & a1 & z & Hf & Hnum1 & Ha1 & Hqn & Hl1 & Hzp & Hqu).
  destruct (split_leaf_page d z parent p q ps Hdl Hzp Hl Hwf) as
    (l1 & l2 & Hex & Hi1 & Hi2 & Hw2 & Hx1 & Hx2 & Hst1 & Hz1 & Hst2 & Hz2); [unfold Leaf.capacity; lia|done|].
  destruct (leaf_split_sizes ps Hlen) as [Hs1 Hs2]. set (j := Z.to_nat (zlen ps - zlen ps / 2)) in *.
  destruct (split_written a p q d _ _ a1 z Ha Hf Hl1 Hd Hz1 Hz2) as (Hpq & Ha3 & Hnum3 & H3p & H3q & H3 & Hkeep3).
  set (a3 := set_live q _ _) in *.
  destruct (drop j ps) as [|[k v] pb] eqn:Hdrop; [cbn in Hs2; lia|].
  assert (Hkey : Leaf.KeyAt l2 0 = Some k) by by eapply leaf_first_key.
  assert (Hk : i64_ok k).
  { rewrite <- Hst2 in Hkey. destruct (leaf_page_ok _ Hz2) as (_ & [Hw _] & _). by eapply zget_Forall. }
  assert (Hpd : pending (al_live a3) 0 C parent (TLeaf p (take j ps)) (TLeaf q ((k, v) :: pb))).
  { eapply (leaf_pending (al_live a)); [done|done|by eauto|done|done|exact H3p|by rewrite Hst1|exact H3q|
      by rewrite Hst2|done|lia|lia]. }
  assert (Hm3 : pins_ok m a3) by by eapply pins_ok_mono.
  assert (Hlp3 : is_Some (al_live a3 !! p)) by (rewrite H3p; eauto).
  assert (Hlq3 : is_Some (al_live a3 !! q)) by (rewrite H3q; eauto).
  pose proof (size_pin q (pin p m)) as Hsz2.
  destruct (insert_parent_run n C 0 a3 ({[q]} ∪ ({[p]} ∪ ({[q]} ∪ W))) (pin q (pin p m)) parent
    (TLeaf p (take j ps)) (TLeaf q ((k, v) :: pb)) k fuel Ha3) as
    (a' & W' & h' & t' & Hrun & Hj); [by repeat apply pins_ok_pin|lia|lia|by apply pin_keep, pin_self|apply pin_self|done..|].
  pose proof Hj as [Hg Hh Hsk Hlv HW Hnx].
  assert (Hm' : pins_ok m a').
  { eapply pins_ok_mono; [exact Hm3|]. intros x. by apply (grown_mono _ _ _ _ _ _ x Hg). }
  exists a', (W' ∖ {[p; q]}), h', t', q, (take j ps), k, v, pb. split; [|split].
  - rewrite (split_leaf_pages a W m fuel p _ q a1 z d l1 l2 k) by (done || lia).
    rewrite (tid_plug C (TLeaf p ps) (TLeaf p (take j ps)) eq_refl), run_store_bind. cbn [tid] in Hrun. fold a3.
    rewrite Hrun. cbn iota beta. rewrite unpin_both; [|exact Hm'|by apply (grown_mono _ _ _ _ _ _ q Hg)].
    cbn. do 3 f_equal. clear. set_solver.
  - apply (leaf_split_done _ _ _ _ _ _ _ _ _ _ _ _ _ _ _ Hj); try done;
      [by rewrite <- Hdrop, take_drop|intros Hnil; rewrite Hnil in Hs1; cbn in Hs1; lia|..]; unfold next_at.
    + rewrite H3p. change (Some (Leaf.next_page_id_ (decode_leaf (encode_leaf l1 d))) = Some q). by rewrite Hst1, Hx1.
    + rewrite H3q, Hd. change (Some (Leaf.next_page_id_ (decode_leaf (encode_leaf l2 z))) =
        Some (Leaf.next_page_id_ (decode_leaf d))). by rewrite Hst2, Hx2.
  - clear -HW. cbn [tid] in HW. set_solver.
Qed.

(** *** What an insertion makes of the index *)
Record inserted (a a' : alloc_state) (h : nat) (P : list page_id_t) (mp' : gmap Z RID)
    (h' : nat) (root' : page_id_t) (P' : list page_id_t) : Prop := {
  in_ok : alloc_ok a';
  in_num : al_num a' ≤ al_num a + Z.of_nat h + 2;
  in_rel : index_rel (al_live a') h' root' P' mp';
  in_height : (h' <= S h)%nat;
  in_ids : ∃ new, P' ≡ₚ new ++ P ∧ ∀ p, p ∈ new → al_live a !! p = None;
  in_frame p : p ∉ P' → al_live a' !! p = al_live a !! p;
}.

Lemma insert_fits a a' h C parent p ps ps' d d' key v : alloc_ok a' → al_num a' = al_num a →
  located (al_live a) 0 C parent (TLeaf p ps) → tree_ok (al_live a) h (plug C (TLeaf p ps)) → length C = h →
  bracket C key → al_live a !! p = Some d → leaf_is (decode_leaf d') parent p ps' →
  Leaf.next_page_id_ (decode_leaf d') = Leaf.next_page_id_ (decode_leaf d) →
  al_live a' !! p = Some d' → (∀ q, q ≠ p → al_live a' !! q = al_live a !! q) →
  ps' ≡ₚ (key, v) :: ps → inc ps'.*1 → zlen ps' ≤ Leaf.default_max_size →
  inserted a a' h (ids (plug C (TLeaf p ps))) (<[key := v]> (pmap (flat (plug C (TLeaf p ps)))))
    h (tid (plug C (TLeaf p ps))) (ids (plug C (TLeaf p ps))).
Proof.
  intros Ha' Hnum Hloc Ht <- Hb Hd Hl Hnx Hd' Hfr Hp Hinc Hsz.
  destruct (leaf_stays (al_live a) (al_live a') C parent p ps ps' key v d d') as [Ht' Hmp]; try done;
    [by rewrite Nat.add_0_r|]. rewrite Nat.add_0_r in Ht'.
  split; [done|lia| |lia| |].
  - right. eexists. split; [|split; [|split; [exact Ht'|by rewrite Hmp]]]; [by apply tid_plug|apply ids_plug_leaf].
  - exists []. split; [done|]. by intros q ?%not_elem_of_nil.
  - intros q Hq. apply Hfr. intros ->. apply Hq. rewrite ids_plug. cbn. by left.
Qed.

Lemma insert_splits a a1 a' h C p ps ps' key v h' t' q pa k w pb :
  tree_ok (al_live a) h (plug C (TLeaf p ps)) → length C = h → bracket C key → is_Some (al_live a !! p) →
  al_num a1 = al_num a → (∀ x, x ≠ p → al_live a1 !! x = al_live a !! x) →
  next_at (al_live a1) p = next_at (al_live a) p →
  ps' ≡ₚ (key, v) :: ps → inc ps'.*1 → leaf_split a1 a' C p ps' h' t' q pa k w pb →
  inserted a a' h (ids (plug C (TLeaf p ps))) (<[key := v]> (pmap (flat (plug C (TLeaf p ps)))))
    h' (tid t') (ids t').
Proof.
  intros [_ _ Hinc Hnd Hlk] <- Hb Hlp Hnum Hfr Hnx Hp Hinc' [Hsp Hne Hq Hg Hh Hsk Hlv Hx1 Hx2 Hx].
  pose proof Hg as [Ha' Hnum' Hr Hs Hnd' (new & Hids & Hnew) Hfr'].
  assert (Hfa : ∀ x, x ≠ p → al_live a1 !! x = None → al_live a !! x = None) by (intros x Hxp; by rewrite Hfr).
  assert (Hidt : ids t' ≡ₚ new ++ ids (plug C (TLeaf p ps))) by by rewrite Hids, (ids_plug C (TLeaf p ps)).
  assert (Hnp : ∀ x, x ∈ new → x ≠ p).
  { intros x Hxn ->. rewrite Hids in Hnd'. apply NoDup_app in Hnd' as (_ & Hd & _). apply (Hd p Hxn). by left. }
  pose proof (insert_skel C p ps ps' key v Hinc Hb Hp Hinc') as Hsk'. rewrite Hsp in Hsk'.
  apply split_skel in Hsk'; [|done]. rewrite <- Hsk in Hsk'.
  assert (Hlids : leaf_ids t' = (ctx_l leaves_l C).*1 ++ p :: q :: (ctx_r leaves_r C).*1).
  { unfold leaf_ids. rewrite Hlv. unfold spread. by rewrite !fmap_app. }
  split; [done|lia| |lia| |].
  - right. exists t'. split; [done|]. split; [done|]. split; [split; try done|].
    + rewrite Hlids. rewrite (leaf_ids_plug C p ps) in Hlk.
      eapply linked_insert; [exact Hlk| |done|by rewrite Hx2|]; rewrite <- Hlids.
      * eapply sublist_NoDup, leaf_ids_sublist. exact Hnd'.
      * intros x Hin Hxp Hxq. rewrite Hx by done. unfold next_at. by rewrite Hfr.
    + symmetry. eapply flat_insert; [|exact Hp|done]. unfold flat. rewrite Hlv. unfold spread.
      rewrite Hsp, !bind_app. cbn [mbind list_bind snd]. by rewrite app_nil_r, <- !app_assoc.
  - exists new. split; [done|]. intros x Hxn. by apply Hfa, Hnew; [apply Hnp|].
  - intros x Hxn. rewrite Hfr' by done. apply Hfr. intros ->. apply Hxn. rewrite Hids, elem_of_app. right. by left.
Qed.

(** The first key makes a root leaf. *)
Lemma insert_root_page q key v z : zlen z = PAGE_SIZE → u32_ok q → i64_ok key → rid_ok v →
  ∃ l, Leaf.Insert key v (Leaf.Init q INVALID_PAGE_ID Leaf.default_max_size (decode_leaf z)) = Some (1, l) ∧
    leaf_is l INVALID_PAGE_ID q [(key, v)] ∧ Leaf.next_page_id_ l = INVALID_PAGE_ID ∧
    decode_leaf (encode_leaf l z) = l ∧ zlen (encode_leaf l z) = PAGE_SIZE.
Proof.
  intros Hz Hq Hk Hv. destruct (leaf_page_ok z Hz) as (Hc & Hw & _).
  set (r := Leaf.Init q INVALID_PAGE_ID Leaf.default_max_size (decode_leaf z)).
  destruct (LeafFacts.leaf_init_spec q INVALID_PAGE_ID Leaf.default_max_size (decode_leaf z) Hc) as [Hwf Hp].
  fold r in Hwf, Hp. pose proof (LeafFacts.leaf_insert_spec r key v Hwf ltac:(done)) as Hi.
  rewrite Hp in Hi. destruct Hi as (l & i & Hex & Hwl & [Hh Hn] & Hsz & _ & Hps & _).
  assert (Hl : leaf_is l INVALID_PAGE_ID q [(key, v)]).
  { split; [by rewrite Hh, Hsz|]. rewrite Hps. unfold ins. by destruct (Z.to_nat i). }
  assert (Hwr : within i64_ok rid_ok (Leaf.arrays r)) by exact Hw.
  exists l. split; [exact Hex|]. split; [done|]. split; [done|].
  apply (leaf_stored l INVALID_PAGE_ID q _ z Hz Hl (LeafFacts.lw_cells _ Hwl)
    (leaf_insert_within _ _ _ _ _ Hwr Hk Hv Hex)); [done|done|by rewrite Hn|done].
Qed.

Lemma insert_empty_run a W m fuel key v : alloc_ok a → pins_ok m a → al_num a < INVALID_PAGE_ID →
  Z.of_nat (size m) < n → i64_ok key → rid_ok v →
  ∃ a' W' root' P', run_store (BPlusTree_Insert fuel key v INVALID_PAGE_ID) (mkStore a W m n) =
      Some (Ret (true, root'), mkStore a' W' m n) ∧
    inserted a a' 0 [] {[key := v]} 0 root' P' ∧ W' ⊆ W.
Proof.
  intros Ha Hm Hroom Hn Hk Hv. destruct (fresh_cell a Ha Hroom) as (q & a1 & z & Hf & Hnum1 & Ha1 & Hqn & Hl1 & Hzp & Hqu).
  destruct (insert_root_page q key v z Hzp Hqu Hk Hv) as (l & Hex & Hl & Hnx & Hst & Hlen).
  set (a2 := set_live q (encode_leaf l z) a1).
  assert (Hlive : ∀ p, p ≠ q → al_live a2 !! p = al_live a !! p).
  { intros p Hp. cbn. by rewrite Hl1, !lookup_insert_ne. }
  assert (H2 : al_live a2 !! q = Some (encode_leaf l z)) by apply lookup_insert_eq.
  assert (Hm2 : pins_ok m a2).
  { eapply pins_ok_mono; [exact Hm|]. intros p [d Hd]. rewrite Hlive; [by eauto|]. congruence. }
  exists a2, (unpin_W true q ({[q]} ∪ ({[q]} ∪ W))), q, [q]. split; [|split; [split|cbn; clear; set_solver]].
  - unfold BPlusTree_Insert, IsEmpty. rewrite bool_decide_true by done.
    run_step (exact (step_new_pin a W m n q a1 Ha Hm Hf Hn)).
    run_step (apply step_read; [apply pin_self|rewrite Hl1; apply lookup_insert_eq]).
    rewrite Hex, run_mem. run_step (apply step_write; [apply pin_self|exact Hlen]).
    run_step (apply step_drop; [exact Hm2|by left]). done.
  - apply set_live_ok; [done|rewrite Hl1, lookup_insert_eq; by eauto|done].
  - cbn. lia.
  - right. exists (TLeaf q [(key, v)]). split_and!; [done..| |].
    + split.
      * exists (encode_leaf l z). by rewrite H2, Hst.
      * cbn. unfold leaf_sized. cbn. unfold Leaf.default_max_size. lia.
      * intros [|i] [|j] x y; cbn; try lia; done.
      * apply NoDup_singleton.
      * apply linked_cons. split; [|apply linked_nil].
        change (next_at (al_live a2) q = Some INVALID_PAGE_ID). unfold next_at. rewrite H2.
        change (Some (Leaf.next_page_id_ (decode_leaf (encode_leaf l z))) = Some INVALID_PAGE_ID). by rewrite Hst, Hnx.
    + done.
  - lia.
  - exists [q]. split; [done|]. by intros p ->%list_elem_of_singleton.
  - intros p Hp. apply Hlive. intros ->. apply Hp. by left.
Qed.

Lemma inserted_refl a h root P mp : alloc_ok a → index_rel (al_live a) h root P mp → inserted a a h P mp h root P.
Proof. intros Ha Hr. split; [done|lia|done|lia| |done]. exists []. split; [done|]. by intros p ?%not_elem_of_nil. Qed.

(** The leaf [p], written with the new entry, is overfull: a split as a step of the
    whole tree. *)
Lemma overflow_run a a1 W m fuel key v h C pp p ps ps' d d' : alloc_ok a1 → pins_ok m a1 → al_num a1 = al_num a →
  tree_ok (al_live a) h (plug C (TLeaf p ps)) → located (al_live a) 0 C pp (TLeaf p ps) → bracket C key → length C = h →
  (h < fuel)%nat → al_num a + Z.of_nat h + 1 < INVALID_PAGE_ID → Z.of_nat (size m) + 2 * Z.of_nat h + 2 < n →
  al_live a !! p = Some d → al_live a1 !! p = Some d' → (∀ q, q ≠ p → al_live a1 !! q = al_live a !! q) →
  leaf_is (decode_leaf d') pp p ps' → LeafFacts.wf (decode_leaf d') →
  Leaf.next_page_id_ (decode_leaf d') = Leaf.next_page_id_ (decode_leaf d) →
  ps' ≡ₚ (key, v) :: ps → inc ps'.*1 → zlen ps' = 254 →
  ∃ a' W' h' root' P',
    run_store (split_leaf fuel p (tid (plug C (TLeaf p ps)))) (mkStore a1 ({[p]} ∪ W) (pin p m) n) =
      Some (Ret (true, root'), mkStore a' W' m n) ∧
    inserted a a' h (ids (plug C (TLeaf p ps))) (<[key := v]> (pmap (flat (plug C (TLeaf p ps))))) h' root' P' ∧
    W' ⊆ ({[p]} ∪ W) ∖ {[p]}.
Proof.
  intros Ha1 Hm1 Hnum Ht [_ HC _ HsC] Hb Hh Hfuel Hroom Hn Hd Hd' Hf1 Hl Hwf Hnx Hperm Hinc Hz. cbn [tid] in HC.
  assert (Hnd : NoDup (p :: ctx_ids C)) by (pose proof (to_nodup _ _ _ Ht) as H; by rewrite ids_plug in H).
  assert (HC1 : repr_ctx (al_live a1) 0 C pp p).
  { eapply repr_ctx_frame, HC. intros q Hq. apply Hf1. intros ->. by apply NoDup_cons in Hnd as [? _]. }
  destruct (split_leaf_run a1 ({[p]} ∪ W) m C pp p ps' d' fuel) as
    (a' & W' & h' & t' & q & pa & k & w & pb & Hrun & Hls & HW'); try done; [lia..|].
  rewrite (tid_plug C (TLeaf p ps) (TLeaf p ps') eq_refl), Hrun.
  eexists a', W', h', _, _. split; [reflexivity|]. split; [|done]. eapply (insert_splits a a1); try done.
  unfold next_at. rewrite Hd', Hd. exact (f_equal Some Hnx).
Qed.

(** The whole of [Insert]. *)
Lemma tree_insert_run a W m fuel key v h root P mp :
  alloc_ok a → pins_ok m a → index_rel (al_live a) h root P mp → (∀ p, p ∈ P → p ∉ W) → (h < fuel)%nat →
  al_num a + Z.of_nat h + 1 < INVALID_PAGE_ID → Z.of_nat (size m) + 2 * Z.of_nat h + 2 < n →
  i64_ok key → rid_ok v →
  ∃ a' W' h' root' P',
    run_store (BPlusTree_Insert fuel key v root) (mkStore a W m n) =
      Some (Ret (bool_decide (mp !! key = None), root'), mkStore a' W' m n) ∧
    inserted a a' h P (if mp !! key then mp else <[key := v]> mp) h' root' P' ∧ W' ⊆ W.
Proof.
  intros Ha Hm [(-> & -> & -> & ->)|(t & -> & -> & Ht & ->)] HW Hfuel Hroom Hn Hk Hv.
  { destruct (insert_empty_run a W m fuel key v) as (a' & W' & root' & P' & Hrun & Hi & HW'); try done; [lia|lia|].
    by exists a', W', 0%nat, root', P'. }
  assert (Hrl : is_Some (al_live a !! tid t)) by (eapply repr_live; [apply Ht|apply tid_ids]).
  destruct (alloc_ok_id _ _ Ha Hrl) as [Hne _].
  destruct (find_leaf_page_run a n Ha W m key fuel h t Hm ltac:(lia) HW Hfuel Ht) as
    (C & pp & p & ps & Hpl & Hloc & Hb & Hp & Hh & Hrun).
  destruct (found_leaf a Ha _ _ _ _ _ _ _ Ht Hpl Hloc Hb) as (d & Hd & Hdl & Hl & Hwf & Hsz & Hval).
  unfold BPlusTree_Insert, IsEmpty. rewrite bool_decide_false by done.
  rewrite run_store_bind, Hrun. cbn iota beta. run_step (apply step_read; [apply pin_self|exact Hd]).
  rewrite Hval. subst t.
  assert (Hs : size_ (Leaf.hdr (decode_leaf d)) = zlen ps) by (destruct Hl as [-> _]; done).
  pose proof Hl as [_ Hpairs]. assert (Hcap : zlen ps < Leaf.capacity) by (unfold Leaf.capacity, Leaf.default_max_size in *; lia).
  destruct (pmap ps !! key) as [w|] eqn:Hkey.
  { pose proof (LeafFacts.leaf_insert_spec (decode_leaf d) key v Hwf ltac:(lia)) as Hi.
    rewrite Hpairs, Hkey in Hi. rewrite Hi, run_mem, decide_True by done.
    run_step (apply step_drop; [exact Hm|right; left; by apply HW]).
    eexists a, W, h, _, _. split; [reflexivity|]. split; [|done]. apply inserted_refl; [done|]. by right; eexists. }
  destruct (insert_leaf_page d pp p ps key v Hdl Hl Hwf Hcap Hkey Hk Hv) as
    (l & ps' & Hex & Hl' & Hwl & Hnx & Hperm & Hinc & Hst & Hlen).
  rewrite Hex, run_mem, decide_False by lia. run_step (apply step_write; [apply pin_self|exact Hlen]).
  destruct (page_written a m p d _ Ha Hm Hd Hlen) as (Ha1 & Hm1 & Hl1 & Hf1 & _). set (a1 := set_live p _ a) in *.
  assert (Hz' : zlen ps' = zlen ps + 1) by (rewrite Hperm; cbn; lia).
  assert (Hmax : max_size_ (Leaf.hdr l) = Leaf.default_max_size) by (destruct Hl' as [-> _]; done).
  rewrite Hmax. destruct (decide _) as [Hfit|Hover].
  - run_step (apply step_drop; [exact Hm1|by left]). eexists a1, _, h, _, _. split; [reflexivity|].
    split; [|cbn; clear; set_solver].
    apply (insert_fits a a1 h C pp p ps ps' d (encode_leaf l d)); try done; [by rewrite Hst|by rewrite Hst|lia].
  - destruct (overflow_run a a1 W m fuel key v h C pp p ps ps' d (encode_leaf l d)) as
      (a' & W' & h' & root' & P' & Hrun' & Hin & HW'); try done; [by rewrite Hst|by rewrite Hst|by rewrite Hst|
      unfold Leaf.default_max_size in *; lia|].
    rewrite Hrun'. eexists a', W', h', _, _. split; [reflexivity|]. split; [exact Hin|clear -HW'; set_solver].
Qed.
End insert.

(** ** How high a tree can be *)
Lemma bind_size {A B} (f : A → list B) (b : Z) (es : list A) : 0 ≤ b → Forall (λ e, b ≤ zlen (f e)) es →
  zlen es * b ≤ zlen (es ≫= f).
Proof.
  intros Hb. induction 1 as [|e es He _ IH]; [by cbn; lia|]. rewrite bind_cons, length_app. cbn [length]. lia.
Qed.
Lemma bind_size_le {A B} (f : A → list B) es b : Forall (λ e, zlen (f e) ≤ b) es → zlen (es ≫= f) ≤ zlen es * b.
Proof.
  induction 1 as [|e es He _ IH]; [by cbn; lia|]. rewrite bind_cons, length_app. cbn [length]. lia.
Qed.
Lemma sized_flat h t : sized false h t → 126 * 169 ^ Z.of_nat h ≤ zlen (flat t).
Proof.
  revert t. induction h as [|h IH]; intros [p ps|p es]; try done.
  - intros [Hs _]. unfold flat. cbn [leaves mbind list_bind snd]. rewrite app_nil_r. cbn in *. lia.
  - intros [[Hs _] Hes]. rewrite flat_node. unfold node_min in Hs.
    assert (Hb : Forall (λ e, 126 * 169 ^ Z.of_nat h ≤ zlen (flat e.2)) es).
    { rewrite Forall_forall in *. auto. }
    apply (bind_size (λ e, flat e.2)) in Hb; [|lia]. rewrite Nat2Z.inj_succ, Z.pow_succ_r by lia.
    etrans; [|exact Hb]. nia.
Qed.
Lemma sized_root_flat h t : sized true (S h) t → 252 * 169 ^ Z.of_nat h ≤ zlen (flat t).
Proof.
  destruct t as [p ps|p es]; [done|]. intros [[Hs _] Hes]. rewrite flat_node. unfold node_min in Hs.
  assert (Hb : Forall (λ e, 126 * 169 ^ Z.of_nat h ≤ zlen (flat e.2)) es).
  { rewrite Forall_forall in *. intros e He. by apply sized_flat, Hes. }
  apply (bind_size (λ e, flat e.2)) in Hb; [|lia]. etrans; [|exact Hb]. nia.
Qed.
Lemma sized_leaves root h t : sized root h t → Forall (λ x, zlen x.2 ≤ Leaf.default_max_size) (leaves t).
Proof.
  revert root t. induction h as [|h IH]; intros root [p ps|p es]; try done.
  - intros [_ Hs]. by repeat constructor.
  - intros [_ Hes]. cbn [leaves]. apply Forall_forall. intros x (e & Hx & He)%list_elem_of_bind.
    rewrite Forall_forall in Hes. specialize (IH false e.2 (Hes e He)). rewrite Forall_forall in IH. by apply IH.
Qed.
Lemma flat_leaves t root h : sized root h t → zlen (flat t) ≤ Leaf.default_max_size * zlen (leaves t).
Proof.
  intros H%sized_leaves. unfold flat. induction H as [|x l Hx _ IH]; [done|].
  rewrite bind_cons, length_app. cbn [length]. lia.
Qed.

Lemma sized_upper root h t : sized root h t → zlen (flat t) ≤ 253 * 338 ^ Z.of_nat h.
Proof.
  revert root t. induction h as [|h IH]; intros root [p ps|p es]; try done.
  - intros [_ Hs]. unfold flat. cbn [leaves mbind list_bind snd]. rewrite app_nil_r. exact Hs.
  - intros [[_ Hs] Hes]. rewrite flat_node.
    assert (Hb : Forall (λ e, zlen (flat e.2) ≤ 253 * 338 ^ Z.of_nat h) es).
    { rewrite Forall_forall in *. intros e He. by eapply IH, Hes. }
    apply (bind_size_le (λ e, flat e.2)) in Hb. rewrite Nat2Z.inj_succ, Z.pow_succ_r by lia.
    etrans; [exact Hb|]. unfold Internal.default_max_size in Hs. assert (0 ≤ 338 ^ Z.of_nat h) by lia. nia.
Qed.
Lemma flat_nonempty h t : sized true h t → flat t ≠ [].
Proof.
  destruct h as [|h]; intros Hs Hn.
  - destruct t as [p ps|]; [|done]. destruct Hs as [Hs _]. unfold flat in Hn. cbn in Hn, Hs. rewrite app_nil_r in Hn.
    subst ps. cbn in Hs. lia.
  - apply sized_root_flat in Hs. rewrite Hn in Hs. cbn in Hs. assert (0 < 169 ^ Z.of_nat h) by lia. lia.
Qed.
Lemma live_ids live h t : repr live h INVALID_PAGE_ID t → ∀ p, p ∈ ids t → is_Some (live !! p).
Proof. intros Hr p. by apply repr_live with (1 := Hr). Qed.

(** Distinct ids of 32 bits. *)
Lemma ids_count (l : list Z) : NoDup l → (∀ p, p ∈ l → u32_ok p) → zlen l ≤ 2 ^ 32.
Proof.
  intros Hnd Hl. assert (Hsub : l ⊆ seqZ 0 (2 ^ 32)).
  { intros p Hp%Hl. apply elem_of_seqZ. unfold u32_ok in *. lia. }
  apply NoDup_submseteq, submseteq_length in Hsub; [|done].
  rewrite length_seqZ in Hsub. lia.
Qed.

Lemma height_le a h root P mp : alloc_ok a → index_rel (al_live a) h root P mp → (h <= 5)%nat.
Proof.
  intros Ha [(-> & -> & -> & ->)|(t & -> & -> & [Hr Hs Hinc Hnd Hlk] & ->)]; [lia|].
  destruct h as [|h]; [lia|]. pose proof (sized_root_flat h t Hs) as H1. pose proof (flat_leaves t _ _ Hs) as H2.
  assert (H3 : zlen (leaves t) ≤ 2 ^ 32).
  { replace (zlen (leaves t)) with (zlen (leaf_ids t)) by (unfold leaf_ids; by rewrite length_fmap).
    apply ids_count; [eapply sublist_NoDup, leaf_ids_sublist; exact Hnd|].
    intros p Hp%leaf_ids_sub. by destruct (alloc_ok_id _ p Ha (live_ids _ _ _ Hr p Hp)). }
  destruct (decide (h <= 4)%nat) as [|Hgt]; [lia|]. exfalso.
  assert (H4 : 169 ^ 5 ≤ 169 ^ Z.of_nat h) by (apply Z.pow_le_mono_r; lia).
  unfold Leaf.default_max_size in H2. change (2 ^ 32) with 4294967296 in H3. change (169 ^ 5) with 137858491849 in H4. lia.
Qed.

(** ** The index behind its operations

    What a client of the tree sees: a finite map from keys to row ids. *)
Inductive index_op := Get (key : Z) | Put (key : Z) (value : RID) | Del (key : Z).
Inductive index_res := Got (o : option RID) | Stored (b : bool) | Deleted (b : bool).

Definition index_step (op : index_op) (mp : gmap Z RID) : index_res * gmap Z RID :=
  match op with
  | Get key => (Got (mp !! key), mp)
  | Put key value =>
      match mp !! key with
      | Some _ => (Stored false, mp)
      | None => (Stored true, <[key := value]> mp)
      end
  | Del key => (Deleted (bool_decide (is_Some (mp !! key))), delete key mp)
  end.
Fixpoint index_steps (ops : list index_op) (mp : gmap Z RID) : list index_res * gmap Z RID :=
  match ops with
  | [] => ([], mp)
  | op :: ops => let (r, mp) := index_step op mp in let (rs, mp) := index_steps ops mp in (r :: rs, mp)
  end.
(** The number of deletions that remove the last key. *)
Definition empties (op : index_op) (mp : gmap Z RID) : nat :=
  match op with
  | Del key => if decide (mp ≠ ∅ ∧ delete key mp = ∅) then 1 else 0
  | _ => 0
  end.
Fixpoint emptied (ops : list index_op) (mp : gmap Z RID) : nat :=
  match ops with
  | [] => 0
  | op :: ops => empties op mp + emptied ops (index_step op mp).2
  end.

(** A client that makes the same calls on a [BPlusTree]. *)
Definition tree_call (fuel : nat) (op : index_op) (root_page_id : page_id_t) : prog (index_res * page_id_t) :=
  match op with
  | Get key => o ← BPlusTree_GetValue fuel key root_page_id; mret (Got o, root_page_id)
  | Put key value =>
      '(b, root_page_id) ← BPlusTree_Insert fuel key value root_page_id; mret (Stored b, root_page_id)
  | Del key =>
      '(b, root_page_id) ← BPlusTree_Delete fuel key root_page_id; mret (Deleted b, root_page_id)
  end.
Fixpoint tree_calls (fuel : nat) (ops : list index_op) (root_page_id : page_id_t)
    : prog (list index_res * page_id_t) :=
  match ops with
  | [] => mret ([], root_page_id)
  | op :: ops =>
      '(r, root_page_id) ← tree_call fuel op root_page_id;
      '(rs, root_page_id) ← tree_calls fuel ops root_page_id;
      mret (r :: rs, root_page_id)
  end.
Definition index_op_ok (op : index_op) : Prop :=
  match op with Put key value => i64_ok key ∧ rid_ok value | _ => True end.

(** The fuel of every call: one unit per level of the tree and one more. *)
Definition tree_fuel : nat := 6.

(** The pages of the tree after some calls: pages it had before, and pages that
    were not allocated; pages beside the tree are as they were. *)
Record index_moved (a a' : alloc_state) (P P' : list page_id_t) : Prop := {
  im_ok : alloc_ok a';
  im_ids p : p ∈ P' → p ∈ P ∨ al_live a !! p = None;
  im_frame p : p ∉ P → is_Some (al_live a !! p) → al_live a' !! p = al_live a !! p;
}.
Lemma index_moved_refl a P : alloc_ok a → index_moved a a P P.
Proof. intros Ha. split; [done|by left|done]. Qed.

Lemma index_moved_trans a1 a2 a3 P1 P2 P3 :
  index_moved a1 a2 P1 P2 → index_moved a2 a3 P2 P3 → index_moved a1 a3 P1 P3.
Proof.
  intros [Ha2 Hi1 Hf1] [Ha3 Hi2 Hf2]. split; [done| |].
  - intros p [Hp|Hp]%Hi2; [by apply Hi1|]. destruct (decide (p ∈ P1)) as [|Hn]; [by left|right].
    apply eq_None_not_Some. intros Hl. specialize (Hf1 p Hn Hl). destruct Hl. congruence.
  - intros p Hp Hl. pose proof (Hf1 p Hp Hl) as H1. rewrite <- H1. apply Hf2; [|by rewrite H1].
    intros [?|Hn]%Hi1; [done|]. destruct Hl. congruence.
Qed.

Lemma index_empty live h root P mp : index_rel live h root P mp → P = [] ↔ mp = ∅.
Proof.
  intros [(_ & _ & -> & ->)|(t & _ & -> & [_ Hs Hinc _ _] & ->)]; [done|].
  split; [intros Hn; by destruct t|]. intros He. exfalso. apply (flat_nonempty _ _ Hs).
  destruct (flat t) as [|[k v] l]; [done|]. unfold pmap in He. cbn in He. by apply insert_non_empty in He.
Qed.

(** A tree in use: it is on pages of its own, and whatever was written without the
    dirty flag is pinned. *)
Record index_state (a : alloc_state) (W : gset page_id_t) (m : gmap page_id_t Z) (h : nat) (root : page_id_t)
    (P : list page_id_t) (mp : gmap Z RID) : Prop := {
  is_ok : alloc_ok a;
  is_pins : pins_ok m a;
  is_rel : index_rel (al_live a) h root P mp;
  is_dirty p : p ∈ W → is_Some (m !! p);
  is_own p : p ∈ P → m !! p = None;
}.
Lemma state_free a W m h root P mp p : index_state a W m h root P mp → p ∈ P → m !! p = None ∧ p ∉ W.
Proof.
  intros Hs Hp. pose proof (is_own _ _ _ _ _ _ _ Hs p Hp) as Hm. split; [done|].
  intros [k Hk]%(is_dirty _ _ _ _ _ _ _ Hs). congruence.
Qed.

Lemma put_run n a W m key v h root P mp : index_state a W m h root P mp → i64_ok key → rid_ok v →
  al_num a + 6 < INVALID_PAGE_ID → 12 + Z.of_nat (size m) < n →
  ∃ a' W' h' root' P', run_store (BPlusTree_Insert tree_fuel key v root) (mkStore a W m n) =
      Some (Ret (bool_decide (mp !! key = None), root'), mkStore a' W' m n) ∧
    index_state a' W' m h' root' P' (if mp !! key then mp else <[key := v]> mp) ∧
    index_moved a a' P P' ∧ al_num a' ≤ al_num a + 7.
Proof.
  intros Hst Hk Hv Hroom Hn. pose proof Hst as [Ha Hm Hrel HWm Hown]. pose proof (height_le a h root P mp Ha Hrel) as Hh.
  destruct (tree_insert_run n a W m tree_fuel key v h root P mp Ha Hm Hrel) as
    (a' & W' & h' & root' & P' & Hrun & [Ha' Hnum' Hrel' Hh' (new & Hids & Hnew) Hfr'] & HW');
    [intros p Hp; by apply (state_free _ _ _ _ _ _ _ _ Hst)|unfold tree_fuel; lia|lia|lia|done..|].
  assert (Hlive : ∀ p, p ∉ P → is_Some (al_live a !! p) → al_live a' !! p = al_live a !! p).
  { intros p Hp Hl. apply Hfr'. rewrite Hids. intros [Hx|Hx]%elem_of_app; [|done]. apply Hnew in Hx. destruct Hl. congruence. }
  exists a', W', h', root', P'. split; [done|split; [split; try done|split; [split; [done| |done]|lia]]].
  - intros p j Hp. destruct (Hm p j Hp) as [? Hl]. split; [done|].
    rewrite Hlive; [done| |done]. intros Hin%Hown. congruence.
  - intros p Hp. by apply HWm, HW'.
  - intros p. rewrite Hids. intros [Hx|Hx]%elem_of_app; [|by apply Hown]. apply Hnew in Hx.
    apply eq_None_not_Some. intros [j Hj]. destruct (Hm p j Hj) as [_ [? ?]]. congruence.
  - intros p. rewrite Hids. intros [Hx|Hx]%elem_of_app; [right; by apply Hnew|by left].
Qed.

Lemma del_run n a W m key h root P mp : index_state a W m h root P mp → 12 + Z.of_nat (size m) < n →
  ∃ a' W' m' h' root' P', run_store (BPlusTree_Delete tree_fuel key root) (mkStore a W m n) =
      Some (Ret (bool_decide (is_Some (mp !! key)), root'), mkStore a' W' m' n) ∧
    index_state a' W' m' h' root' P' (delete key mp) ∧ index_moved a a' P P' ∧ al_num a' = al_num a ∧
    (m ⊆ m' ∧ ∀ p, p ∉ P → m' !! p = m !! p) ∧ size m' = (size m + empties (Del key) mp)%nat.
Proof.
  intros Hst Hn. pose proof Hst as [Ha Hm Hrel HWm Hown]. pose proof (height_le a h root P mp Ha Hrel) as Hh.
  destruct (delete_run n a W m tree_fuel key h root P mp Ha Hm Hrel) as
    (a' & W' & m' & h' & root' & P' & Hrun & [Ha' Hnum Hrel' Hh' (gone & Hids) Hfr Hpins]);
    [intros p; by apply (state_free _ _ _ _ _ _ _ _ Hst)|unfold tree_fuel; lia|lia|].
  pose proof (index_empty _ _ _ _ _ Hrel) as He. pose proof (index_empty _ _ _ _ _ Hrel') as He'.
  assert (HP : ∀ p, p ∈ P' → p ∈ P) by (intros p Hp; rewrite Hids; apply elem_of_app; by right).
  assert (Hmv : index_moved a a' P P') by (split; [done|intros p Hp; left; by apply HP|intros p Hp _; by apply Hfr]).
  assert (Hm' : pins_ok m a').
  { intros p j Hp. destruct (Hm p j Hp). split; [done|]. rewrite Hfr; [done|]. intros Hin%Hown. congruence. }
  exists a', W', m', h', root', P'. split; [done|]. cbn [empties].
  destruct Hpins as [(-> & HW & Hor)|(-> & -> & Hlr & -> & ->)].
  - rewrite decide_False, Nat.add_0_r by tauto. split_and!; try done. split; try done.
    + intros p Hp. by apply HWm, HW.
    + intros p Hp. by apply Hown, HP.
  - pose proof (Hown root ltac:(by left)) as Hmr. rewrite decide_True by (rewrite <- He, <- He'; done).
    split_and!; try done; [split; try done| | |].
    + by apply pins_ok_pin.
    + intros p [->%elem_of_singleton|Hp]%elem_of_union; [apply pin_self|by apply pin_keep, HWm].
    + intros p Hp. by apply not_elem_of_nil in Hp.
    + unfold pin. by apply insert_subseteq.
    + intros p Hp. unfold pin. rewrite lookup_insert_ne; [done|].
      intros <-. apply Hp. by left.
    + unfold pin. rewrite map_size_insert_None by done. lia.
Qed.

Lemma tree_call_run n a W m op h root P mp : index_state a W m h root P mp → index_op_ok op →
  al_num a + 6 < INVALID_PAGE_ID → 12 + Z.of_nat (size m) < n →
  ∃ a' W' m' h' root' P', run_store (tree_call tree_fuel op root) (mkStore a W m n) =
      Some (Ret ((index_step op mp).1, root'), mkStore a' W' m' n) ∧
    index_state a' W' m' h' root' P' (index_step op mp).2 ∧ index_moved a a' P P' ∧
    al_num a' ≤ al_num a + 7 ∧ (m ⊆ m' ∧ ∀ p, p ∉ P → m' !! p = m !! p) ∧ size m' = (size m + empties op mp)%nat.
Proof.
  intros Hst Hop Hroom Hn. destruct op as [key|key v|key]; cbn [tree_call index_step].
  - pose proof Hst as [Ha Hm Hrel HWm Hown]. pose proof (height_le a h root P mp Ha Hrel) as Hh.
    exists a, W, m, h, root, P. rewrite run_store_bind.
    rewrite (get_value_run a n Ha W m tree_fuel key h root P mp Hm ltac:(lia)
      (λ p Hp, proj2 (state_free _ _ _ _ _ _ _ p Hst Hp)) Hrel ltac:(unfold tree_fuel; lia)).
    split_and!; [done|done|by apply index_moved_refl|lia|done|done|cbn; lia].
  - destruct Hop as [Hk Hv]. destruct (put_run n a W m key v h root P mp Hst Hk Hv Hroom Hn) as
      (a' & W' & h' & root' & P' & Hrun & Hst' & Hmv & Hnum).
    exists a', W', m, h', root', P'. rewrite run_store_bind, Hrun. cbn iota beta.
    destruct (mp !! key); (split_and!; [done|done|done|lia|done|done|cbn; lia]).
  - destruct (del_run n a W m key h root P mp Hst Hn) as (a' & W' & m' & h' & root' & P' & Hrun & Hst' & Hmv & Hnum & Hsub & Hsz).
    exists a', W', m', h', root', P'. rewrite run_store_bind, Hrun. cbn iota beta. split; [done|]. split; [done|]. split; [done|]. split; [lia|by split].
Qed.

Lemma tree_calls_run n ops : ∀ a W m h root P mp, index_state a W m h root P mp →
  Forall index_op_ok ops → al_num a + 7 * zlen ops < INVALID_PAGE_ID →
  12 + Z.of_nat (size m + emptied ops mp) < n →
  ∃ a' W' m' h' root' P', run_store (tree_calls tree_fuel ops root) (mkStore a W m n) =
      Some (Ret ((index_steps ops mp).1, root'), mkStore a' W' m' n) ∧
    index_state a' W' m' h' root' P' (index_steps ops mp).2 ∧ index_moved a a' P P' ∧
    m ⊆ m' ∧ size m' = (size m + emptied ops mp)%nat.
Proof.
  induction ops as [|op ops IH]; intros a W m h root P mp Hst Hops Hroom Hn.
  - exists a, W, m, h, root, P. split_and!; [done|done|apply index_moved_refl, Hst|done|cbn; lia].
  - apply Forall_cons in Hops as [Hop Hops]. cbn [length emptied] in *.
    destruct (tree_call_run n a W m op h root P mp Hst Hop ltac:(lia) ltac:(lia)) as
      (a1 & W1 & m1 & h1 & root1 & P1 & Hrun1 & Hst1 & Hmv1 & Hnum1 & [Hsub1 _] & Hsz1).
    destruct (IH a1 W1 m1 h1 root1 P1 _ Hst1 Hops ltac:(lia) ltac:(lia)) as
      (a2 & W2 & m2 & h2 & root2 & P2 & Hrun2 & Hst2 & Hmv2 & Hsub2 & Hsz2).
    exists a2, W2, m2, h2, root2, P2. cbn [tree_calls index_steps].
    destruct (index_step op mp) as [r mp1]. cbn [fst snd] in *.
    rewrite run_store_bind, Hrun1. cbn iota beta. rewrite run_store_bind, Hrun2. cbn iota beta.
    destruct (index_steps ops mp1) as [rs mp2]. cbn [fst snd] in *.
    split_and!; [done|done|by eapply index_moved_trans|by etrans|lia].
Qed.

(** ** Properties *)

(** C2 (refinement). A [BPlusTree] is a finite map from 64-bit keys to row ids. On
    a buffer pool with any replacement policy, every sequence of [Insert],
    [Delete] and [GetValue] calls on a tree, the empty one included, returns what
    the map returns - the value of the key, [true] for a new key, [false] for a
    duplicate, which changes nothing, and whether the deleted key was there -
    through every split, new root, redistribution, merge and collapse of the root;
    afterwards the pages hold a balanced search tree for the new map with its
    leaves chained in order, the pages of the tree are those it had and unused
    ones, and allocated pages beside the tree have not changed. All pins are
    given back but one for each deletion of the last key, whose page stays
    pinned; with thirteen frames beside the pinned ones no call dereferences a
    null page, and none recurses deeper than six levels. *)
Theorem btree_refines_map {R} `{HR : Replacer R, !ReplacerLaws R} (c : machine R) a W m n ops h root P mp :
  store_rel c (mkStore a W m n) → index_state a W m h root P mp → Forall index_op_ok ops →
  al_num a + 7 * zlen ops < INVALID_PAGE_ID → 12 + Z.of_nat (size m + emptied ops mp) < n →
  ∃ c' a' W' m' h' root' P',
    run_pool (tree_calls tree_fuel ops root) c = (c', Ret ((index_steps ops mp).1, root')) ∧
    store_rel c' (mkStore a' W' m' n) ∧
    index_state a' W' m' h' root' P' (index_steps ops mp).2 ∧ index_moved a a' P P' ∧
    m ⊆ m' ∧ size m' = (size m + emptied ops mp)%nat.
Proof.
  intros Hr Hst Hops Hroom Hn.
  destruct (tree_calls_run n ops a W m h root P mp Hst Hops Hroom Hn) as (a' & W' & m' & h' & root' & P' & Hrun & H).
  destruct (sim_prog _ _ _ _ _ Hr Hrun) as (c' & Hex & Hr'). by exists c', a', W', m', h', root', P'.
Qed.

(** C8 (functional). [Delete] on a tree whose pages nobody uses tells whether the
    key was there and leaves a tree for the map without it, of at most the old
    height, on pages of the old tree; no page is allocated and no page outside
    the tree changes. The pins and the dirty flags are those of before, except
    when the last key of the tree goes. When the tree gives up its root - the last
    key goes, or the root has one child left - the code asks the pool to delete the
    root page while it holds a pin on it: the page stays allocated although the tree
    does not use it any more, and after the last key also pinned and not flagged as
    dirty. *)
Theorem btree_delete_correct n a W m fuel key h root P mp : alloc_ok a → pins_ok m a →
  index_rel (al_live a) h root P mp → (∀ p, p ∈ P → m !! p = None ∧ p ∉ W) → (h < fuel)%nat →
  Z.of_nat (size m) + Z.of_nat h + 3 < n →
  ∃ a' W' m' h' root' P', run_store (BPlusTree_Delete fuel key root) (mkStore a W m n) =
      Some (Ret (bool_decide (is_Some (mp !! key)), root'), mkStore a' W' m' n) ∧
    deleted a a' W W' m m' h root P (delete key mp) h' root' P'.
Proof. apply delete_run. Qed.

(** The height of a tree and the number of its keys. *)
Lemma height_bounds a h root P mp : alloc_ok a → index_rel (al_live a) h root P mp →
  (h <= 5)%nat ∧ ((0 < h)%nat → 252 * 169 ^ (Z.of_nat h - 1) ≤ Z.of_nat (size mp)) ∧
  Z.of_nat (size mp) ≤ 253 * 338 ^ Z.of_nat h.
Proof.
  intros Ha Hrel. split; [by eapply height_le|].
  destruct Hrel as [(_ & -> & _ & ->)|(t & _ & _ & [_ Hs Hinc _ _] & ->)]; [rewrite map_size_empty; split; lia|].
  unfold pmap. rewrite map_size_list_to_map by by apply inc_NoDup, flat_inc. split; [|by eapply sized_upper].
  intros Hh. destruct h as [|h]; [lia|]. replace (Z.of_nat (S h) - 1) with (Z.of_nat h) by lia. by apply sized_root_flat.
Qed.

(** C28 (bounds). The height of a tree is logarithmic. Whatever [Insert], [Delete] and
    [GetValue] calls are made on a tree that starts empty, with all the splits,
    redistributions and merges they lead to, on any pool: the searches of the tree they
    leave go through exactly [h] levels of internal nodes - with [h] units of fuel
    the descent does not end, with one more it does, whatever the key - where
    [h] levels have at least [252 * 169^(h - 1)] and at most [253 * 338^h] keys; and as
    page ids have 32 bits no tree is higher than five levels, so the fuel of the calls is
    never the limit. *)
Theorem btree_height_bound {R} `{HR : Replacer R, !ReplacerLaws R} (c : machine R) a W m n ops :
  store_rel c (mkStore a W m n) → index_state a W m 0 INVALID_PAGE_ID [] ∅ → Forall index_op_ok ops →
  al_num a + 7 * zlen ops < INVALID_PAGE_ID → 12 + Z.of_nat (size m + emptied ops ∅) < n →
  ∃ c' root h, run_pool (tree_calls tree_fuel ops INVALID_PAGE_ID) c = (c', Ret ((index_steps ops ∅).1, root)) ∧
    (root ≠ INVALID_PAGE_ID → ∀ fuel key, ∃ c'', run_pool (BPlusTree_GetValue fuel key root) c' =
       (c'', if decide (h < fuel)%nat then Ret ((index_steps ops ∅).2 !! key) else UB)) ∧
    (h <= 5)%nat ∧ ((0 < h)%nat → 252 * 169 ^ (Z.of_nat h - 1) ≤ Z.of_nat (size (index_steps ops ∅).2)) ∧
    Z.of_nat (size (index_steps ops ∅).2) ≤ 253 * 338 ^ Z.of_nat h.
Proof.
  intros Hr Hst Hops Hroom Hn.
  destruct (tree_calls_run n ops a W m 0 INVALID_PAGE_ID [] ∅ Hst Hops Hroom Hn) as
    (a' & W' & m' & h & root & P & Hrun & Hst' & _ & _ & Hsz).
  pose proof Hst' as [Ha' Hm' Hrel _ _]. pose proof (λ p Hp, proj2 (state_free _ _ _ _ _ _ _ p Hst' Hp)) as HPW.
  destruct (sim_prog _ _ _ _ _ Hr Hrun) as (c' & Hex & Hr'). exists c', root, h. split; [exact Hex|].
  split; [|by eapply height_bounds]. intros Hne fuel key. case_decide as Hf.
  - edestruct (sim_prog _ _ _ _ _ Hr' (get_value_run a' n Ha' W' m' fuel key h root P _ Hm' ltac:(lia) HPW Hrel Hf)) as (c'' & Hg & _).
    by exists c''.
  - destruct (get_value_short a' n Ha' W' m' fuel key h root P _ Hm' ltac:(lia) HPW Hrel Hne ltac:(lia)) as [st Hs].
    destruct (sim_prog _ _ _ _ _ Hr' Hs) as (c'' & Hg & _). by exists c''.
Qed.

(** *** Witnesses: a small index on a new database *)
Definition rid_a : RID := mkRID 7 0.
Definition rid_b : RID := mkRID 7 1.
Definition sample_ops : list index_op := [Put 5 rid_a; Put (-3) rid_b; Put 5 rid_b; Get (-3); Get 7].
Definition empty_tree : list index_res * page_id_t * store := ([], INVALID_PAGE_ID, mkStore empty_alloc ∅ ∅ 13).
Definition small_tree : list index_res * page_id_t * store :=
  match run_store (tree_calls tree_fuel sample_ops INVALID_PAGE_ID) (mkStore empty_alloc ∅ ∅ 13) with
  | Some (Ret (rs, root), s) => (rs, root, s)
  | _ => empty_tree
  end.
Definition small_root : page_id_t := small_tree.1.2.
Definition small_alloc : alloc_state := st_alloc small_tree.2.
Definition small_map : gmap Z RID := (index_steps sample_ops ∅).2.

Lemma tree_ops_ok : Forall index_op_ok sample_ops.
Proof. unfold sample_ops. repeat constructor; vm_compute; done. Qed.
Lemma empty_index : index_rel (al_live empty_alloc) 0 INVALID_PAGE_ID [] ∅.
Proof. by left. Qed.
Lemma empty_state : index_state empty_alloc ∅ ∅ 0 INVALID_PAGE_ID [] ∅.
Proof. split; [apply empty_alloc_ok|apply pins_ok_empty|apply empty_index|set_solver|by intros p ?%not_elem_of_nil]. Qed.
Lemma small_index : alloc_ok small_alloc ∧
  ∃ h P, index_rel (al_live small_alloc) h small_root P small_map.
Proof.
  destruct (tree_calls_run 13 sample_ops empty_alloc ∅ ∅ 0 INVALID_PAGE_ID [] ∅ empty_state tree_ops_ok)
    as (a' & W' & m' & h' & root' & P' & Hrun & [Ha' _ Hrel _ _] & _); [vm_compute; reflexivity..|].
  unfold small_root, small_alloc, small_tree. rewrite Hrun. cbn [fst snd st_alloc]. eauto.
Qed.
(** The sample index emptied and filled again. *)
Definition drain_ops : list index_op := sample_ops ++ [Del 5; Del 5; Del (-3); Get 5; Put 8 rid_a].
Lemma drain_ops_ok : Forall index_op_ok drain_ops.
Proof. unfold drain_ops, sample_ops. cbn [app]. repeat constructor; vm_compute; done. Qed.

Lemma btree_refines_map_witness :
  ∃ c' a' W' m' h' root' P',
    run_pool (tree_calls tree_fuel drain_ops INVALID_PAGE_ID) (new_machine 14 new_db (LRU.LRUReplacer_new 14)) =
      (c', Ret ([Stored true; Stored true; Stored false; Got (Some rid_b); Got None;
                 Deleted true; Deleted false; Deleted true; Got None; Stored true], root')) ∧
    store_rel c' (mkStore a' W' m' 14) ∧
    index_state a' W' m' h' root' P' (index_steps drain_ops ∅).2 ∧ index_moved empty_alloc a' [] P' ∧
    ∅ ⊆ m' ∧ size m' = (size (∅ : gmap page_id_t Z) + 1)%nat.
Proof.
  replace [Stored true; Stored true; Stored false; Got (Some rid_b); Got None;
           Deleted true; Deleted false; Deleted true; Got None; Stored true] with (index_steps drain_ops ∅).1
    by (vm_compute; reflexivity).
  replace 1%nat with (emptied drain_ops ∅) by (vm_compute; reflexivity).
  apply (btree_refines_map (new_machine 14 new_db (LRU.LRUReplacer_new 14)) empty_alloc ∅ ∅ 14 drain_ops 0
    INVALID_PAGE_ID [] ∅); [apply lru_new_rel; [lia|apply new_db_rel]|apply empty_state|apply drain_ops_ok|
    vm_compute; reflexivity|vm_compute; reflexivity].
Defined.
Lemma btree_delete_correct_witness :
  ∃ h P a' W' m' h' root' P',
    run_store (BPlusTree_Delete tree_fuel 5 small_root) (mkStore small_alloc ∅ ∅ 13) =
      Some (Ret (bool_decide (is_Some (small_map !! 5)), root'), mkStore a' W' m' 13) ∧
    deleted small_alloc a' ∅ W' ∅ m' h small_root P (delete 5 small_map) h' root' P'.
Proof.
  destruct small_index as [Ha (h & P & Hrel)]. pose proof (height_le _ _ _ _ _ Ha Hrel). exists h, P.
  apply (btree_delete_correct 13 small_alloc ∅ ∅ tree_fuel 5 h small_root P small_map).
  - exact Ha.
  - apply pins_ok_empty.
  - exact Hrel.
  - intros p _. split; [apply lookup_empty|apply not_elem_of_empty].
  - unfold tree_fuel; lia.
  - rewrite map_size_empty; lia.
Defined.
(** 254 keys: the leaf is split, and the tree has one level of internal nodes. *)
Definition split_ops : list index_op := (λ key, Put key rid_a) <$> seqZ 0 254.
Lemma split_ops_ok : Forall index_op_ok split_ops.
Proof.
  apply Forall_fmap, Forall_forall. intros key Hk%elem_of_seqZ. split; [unfold i64_ok; lia|vm_compute; done].
Qed.
Lemma btree_height_bound_witness :
  ∃ c' root, run_pool (tree_calls tree_fuel split_ops INVALID_PAGE_ID) (new_machine 14 new_db (LRU.LRUReplacer_new 14)) =
      (c', Ret ((index_steps split_ops ∅).1, root)) ∧
    (root ≠ INVALID_PAGE_ID → ∀ fuel key, ∃ c'', run_pool (BPlusTree_GetValue fuel key root) c' =
       (c'', if decide (1 < fuel)%nat then Ret ((index_steps split_ops ∅).2 !! key) else UB)).
Proof.
  destruct (btree_height_bound (new_machine 14 new_db (LRU.LRUReplacer_new 14)) empty_alloc ∅ ∅ 14 split_ops) as
    (c' & root & h & Hrun & Hget & _ & Hlow & Hup).
  - apply lru_new_rel; [lia|apply new_db_rel].
  - apply empty_state.
  - apply split_ops_ok.
  - vm_compute. reflexivity.
  - vm_compute. reflexivity.
  - assert (Hsz : size (index_steps split_ops ∅).2 = 254%nat) by (vm_compute; reflexivity). rewrite Hsz in Hlow, Hup.
    assert (h = 1%nat) as ->.
    { destruct h as [|[|h]]; [cbn in Hup; lia|done|]. specialize (Hlow ltac:(lia)).
      replace (Z.of_nat (S (S h)) - 1) with (Z.succ (Z.of_nat h)) in Hlow by lia. rewrite Z.pow_succ_r in Hlow by lia.
      assert (0 < 169 ^ Z.of_nat h) by lia. lia. }
    exists c', root. exact (conj Hrun Hget).
Defined.
