(* ===== verification/BPlusTreeLimits.v ===== *)
(** The B+ tree on a pool that runs out of frames: what [Insert] then does to the
    tree. *)
From Stdlib Require Import ZArith Lia.
From Stdlib Require Strings.Byte.
From stdpp Require Import base list gmap sorting.
From S2P Require Import Prelude Types DiskManager Replacer BufferPool PageStore BPlusTreePage BPlusTreeLayout BPlusTree BPlusTreeRep BPlusTreeLookup BPlusTreeSplit BPlusTreeInsert BPlusTreeIndex.
Open Scope Z_scope.

(** ** The descent depends on the internal pages only *)

Lemma run_call_inv {X A} (op : pool_op X) (k : X → prog A) s r s' :
  run_store (call op ≫= k) s = Some (Ret r, s') →
  ∃ x s1, store_step op s = Some (Ret x, s1) ∧ run_store (k x) s1 = Some (Ret r, s').
Proof.
  unfold call, mbind, prog_mbind. cbn [prog_bind run_store].
  destruct (store_step op s) as [[[x|e|] s1]|]; [by eauto|done..].
Qed.
Lemma run_mem_inv {X A} (o : option X) (k : X → prog A) s r s' :
  run_store (from_mem o ≫= k) s = Some (Ret r, s') → ∃ x, o = Some x ∧ run_store (k x) s = Some (Ret r, s').
Proof. destruct o as [x|]; [by eauto|done]. Qed.

Section alike.
Context (a a' : alloc_state) (W W' : gset page_id_t) (n : Z) (p : page_id_t).
Implicit Types (m : gmap page_id_t Z).

(** The pages agree but for the leaf [p], and a page not yet flagged as dirty is
    not in the second store only. *)
Context (Hlive : ∀ x, x ≠ p → is_Some (al_live a !! x) → al_live a' !! x = al_live a !! x).
Context (d d' : list byte) (Hd : al_live a !! p = Some d) (Hd' : al_live a' !! p = Some d').
Context (Hleaf : IsLeafPage (decode_hdr d) = true) (Hleaf' : IsLeafPage (decode_hdr d') = true) (HW : W' ⊆ W).

Lemma fetch_alike x m s1 : store_step (Fetch x) (mkStore a W m n) = Some (Ret true, s1) →
  ∃ m', s1 = mkStore a W m' n ∧
    store_step (Fetch x) (mkStore a' W' m n) = Some (Ret true, mkStore a' W' m' n).
Proof.
  cbn [store_step st_pins]. destruct (decide (x = INVALID_PAGE_ID)); [done|].
  destruct (m !! x) as [k|]; [intros [= <-]; by eexists|]. unfold st_live. cbn [st_alloc].
  destruct (decide (is_Some (al_live a !! x))) as [Hx|Hx].
  - assert (Hx' : is_Some (al_live a' !! x)).
    { destruct (decide (x = p)) as [->|Hne]; [by eauto|by rewrite Hlive]. }
    destruct (decide (is_Some (al_live a' !! x))) as [_|[]]; [|done]. unfold st_full. cbn.
    destruct (bool_decide _); [done|]. intros [= <-]. by eexists.
  - destruct (decide _); [|done]. by destruct (st_full _).
Qed.
Lemma unpin_alike x m b s1 : store_step (Unpin x false) (mkStore a W m n) = Some (Ret b, s1) →
  ∃ m', s1 = mkStore a W m' n ∧
    store_step (Unpin x false) (mkStore a' W' m n) = Some (Ret b, mkStore a' W' m' n).
Proof.
  cbn [store_step st_pins st_unflagged]. destruct (m !! x) as [k|]; [|intros [= <- <-]; by eexists].
  destruct (decide (false = true ∨ x ∉ W ∨ 1 < k)) as [Hx|]; [|done]. intros [= <- <-].
  eexists. split; [done|]. destruct (decide (false = true ∨ x ∉ W' ∨ 1 < k)) as [_|[]]; [done|].
  destruct Hx as [Hx|[Hx|Hx]]; [done|right; left; by intros ?%HW|by right; right].
Qed.

Lemma find_leaf_alike key fuel c m q s1 :
  run_store (find_leaf fuel c key) (mkStore a W m n) = Some (Ret q, s1) →
  run_store (find_leaf fuel c key) (mkStore a' W' m n) = Some (Ret q, mkStore a' W' (st_pins s1) n).
Proof.
  revert c m. induction fuel as [|fuel IH]; intros c m; [done|]. cbn [find_leaf].
  intros (dc & s2 & Hread & Hk)%run_call_inv. cbn [store_step st_pins] in Hread. unfold st_live in Hread.
  cbn [st_alloc] in Hread. destruct (m !! c) as [j|] eqn:Hm; [|done].
  destruct (al_live a !! c) as [dc'|] eqn:Hc; [|done]. injection Hread as <- <-.
  destruct (IsLeafPage (decode_hdr dc')) eqn:Hl.
  - injection Hk as -> <-. destruct (decide (q = p)) as [->|Hne].
    + run_step (apply step_read; [by eauto|exact Hd']). by rewrite Hleaf'.
    + run_step (apply step_read; [by eauto|by rewrite Hlive by eauto]). by rewrite Hl.
  - assert (c ≠ p) as Hcp by congruence.
    apply run_mem_inv in Hk as (next & Hlk & Hk). apply run_call_inv in Hk as (b & s2 & Hu & Hk).
    apply unpin_alike in Hu as (m2 & -> & Hu). apply run_call_inv in Hk as (ok & s3 & Hf & Hk).
    destruct ok; [|done]. apply fetch_alike in Hf as (m3 & -> & Hf).
    run_step (apply step_read; [by eauto|by rewrite Hlive by eauto]).
    rewrite Hl, Hlk, run_mem. run_step (exact Hu). run_step (exact Hf). by apply IH.
Qed.

Lemma find_page_alike key fuel root m q s1 :
  run_store (FindLeafPage fuel root key) (mkStore a W m n) = Some (Ret (Some q), s1) →
  run_store (FindLeafPage fuel root key) (mkStore a' W' m n) = Some (Ret (Some q), mkStore a' W' (st_pins s1) n).
Proof.
  unfold FindLeafPage. destruct (decide (root = INVALID_PAGE_ID)); [done|].
  intros (ok & s2 & Hf & Hk)%run_call_inv. destruct ok; [|done]. apply fetch_alike in Hf as (m3 & -> & Hf).
  run_step (exact Hf). cbn [negb] in Hk. rewrite run_store_bind in Hk |- *. destruct (run_store _ _) as [[[x|e|] s3]|] eqn:Hr; try done.
  injection Hk as -> ->. apply find_leaf_alike in Hr. by rewrite Hr.
Qed.
End alike.

(** What [GetValue] answers, by the leaf its search ends at. *)
Lemma get_value_at a W m n fuel root key p d : pins_ok m a → root ≠ INVALID_PAGE_ID →
  run_store (FindLeafPage fuel root key) (mkStore a W m n) = Some (Ret (Some p), mkStore a W (pin p m) n) →
  al_live a !! p = Some d → LeafFacts.wf (decode_leaf d) → p ∉ W →
  run_store (BPlusTree_GetValue fuel key root) (mkStore a W m n) =
    Some (Ret (pmap (LeafFacts.pairs (decode_leaf d)) !! key), mkStore a W m n).
Proof.
  intros Hm Hroot Hf Hd Hwf HW. unfold BPlusTree_GetValue, IsEmpty. rewrite bool_decide_false by done.
  rewrite run_store_bind, Hf. cbn iota beta. run_step (apply step_read; [apply pin_self|exact Hd]).
  rewrite (LeafFacts.leaf_lookup_spec _ _ Hwf), run_mem. by run_step (apply step_drop; [exact Hm|tauto]).
Qed.

(** ** Inserting into a leaf whose arrays are full *)
Lemma zset_outside {A} (l : list A) (i : Z) x : zlen l ≤ i → zset l i x = None.
Proof. intros Hi. unfold zset. by rewrite decide_False by lia. Qed.
Lemma set_entry_outside {A B} (a : list A * list B) (c : Z) k v : cells a c → set_entry a c k v = None.
Proof. intros [H1 _]. unfold set_entry. by rewrite (zset_outside a.1) by lia. Qed.
Lemma copy_entry_outside {A B} (a src : list A * list B) (j c : Z) : cells a c → copy_entry src j a c = None.
Proof.
  intros [H1 _]. unfold copy_entry. destruct (zget src.1 j); [|done]. cbn. destruct (zget src.2 j); [|done].
  cbn. by rewrite (zset_outside a.1) by lia.
Qed.
Lemma leaf_insert_overflow l key v : LeafFacts.wf l → size_ (Leaf.hdr l) = Leaf.capacity →
  pmap (LeafFacts.pairs l) !! key = None → Leaf.Insert key v l = None.
Proof.
  intros Hwf Hs Hnone. pose proof (LeafFacts.lw_cells _ Hwf) as Hc. unfold Leaf.Insert.
  destruct (LeafFacts.key_index_spec l key Hwf) as (i & -> & Hpl). cbn.
  destruct (LeafFacts.found_spec l key i Hwf Hpl) as [(_ & w & _ & _ & _ & Hw)|(-> & _ & _)]; [congruence|].
  cbn. rewrite Hs. pose proof (LeafFacts.pl_range _ _ _ Hpl) as Hi. rewrite Hs in Hi.
  unfold shift_right, loop_down. destruct (Z.to_nat (Leaf.capacity - i)) as [|k] eqn:Hk; cbn [iter_down].
  - assert (i = Leaf.capacity) as -> by lia. cbn. by rewrite set_entry_outside.
  - by rewrite copy_entry_outside.
Qed.

(** ** [Insert] with no frame for the page of a split *)
Lemma size_pin_new p m : m !! p = None → Z.of_nat (size (pin p m)) = Z.of_nat (size m) + 1.
Proof. intros Hp. unfold pin. rewrite map_size_insert_None by done. lia. Qed.
Lemma fresh_set_live p d a : is_Some (fresh_page a) → is_Some (fresh_page (set_live p d a)).
Proof.
  unfold fresh_page. cbn. destruct (al_free a); [|by eauto]. destruct (decide _); [by eauto|by intros [? ?]].
Qed.

Section limits.
Context (n : Z) (a : alloc_state) (W : gset page_id_t) (m : gmap page_id_t Z).
Context (Ha : alloc_ok a) (Hm : pins_ok m a).
Implicit Types (p root : page_id_t).

(** The leaf a search ends at, its entries, and the path to it. *)
Lemma found_full fuel key h root P mp p d s : root ≠ INVALID_PAGE_ID →
  index_rel (al_live a) h root P mp → (∀ q, q ∈ P → m !! q = None ∧ q ∉ W) → (h < fuel)%nat →
  Z.of_nat (size m) < n →
  run_store (FindLeafPage fuel root key) (mkStore a W m n) = Some (Ret (Some p), s) →
  al_live a !! p = Some d →
  s = mkStore a W (pin p m) n ∧ m !! p = None ∧ p ∉ W ∧ IsLeafPage (decode_hdr d) = true ∧ zlen d = PAGE_SIZE ∧
  ∃ C pp ps t, plug C (TLeaf p ps) = t ∧ root = tid t ∧ P = ids t ∧ mp = pmap (flat t) ∧ length C = h ∧
    tree_ok (al_live a) h t ∧ located (al_live a) 0 C pp (TLeaf p ps) ∧ bracket C key ∧
    leaf_is (decode_leaf d) pp p ps ∧ LeafFacts.wf (decode_leaf d) ∧ mp !! key = pmap ps !! key.
Proof.
  intros Hroot [(-> & _)|(t & -> & -> & Ht & ->)] HP Hfuel Hn Hrun Hd; [done|].
  destruct (find_leaf_page_run a n Ha W m key fuel h t Hm Hn (λ q Hq, proj2 (HP q Hq)) Hfuel Ht) as
    (C & pp & q & ps & Hpl & Hloc & Hb & Hq & Hh & Hrun').
  rewrite Hrun' in Hrun. injection Hrun as -> <-. destruct (HP p Hq) as [Hmp HpW].
  destruct (found_leaf a Ha _ _ _ _ _ _ _ Ht Hpl Hloc Hb) as (d0 & Hd0 & Hdl & Hl & Hwf & _ & Hval).
  assert (d0 = d) as -> by congruence. split_and!; try done.
  - destruct Hl as [Hh' _]. change (decode_hdr d) with (Leaf.hdr (decode_leaf d)). by rewrite Hh'.
  - by exists C, pp, ps, t.
Qed.

(** A change of the leaf [p] leads no search elsewhere. *)
Lemma find_page_kept fuel root key p q d d' a' W' m' : al_live a !! p = Some d → al_live a' !! p = Some d' →
  IsLeafPage (decode_hdr d) = true → IsLeafPage (decode_hdr d') = true → W' ⊆ W →
  (∀ x, x ≠ p → is_Some (al_live a !! x) → al_live a' !! x = al_live a !! x) →
  run_store (FindLeafPage fuel root key) (mkStore a W m n) = Some (Ret (Some q), mkStore a W m' n) →
  run_store (FindLeafPage fuel root key) (mkStore a' W' m n) = Some (Ret (Some q), mkStore a' W' m' n).
Proof.
  intros Hd Hd' Hl Hl' HW Hfr Hrun.
  exact (find_page_alike a a' W W' n p Hfr d d' Hd Hd' Hl Hl' HW key fuel root m q _ Hrun).
Qed.

(** [Insert] into a full leaf, up to the split. *)
Lemma insert_overflow fuel key v h root P mp p d s :
  root ≠ INVALID_PAGE_ID → index_rel (al_live a) h root P mp → (∀ q, q ∈ P → m !! q = None ∧ q ∉ W) →
  (h < fuel)%nat → Z.of_nat (size m) < n → i64_ok key → rid_ok v →
  mp !! key = None → run_store (FindLeafPage fuel root key) (mkStore a W m n) = Some (Ret (Some p), s) →
  al_live a !! p = Some d → size_ (Leaf.hdr (decode_leaf d)) = Leaf.default_max_size →
  ∃ C pp ps ps' d' t, let a' := set_live p d' a in
    run_store (BPlusTree_Insert fuel key v root) (mkStore a W m n) =
      run_store (split_leaf fuel p root) (mkStore a' ({[p]} ∪ W) (pin p m) n) ∧
    alloc_ok a' ∧ pins_ok m a' ∧ m !! p = None ∧ p ∉ W ∧ zlen d' = PAGE_SIZE ∧
    IsLeafPage (decode_hdr d) = true ∧ leaf_is (decode_leaf d') pp p ps' ∧ LeafFacts.wf (decode_leaf d') ∧
    zlen ps' = 254 ∧ ps' ≡ₚ (key, v) :: ps ∧ inc ps'.*1 ∧
    plug C (TLeaf p ps) = t ∧ root = tid t ∧ P = ids t ∧ mp = pmap (flat t) ∧
    tree_ok (al_live a) h t ∧ located (al_live a) 0 C pp (TLeaf p ps) ∧
    ∀ k s2, run_store (FindLeafPage fuel root k) (mkStore a W m n) = Some (Ret (Some p), s2) →
      s2 = mkStore a W (pin p m) n ∧ <[key := v]> mp !! k = pmap ps' !! k.
Proof.
  intros Hroot Hrel HP Hfuel Hn Hk Hv Hnone Hrun Hd Hs.
  destruct (found_full fuel key h root P mp p d s Hroot Hrel HP Hfuel Hn Hrun Hd) as
    (-> & Hmp & HpW & Hlf & Hdl & C & pp & ps & t & Hpl & Hrt & HPt & Hmt & _ & Ht & Hloc & _ & Hl & Hwf & Hval).
  pose proof Hl as [Hh Hpairs]. rewrite Hh in Hs. cbn [size_] in Hs. rewrite Hnone in Hval. symmetry in Hval.
  destruct (insert_leaf_page d pp p ps key v Hdl Hl Hwf) as
    (l & ps' & Hex & Hl' & Hwl & _ & Hperm & Hinc & Hst & Hlen);
    [unfold Leaf.capacity, Leaf.default_max_size in *; lia|done..|].
  assert (Hz' : zlen ps' = zlen ps + 1) by (rewrite Hperm; cbn; lia).
  pose proof Hl' as [Hh' _]. exists C, pp, ps, ps', (encode_leaf l d), t. rewrite Hst.
  split; [|split_and!; try done].
  - unfold BPlusTree_Insert, IsEmpty. rewrite bool_decide_false by done.
    rewrite run_store_bind, Hrun. cbn iota beta. run_step (apply step_read; [apply pin_self|exact Hd]).
    rewrite Hex, run_mem, Hh. cbn [size_]. rewrite decide_False by lia.
    run_step (apply step_write; [apply pin_self|exact Hlen]). rewrite Hh'. cbn [max_size_].
    by rewrite decide_False by lia.
  - apply set_live_ok; eauto.
  - eapply pins_ok_mono; [exact Hm|]. intros x Hx. cbn. destruct (decide (x = p)) as [->|Hne];
      [rewrite lookup_insert_eq; by eauto|by rewrite lookup_insert_ne].
  - rewrite Hz', Hs. done.
  - intros k s2 Hrk.
    destruct (found_full fuel k h root P mp p d s2 Hroot Hrel HP Hfuel Hn Hrk Hd) as
      (-> & _ & _ & _ & _ & C' & pp' & ps2 & t' & _ & _ & _ & _ & _ & _ & _ & _ & [_ Hpairs2] & _ & Hval2).
    split; [done|]. assert (ps2 = ps) as -> by congruence. rewrite (pmap_Permutation ps ps' key v Hinc Hperm).
    destruct (decide (k = key)) as [->|Hne]; [by rewrite !lookup_insert_eq|by rewrite !lookup_insert_ne].
Qed.

(** Lookups after a change of the leaf [p] alone. *)
Lemma get_value_changed fuel h root P (mp : gmap Z RID) p d d' a' W' k o : root ≠ INVALID_PAGE_ID →
  index_rel (al_live a) h root P mp → (∀ q, q ∈ P → m !! q = None ∧ q ∉ W) → (h < fuel)%nat →
  Z.of_nat (size m) < n → al_live a !! p = Some d → al_live a' !! p = Some d' → pins_ok m a' →
  IsLeafPage (decode_hdr d) = true → IsLeafPage (decode_hdr d') = true → W' ⊆ W →
  (∀ x, x ≠ p → is_Some (al_live a !! x) → al_live a' !! x = al_live a !! x) →
  LeafFacts.wf (decode_leaf d') →
  (∀ s, run_store (FindLeafPage fuel root k) (mkStore a W m n) = Some (Ret (Some p), s) →
     pmap (LeafFacts.pairs (decode_leaf d')) !! k = o) →
  ((∀ s, run_store (FindLeafPage fuel root k) (mkStore a W m n) ≠ Some (Ret (Some p), s)) → mp !! k = o) →
  run_store (BPlusTree_GetValue fuel k root) (mkStore a' W' m n) = Some (Ret (o), mkStore a' W' m n).
Proof.
  intros Hroot Hrel HP Hfuel Hn Hd Hd' Hm' Hlf Hlf' HW Hfr Hwf' Hp Hq.
  assert (∃ q, run_store (FindLeafPage fuel root k) (mkStore a W m n) = Some (Ret (Some q), mkStore a W (pin q m) n) ∧
    is_Some (al_live a !! q)) as (q & Hrun & [dq Hdq]).
  { destruct Hrel as [(-> & _)|(t & -> & -> & Ht & ->)]; [done|].
    destruct (find_leaf_page_run a n Ha W m k fuel h t Hm Hn (λ q Hq, proj2 (HP q Hq)) Hfuel Ht) as
      (C & pp & q & ps & _ & _ & _ & Hqt & _ & Hrun). exists q. split; [done|].
    eapply repr_live; [apply Ht|done]. }
  destruct (found_full fuel k h root P mp q dq _ Hroot Hrel HP Hfuel Hn Hrun Hdq) as
    (_ & _ & HqW & _ & _ & C & pp & ps & t & _ & _ & _ & _ & _ & _ & _ & _ & [_ Hpairs] & Hwf & Hval).
  pose proof (find_page_kept fuel root k p q d d' a' W' _ Hd Hd' Hlf Hlf' HW Hfr Hrun) as Hrun'.
  assert (HqW' : q ∉ W') by (intros ?%HW; done).
  destruct (decide (q = p)) as [->|Hne].
  - rewrite <- (Hp _ Hrun). by apply (get_value_at _ _ _ _ _ _ _ p).
  - rewrite <- Hq by (intros s'; congruence). rewrite Hval, <- Hpairs.
    apply (get_value_at _ _ _ _ _ _ _ q); [done..|by rewrite Hfr by eauto|done|done].
Qed.
End limits.

(** ** [Insert] with no frame for the parent of a split *)

Lemma leaves_unique (L : list (page_id_t * list (Z * RID))) p q ps qs k : NoDup (L ≫= snd).*1 →
  (p, ps) ∈ L → (q, qs) ∈ L → k ∈ ps.*1 → k ∈ qs.*1 → p = q.
Proof.
  induction L as [|[x xs] L IH]; [by intros _ ?%not_elem_of_nil|]. rewrite bind_cons, fmap_app.
  intros (_ & Hd & Hnd)%NoDup_app Hp Hq Hkp Hkq.
  assert (Hin : ∀ y ys, (y, ys) ∈ L → k ∈ ys.*1 → k ∈ (L ≫= snd).*1).
  { intros y ys Hy (e & -> & He)%list_elem_of_fmap. apply list_elem_of_fmap_2, list_elem_of_bind. by exists (y, ys). }
  apply elem_of_cons in Hp as [[= -> ->]|Hp]; apply elem_of_cons in Hq as [[= -> ->]|Hq].
  - done.
  - by destruct (Hd k Hkp (Hin _ _ Hq Hkq)).
  - by destruct (Hd k Hkq (Hin _ _ Hp Hkp)).
  - by eapply IH.
Qed.

(** The search for a key ends at the leaf that holds it. *)
Lemma search_finds n a W m fuel key h t C p ps : alloc_ok a → pins_ok m a → Z.of_nat (size m) < n →
  (∀ q, q ∈ ids t → q ∉ W) → (h < fuel)%nat → tree_ok (al_live a) h t → plug C (TLeaf p ps) = t → key ∈ ps.*1 →
  run_store (FindLeafPage fuel (tid t) key) (mkStore a W m n) = Some (Ret (Some p), mkStore a W (pin p m) n).
Proof.
  intros Ha Hm Hn HW Hfuel Ht Hpl Hk.
  destruct (find_leaf_page_run a n Ha W m key fuel h t Hm Hn HW Hfuel Ht) as (C' & pp & q & qs & Hpl' & Hloc & Hb & _ & _ & Hrun).
  destruct (found_leaf a Ha _ _ _ _ _ _ _ Ht Hpl' Hloc Hb) as (_ & _ & _ & _ & _ & _ & Hval).
  assert (Hnd : NoDup (flat t).*1) by apply inc_NoDup, flat_inc, Ht.
  assert (Hin : ∀ C0 y ys, plug C0 (TLeaf y ys) = t → (y, ys) ∈ leaves t).
  { intros C0 y ys <-. rewrite leaves_plug. cbn [leaves]. rewrite !elem_of_app, list_elem_of_singleton. tauto. }
  assert (Hkq : key ∈ qs.*1).
  { apply dec_stable. intros Hn'. apply not_elem_of_list_to_map in Hn'. unfold pmap in Hval. rewrite Hn' in Hval.
    apply not_elem_of_list_to_map in Hval. apply Hval. apply list_elem_of_fmap in Hk as (e & -> & He).
    apply list_elem_of_fmap_2, list_elem_of_bind. exists (p, ps). split; [done|by eapply Hin]. }
  by rewrite (leaves_unique (leaves t) p q ps qs key Hnd (Hin _ _ _ Hpl) (Hin _ _ _ Hpl') Hk Hkq).
Qed.

(** The new page stays beside the tree when there is no frame for its parent. *)
Lemma parent_without_frame n a W m fuel key p q root d pp ps : Z.of_nat (size m) = n → is_Some (m !! p) → is_Some (m !! q) →
  al_live a !! p = Some d → leaf_is (decode_leaf d) pp p ps → is_Some (al_live a !! q) →
  (pp = INVALID_PAGE_ID → is_Some (fresh_page a)) →
  (pp ≠ INVALID_PAGE_ID → is_Some (al_live a !! pp) ∧ m !! pp = None) →
  run_store (InsertIntoParent (S fuel) p key q root) (mkStore a W m n) = Some (Ret root, mkStore a W m n).
Proof.
  intros Hn Hp Hq Hd [Hh _] [dq Hdq] Hroot Hpar. cbn [InsertIntoParent].
  run_step (apply step_read; [exact Hp|exact Hd]). run_step (apply step_read; [exact Hq|exact Hdq]).
  change (decode_hdr d) with (Leaf.hdr (decode_leaf d)). rewrite Hh. unfold IsRootPage. cbn [parent_page_id_ page_id_].
  destruct (pp =? INVALID_PAGE_ID) eqn:He; [apply Z.eqb_eq in He|apply Z.eqb_neq in He].
  - destruct (Hroot He) as [[x a1] Hf]. unfold insert_new_root. by run_step (apply (step_new_full _ _ _ _ x a1 Hf Hn)).
  - destruct (Hpar He) as [Hl Hm]. assert (Hf : store_step (Fetch pp) (mkStore a W m n) = Some (Ret false, mkStore a W m n)).
    { cbn [store_step st_pins]. rewrite decide_False, Hm by done. unfold st_live, st_full. cbn [st_alloc st_pins st_frames].
      by rewrite decide_True, bool_decide_true by done. }
    by run_step (exact Hf).
Qed.

(** The parent a header names: nobody pins it, and it is not the page itself. *)
Lemma hole_parent a (m : gmap page_id_t Z) C pp p ps t h : alloc_ok a → tree_ok (al_live a) h t → plug C (TLeaf p ps) = t →
  located (al_live a) 0 C pp (TLeaf p ps) → (∀ q, q ∈ ids t → m !! q = None) →
  pp ≠ p ∧ (pp ≠ INVALID_PAGE_ID → is_Some (al_live a !! pp) ∧ m !! pp = None).
Proof.
  intros Ha Ht <- [Hl HC _ _] HP. pose proof (to_nodup _ _ _ Ht) as Hnd. rewrite ids_plug in Hnd. cbn [ids app] in Hnd.
  assert (Hlp : is_Some (al_live a !! p)) by (destruct Hl as (d & Hd & _); eauto).
  pose proof HC as HC0. destruct C as [|f C]; cbn [repr_ctx tid] in HC.
  - subst pp. split; [|done]. intros <-. by destruct (alloc_ok_id _ _ Ha Hlp).
  - assert (Hf : fr_id f ∈ ctx_ids (f :: C)) by (cbn; by left).
    destruct HC as [-> _]. split.
    + intros He. rewrite He in Hf. by apply NoDup_cons in Hnd as [? _].
    + intros _. split; [exact (repr_ctx_live _ _ _ _ _ _ HC0 Hf)|]. apply HP. rewrite ids_plug. by right.
Qed.

(** The split of the overfull leaf, up to the failure: the upper half is on the new
    page. *)
Lemma split_without_parent n a W m fuel p root d pp ps : alloc_ok a → pins_ok m a → m !! p = None →
  al_num a + 1 < INVALID_PAGE_ID → Z.of_nat (size m) + 2 = n → al_live a !! p = Some d →
  leaf_is (decode_leaf d) pp p ps → LeafFacts.wf (decode_leaf d) → zlen ps = 254 → pp ≠ p →
  (pp ≠ INVALID_PAGE_ID → is_Some (al_live a !! pp) ∧ m !! pp = None) →
  ∃ a' W' q d', run_store (split_leaf (S fuel) p root) (mkStore a W (pin p m) n) =
      Some (Ret (true, root), mkStore a' W' m n) ∧
    alloc_ok a' ∧ pins_ok m a' ∧ W' ⊆ W ∖ {[p]} ∧ al_live a !! q = None ∧ al_live a' !! p = Some d' ∧
    leaf_is (decode_leaf d') pp p (take 127 ps) ∧ LeafFacts.wf (decode_leaf d') ∧
    ∀ x, x ≠ p → x ≠ q → al_live a' !! x = al_live a !! x.
Proof.
  intros Ha Hm Hmp Hroom Hn Hd Hl Hwf Hlen Hne Hpar. pose proof (ao_len _ Ha _ _ Hd) as Hdl.
  pose proof (size_pin_new p m Hmp) as Hsz. destruct (fresh_cell a Ha ltac:(lia)) as (q & a1 & z & Hf & Hnum1 & Ha1 & Hqn & Hl1 & Hzp & Hqu).
  destruct (split_leaf_page d z pp p q ps Hdl Hzp Hl Hwf) as
    (l1 & l2 & Hex & Hi1 & Hi2 & Hw2 & _ & _ & Hst1 & Hz1 & Hst2 & Hz2); [unfold Leaf.capacity; lia|done|].
  rewrite Hlen in Hi1, Hi2. change (Z.to_nat (254 - 254 / 2)) with 127%nat in Hi1, Hi2.
  destruct (split_written a p q d _ _ a1 z Ha Hf Hl1 Hd Hz1 Hz2) as (Hpq & Ha3 & Hnum3 & H3p & H3q & H3 & Hkeep3).
  set (a3 := set_live q _ _) in *.
  assert (Hmq : m !! q = None).
  { destruct (m !! q) as [k|] eqn:Hk; [|done]. destruct (Hm q k Hk) as [_ [? ?]]. congruence. }
  assert (Hm3 : pins_ok m a3) by by eapply pins_ok_mono.
  exists a3, (unpin_W true q (unpin_W true p ({[q]} ∪ ({[p]} ∪ ({[q]} ∪ W))))), q, (encode_leaf l1 d).
  destruct (drop 127 ps) as [|[k v] pb] eqn:Hdrop.
  { apply (f_equal length) in Hdrop. rewrite length_drop in Hdrop. cbn in Hdrop. lia. }
  assert (Hkey : Leaf.KeyAt l2 0 = Some k) by by eapply leaf_first_key.
  split; [|split_and!; try done].
  - rewrite (split_leaf_pages n a W m (S fuel) p root q a1 z d l1 l2 k) by (done || lia). fold a3. rewrite run_store_bind.
    rewrite (parent_without_frame n a3 _ (pin q (pin p m)) fuel k p q root (encode_leaf l1 d) pp (take 127 ps)).
    + cbn iota beta. by rewrite unpin_both by (done || by rewrite H3q; eauto).
    + rewrite size_pin_new; [lia|]. unfold pin. by rewrite lookup_insert_ne.
    + by apply pin_keep, pin_self.
    + apply pin_self.
    + exact H3p.
    + by rewrite Hst1.
    + rewrite H3q. eauto.
    + intros _. destruct (fresh_room a3 Ha3) as (x & a4 & Hx & _); [lia|]. rewrite Hx. eauto.
    + intros Hpp. destruct (Hpar Hpp) as [Hlp Hmp']. assert (pp ≠ q) by (intros ->; destruct Hlp; congruence).
      split; [by rewrite H3|]. unfold pin. by rewrite !lookup_insert_ne by done.
  - cbn. clear. set_solver.
  - by rewrite Hst1.
  - apply (leaf_wf _ pp p (take 127 ps)); [done|by rewrite Hst1|rewrite length_take; unfold Leaf.capacity; lia|].
    pose proof (LeafFacts.lw_inc _ Hwf) as Hinc. destruct Hl as [_ Hps]. rewrite Hps in Hinc. rewrite fmap_take.
    by apply inc_take.
Qed.

(** ** Properties *)

(** C30 (error). When the leaf a new key belongs to is full and no second frame is
    free, [Insert] answers [false] although it has stored the key: afterwards every
    lookup answers as after a successful insertion. The leaf then holds one entry
    more than its maximum, its arrays are full, and the next insertion of a new key
    that belongs to it writes beyond them, which is undefined. *)
Theorem btree_insert_without_frame n a W m fuel key v h root P mp p d s : alloc_ok a → pins_ok m a →
  root ≠ INVALID_PAGE_ID → index_rel (al_live a) h root P mp → (∀ q, q ∈ P → m !! q = None ∧ q ∉ W) →
  (h < fuel)%nat → Z.of_nat (size m) + 1 = n → is_Some (fresh_page a) → i64_ok key → rid_ok v →
  mp !! key = None → run_store (FindLeafPage fuel root key) (mkStore a W m n) = Some (Ret (Some p), s) →
  al_live a !! p = Some d → size_ (Leaf.hdr (decode_leaf d)) = Leaf.default_max_size →
  ∃ a' W', run_store (BPlusTree_Insert fuel key v root) (mkStore a W m n) =
      Some (Ret (false, root), mkStore a' W' m n) ∧
    (∀ k, run_store (BPlusTree_GetValue fuel k root) (mkStore a' W' m n) =
       Some (Ret (<[key := v]> mp !! k), mkStore a' W' m n)) ∧
    (∀ k w s2, k ≠ key → mp !! k = None →
       run_store (FindLeafPage fuel root k) (mkStore a W m n) = Some (Ret (Some p), s2) →
       ∃ s', run_store (BPlusTree_Insert fuel k w root) (mkStore a' W' m n) = Some (UB, s')).
Proof.
  intros Ha Hm Hroot Hrel HP Hfuel Hn Hf Hk Hv Hnone Hrun Hd Hs.
  destruct (insert_overflow n a W m Ha Hm fuel key v h root P mp p d s) as
    (C & pp & ps & ps' & d' & t & Hins & Ha' & Hm' & Hmp & HpW & _ & Hlf & Hl' & Hwf' & Hz & _ & _ & _ & _ & _ & _ & _ & _ & Hat);
    try done; [lia|].
  set (a' := set_live p d' a) in *. assert (Hd' : al_live a' !! p = Some d') by apply lookup_insert_eq.
  destruct Hl' as [Hh' Hpairs'].
  assert (Hlf' : IsLeafPage (decode_hdr d') = true).
  { change (decode_hdr d') with (Leaf.hdr (decode_leaf d')). by rewrite Hh'. }
  assert (Hfr : ∀ x, x ≠ p → is_Some (al_live a !! x) → al_live a' !! x = al_live a !! x).
  { intros x Hx _. by apply lookup_insert_ne. }
  set (W' := unpin_W true p ({[p]} ∪ W)). assert (HW : W' ⊆ W) by (clear; set_solver).
  exists a', W'. split; [|split].
  - rewrite Hins. unfold split_leaf. destruct (fresh_set_live p d' a Hf) as [[q a2] Hf'].
    run_step (apply (step_new_full _ _ _ _ q a2 Hf'); by rewrite size_pin_new by done).
    by run_step (apply step_drop; [exact Hm'|by left]).
  - intros k. apply (get_value_changed n a W m Ha Hm fuel h root P mp p d d'); try done; [lia|..].
    + intros s2 Hrk. destruct (Hat k s2 Hrk) as [_ ->]. by rewrite Hpairs'.
    + intros Hne. rewrite lookup_insert_ne; [done|]. intros <-. by apply (Hne s).
  - intros k w s2 Hne Hkn Hrk. destruct (Hat k s2 Hrk) as [-> Hval]. rewrite lookup_insert_ne, Hkn in Hval by done.
    rewrite <- Hpairs' in Hval.
    pose proof (find_page_kept n a W m fuel root k p p d d' a' W' _ Hd Hd' Hlf Hlf' HW Hfr Hrk) as Hrk'.
    unfold BPlusTree_Insert, IsEmpty. rewrite bool_decide_false by done. rewrite run_store_bind, Hrk'. cbn iota beta.
    run_step (apply step_read; [apply pin_self|exact Hd']). rewrite (leaf_insert_overflow (decode_leaf d') k w Hwf') by (rewrite ?Hh'; done).
    by eexists.
Qed.

(** C31 (error). When a full leaf must split and there is a frame for the new leaf
    but none for their parent, [Insert] answers [true] and loses half the leaf: the
    127 upper entries, the new one possibly among them, are on a page no search
    reaches. Lookups of their keys find nothing from then on; all other keys answer
    as after a successful insertion. *)
Theorem btree_insert_loses_half n a W m fuel key v h root P mp p d s : alloc_ok a → pins_ok m a →
  root ≠ INVALID_PAGE_ID → index_rel (al_live a) h root P mp → (∀ q, q ∈ P → m !! q = None ∧ q ∉ W) →
  (h < fuel)%nat → Z.of_nat (size m) + 2 = n → al_num a + 1 < INVALID_PAGE_ID → i64_ok key → rid_ok v →
  mp !! key = None → run_store (FindLeafPage fuel root key) (mkStore a W m n) = Some (Ret (Some p), s) →
  al_live a !! p = Some d → size_ (Leaf.hdr (decode_leaf d)) = Leaf.default_max_size →
  ∃ a' W' (lost : gset Z), run_store (BPlusTree_Insert fuel key v root) (mkStore a W m n) =
      Some (Ret (true, root), mkStore a' W' m n) ∧
    size lost = 127%nat ∧ lost ⊆ dom (<[key := v]> mp) ∧
    ∀ k, run_store (BPlusTree_GetValue fuel k root) (mkStore a' W' m n) =
      Some (Ret (if decide (k ∈ lost) then None else <[key := v]> mp !! k), mkStore a' W' m n).
Proof.
  intros Ha Hm Hroot Hrel HP Hfuel Hn Hroom Hk Hv Hnone Hrun Hd Hs.
  destruct (insert_overflow n a W m Ha Hm fuel key v h root P mp p d s) as
    (C & pp & ps & ps' & d1 & t & Hins & Ha1 & Hm1 & Hmp & HpW & _ & Hlf & Hl1 & Hwf1 & Hz & Hperm & Hinc & Hpl & Hrt &
      HPt & Hmt & Ht & Hloc & Hat); try done; [lia|].
  set (a1 := set_live p d1 a) in *. assert (Hd1 : al_live a1 !! p = Some d1) by apply lookup_insert_eq.
  assert (Hfr1 : ∀ x, x ≠ p → al_live a1 !! x = al_live a !! x) by (intros x Hx; by apply lookup_insert_ne).
  destruct (hole_parent a m C pp p ps t h Ha Ht Hpl Hloc) as [Hpp Hpar].
  { intros q Hq. apply HP. by rewrite HPt. }
  destruct fuel as [|fuel]; [lia|].
  destruct (split_without_parent n a1 ({[p]} ∪ W) m fuel p root d1 pp ps' Ha1 Hm1 Hmp Hroom Hn Hd1 Hl1 Hwf1 Hz Hpp) as
    (a' & W' & q & d' & Hsp & Ha' & Hm' & HW & Hq & Hd' & [Hh' Hpairs'] & Hwf' & Hfr').
  { intros H. rewrite Hfr1 by done. by apply Hpar. }
  assert (Hqp : q ≠ p) by congruence. rewrite Hfr1 in Hq by done.
  set (ks := (drop 127 ps').*1).
  assert (Hks : ∀ k, k ∈ ks → k ∈ ps'.*1).
  { intros k Hin. rewrite <- (take_drop 127 ps'), fmap_app. apply elem_of_app. by right. }
  assert (Hfind : ∀ k, k ∈ ps'.*1 → ∃ s2, run_store (FindLeafPage (S fuel) root k) (mkStore a W m n) = Some (Ret (Some p), s2)).
  { intros k Hin. rewrite Hperm in Hin. apply elem_of_cons in Hin as [->|Hin]; [by eauto|]. eexists. rewrite Hrt.
    eapply (search_finds n a W m (S fuel) k h t C p ps); try done; [lia|]. intros q' Hq'. apply HP. by rewrite HPt. }
  exists a', W', (list_to_set ks). split; [by rewrite Hins|]. split; [|split].
  - rewrite size_list_to_set; [unfold ks; rewrite length_fmap, length_drop; lia|].
    apply inc_NoDup. unfold ks. rewrite fmap_drop. by apply inc_drop.
  - intros k Hin%elem_of_list_to_set%Hks. destruct (Hfind k Hin) as [s2 Hs2]. destruct (Hat k s2 Hs2) as [_ Hval].
    apply elem_of_dom. rewrite Hval. apply not_eq_None_Some. by intros ?%pmap_None.
  - intros k. apply (get_value_changed n a W m Ha Hm (S fuel) h root P mp p d d' a' W'); try done; [lia|..].
    + change (decode_hdr d') with (Leaf.hdr (decode_leaf d')). by rewrite Hh'.
    + clear -HW. set_solver.
    + intros x Hx Hlx. rewrite Hfr' by (try done; intros ->; destruct Hlx; congruence). by apply Hfr1.
    + intros s2 Hrk. destruct (Hat k s2 Hrk) as [_ ->]. rewrite Hpairs'.
      assert (pmap ps' = pmap (take 127 ps' ++ drop 127 ps')) as -> by by rewrite take_drop.
      rewrite <- (take_drop 127 ps'), fmap_app in Hinc.
      apply inc_NoDup, NoDup_app in Hinc as (_ & Hd12 & _). destruct (decide _) as [Hx|Hx]; rewrite elem_of_list_to_set in Hx.
      * apply pmap_None. intros Hk'. by apply (Hd12 k).
      * symmetry. by apply (pmap_app_out []); [apply not_elem_of_nil|].
    + intros Hno. rewrite decide_False, lookup_insert_ne; [done|intros <-; by eapply Hno|].
      intros Hin%elem_of_list_to_set%Hks%Hfind. destruct Hin as [s2 Hs2]. by apply (Hno s2).
Qed.

(** *** Witnesses: an index of one full leaf on page 1 *)
Definition full_pairs : list (Z * RID) := (λ k, (k, mkRID 7 k)) <$> seqZ 0 253.
Definition full_leaf : Leaf.BPlusTreeLeafPage :=
  Leaf.mkLeaf (mkHdr LEAF_PAGE 253 Leaf.default_max_size INVALID_PAGE_ID 1) INVALID_PAGE_ID
    (full_pairs.*1 ++ [0]) (full_pairs.*2 ++ [mkRID 0 0]).
Definition full_page : list byte := encode_leaf full_leaf zero_page.
Definition full_alloc : alloc_state := mkAlloc 2 [] {[1 := full_page]}.
Definition full_map : gmap Z RID := pmap full_pairs.
Definition full_found : store := mkStore full_alloc ∅ (pin 1 ∅) 1.

Lemma inc_code ks : inc ks → inc (code <$> ks).
Proof.
  intros Hinc i j x y Hij Hx Hy. apply list_lookup_fmap_Some in Hx as (k & -> & Hk).
  apply list_lookup_fmap_Some in Hy as (k' & -> & Hk'). specialize (Hinc i j k k' Hij Hk Hk'). unfold code. lia.
Qed.
Lemma full_stored : leaf_is full_leaf INVALID_PAGE_ID 1 full_pairs ∧ inc full_pairs.*1 ∧
  decode_leaf full_page = full_leaf ∧ zlen full_page = PAGE_SIZE.
Proof.
  assert (Hl : leaf_is full_leaf INVALID_PAGE_ID 1 full_pairs) by (split; vm_compute; reflexivity).
  split; [done|]. split.
  - intros i j x y Hij. unfold full_pairs. rewrite <- list_fmap_compose. intros Hx Hy.
    apply list_lookup_fmap_Some in Hx as (k & -> & Hk). apply list_lookup_fmap_Some in Hy as (k' & -> & Hk').
    apply lookup_seqZ in Hk, Hk'. cbn. lia.
  - apply (leaf_stored full_leaf INVALID_PAGE_ID 1 full_pairs); try done.
    split; apply (bool_decide_unpack _); vm_compute; exact I.
Qed.
Lemma full_state : alloc_ok full_alloc ∧ index_rel (al_live full_alloc) 0 1 [1] full_map.
Proof.
  destruct full_stored as (Hl & Hinc & Hst & Hlen). assert (H1 : al_live full_alloc !! 1 = Some full_page) by apply lookup_singleton_eq.
  assert (Hsome : ∀ p, is_Some (al_live full_alloc !! p) → p = 1).
  { intros p [d Hd]. cbn in Hd. by apply lookup_singleton_Some in Hd as [<- _]. }
  split; [split|].
  - intros p. split; [intros ->%Hsome; cbn; split; [lia|apply not_elem_of_nil]|]. cbn. intros [Hp _].
    assert (p = 1) as -> by lia. by eexists.
  - constructor.
  - intros p Hp. destruct (not_elem_of_nil p Hp).
  - vm_compute. by split.
  - intros p d Hd. assert (p = 1) as -> by (apply Hsome; eauto). rewrite H1 in Hd. injection Hd as <-. exact Hlen.
  - right. exists (TLeaf 1 full_pairs). split; [done|]. split; [done|]. split; [split|].
    + exists full_page. split; [exact H1|rewrite Hst; exact Hl].
    + split; vm_compute; discriminate.
    + change (inc (code <$> full_pairs.*1)). by apply inc_code.
    + apply NoDup_singleton.
    + apply linked_cons. split; [|apply linked_nil].
      change (next_at (al_live full_alloc) 1 = Some INVALID_PAGE_ID). unfold next_at. rewrite H1.
      cbn [fmap option_fmap option_map compose]. by rewrite Hst.
    + unfold full_map, flat. cbn [leaves mbind list_bind snd]. by rewrite app_nil_r.
Qed.
Lemma full_search n k : 0 < n → run_store (FindLeafPage 1 1 k) (mkStore full_alloc ∅ ∅ n) =
  Some (Ret (Some 1), mkStore full_alloc ∅ (pin 1 ∅) n).
Proof.
  intros Hn. destruct full_state as [Ha _]. unfold FindLeafPage. rewrite decide_False by done.
  run_step (apply step_pin; [exact Ha|by eexists|done]). cbn [find_leaf]. rewrite run_store_bind.
  run_step (apply step_read; [apply pin_self|apply lookup_singleton_eq]). destruct full_stored as ([Hh _] & _ & Hst & _).
  change (decode_hdr full_page) with (Leaf.hdr (decode_leaf full_page)). by rewrite Hst, Hh.
Qed.
Lemma full_map_absent k : 253 ≤ k → full_map !! k = None.
Proof.
  intros Hk. unfold full_map. apply pmap_None. unfold full_pairs. rewrite <- list_fmap_compose.
  intros (x & -> & Hx)%list_elem_of_fmap. apply elem_of_seqZ in Hx. cbn in Hk. lia.
Qed.
Lemma full_size : size_ (Leaf.hdr (decode_leaf full_page)) = Leaf.default_max_size.
Proof. destruct full_stored as ([Hh _] & _ & Hst & _). by rewrite Hst, Hh. Qed.
Lemma full_unused (q : page_id_t) : q ∈ [1] → (∅ : gmap page_id_t Z) !! q = None ∧ q ∉ (∅ : gset page_id_t).
Proof. intros _. split; [apply lookup_empty|apply not_elem_of_empty]. Qed.

Lemma btree_insert_without_frame_witness :
  ∃ a' W', run_store (BPlusTree_Insert 1 300 (mkRID 9 9) 1) (mkStore full_alloc ∅ ∅ 1) =
      Some (Ret (false, 1), mkStore a' W' ∅ 1) ∧
    (∀ k, run_store (BPlusTree_GetValue 1 k 1) (mkStore a' W' ∅ 1) =
       Some (Ret (<[300 := mkRID 9 9]> full_map !! k), mkStore a' W' ∅ 1)) ∧
    ∃ s', run_store (BPlusTree_Insert 1 400 (mkRID 9 9) 1) (mkStore a' W' ∅ 1) = Some (UB, s').
Proof.
  destruct full_state as [Ha Hrel].
  destruct (btree_insert_without_frame 1 full_alloc ∅ ∅ 1 300 (mkRID 9 9) 0 1 [1] full_map 1 full_page
    (mkStore full_alloc ∅ (pin 1 ∅) 1)) as (a' & W' & H1 & H2 & H3).
  - exact Ha.
  - apply pins_ok_empty.
  - discriminate.
  - exact Hrel.
  - apply full_unused.
  - apply Nat.lt_0_1.
  - rewrite map_size_empty. reflexivity.
  - by eexists.
  - by split.
  - by split.
  - by apply full_map_absent.
  - by apply full_search.
  - apply lookup_singleton_eq.
  - apply full_size.
  - exists a', W'. split; [exact H1|split; [exact H2|]].
    apply (H3 400 (mkRID 9 9) (mkStore full_alloc ∅ (pin 1 ∅) 1)); [discriminate|by apply full_map_absent|by apply full_search].
Defined.
Lemma btree_insert_loses_half_witness :
  ∃ a' W' (lost : gset Z), run_store (BPlusTree_Insert 1 300 (mkRID 9 9) 1) (mkStore full_alloc ∅ ∅ 2) =
      Some (Ret (true, 1), mkStore a' W' ∅ 2) ∧
    size lost = 127%nat ∧ lost ⊆ dom (<[300 := mkRID 9 9]> full_map) ∧
    ∀ k, run_store (BPlusTree_GetValue 1 k 1) (mkStore a' W' ∅ 2) =
      Some (Ret (if decide (k ∈ lost) then None else <[300 := mkRID 9 9]> full_map !! k), mkStore a' W' ∅ 2).
Proof.
  destruct full_state as [Ha Hrel].
  apply (btree_insert_loses_half 2 full_alloc ∅ ∅ 1 300 (mkRID 9 9) 0 1 [1] full_map 1 full_page
    (mkStore full_alloc ∅ (pin 1 ∅) 2)).
  - exact Ha.
  - apply pins_ok_empty.
  - discriminate.
  - exact Hrel.
  - apply full_unused.
  - apply Nat.lt_0_1.
  - rewrite map_size_empty. reflexivity.
  - reflexivity.
  - by split.
  - by split.
  - by apply full_map_absent.
  - by apply full_search.
  - apply lookup_singleton_eq.
  - apply full_size.
Defined.
