(* ===== verification/BPlusTreeScan.v ===== *)
(** The iterator of a B+ tree: what it pins, and the scan of a whole tree with
    [Begin], [operator*] and [operator++]. *)
From Stdlib Require Import ZArith Lia.
From Stdlib Require Strings.Byte.
From stdpp Require Import base list gmap sorting.
From S2P Require Import Prelude Types DiskManager Replacer BufferPool PageStore BPlusTreePage BPlusTreeLayout BPlusTree BPlusTreeRep BPlusTreeLookup BPlusTreeSplit BPlusTreeInsert BPlusTreeIndex.
Open Scope Z_scope.

(** A loop over a tree, [for (; !it.IsEnd(); ++it) out.push_back( *it )]. *)
Fixpoint scan (fuel : nat) (it : BPlusTreeIterator) : prog (list (Z * RID)) :=
  match fuel with
  | O => PUB
  | S fuel =>
      if IsEnd it then _ ← Iterator_drop it; mret [] else
      kv ← Iterator_deref it;
      it ← Iterator_next it;
      rest ← scan fuel it;
      mret (kv :: rest)
  end.
Definition scan_all (depth fuel : nat) (root_page_id : page_id_t) : prog (list (Z * RID)) :=
  it ← BPlusTree_Begin depth root_page_id; scan fuel it.

(** ** The leaves of a tree *)
Lemma leaf_repr live h parent t p ps : repr live h parent t → (p, ps) ∈ leaves t →
  ∃ pp, leaf_page live pp p ps.
Proof.
  revert parent t. induction h as [|h IH]; intros parent [q qs|q es]; try done; cbn [leaves repr].
  - intros Hl [= -> ->]%list_elem_of_singleton. by exists parent.
  - intros [_ Hc] (e & Hin & He)%list_elem_of_bind. rewrite Forall_forall in Hc. by eapply IH; [apply Hc|].
Qed.
Lemma leaf_nonempty root h t p ps : sized root h t → (p, ps) ∈ leaves t → 1 ≤ zlen ps ≤ Leaf.default_max_size.
Proof.
  revert root t. induction h as [|h IH]; intros root [q qs|q es]; try done; cbn [leaves sized].
  - intros [Hs ?] [= -> ->]%list_elem_of_singleton. unfold leaf_min in Hs. destruct root; lia.
  - intros [_ Hc] (e & Hin & He)%list_elem_of_bind. rewrite Forall_forall in Hc. by eapply IH; [apply Hc|].
Qed.
Lemma leaf_sublist (l : list (page_id_t * list (Z * RID))) p ps : (p, ps) ∈ l → ps `sublist_of` (l ≫= snd).
Proof.
  induction l as [|x l IH]; [by intros ?%not_elem_of_nil|]. rewrite bind_cons.
  intros [<-|Hin]%elem_of_cons; [by apply sublist_inserts_r|by apply sublist_inserts_l, IH].
Qed.
Lemma tree_leaf a h t p ps : alloc_ok a → tree_ok (al_live a) h t → (p, ps) ∈ leaves t →
  ∃ d, al_live a !! p = Some d ∧ LeafFacts.wf (decode_leaf d) ∧ LeafFacts.pairs (decode_leaf d) = ps ∧
    size_ (Leaf.hdr (decode_leaf d)) = zlen ps ∧ 1 ≤ zlen ps ∧ p ∈ ids t ∧ p ≠ INVALID_PAGE_ID.
Proof.
  intros Ha [Hr Hs Hinc _ _] Hin. destruct (leaf_repr _ _ _ _ _ _ Hr Hin) as (pp & d & Hd & Hl).
  pose proof (leaf_nonempty _ _ _ _ _ Hs Hin) as Hsz. pose proof (ao_len _ Ha _ _ Hd) as Hlen.
  destruct (alloc_ok_id _ p Ha) as [Hne _]; [by eauto|]. exists d. split_and!; try done; try lia.
  - eapply leaf_wf; [exact Hlen|exact Hl|unfold Leaf.capacity, Leaf.default_max_size in *; lia|].
    eapply inc_sublist; [|exact (flat_inc t Hinc)]. apply fmap_sublist. by eapply leaf_sublist.
  - apply Hl.
  - by destruct Hl as [-> _].
  - apply leaf_ids_sub. unfold leaf_ids. apply list_elem_of_fmap. by exists (p, ps).
Qed.

Section scan.
Context (a : alloc_state) (n : Z) (Ha : alloc_ok a) (W : gset page_id_t) (m : gmap page_id_t Z).
Context (Hm : pins_ok m a) (Hn : Z.of_nat (size m) < n).

(** [Begin()]: the descent to the first leaf. *)
Lemma leftmost_run fuel h parent root t : (h < fuel)%nat → (∀ p, p ∈ ids t → p ∉ W) →
  repr (al_live a) h parent t → sized root h t →
  ∃ p ps l, leaves t = (p, ps) :: l ∧
    run_store (leftmost_leaf fuel (tid t)) (mkStore a W (pin (tid t) m) n) = Some (Ret p, mkStore a W m n).
Proof.
  revert fuel parent root t. induction h as [|h IH]; intros [|fuel] parent root [p ps|p es] Hf HW Hr Hs; try lia; try done.
  - exists p, ps, []. split; [done|]. cbn [repr] in Hr. destruct (leaf_page_read _ Ha _ _ _ Hr) as (d & Hd & _ & _ & Hk).
    cbn [tid leftmost_leaf]. run_step (apply step_read; [apply pin_self|exact Hd]). rewrite Hk.
    run_step (apply step_drop; [exact Hm|right; left; apply HW; by left]). done.
  - cbn [repr sized] in Hr, Hs. destruct Hr as [Hp Hcs], Hs as [[Hmin Hmax] Hss].
    destruct (node_page_read _ Ha _ _ _ Hp) as (d & Hd & Hlen & Hnd & Hk).
    destruct es as [|[k c] es]; [unfold node_min in Hmin; cbn in Hmin; destruct root; lia|].
    apply Forall_cons in Hcs as [Hc _], Hss as [Hsc _]. cbn [snd] in *.
    assert (Hids : ∀ q, q ∈ ids c → q ∈ ids (TNode p ((k, c) :: es))).
    { intros q Hq. right. by apply (elem_of_ids_of q (k, c)); [left|]. }
    destruct (IH fuel p false c ltac:(lia) (λ q Hq, HW q (Hids q Hq)) Hc Hsc) as (p' & ps & l & Hl & Hrun).
    exists p', ps, (l ++ leaves_of es). split; [cbn [leaves]; by rewrite bind_cons; cbn [snd]; rewrite Hl|].
    destruct (node_cells parent p _ d Hlen Hnd) as (Hcells & Hsz & Heq).
    { rewrite length_fmap. unfold Internal.default_max_size, Internal.capacity in *. lia. }
    assert (Hv : Internal.ValueAt (decode_internal d) 0 = Some (tid c)).
    { apply (InternalFacts.children_get (decode_internal d) Hcells Hsz 0). unfold InternalFacts.children.
      by destruct Hnd as [_ ->]. }
    assert (Hcl : is_Some (al_live a !! tid c)) by (eapply repr_live; [exact Hc|apply tid_ids]).
    cbn [tid leftmost_leaf]. run_step (apply step_read; [apply pin_self|exact Hd]). rewrite Hk, Hv, run_mem.
    run_step (apply step_drop; [exact Hm|right; left; apply HW; by left]).
    run_step (apply step_pin; [exact Ha|exact Hcl|exact Hn]). exact Hrun.
Qed.

Lemma fetch_curr_run p : is_Some (al_live a !! p) →
  run_store (fetch_curr p) (mkStore a W m n) = Some (Ret (Some p), mkStore a W (pin p m) n).
Proof.
  intros Hp. destruct (alloc_ok_id _ _ Ha Hp) as [Hne _]. unfold fetch_curr. rewrite decide_True by done.
  run_step (apply step_pin; [exact Ha|exact Hp|exact Hn]). done.
Qed.

(** The iterator at the [i]-th entry of a leaf. *)
Lemma curr_leaf_run p i d m' : al_live a !! p = Some d → is_Some (m' !! p) →
  run_store (curr_leaf (mkIter p i (Some p))) (mkStore a W m' n) = Some (Ret (decode_leaf d), mkStore a W m' n).
Proof.
  intros Hd Hp. unfold curr_leaf. cbn [curr_page_]. rewrite run_mem.
  run_step (apply step_read; [exact Hp|exact Hd]). done.
Qed.
Lemma deref_run p i d k v m' : al_live a !! p = Some d → is_Some (m' !! p) → LeafFacts.wf (decode_leaf d) →
  0 ≤ i < size_ (Leaf.hdr (decode_leaf d)) → LeafFacts.pairs (decode_leaf d) !! Z.to_nat i = Some (k, v) →
  run_store (Iterator_deref (mkIter p i (Some p))) (mkStore a W m' n) = Some (Ret (k, v), mkStore a W m' n).
Proof.
  intros Hd Hp Hwf Hi Hk. destruct (LeafFacts.pairs_get (decode_leaf d) i Hwf Hi) as (k' & v' & Hk' & Hkey & Hval).
  rewrite Hk in Hk'. injection Hk' as <- <-.
  unfold Iterator_deref. rewrite run_store_bind, (curr_leaf_run p i d m' Hd Hp).
  cbn [curr_index_]. unfold Leaf.KeyAt, Leaf.ValueAt. by rewrite Hkey, run_mem, Hval, run_mem.
Qed.
Lemma next_inside_run p i d m' : p ≠ INVALID_PAGE_ID → al_live a !! p = Some d → is_Some (m' !! p) →
  i + 1 < size_ (Leaf.hdr (decode_leaf d)) →
  run_store (Iterator_next (mkIter p i (Some p))) (mkStore a W m' n) =
    Some (Ret (mkIter p (i + 1) (Some p)), mkStore a W m' n).
Proof.
  intros Hne Hd Hp Hi. unfold Iterator_next. cbn [curr_page_id_ curr_index_ curr_page_]. rewrite decide_False by done.
  rewrite run_store_bind, (curr_leaf_run p i d m' Hd Hp). cbn iota beta. by rewrite decide_False by lia.
Qed.
Lemma next_leaf_run p i d : p ≠ INVALID_PAGE_ID → p ∉ W → al_live a !! p = Some d →
  size_ (Leaf.hdr (decode_leaf d)) ≤ i + 1 →
  run_store (Iterator_next (mkIter p i (Some p))) (mkStore a W (pin p m) n) =
    run_store (o ← fetch_curr (Leaf.next_page_id_ (decode_leaf d));
               mret (mkIter (Leaf.next_page_id_ (decode_leaf d)) 0 o)) (mkStore a W m n).
Proof.
  intros Hne HW Hd Hi. unfold Iterator_next. cbn [curr_page_id_ curr_index_ curr_page_]. rewrite decide_False by done.
  rewrite run_store_bind, (curr_leaf_run p i d (pin p m) Hd (pin_self _ _)). cbn iota beta.
  rewrite decide_True by lia. run_step (apply step_drop; [exact Hm|right; by left]). done.
Qed.

(** The scan from the [i]-th entry of a leaf, with the leaves [l] after it. *)
Lemma scan_run h t fuel : tree_ok (al_live a) h t → (∀ p, p ∈ ids t → p ∉ W) →
  ∀ l1 p ps l i, leaves t = l1 ++ (p, ps) :: l → 0 ≤ i < zlen ps →
  (length (drop (Z.to_nat i) ps ++ (l ≫= snd)) < fuel)%nat →
  run_store (scan fuel (mkIter p i (Some p))) (mkStore a W (pin p m) n) =
    Some (Ret (drop (Z.to_nat i) ps ++ (l ≫= snd)), mkStore a W m n).
Proof.
  intros Ht HW. induction fuel as [|fuel IH]; [lia|]. intros l1 p ps l i Hlv Hi Hf.
  assert (Hin : ∀ x, x ∈ (p, ps) :: l → x ∈ leaves t) by (intros x Hx; rewrite Hlv; apply elem_of_app; by right).
  destruct (tree_leaf a h t p ps Ha Ht (Hin _ ltac:(by left))) as (d & Hd & Hwf & Hps & Hsz & _ & Hid & Hne).
  destruct (LeafFacts.pairs_get (decode_leaf d) i Hwf ltac:(lia)) as (k & v & Hk & _).
  cbn [scan]. unfold IsEnd. cbn [curr_page_id_]. rewrite bool_decide_false by done.
  rewrite run_store_bind, (deref_run p i d k v (pin p m) Hd (pin_self _ _) Hwf ltac:(lia) Hk). cbn iota beta.
  rewrite Hps in Hk. rewrite (drop_S _ _ _ Hk) in Hf |- *. cbn [app length] in Hf. rewrite run_store_bind.
  destruct (decide (i + 1 < zlen ps)) as [Hlt|Hge].
  - rewrite (next_inside_run p i d) by (done || apply pin_self || lia). cbn iota beta. rewrite run_store_bind.
    replace (S (Z.to_nat i)) with (Z.to_nat (i + 1)) in Hf |- * by lia.
    by rewrite (IH l1 p ps l (i + 1) Hlv) by lia.
  - rewrite (next_leaf_run p i d Hne (HW p Hid) Hd) by lia.
    assert (Hnx : Leaf.next_page_id_ (decode_leaf d) = default INVALID_PAGE_ID (head l.*1)).
    { pose proof (to_linked _ _ _ Ht) as Hlk. unfold leaf_ids in Hlk. rewrite Hlv, fmap_app in Hlk.
      apply linked_app in Hlk as [_ Hlk]. cbn [fmap list_fmap fst] in Hlk. apply linked_cons in Hlk as [Hlk _].
      unfold next_at in Hlk. rewrite Hd in Hlk. by injection Hlk. }
    rewrite Hnx, (drop_ge ps) in * by lia. destruct l as [|[p' ps'] l]; cbn [head fmap list_fmap fst default].
    + destruct fuel; [cbn in Hf; lia|]. done.
    + destruct (tree_leaf a h t p' ps' Ha Ht (Hin _ ltac:(right; by left))) as (d' & Hd' & _ & _ & _ & Hsz' & _ & _).
      change (id p') with p'. rewrite run_store_bind, fetch_curr_run by by eauto. cbn iota beta.
      change (run_store (mret ?x) ?s) with (Some (Ret x, s)). cbn iota beta. rewrite run_store_bind.
      rewrite bind_cons in Hf |- *. cbn [snd app] in Hf |- *.
      pose proof (IH (l1 ++ [(p, ps)]) p' ps' l 0) as IH0. change (drop (Z.to_nat 0) ps') with ps' in IH0.
      rewrite IH0; [done|by rewrite Hlv, <- app_assoc|lia|lia].
Qed.

Lemma scan_all_run depth fuel h root P mp : index_rel (al_live a) h root P mp → (∀ p, p ∈ P → p ∉ W) →
  (h < depth)%nat → (size mp < fuel)%nat →
  ∃ es, run_store (scan_all depth fuel root) (mkStore a W m n) = Some (Ret es, mkStore a W m n) ∧
    inc es.*1 ∧ mp = list_to_map es.
Proof.
  intros [(-> & -> & -> & ->)|(t & -> & -> & Ht & ->)] HW Hdepth Hfuel; unfold scan_all, BPlusTree_Begin, IsEmpty.
  { exists []. split; [destruct fuel; [lia|done]|]. split; [by intros i|done]. }
  exists (flat t). split; [|split; [apply flat_inc, Ht|done]].
  assert (Hrl : is_Some (al_live a !! tid t)) by (eapply repr_live; [apply Ht|apply tid_ids]).
  destruct (alloc_ok_id _ _ Ha Hrl) as [Hne _]. rewrite bool_decide_false by done.
  destruct (leftmost_run depth h _ true t Hdepth HW (to_repr _ _ _ Ht) (to_sized _ _ _ Ht)) as (p & ps & l & Hl & Hrun).
  destruct (tree_leaf a h t p ps Ha Ht) as (d & Hd & _ & _ & _ & Hsz & _); [rewrite Hl; by left|].
  assert (Hfl : flat t = ps ++ (l ≫= snd)) by (unfold flat; by rewrite Hl).
  rewrite run_store_bind. run_step (apply step_pin; [exact Ha|exact Hrl|exact Hn]). rewrite run_store_bind, Hrun.
  cbn iota beta. unfold Iterator_new. rewrite run_store_bind, fetch_curr_run by by eauto. cbn iota beta.
  change (run_store (mret ?x) ?s) with (Some (Ret x, s)). cbn iota beta.
  unfold pmap in Hfuel. rewrite map_size_list_to_map, Hfl in Hfuel by (apply inc_NoDup, flat_inc, Ht).
  pose proof (scan_run h t fuel Ht HW [] p ps l 0 Hl ltac:(lia) Hfuel) as Hs. rewrite Hfl. exact Hs.
Qed.

(** [Begin(key)]: the place of the key in the leaf it belongs to. *)
Lemma begin_at_run depth key h root P mp : index_rel (al_live a) h root P mp → root ≠ INVALID_PAGE_ID →
  (∀ p, p ∈ P → p ∉ W) → (h < depth)%nat →
  ∃ t C p ps d i, run_store (BPlusTree_Begin_at depth key root) (mkStore a W m n) =
      Some (Ret (mkIter p i (Some p)), mkStore a W (pin p m) n) ∧
    tree_ok (al_live a) h t ∧ P = ids t ∧ mp = pmap (flat t) ∧ plug C (TLeaf p ps) = t ∧
    al_live a !! p = Some d ∧ LeafFacts.wf (decode_leaf d) ∧ LeafFacts.pairs (decode_leaf d) = ps ∧
    size_ (Leaf.hdr (decode_leaf d)) = zlen ps ∧ zlen ps ≤ Leaf.default_max_size ∧ p ≠ INVALID_PAGE_ID ∧
    LeafFacts.place (decode_leaf d) key i ∧ pmap ps !! key = mp !! key.
Proof.
  intros [(-> & _)|(t & -> & -> & Ht & ->)] Hne HW Hdepth; [done|].
  unfold BPlusTree_Begin_at, IsEmpty. rewrite bool_decide_false by done.
  destruct (find_leaf_page_run a n Ha W m key depth h t Hm Hn HW Hdepth Ht) as
    (C & pp & p & ps & Hpl & Hloc & Hb & Hp & _ & Hrun).
  destruct (found_leaf a Ha _ _ _ _ _ _ _ Ht Hpl Hloc Hb) as (d & Hd & _ & Hl & Hwf & Hsz & Hval).
  destruct (LeafFacts.key_index_spec (decode_leaf d) key Hwf) as (i & Hi & Hplace).
  assert (Hpn : p ≠ INVALID_PAGE_ID) by (apply (alloc_ok_id _ p Ha); by eauto).
  exists t, C, p, ps, d, i. split; [|destruct Hl as [Hh Hps]; split_and!; try done; by rewrite Hh].
  rewrite run_store_bind, Hrun. cbn iota beta. run_step (apply step_read; [apply pin_self|exact Hd]).
  rewrite Hi, run_mem. run_step (apply step_drop; [exact Hm|right; left; by apply HW]).
  unfold Iterator_new. by rewrite run_store_bind, fetch_curr_run by by eauto.
Qed.

Lemma range_run depth fuel key v h root P mp : index_rel (al_live a) h root P mp → (∀ p, p ∈ P → p ∉ W) →
  (h < depth)%nat → (size mp < fuel)%nat → mp !! key = Some v →
  ∃ pre suf, run_store (it ← BPlusTree_Begin_at depth key root; scan fuel it) (mkStore a W m n) =
      Some (Ret ((key, v) :: suf), mkStore a W m n) ∧
    inc (pre ++ (key, v) :: suf).*1 ∧ mp = list_to_map (pre ++ (key, v) :: suf).
Proof.
  intros Hrel HW Hdepth Hfuel Hkey. assert (Hne : root ≠ INVALID_PAGE_ID).
  { destruct Hrel as [(_ & _ & _ & ->)|(t & -> & _ & Ht & _)]; [done|].
    apply (alloc_ok_id _ (tid t) Ha). eapply repr_live; [apply Ht|apply tid_ids]. }
  destruct (begin_at_run depth key h root P mp Hrel Hne HW Hdepth) as
    (t & C & p & ps & d & i & Hrun & Ht & -> & -> & Hpl & Hd & Hwf & Hps & Hsz & _ & Hpn & Hplace & Hval).
  destruct (LeafFacts.found_spec (decode_leaf d) key i Hwf Hplace) as
    [(_ & v' & Hi & Hlt & _ & Hv')|(_ & Hnone & _)]; rewrite Hps in *; [|congruence].
  assert (v' = v) as -> by congruence. destruct Hplace as [Hr0 _ _].
  assert (Hlv : leaves t = ctx_l leaves_l C ++ (p, ps) :: ctx_r leaves_r C) by (rewrite <- Hpl; apply leaves_plug).
  assert (Hfl : flat t = (flat_l C ++ take (Z.to_nat i) ps) ++ drop (Z.to_nat i) ps ++ (ctx_r leaves_r C ≫= snd)).
  { unfold flat. rewrite Hlv, bind_app, bind_cons. cbn [snd]. unfold flat_l.
    by rewrite <- app_assoc, (app_assoc (take _ _)), take_drop. }
  exists (flat_l C ++ take (Z.to_nat i) ps), (drop (S (Z.to_nat i)) ps ++ (ctx_r leaves_r C ≫= snd)).
  rewrite (drop_S _ _ _ Hi) in Hfl. cbn [app] in Hfl. rewrite <- Hfl. split; [|split; [apply flat_inc, Ht|done]].
  rewrite run_store_bind, Hrun. cbn iota beta.
  rewrite (scan_run h t fuel Ht HW (ctx_l leaves_l C) p ps (ctx_r leaves_r C) i Hlv ltac:(lia)).
  - by rewrite (drop_S _ _ _ Hi).
  - unfold pmap in Hfuel. rewrite map_size_list_to_map, Hfl, length_app in Hfuel by (apply inc_NoDup, flat_inc, Ht).
    rewrite (drop_S _ _ _ Hi). cbn [app length] in *. lia.
Qed.

Lemma past_run depth key h root P mp : index_rel (al_live a) h root P mp → root ≠ INVALID_PAGE_ID →
  (∀ p, p ∈ P → p ∉ W) → (h < depth)%nat → (∀ k v, mp !! k = Some v → k < key) →
  ∃ p d kv, al_live a !! p = Some d ∧
    run_store (BPlusTree_Begin_at depth key root) (mkStore a W m n) =
      Some (Ret (mkIter p (size_ (Leaf.hdr (decode_leaf d))) (Some p)), mkStore a W (pin p m) n) ∧
    IsEnd (mkIter p (size_ (Leaf.hdr (decode_leaf d))) (Some p)) = false ∧
    run_store (Iterator_deref (mkIter p (size_ (Leaf.hdr (decode_leaf d))) (Some p))) (mkStore a W (pin p m) n) =
      Some (Ret kv, mkStore a W (pin p m) n).
Proof.
  intros Hrel Hne HW Hdepth Hlt. destruct (begin_at_run depth key h root P mp Hrel Hne HW Hdepth) as
    (t & C & p & ps & d & i & Hrun & Ht & -> & -> & Hpl & Hd & Hwf & Hps & Hsz & Hmax & Hpn & [Hr0 _ Hge] & _).
  assert (Hi : i = size_ (Leaf.hdr (decode_leaf d))).
  { destruct (decide (i < size_ (Leaf.hdr (decode_leaf d)))) as [Hin|]; [exfalso|lia].
    destruct (LeafFacts.pairs_get (decode_leaf d) i Hwf ltac:(lia)) as (k & v & Hk & _).
    specialize (Hge (Z.to_nat i) k v ltac:(lia) Hk). enough (k < key) by lia. apply (Hlt k v).
    apply pmap_lookup; [apply flat_inc, Ht|]. eapply elem_of_sublist; [eapply list_elem_of_lookup_2, Hk|].
    rewrite Hps. apply (leaf_sublist _ p). rewrite <- Hpl, leaves_plug, !elem_of_app. right. left. by left. }
  destruct (LeafFacts.lw_cells _ Hwf) as [Hc1 Hc2].
  change (zlen (Leaf.keys_ (decode_leaf d)) = Leaf.capacity) in Hc1.
  change (zlen (Leaf.values_ (decode_leaf d)) = Leaf.capacity) in Hc2.
  assert (Hcap : 0 ≤ i < Leaf.capacity) by (unfold Leaf.capacity, Leaf.default_max_size in *; lia).
  destruct (zget_is_Some (Leaf.keys_ (decode_leaf d)) i) as [k Hk]; [unfold Leaf.capacity in *; lia|].
  destruct (zget_is_Some (Leaf.values_ (decode_leaf d)) i) as [v Hv]; [unfold Leaf.capacity in *; lia|].
  exists p, d, (k, v). rewrite <- Hi. split_and!; [done|done|by apply bool_decide_eq_false|].
  unfold Iterator_deref. rewrite run_store_bind, (curr_leaf_run p i d _ Hd (pin_self _ _)).
  cbn [curr_index_]. unfold Leaf.KeyAt, Leaf.ValueAt. by rewrite Hk, run_mem, Hv, run_mem.
Qed.
End scan.

(** ** What an iterator pins *)
Definition iter_ok (a : alloc_state) (it : BPlusTreeIterator) : Prop :=
  match curr_page_ it with
  | Some p => curr_page_id_ it = p ∧ is_Some (al_live a !! p)
  | None => curr_page_id_ it = INVALID_PAGE_ID
  end.
Definition iter_pin (it : BPlusTreeIterator) (m : gmap page_id_t Z) : gmap page_id_t Z :=
  match curr_page_ it with Some p => pin p m | None => m end.
Definition iter_clean (W : gset page_id_t) (it : BPlusTreeIterator) : Prop :=
  match curr_page_ it with Some p => p ∉ W | None => True end.

Lemma iter_pins_ok a it m : iter_ok a it → pins_ok m a → pins_ok (iter_pin it m) a.
Proof.
  unfold iter_ok, iter_pin. destruct (curr_page_ it); [|done]. intros [_ Hp] Hm. by apply pins_ok_pin.
Qed.
Lemma iter_drop_run a W m n it : iter_ok a it → iter_clean W it → alloc_ok a → pins_ok m a →
  run_store (Iterator_drop it) (mkStore a W (iter_pin it m) n) = Some (Ret tt, mkStore a W m n).
Proof.
  unfold iter_ok, iter_pin, iter_clean, Iterator_drop. destruct (curr_page_ it) as [p|]; [|done].
  intros [-> Hp] HW Ha Hm. destruct (alloc_ok_id _ _ Ha Hp) as [Hne _]. rewrite decide_True by done.
  run_step (apply step_drop; [exact Hm|right; by left]). done.
Qed.
Lemma iter_copy_run a W m n it : iter_ok a it → alloc_ok a → Z.of_nat (size m) < n →
  run_store (Iterator_copy it) (mkStore a W m n) = Some (Ret it, mkStore a W (iter_pin it m) n).
Proof.
  destruct it as [p i o]. unfold iter_ok, iter_pin, Iterator_copy, Iterator_new, fetch_curr.
  cbn [curr_page_id_ curr_index_ curr_page_].
  destruct o as [q|]; [|by intros ->].
  intros [-> Hp] Ha Hn. destruct (alloc_ok_id _ _ Ha Hp) as [Hne _]. rewrite decide_True by done.
  rewrite run_store_bind. run_step (apply step_pin; [exact Ha|exact Hp|exact Hn]). done.
Qed.

(** ** Properties *)

(** C12 (liveness). Iterating from [Begin()] until [IsEnd()] comes to an end: on a
    tree for a map it yields every entry of the map once, in ascending order of
    the keys, across all leaves, without changing a page and with every pin given
    back; on an empty tree it yields nothing. *)
Theorem btree_scan_complete n a W m depth fuel h root P mp :
  alloc_ok a → pins_ok m a → Z.of_nat (size m) < n → index_rel (al_live a) h root P mp →
  (∀ p, p ∈ P → p ∉ W) → (h < depth)%nat → (size mp < fuel)%nat →
  ∃ es, run_store (scan_all depth fuel root) (mkStore a W m n) = Some (Ret es, mkStore a W m n) ∧
    inc es.*1 ∧ mp = list_to_map es.
Proof. intros Ha Hm Hn. by apply scan_all_run. Qed.

(** C27 (functional). A range scan: from [Begin(key)] of a key in the tree, the
    iterator yields the entry of the key and then all the entries with larger
    keys, in order; every pin is given back. *)
Theorem btree_range_scan n a W m depth fuel key v h root P mp :
  alloc_ok a → pins_ok m a → Z.of_nat (size m) < n → index_rel (al_live a) h root P mp →
  (∀ p, p ∈ P → p ∉ W) → (h < depth)%nat → (size mp < fuel)%nat → mp !! key = Some v →
  ∃ pre suf, run_store (it ← BPlusTree_Begin_at depth key root; scan fuel it) (mkStore a W m n) =
      Some (Ret ((key, v) :: suf), mkStore a W m n) ∧
    inc (pre ++ (key, v) :: suf).*1 ∧ mp = list_to_map (pre ++ (key, v) :: suf).
Proof. intros Ha Hm Hn. by apply range_run. Qed.

(** [Begin(key)] does not step to the next leaf when the key is above
    every key of the leaf it belongs to: for a key above all keys of a non-empty
    tree it returns an iterator that is not the end but one past the last entry of
    a leaf, and [operator*] on it reads an array cell that holds no entry. *)
Theorem begin_at_past_end n a W m depth key h root P mp :
  alloc_ok a → pins_ok m a → Z.of_nat (size m) < n → index_rel (al_live a) h root P mp →
  root ≠ INVALID_PAGE_ID → (∀ p, p ∈ P → p ∉ W) → (h < depth)%nat → (∀ k v, mp !! k = Some v → k < key) →
  ∃ p d kv, al_live a !! p = Some d ∧
    run_store (BPlusTree_Begin_at depth key root) (mkStore a W m n) =
      Some (Ret (mkIter p (size_ (Leaf.hdr (decode_leaf d))) (Some p)), mkStore a W (pin p m) n) ∧
    IsEnd (mkIter p (size_ (Leaf.hdr (decode_leaf d))) (Some p)) = false ∧
    run_store (Iterator_deref (mkIter p (size_ (Leaf.hdr (decode_leaf d))) (Some p))) (mkStore a W (pin p m) n) =
      Some (Ret kv, mkStore a W (pin p m) n).
Proof. intros Ha Hm Hn. by apply past_run. Qed.

(** C29 (invariant). An iterator holds exactly one pin, on the page it points into:
    copying takes another pin, destroying it gives its pin back, assignment gives
    the old one back and takes the one of the source, moves transfer the pin and
    leave an iterator that owns none, self-assignment changes nothing. *)
Theorem iterator_pin_discipline n a W m it other : alloc_ok a → pins_ok m a →
  iter_ok a it → iter_ok a other → iter_clean W it → Z.of_nat (size (iter_pin other m)) < n →
  run_store (Iterator_copy other) (mkStore a W (iter_pin other m) n) =
    Some (Ret other, mkStore a W (iter_pin other (iter_pin other m)) n) ∧
  run_store (Iterator_drop it) (mkStore a W (iter_pin it m) n) = Some (Ret tt, mkStore a W m n) ∧
  run_store (Iterator_assign false it other) (mkStore a W (iter_pin it (iter_pin other m)) n) =
    Some (Ret other, mkStore a W (iter_pin other (iter_pin other m)) n) ∧
  (∃ moved, run_store (Iterator_move_assign false it other) (mkStore a W (iter_pin it (iter_pin other m)) n) =
      Some (Ret (other, moved), mkStore a W (iter_pin other m) n) ∧
    Iterator_move other = (other, moved) ∧ iter_ok a moved ∧ iter_pin moved m = m) ∧
  run_store (Iterator_assign true it it) (mkStore a W (iter_pin it m) n) = Some (Ret it, mkStore a W (iter_pin it m) n).
Proof.
  intros Ha Hm Hi Ho HW Hn. pose proof (iter_pins_ok a other m Ho Hm) as Hmo. split_and!.
  - by apply iter_copy_run.
  - by apply iter_drop_run.
  - unfold Iterator_assign. rewrite run_store_bind, iter_drop_run by done. cbn iota beta. by apply iter_copy_run.
  - eexists. unfold Iterator_move_assign. rewrite run_store_bind, iter_drop_run by done. done.
  - done.
Qed.

(** *** Witnesses *)
Lemma small_hyps : Z.of_nat (size (∅ : gmap page_id_t Z)) < 13 ∧ small_root ≠ INVALID_PAGE_ID ∧
  small_map !! 5 = Some rid_a ∧ size small_map = 2%nat ∧ ∀ k v, small_map !! k = Some v → k < 9.
Proof.
  split_and!; [vm_compute; reflexivity|vm_compute; discriminate|vm_compute; reflexivity|vm_compute; reflexivity|].
  intros k v Hk. change small_map with (<[-3 := rid_b]> (<[5 := rid_a]> (∅ : gmap Z RID))) in Hk.
  rewrite !lookup_insert, lookup_empty in Hk. repeat case_decide; lia || done.
Qed.
Lemma btree_scan_complete_witness :
  ∃ es, run_store (scan_all tree_fuel 3 small_root) (mkStore small_alloc ∅ ∅ 13) =
      Some (Ret es, mkStore small_alloc ∅ ∅ 13) ∧ inc es.*1 ∧ small_map = list_to_map es.
Proof.
  destruct small_index as [Ha (h & P & Hrel)]. pose proof (height_le _ _ _ _ _ Ha Hrel).
  destruct small_hyps as (Hn & _ & _ & Hsz & _).
  apply (btree_scan_complete 13 small_alloc ∅ ∅ tree_fuel 3 h small_root P small_map Ha (pins_ok_empty _) Hn Hrel);
    [intros p _; apply not_elem_of_empty|unfold tree_fuel; lia|rewrite Hsz; lia].
Defined.
Lemma btree_range_scan_witness :
  ∃ pre suf, run_store (it ← BPlusTree_Begin_at tree_fuel 5 small_root; scan 3 it) (mkStore small_alloc ∅ ∅ 13) =
      Some (Ret ((5, rid_a) :: suf), mkStore small_alloc ∅ ∅ 13) ∧
    inc (pre ++ (5, rid_a) :: suf).*1 ∧ small_map = list_to_map (pre ++ (5, rid_a) :: suf).
Proof.
  destruct small_index as [Ha (h & P & Hrel)]. pose proof (height_le _ _ _ _ _ Ha Hrel).
  destruct small_hyps as (Hn & _ & Hk & Hsz & _).
  apply (btree_range_scan 13 small_alloc ∅ ∅ tree_fuel 3 5 rid_a h small_root P small_map Ha (pins_ok_empty _) Hn Hrel);
    [intros p _; apply not_elem_of_empty|unfold tree_fuel; lia|rewrite Hsz; lia|exact Hk].
Defined.
Lemma begin_at_past_end_witness :
  ∃ p d kv, al_live small_alloc !! p = Some d ∧
    run_store (BPlusTree_Begin_at tree_fuel 9 small_root) (mkStore small_alloc ∅ ∅ 13) =
      Some (Ret (mkIter p (size_ (Leaf.hdr (decode_leaf d))) (Some p)), mkStore small_alloc ∅ (pin p ∅) 13) ∧
    IsEnd (mkIter p (size_ (Leaf.hdr (decode_leaf d))) (Some p)) = false ∧
    run_store (Iterator_deref (mkIter p (size_ (Leaf.hdr (decode_leaf d))) (Some p)))
        (mkStore small_alloc ∅ (pin p ∅) 13) = Some (Ret kv, mkStore small_alloc ∅ (pin p ∅) 13).
Proof.
  destruct small_index as [Ha (h & P & Hrel)]. pose proof (height_le _ _ _ _ _ Ha Hrel).
  destruct small_hyps as (Hn & Hne & _ & _ & Hlt).
  apply (begin_at_past_end 13 small_alloc ∅ ∅ tree_fuel 9 h small_root P small_map Ha (pins_ok_empty _) Hn Hrel Hne);
    [intros p _; apply not_elem_of_empty|unfold tree_fuel; lia|exact Hlt].
Defined.
Definition one_live : alloc_state := mkAlloc 2 [] {[1 := zero_page]}.
Lemma one_live_ok : alloc_ok one_live.
Proof. by destruct (fresh_page_ok empty_alloc 1 one_live empty_alloc_ok eq_refl). Qed.
Definition iter_one : BPlusTreeIterator := mkIter 1 0 (Some 1).
Definition iter_end : BPlusTreeIterator := mkIter INVALID_PAGE_ID 0 None.
Lemma iterator_pin_discipline_witness :
  run_store (Iterator_assign false iter_end iter_one) (mkStore one_live ∅ {[1 := 1]} 4) =
    Some (Ret iter_one, mkStore one_live ∅ {[1 := 2]} 4).
Proof.
  destruct (iterator_pin_discipline 4 one_live ∅ ∅ iter_end iter_one) as (_ & _ & H & _);
    [apply one_live_ok|apply pins_ok_empty|reflexivity|split; [reflexivity|eexists; reflexivity]|exact I|
     vm_compute; reflexivity|exact H].
Defined.
