(* ===== verification/Tables.v ===== *)
(** Tables with an index, as the catalog describes them ([table_catalog.hpp]): many
    heaps and B+ trees on one buffer pool.  The theorem relates any client of the
    heaps, the indexes and the catalog to tables that are maps. *)
From Stdlib Require Import ZArith Lia.
From Stdlib Require Strings.Byte.
From stdpp Require Import base list gmap strings.
From S2P Require Import Prelude Types DiskManager Replacer BufferPool PageStore Tuple TablePage TableHeap BPlusTreePage BPlusTreeLayout BPlusTree BPlusTreeRep BPlusTreeDelete BPlusTreeIndex BPlusTreeScan.
Open Scope Z_scope.

#[export] Instance RID_countable : Countable RID.
Proof.
  apply (inj_countable' (λ r, (rid_page_id r, rid_slot_num r)) (λ x, mkRID x.1 x.2)). by intros [].
Defined.

(** ** A client of the tables

    It names a table; its metadata, with the page ids of the heap and of the index,
    come from the catalog and go back to it. *)
Inductive table_op :=
| Create (name : string) (schema : Schema)
| InsertRow (name : string) (t : Tuple)
| ReadRow (name : string) (rid : RID)
| UpdateRow (name : string) (rid : RID) (t : Tuple)
| DeleteRow (name : string) (rid : RID)
| Index (name : string) (op : index_op)
| Scan (name : string)
| ScanFrom (name : string) (key : Z).
Inductive table_res :=
| Created
| Inserted (o : option RID)
| Row (o : option Tuple)
| Done (b : bool)
| Answer (r : index_res)
| Entries (es : list (Z * RID))
| NoTable.

(** What the client does with the page ids of the metadata [md]. *)
Definition on_table (fuel : nat) (op : table_op) (md : TableMetadata) (cat : TableCatalog)
    : prog (table_res * TableCatalog) :=
  match op with
  | Create _ _ => mret (Created, cat)
  | InsertRow _ t => o ← heap_insert fuel t (tm_first_page_id md); mret (Inserted o, cat)
  | ReadRow _ rid => o ← TableHeap_GetTuple rid (tm_schema md); mret (Row o, cat)
  | UpdateRow _ rid t => b ← TableHeap_UpdateTuple rid t; mret (Done b, cat)
  | DeleteRow _ rid => b ← TableHeap_DeleteTuple rid; mret (Done b, cat)
  | Index name op =>
      '(r, root) ← tree_call tree_fuel op (tm_index_root_id md);
      mret (Answer r, UpdateIndexRoot name root cat)
  | Scan _ => es ← scan_all tree_fuel fuel (tm_index_root_id md); mret (Entries es, cat)
  | ScanFrom _ key =>
      it ← BPlusTree_Begin_at tree_fuel key (tm_index_root_id md); es ← scan fuel it; mret (Entries es, cat)
  end.
Definition table_of (op : table_op) : string :=
  match op with
  | Create name _ | InsertRow name _ | ReadRow name _ | UpdateRow name _ _ | DeleteRow name _ | Index name _ | Scan name
  | ScanFrom name _ => name
  end.
Definition table_call (fuel : nat) (op : table_op) (cat : TableCatalog) : prog (table_res * TableCatalog) :=
  match op with
  | Create name schema =>
      first_page_id ← TableHeap_new;
      mret (Created, CreateTable name schema first_page_id INVALID_PAGE_ID cat)
  | _ =>
      match GetTableMetadata (table_of op) cat with
      | Some md => on_table fuel op md cat
      | None => mret (NoTable, cat)
      end
  end.

(** A client chooses each call by the results it has seen. *)
Inductive client := Finish | Call (op : table_op) (k : table_res → client).
Fixpoint run_client (fuel : nat) (cl : client) (cat : TableCatalog) : prog (list table_res * TableCatalog) :=
  match cl with
  | Finish => mret ([], cat)
  | Call op k =>
      '(r, cat) ← table_call fuel op cat;
      '(rs, cat) ← run_client fuel (k r) cat;
      mret (r :: rs, cat)
  end.

(** ** Tables as maps

    [tb_rows]: every row id the table has handed out, with its tuple unless it is
    deleted. *)
Record table := mkTable {
  tb_schema : Schema;
  tb_rows : gmap RID (option Tuple);
  tb_index : gmap Z RID;
}.
Abbreviation tables := (gmap string table).
Definition set_rows (rows : gmap RID (option Tuple)) (tb : table) : table :=
  mkTable (tb_schema tb) rows (tb_index tb).
Definition set_index (mp : gmap Z RID) (tb : table) : table := mkTable (tb_schema tb) (tb_rows tb) mp.
Definition fresh_table (schema : Schema) : table := mkTable schema ∅ ∅.

(** One call on one table. *)
Inductive table_step (tb : table) : table_op → table_res → table → Prop :=
| ts_insert name t rid : rid_ok rid → mjoin (tb_rows tb !! rid) = None →
    table_step tb (InsertRow name t) (Inserted (Some rid)) (set_rows (<[rid := Some t]> (tb_rows tb)) tb)
| ts_read name rid o : tb_rows tb !! rid = Some o → table_step tb (ReadRow name rid) (Row o) tb
| ts_update name rid t old : tb_rows tb !! rid = Some (Some old) →
    table_step tb (UpdateRow name rid t) (Done true) (set_rows (<[rid := Some t]> (tb_rows tb)) tb)
| ts_update_grows name rid t old : tb_rows tb !! rid = Some (Some old) → zlen (enc old) < zlen (enc t) →
    table_step tb (UpdateRow name rid t) (Done false) tb
| ts_update_gone name rid t : tb_rows tb !! rid = Some None → table_step tb (UpdateRow name rid t) (Done false) tb
| ts_delete name rid old : tb_rows tb !! rid = Some (Some old) →
    table_step tb (DeleteRow name rid) (Done true) (set_rows (<[rid := None]> (tb_rows tb)) tb)
| ts_delete_gone name rid : tb_rows tb !! rid = Some None → table_step tb (DeleteRow name rid) (Done false) tb
| ts_index name op : table_step tb (Index name op) (Answer (index_step op (tb_index tb)).1)
    (set_index (index_step op (tb_index tb)).2 tb)
| ts_scan name es : inc es.*1 → tb_index tb = list_to_map es → table_step tb (Scan name) (Entries es) tb
| ts_scan_from name key v pre suf : inc (pre ++ (key, v) :: suf).*1 →
    tb_index tb = list_to_map (pre ++ (key, v) :: suf) →
    table_step tb (ScanFrom name key) (Entries ((key, v) :: suf)) tb.

(** A call on the database.  Creating a table under a name in use replaces it. *)
Definition creates (op : table_op) : bool := if op is Create _ _ then true else false.
Inductive db_step (db : tables) : table_op → table_res → tables → Prop :=
| ds_create name schema :
    db_step db (Create name schema) Created (<[name := fresh_table schema]> db)
| ds_no_table op : creates op = false → db !! table_of op = None → db_step db op NoTable db
| ds_table op r tb tb' : db !! table_of op = Some tb → table_step tb op r tb' →
    db_step db op r (<[table_of op := tb']> db).

(** The calls a client may make: with tuples of the table's schema that fit a page,
    with row ids the table has handed out, and scans from a key of the index. *)
Definition fits (schema : Schema) (t : Tuple) : Prop := storable schema t ∧ zlen (enc t) + 28 ≤ PAGE_SIZE.
Definition op_legal (op : table_op) (db : tables) : Prop :=
  match op with
  | Create _ _ => True
  | InsertRow name t => ∀ tb, db !! name = Some tb → fits (tb_schema tb) t
  | ReadRow name rid | DeleteRow name rid => ∀ tb, db !! name = Some tb → is_Some (tb_rows tb !! rid)
  | UpdateRow name rid t =>
      ∀ tb, db !! name = Some tb → is_Some (tb_rows tb !! rid) ∧ storable (tb_schema tb) t
  | Index _ op => index_op_ok op
  | Scan _ => True
  | ScanFrom name key => ∀ tb, db !! name = Some tb → is_Some (tb_index tb !! key)
  end.
(** A client all of whose calls are legal, whatever the tables answer; it makes at
    most [d] of them. *)
Fixpoint legal (d : nat) (cl : client) (db : tables) : Prop :=
  match cl, d with
  | Finish, _ => True
  | Call op k, O => False
  | Call op k, S d => op_legal op db ∧ ∀ r db', db_step db op r db' → legal d (k r) db'
  end.
(** The results the tables can give a client. *)
Inductive behaves : client → tables → list table_res → tables → Prop :=
| bh_finish db : behaves Finish db [] db
| bh_call op k db r db1 rs db' : db_step db op r db1 → behaves (k r) db1 rs db' →
    behaves (Call op k) db (r :: rs) db'.

(** ** The tables on the pages *)
Record layout := mkLayout {
  la_chain : chain_rows;          (* the pages of the heap with their rows *)
  la_height : nat;
  la_ids : list page_id_t;        (* the pages of the index *)
}.
Definition pages (L : layout) : list page_id_t := (la_chain L).*1 ++ la_ids L.

Record table_at (live : gmap page_id_t (list byte)) (md : TableMetadata) (tb : table) (L : layout) : Prop := {
  ta_schema : tm_schema md = tb_schema tb;
  ta_heap : heap_rel (tb_schema tb) live (la_chain L);
  ta_first : ∃ p r ch, la_chain L = (p, r) :: ch ∧ tm_first_page_id md = p;
  ta_known rid o : tb_rows tb !! rid = Some o →
    0 ≤ rid_slot_num rid ∧ rid_page_id rid ∈ (la_chain L).*1 ∧ ch_get (la_chain L) rid = o;
  ta_unknown rid : 0 ≤ rid_slot_num rid → tb_rows tb !! rid = None → ch_get (la_chain L) rid = None;
  ta_index : index_rel live (la_height L) (tm_index_root_id md) (la_ids L) (tb_index tb);
  ta_apart p : p ∈ (la_chain L).*1 → p ∉ la_ids L;
}.

Record db_rel (a : alloc_state) (W : gset page_id_t) (m : gmap page_id_t Z) (cat : TableCatalog) (db : tables)
    (lay : gmap string layout) : Prop := {
  dr_ok : alloc_ok a;
  dr_pins : pins_ok m a;
  dr_dirty p : p ∈ W → is_Some (m !! p);
  dr_table name : match db !! name with
                  | Some tb => ∃ md L, cat !! name = Some md ∧ lay !! name = Some L ∧ table_at (al_live a) md tb L
                  | None => cat !! name = None ∧ lay !! name = None
                  end;
  dr_own name L p : lay !! name = Some L → p ∈ pages L → m !! p = None;
  dr_apart name name' L L' p : name ≠ name' → lay !! name = Some L → lay !! name' = Some L' →
    p ∈ pages L → p ∉ pages L';
}.

Lemma index_rel_frame live live' h root P mp : (∀ p, p ∈ P → live' !! p = live !! p) →
  index_rel live h root P mp → index_rel live' h root P mp.
Proof.
  intros Hf [H|(t & -> & -> & [Hr Hs Hi Hn Hl] & ->)]; [by left|right]. exists t. split_and!; try done. split; try done.
  - by eapply repr_frame.
  - eapply linked_frame, Hl. intros p Hp%leaf_ids_sub. unfold next_at. by rewrite Hf.
Qed.
Lemma table_frame live live' md tb L : (∀ p, p ∈ pages L → live' !! p = live !! p) →
  table_at live md tb L → table_at live' md tb L.
Proof.
  intros Hf [H1 H2 H3 H4 H5 H6 H7]. split; try done.
  - eapply heap_frame; [exact H2|]. intros p Hp. apply Hf, elem_of_app. by left.
  - eapply index_rel_frame, H6. intros p Hp. apply Hf, elem_of_app. by right.
Qed.
Lemma table_live live md tb L p : table_at live md tb L → p ∈ pages L → is_Some (live !! p).
Proof.
  intros H [Hp|Hp]%elem_of_app.
  - destruct (live !! p) eqn:Hl; [by eauto|]. destruct (not_in_chain _ _ _ _ (ta_heap _ _ _ _ H) Hl Hp).
  - destruct (ta_index _ _ _ _ H) as [(_ & _ & He & _)|(t & _ & He & [Hr _ _ _ _] & _)]; rewrite He in Hp;
      [by apply not_elem_of_nil in Hp|by eapply repr_live].
Qed.

(** A call on the table [name] moves it to pages it had and unused ones; the other
    tables are untouched. *)
Lemma db_put a W m cat db lay name a' W' m' md' tb' L' : db_rel a W m cat db lay →
  let P := default [] (pages <$> lay !! name) in
  index_moved a a' P (pages L') → pins_ok m' a' → (∀ p, p ∈ W' → is_Some (m' !! p)) →
  (∀ p, p ∉ P → m' !! p = m !! p) → (∀ p, p ∈ pages L' → m' !! p = None) → table_at (al_live a') md' tb' L' →
  db_rel a' W' m' (<[name := md']> cat) (<[name := tb']> db) (<[name := L']> lay).
Proof.
  intros [Ha Hm HW Ht Ho Hap] P [Ha' Hids Hfr] Hm' HW' Hkeep Hown Hta.
  assert (Hother : ∀ name2 L2 p, name2 ≠ name → lay !! name2 = Some L2 → p ∈ pages L2 → p ∉ P ∧ is_Some (al_live a !! p)).
  { intros name2 L2 p Hne HL Hp. split.
    - intros HpP. unfold P in HpP. destruct (lay !! name) as [L|] eqn:HLn; [|by apply not_elem_of_nil in HpP].
      by apply (Hap name name2 L L2 p).
    - specialize (Ht name2). destruct (db !! name2) as [tb2|]; [|destruct Ht; congruence]. destruct Ht as (md2 & L & _ & HL2 & Htb).
      assert (L = L2) as -> by congruence. by eapply table_live. }
  split; try done.
  - intros name2. destruct (decide (name2 = name)) as [->|Hne].
    + rewrite !lookup_insert_eq. eauto.
    + rewrite !lookup_insert_ne by done. specialize (Ht name2). destruct (db !! name2) as [tb2|]; [|done].
      destruct Ht as (md2 & L2 & Hc & HL & Htb). exists md2, L2. split; [done|]. split; [done|].
      eapply table_frame, Htb. intros p Hp. destruct (Hother name2 L2 p Hne HL Hp). by apply Hfr.
  - intros name2 L2 p. rewrite lookup_insert. case_decide as Hn; [intros [= <-]; apply Hown|].
    intros HL Hp. destruct (Hother name2 L2 p) as [HpP _]; [congruence|done..|]. rewrite Hkeep by done. by eapply Ho.
  - intros n1 n2 L1 L2 p Hne. rewrite !lookup_insert. case_decide as H1; case_decide as H2.
    + congruence.
    + intros [= <-] HL2 Hp Hp2. destruct (Hother n2 L2 p) as [HpP Hl]; [congruence|done..|].
      apply Hids in Hp as [Hp|Hp]; [done|]. destruct Hl. congruence.
    + intros HL1 [= <-] Hp1 Hp. destruct (Hother n1 L1 p) as [HpP Hl]; [congruence|done..|].
      apply Hids in Hp as [Hp|Hp]; [done|]. destruct Hl. congruence.
    + by apply Hap.
Qed.

(** ** One call *)
Definition chains (d : nat) (lay : gmap string layout) : Prop :=
  ∀ name L, lay !! name = Some L → (length (la_chain L) <= d)%nat.
Lemma chains_put d lay name L' : chains d lay → (length (la_chain L') <= S d)%nat → chains (S d) (<[name := L']> lay).
Proof.
  intros Hc HL name2 L2. rewrite lookup_insert. case_decide; [by intros [= <-]|]. intros Hd%Hc. lia.
Qed.

(** The row ids a heap hands out are 32-bit numbers, so that an index can hold them. *)
Lemma got_rid_ok sch a W m ch rid t : heap_state sch a W m ch → 0 ≤ rid_slot_num rid →
  ch_get ch rid = Some t → rid_ok rid.
Proof.
  intros [Ha _ _ Hh _] H0 Hget. destruct (ch_get_page _ _ _ Hget) as (k & r & Hk).
  destruct (hr_page _ _ _ Hh _ _ _ Hk) as (pg & Hp & Hr & _).
  destruct (alloc_ok_id a (rid_page_id rid) Ha) as [_ Hu]; [by eauto|].
  split; [exact Hu|]. destruct rid as [p i]. cbn in *.
  rewrite (ch_get_at _ _ _ _ _ _ i Hh Hk) in Hget. unfold r_get in Hget.
  destruct (zget (r_rows r) i) as [x|] eqn:Hx; [|done]. apply zget_Some_bound in Hx.
  pose proof (count_bound _ _ _ Hr) as Hb. unfold r_count in Hb. plia.
Qed.

(** The fuel a call takes: the pages of a heap, or the entries of an index. *)
Definition bounded (d : nat) (db : tables) (lay : gmap string layout) : Prop :=
  chains d lay ∧ ∀ name tb, db !! name = Some tb → (size (tb_index tb) <= d)%nat.
Lemma bounded_put d db lay name tb L : bounded d db lay → (length (la_chain L) <= S d)%nat →
  (size (tb_index tb) <= S d)%nat → bounded (S d) (<[name := tb]> db) (<[name := L]> lay).
Proof.
  intros [Hc Hs] HL Ht. split; [by apply chains_put|]. intros name2 tb2. rewrite lookup_insert.
  case_decide; [by intros [= <-]|]. intros Hd%Hs. lia.
Qed.
Lemma bounded_weaken d d' db lay : (d <= d')%nat → bounded d db lay → bounded d' db lay.
Proof. intros Hd [Hc Hs]. split; [intros name L HL%Hc; lia|intros name tb Htb%Hs; lia]. Qed.
Lemma index_step_size op mp : (size (index_step op mp).2 <= S (size mp))%nat.
Proof.
  destruct op as [key|key v|key]; cbn [index_step].
  - cbn [snd]. lia.
  - destruct (mp !! key) eqn:Hk; cbn [snd]; [lia|]. rewrite map_size_insert_None by done. lia.
  - cbn [snd]. rewrite map_size_delete. destruct (mp !! key); cbn; lia.
Qed.

(** The rows of a table change in one place, on a chain that may have grown. *)
Lemma table_rows live live' md tb L ch' rid o : table_at live md tb L → heap_rel (tb_schema tb) live' ch' →
  ch_first ch' = ch_first (la_chain L) → (la_chain L).*1 ⊆ ch'.*1 → (∀ p, p ∈ ch'.*1 → p ∉ la_ids L) →
  (∀ p, p ∈ la_ids L → live' !! p = live !! p) → 0 ≤ rid_slot_num rid → rid_page_id rid ∈ ch'.*1 →
  (∀ x, 0 ≤ rid_slot_num x → ch_get ch' x = if decide (x = rid) then o else ch_get (la_chain L) x) →
  table_at live' md (set_rows (<[rid := o]> (tb_rows tb)) tb) (mkLayout ch' (la_height L) (la_ids L)).
Proof.
  intros [H1 H2 (p & r & ch & Hch & Hp) H4 H5 H6 H7] Hh Hfst Hsub Hap Hfr H0 Hpage Hget.
  split; cbn [set_rows tb_schema tb_rows tb_index la_chain la_height la_ids]; try done.
  - rewrite Hch in Hfst, Hsub. destruct ch' as [|[p' r'] ch0].
    + destruct (not_elem_of_nil p). apply Hsub. by left.
    + exists p', r', ch0. split; [done|]. cbn in Hfst. congruence.
  - intros x v. rewrite lookup_insert. case_decide as Hx.
    + intros [= <-]. subst x. rewrite Hget, decide_True by done. done.
    + intros (Hx0 & Hxp & Hv)%H4. split; [done|]. split; [by apply Hsub|]. by rewrite Hget, decide_False by done.
  - intros x Hx0. rewrite lookup_insert. case_decide as Hx; [done|]. intros Hn. rewrite Hget, decide_False by done. by apply H5.
  - by eapply index_rel_frame.
Qed.

Lemma db_heap a W m cat db lay name tb md L : db_rel a W m cat db lay → lay !! name = Some L →
  table_at (al_live a) md tb L → heap_state (tb_schema tb) a W m (la_chain L).
Proof.
  intros [Ha Hm HW _ Ho _] HL Hta. split; try done; [by apply Hta|]. intros p Hp. apply (Ho name L); [done|].
  apply elem_of_app. by left.
Qed.
Lemma db_index a W m cat db lay name tb md L : db_rel a W m cat db lay → lay !! name = Some L →
  table_at (al_live a) md tb L →
  index_state a W m (la_height L) (tm_index_root_id md) (la_ids L) (tb_index tb).
Proof.
  intros [Ha Hm HW _ Ho _] HL Hta. split; try done; [by apply Hta|]. intros p Hp. apply (Ho name L); [done|].
  apply elem_of_app. by right.
Qed.

(** The call [m] is served as [op] on the tables. *)
Definition served (n : Z) (q : prog (table_res * TableCatalog)) (op : table_op) (a : alloc_state)
    (W : gset page_id_t) (m : gmap page_id_t Z) (db : tables) (lay : gmap string layout) : Prop :=
  ∃ r cat' db' a' W' m' lay', run_store q (mkStore a W m n) = Some (Ret (r, cat'), mkStore a' W' m' n) ∧
    db_step db op r db' ∧ db_rel a' W' m' cat' db' lay' ∧ al_num a' ≤ al_num a + 7 ∧ m ⊆ m' ∧
    (size m' <= S (size m))%nat ∧ ∀ d, bounded d db lay → bounded (S d) db' lay'.

Lemma create_served n name schema a W m cat db lay : db_rel a W m cat db lay →
  al_num a < INVALID_PAGE_ID → Z.of_nat (size m) < n →
  ∀ fuel, served n (table_call fuel (Create name schema) cat) (Create name schema) a W m db lay.
Proof.
  intros Hdb Hroom Hn fuel. pose proof Hdb as [Ha Hm HW Ht Ho Hap].
  destruct (fresh_room a Ha Hroom) as (q0 & a0 & Hf & _).
  destruct (new_state_run schema a W m n Ha Hm HW Hn) as (q & a2 & Hrun & Hst & Hqn & Hnum & Hfr & Hget); [by rewrite Hf|].
  pose proof Hst as [Ha2 Hm2 _ Hh2 Hown].
  exists Created, (CreateTable name schema q INVALID_PAGE_ID cat), (<[name := fresh_table schema]> db), a2, W, m,
    (<[name := mkLayout [(q, empty_rows)] 0 []]> lay).
  split; [|split; [by constructor|split]].
  - cbn [table_call]. by rewrite run_store_bind, Hrun.
  - eapply db_put; [exact Hdb|..]; try done.
    + split; [done|intros p ->%list_elem_of_singleton; by right|intros p _ [? ?]; apply Hfr; congruence].
    + split; try done; cbn.
      * by exists q, empty_rows, [].
      * intros rid H0 _. by apply Hget.
      * by left.
      * intros p _. apply not_elem_of_nil.
  - split; [lia|]. split; [done|]. split; [lia|]. intros d Hc.
    apply bounded_put; [done|cbn; lia|unfold fresh_table; cbn [tb_index]; rewrite map_size_empty; lia].
Qed.

Lemma insert_served n name t a W m cat db lay tb fuel : db_rel a W m cat db lay → db !! name = Some tb →
  fits (tb_schema tb) t → al_num a < INVALID_PAGE_ID → Z.of_nat (size m) + 1 < n → chains fuel lay →
  served n (table_call fuel (InsertRow name t) cat) (InsertRow name t) a W m db lay.
Proof.
  intros Hdb Htb [Ht Hfit] Hroom Hn Hch. pose proof (dr_table _ _ _ _ _ _ Hdb name) as H. rewrite Htb in H.
  destruct H as (md & L & Hc & HL & Hta). pose proof (db_heap _ _ _ _ _ _ _ _ _ _ Hdb HL Hta) as Hst.
  destruct (ta_first _ _ _ _ Hta) as (p & r & ch & Hcons & Hp).
  destruct (fresh_room a (hs_ok _ _ _ _ _ Hst) Hroom) as (q0 & a0 & Hf & _).
  destruct (insert_state_run (tb_schema tb) t a W m n (la_chain L) fuel Hst Hn) as
    (rid & ch' & a2 & Hrun & Hst' & Hfst & Hnum & H0 & Hnone & Hget & Hoth & Hsub & Hids & Hlen & Hfr);
    [by rewrite Hf|by rewrite Hcons|done|done|by apply (Hch name)|].
  assert (Hnew : ∀ x, x ∈ ch'.*1 → x ∉ la_ids L).
  { intros x [Hx|Hx]%Hids; [by apply Hta|]. intros Hin.
    destruct (table_live _ _ _ _ x Hta) as [? ?]; [apply elem_of_app; by right|congruence]. }
  exists (Inserted (Some rid)), cat, (<[name := set_rows (<[rid := Some t]> (tb_rows tb)) tb]> db), a2, W, m,
    (<[name := mkLayout ch' (la_height L) (la_ids L)]> lay).
  split; [|split; [|split]].
  - cbn [table_call table_of]. unfold GetTableMetadata. rewrite Hc. cbn [on_table]. rewrite run_store_bind.
    assert (tm_first_page_id md = ch_first (la_chain L)) as -> by (by rewrite Hcons, Hp). by rewrite Hrun.
  - apply (ds_table db (InsertRow name t) _ tb); [done|]. constructor; [by eapply got_rid_ok|].
    destruct (tb_rows tb !! rid) as [o|] eqn:Hr; [|done]. destruct (ta_known _ _ _ _ Hta _ _ Hr) as (_ & _ & Ho).
    cbn. congruence.
  - rewrite <- (insert_id cat name md) by done. eapply db_put; [exact Hdb|..]; rewrite ?HL; cbn [default fmap option_fmap option_map].
    + split; [apply Hst'| |].
      * intros x [[Hx|Hx]%Hids|Hx]%elem_of_app; [left; apply elem_of_app; by left|by right|left; apply elem_of_app; by right].
      * intros x Hx Hl. apply Hfr; [done|]. intros Hin. apply Hx, elem_of_app. by left.
    + apply Hst'.
    + apply Hst'.
    + done.
    + intros x [Hx|Hx]%elem_of_app; [by apply Hst'|]. apply (dr_own _ _ _ _ _ _ Hdb name L); [done|]. apply elem_of_app. by right.
    + apply (table_rows (al_live a) (al_live a2) md tb L ch' rid (Some t)); try done; [apply Hst'|..].
      * intros x Hx. apply Hfr; [eapply table_live; [exact Hta|apply elem_of_app; by right]|]. intros Hin. by apply (ta_apart _ _ _ _ Hta x).
      * apply ch_get_page in Hget as (k & rr & Hk). apply list_elem_of_fmap. eexists. split; [|by eapply list_elem_of_lookup_2]. done.
      * intros x Hx. case_decide as Hxr; [by subst|by apply Hoth].
  - split; [lia|]. split; [done|]. split; [lia|]. intros d Hd.
    pose proof (proj1 Hd _ _ HL). pose proof (proj2 Hd _ _ Htb). apply bounded_put; [done|cbn; lia..].
Qed.

(** The page a row id names, and the calls on its row. *)
Lemma known_page live md tb L rid o : table_at live md tb L → tb_rows tb !! rid = Some o →
  ∃ k r, la_chain L !! k = Some (rid_page_id rid, r) ∧ 0 ≤ rid_slot_num rid ∧ r_get r (rid_slot_num rid) = o ∧
    ch_get (la_chain L) rid = o.
Proof.
  intros Hta Hr. destruct (ta_known _ _ _ _ Hta _ _ Hr) as (H0 & Hp & Hget).
  apply list_elem_of_fmap in Hp as ([p r] & Hp & [k Hk]%list_elem_of_lookup). cbn in Hp. subst p. exists k, r.
  split; [done|]. split; [done|]. split; [|done]. rewrite <- Hget. symmetry. destruct rid as [p i].
  by eapply ch_get_at; [apply Hta|].
Qed.

Lemma read_served n q op r cat a W m db lay tb : db_rel a W m cat db lay → db !! table_of op = Some tb →
  run_store q (mkStore a W m n) = Some (Ret (r, cat), mkStore a W m n) →
  table_step tb op r tb → served n q op a W m db lay.
Proof.
  intros Hdb Htb Hrun Hstep. exists r, cat, (<[table_of op := tb]> db), a, W, m, lay. split; [done|].
  split; [by apply (ds_table _ _ _ tb)|]. rewrite insert_id by done. split; [done|]. split; [lia|]. split; [done|].
  split; [lia|]. intros d Hd. eapply bounded_weaken, Hd. lia.
Qed.
Lemma rows_written n q op r cat a a2 W m db lay tb md L rid o row : db_rel a W m cat db lay →
  db !! table_of op = Some tb → cat !! table_of op = Some md → lay !! table_of op = Some L →
  run_store q (mkStore a W m n) = Some (Ret (r, cat), mkStore a2 W m n) →
  table_step tb op r (set_rows (<[rid := o]> (tb_rows tb)) tb) → is_Some (tb_rows tb !! rid) →
  heap_state (tb_schema tb) a2 W m (ch_put (rid_page_id rid) row (la_chain L)) → al_num a2 = al_num a →
  (∀ x, x ∉ (la_chain L).*1 → al_live a2 !! x = al_live a !! x) →
  (∀ k r, la_chain L !! k = Some (rid_page_id rid, r) →
     ∀ j, 0 ≤ j → r_get row j = if decide (j = rid_slot_num rid) then o else r_get r j) →
  served n q op a W m db lay.
Proof.
  intros Hdb Htb Hc HL Hrun Hstep [o0 Hknown] Hst Hnum Hfr Hrow.
  pose proof (dr_table _ _ _ _ _ _ Hdb (table_of op)) as Ht. rewrite Htb in Ht.
  destruct Ht as (md' & L' & Hc' & HL' & Hta). rewrite Hc in Hc'. rewrite HL in HL'. injection Hc' as <-. injection HL' as <-.
  destruct (known_page _ _ _ _ _ _ Hta Hknown) as (k & rr & Hk & H0 & _ & _). specialize (Hrow k rr Hk).
  set (ch' := ch_put _ _ _) in *. assert (Hids : ch'.*1 = (la_chain L).*1) by apply ch_put_ids.
  assert (Hpage : rid_page_id rid ∈ (la_chain L).*1).
  { apply list_elem_of_fmap. eexists. split; [|by eapply list_elem_of_lookup_2]. done. }
  exists r, cat, (<[table_of op := set_rows (<[rid := o]> (tb_rows tb)) tb]> db), a2, W, m,
    (<[table_of op := mkLayout ch' (la_height L) (la_ids L)]> lay).
  split; [done|]. split; [by apply (ds_table _ _ _ tb)|]. split.
  - rewrite <- (insert_id cat (table_of op) md) by done. eapply db_put; [exact Hdb|..]; rewrite ?HL; cbn [default fmap option_fmap option_map].
    + split; [apply Hst| |].
      * intros x. unfold pages. cbn [la_chain la_ids]. rewrite Hids. by left.
      * intros x Hx _. apply Hfr. intros Hin. apply Hx, elem_of_app. by left.
    + apply Hst.
    + apply Hst.
    + done.
    + intros x. unfold pages. cbn [la_chain la_ids]. rewrite Hids. by apply (dr_own _ _ _ _ _ _ Hdb (table_of op) L).
    + apply (table_rows (al_live a) (al_live a2) md tb L ch' rid o); try done; [apply Hst| |by rewrite Hids|..].
      * unfold ch'. destruct (la_chain L) as [|[p u] ch0]; [done|]. cbn [ch_put]. case_decide as Hp; cbn; [by rewrite Hp|done].
      * rewrite Hids. apply Hta.
      * intros x Hx. apply Hfr. intros Hin. by apply (ta_apart _ _ _ _ Hta x).
      * by rewrite Hids.
      * intros [xp xi] Hx0. cbn in Hx0. unfold ch'. rewrite ch_get_put by done. cbn [rid_page_id rid_slot_num].
        destruct (decide (xp = rid_page_id rid)) as [->|Hne].
        -- rewrite Hrow by done. destruct rid as [p i]. cbn [rid_page_id rid_slot_num] in *.
           rewrite (ch_get_at _ _ _ _ _ _ xi (ta_heap _ _ _ _ Hta) Hk).
           destruct (decide (xi = i)) as [->|Hi]; [by rewrite decide_True|by rewrite decide_False by congruence].
        -- rewrite decide_False; [done|]. intros <-. done.
  - split; [lia|]. split; [done|]. split; [lia|]. intros d Hd. pose proof (proj1 Hd _ _ HL). pose proof (proj2 Hd _ _ Htb).
    apply bounded_put; [done| |cbn; lia]. cbn [la_chain]. rewrite <- (length_fmap fst), Hids, length_fmap. lia.
Qed.

Lemma row_served n op name rid a W m cat db lay tb fuel : db_rel a W m cat db lay →
  op = ReadRow name rid ∨ op = DeleteRow name rid ∨ (∃ t, op = UpdateRow name rid t ∧ storable (tb_schema tb) t) →
  db !! name = Some tb → is_Some (tb_rows tb !! rid) → Z.of_nat (size m) < n →
  served n (table_call fuel op cat) op a W m db lay.
Proof.
  intros Hdb Hop Htb [o Ho] Hn. pose proof (dr_table _ _ _ _ _ _ Hdb name) as H. rewrite Htb in H.
  destruct H as (md & L & Hc & HL & Hta). pose proof (db_heap _ _ _ _ _ _ _ _ _ _ Hdb HL Hta) as Hst.
  destruct (known_page _ _ _ _ _ _ Hta Ho) as (k & r & Hk & H0 & Hget & Hch).
  assert (Hself : set_rows (<[rid := o]> (tb_rows tb)) tb = tb).
  { unfold set_rows. rewrite insert_id by done. by destruct tb. }
  (* a page method that does [f] to the rows and puts [o'] in place *)
  assert (Hmod : ∀ mt f o', method_ok (tb_schema tb) mt f →
    (∀ j, 0 ≤ j → r_get (default r (f r)) j = if decide (j = rid_slot_num rid) then o' else r_get r j) →
    table_of op = name → table_step tb op (Done (bool_decide (is_Some (f r)))) (set_rows (<[rid := o']> (tb_rows tb)) tb) →
    served n (b ← heap_modify rid mt; mret (Done b, cat)) op a W m db lay).
  { intros mt f o' Hmt Hrow <- Hstep. destruct rid as [p i].
    destruct (modify_state_run (tb_schema tb) a W m n (la_chain L) k p r i mt f Hst Hn Hk Hmt) as (a2 & Hrun & Hst2 & Hnum & Hfr).
    refine (rows_written n _ op _ cat a a2 W m db lay tb md L _ o' _ Hdb Htb Hc HL _ Hstep _ Hst2 Hnum Hfr _);
      [by rewrite run_store_bind, Hrun|by eauto|].
    intros k' r0 Hk'. pose proof (ch_id_inj _ _ _ _ _ _ _ _ (ta_heap _ _ _ _ Hta) Hk Hk') as <-.
    assert (r0 = r) as -> by congruence. exact Hrow. }
  assert (Hsame : ∀ j, 0 ≤ j → r_get r j = if decide (j = rid_slot_num rid) then o else r_get r j).
  { intros j _. case_decide; [by subst|done]. }
  destruct Hop as [->|[->|(t & -> & Ht)]]; unfold table_call, GetTableMetadata; cbn [table_of]; rewrite Hc; cbn [on_table].
  - eapply (read_served n _ (ReadRow name rid) (Row o)); [done|done| |by constructor].
    rewrite run_store_bind, (ta_schema _ _ _ _ Hta). destruct rid as [p i]. destruct Hst as [Ha Hm HW Hh Hu]. cbn in Hget.
    by rewrite (get_run (tb_schema tb) W m HW a n (la_chain L) k p r i), Hget.
  - pose proof (r_delete_get r (rid_slot_num rid)) as Hd. rewrite Hget in Hd.
    apply (Hmod _ (r_delete (rid_slot_num rid)) None); [by apply delete_method| |done|].
    + destruct o as [old|]; [destruct Hd as (r' & -> & Hr'); exact Hr'|rewrite Hd; exact Hsame].
    + destruct o as [old|]; [destruct Hd as (r' & -> & _); by eapply ts_delete|rewrite Hd, Hself; by constructor].
  - pose proof (r_update_get r (rid_slot_num rid) t) as Hd. rewrite Hget in Hd.
    destruct o as [old|].
    + destruct Hd as [[Hd Hlen]|(r' & Hd & Hr')].
      * apply (Hmod _ (r_update (rid_slot_num rid) t) (Some old)); [by apply update_method|by rewrite Hd|done|].
        rewrite Hd, Hself. by eapply ts_update_grows.
      * apply (Hmod _ (r_update (rid_slot_num rid) t) (Some t)); [by apply update_method|by rewrite Hd|done|].
        rewrite Hd. by eapply ts_update.
    + apply (Hmod _ (r_update (rid_slot_num rid) t) None); [by apply update_method|by rewrite Hd|done|].
      rewrite Hd, Hself. by constructor.
Qed.

Lemma index_served n name op a W m cat db lay tb fuel : db_rel a W m cat db lay → db !! name = Some tb →
  index_op_ok op → al_num a + 6 < INVALID_PAGE_ID → 12 + Z.of_nat (size m) < n →
  served n (table_call fuel (Index name op) cat) (Index name op) a W m db lay.
Proof.
  intros Hdb Htb Hop Hroom Hn. pose proof (dr_table _ _ _ _ _ _ Hdb name) as H. rewrite Htb in H.
  destruct H as (md & L & Hc & HL & Hta). pose proof (db_index _ _ _ _ _ _ _ _ _ _ Hdb HL Hta) as Hst.
  destruct (tree_call_run n a W m op (la_height L) (tm_index_root_id md) (la_ids L) (tb_index tb) Hst Hop Hroom Hn) as
    (a' & W' & m' & h' & root' & P' & Hrun & [Ha' Hm' Hrel' HW' Hown'] & [_ Hids Hfr] & Hnum & [Hsub Hkeep] & Hsz).
  set (md' := mkTableMetadata (tm_name md) (tm_schema md) (tm_first_page_id md) root').
  exists (Answer (index_step op (tb_index tb)).1), (UpdateIndexRoot name root' cat),
    (<[name := set_index (index_step op (tb_index tb)).2 tb]> db), a', W', m', (<[name := mkLayout (la_chain L) h' P']> lay).
  assert (Hheap : ∀ p, p ∈ (la_chain L).*1 → p ∉ la_ids L ∧ is_Some (al_live a !! p)).
  { intros p Hp. split; [by apply Hta|]. eapply table_live; [exact Hta|]. apply elem_of_app. by left. }
  split; [|split; [|split]].
  - unfold table_call, GetTableMetadata. cbn [table_of]. rewrite Hc. cbn [on_table]. by rewrite run_store_bind, Hrun.
  - by apply (ds_table db (Index name op) _ tb), ts_index.
  - unfold UpdateIndexRoot. rewrite Hc. eapply db_put; [exact Hdb|..]; rewrite ?HL; cbn [default fmap option_fmap option_map]; try done.
    + split; [done| |].
      * intros p [Hp|Hp]%elem_of_app; [left; apply elem_of_app; by left|]. apply Hids in Hp as [Hp|Hp]; [left; apply elem_of_app; by right|by right].
      * intros p Hp Hl. apply Hfr; [|done]. intros Hin. apply Hp, elem_of_app. by right.
    + intros p Hp. apply Hkeep. intros Hin. apply Hp, elem_of_app. by right.
    + intros p [Hp|Hp]%elem_of_app; [|by apply Hown']. destruct (Hheap p Hp) as [Hpi _]. rewrite Hkeep by done.
      apply (dr_own _ _ _ _ _ _ Hdb name L); [done|]. apply elem_of_app. by left.
    + destruct Hta as [H1 H2 H3 H4 H5 H6 H7]. split; cbn; try done.
      * eapply heap_frame; [exact H2|]. intros p Hp. destruct (Hheap p Hp). by apply Hfr.
      * intros p Hp Hin. destruct (Hheap p Hp) as [Hpi Hl]. apply Hids in Hin as [Hin|Hin]; [done|]. destruct Hl. congruence.
  - split; [lia|]. split; [done|]. split.
    { rewrite Hsz. unfold empties. destruct op; try lia. case_match; lia. }
    intros d Hd. pose proof (proj1 Hd _ _ HL). pose proof (proj2 Hd _ _ Htb).
    pose proof (index_step_size op (tb_index tb)). apply bounded_put; [done|cbn; lia..].
Qed.

Lemma no_table_served n op a W m cat db lay fuel : db_rel a W m cat db lay → creates op = false →
  db !! table_of op = None → served n (table_call fuel op cat) op a W m db lay.
Proof.
  intros Hdb Hop Htb. pose proof (dr_table _ _ _ _ _ _ Hdb (table_of op)) as H. rewrite Htb in H. destruct H as [Hc _].
  exists NoTable, cat, db, a, W, m, lay. split; [|split; [by constructor|]].
  - destruct op; [done|..]; unfold table_call, GetTableMetadata; by rewrite Hc.
  - split; [done|]. split; [lia|]. split; [done|]. split; [lia|]. intros d Hd. eapply bounded_weaken, Hd. lia.
Qed.

(** A result paired with the catalog, after two calls in sequence. *)
Lemma run_store_assoc {A B C} (p : prog A) (q : A → prog B) (g : B → C) s s' x :
  run_store (y ← p; q y) s = Some (Ret x, s') →
  run_store (y ← p; z ← q y; mret (g z)) s = Some (Ret (g x), s').
Proof.
  rewrite !run_store_bind. destruct (run_store p s) as [[[y|e|] s1]|]; try done. intros H.
  by rewrite run_store_bind, H.
Qed.
Lemma scan_served n op name a W m cat db lay tb fuel : db_rel a W m cat db lay →
  op = Scan name ∨ (∃ key, op = ScanFrom name key ∧ is_Some (tb_index tb !! key)) →
  db !! name = Some tb → Z.of_nat (size m) < n → (size (tb_index tb) < fuel)%nat →
  served n (table_call fuel op cat) op a W m db lay.
Proof.
  intros Hdb Hop Htb Hn Hfuel. pose proof (dr_table _ _ _ _ _ _ Hdb name) as H. rewrite Htb in H.
  destruct H as (md & L & Hc & HL & Hta). destruct (db_index _ _ _ _ _ _ _ _ _ _ Hdb HL Hta) as [Ha Hm Hrel HW Hown].
  pose proof (height_le _ _ _ _ _ Ha Hrel) as Hh.
  assert (HP : ∀ p, p ∈ la_ids L → p ∉ W) by (intros p Hp [z Hz]%HW; specialize (Hown p Hp); congruence).
  destruct Hop as [->|(key & -> & [v Hk])].
  - destruct (scan_all_run a n Ha W m Hm Hn tree_fuel fuel (la_height L) (tm_index_root_id md) (la_ids L) (tb_index tb)
      Hrel HP ltac:(unfold tree_fuel; lia) Hfuel) as (es & Hrun & Hinc & Hmp).
    apply (read_served n _ (Scan name) (Entries es) cat a W m db lay tb Hdb Htb); [|by constructor].
    unfold table_call, GetTableMetadata. cbn [table_of]. rewrite Hc. cbn [on_table]. by rewrite run_store_bind, Hrun.
  - destruct (range_run a n Ha W m Hm Hn tree_fuel fuel key v (la_height L) (tm_index_root_id md) (la_ids L) (tb_index tb)
      Hrel HP ltac:(unfold tree_fuel; lia) Hfuel Hk) as (pre & suf & Hrun & Hinc & Hmp).
    apply (read_served n _ (ScanFrom name key) (Entries ((key, v) :: suf)) cat a W m db lay tb Hdb Htb); [|by econstructor].
    unfold table_call, GetTableMetadata. cbn [table_of]. rewrite Hc. cbn [on_table].
    exact (run_store_assoc _ _ (λ es, (Entries es, cat)) _ _ _ Hrun).
Qed.

(** Every legal call is served. *)
Lemma call_served n op a W m cat db lay len fuel : db_rel a W m cat db lay → op_legal op db →
  al_num a + 6 < INVALID_PAGE_ID → 12 + Z.of_nat (size m) < n → bounded len db lay → (len < fuel)%nat →
  served n (table_call fuel op cat) op a W m db lay.
Proof.
  intros Hdb Hop Hroom Hn Hb Hfuel. destruct (creates op) eqn:Hcr.
  { destruct op; try done. by apply create_served; [|lia..]. }
  destruct (db !! table_of op) as [tb|] eqn:Htb; [|by apply no_table_served].
  pose proof (proj2 Hb _ _ Htb) as Hsz.
  destruct op as [?|name t|name rid|name rid t|name rid|name op|name|name key]; [done|..]; cbn [op_legal table_of] in *.
  - apply (insert_served n name t a W m cat db lay tb); [done|done|by apply Hop|lia|lia|].
    eapply bounded_weaken, Hb. lia.
  - eapply row_served; [done|by left|done|by apply Hop|lia].
  - destruct (Hop tb Htb) as [Hrid Ht]. eapply row_served; [done|right; right; eauto|done|done|lia].
  - eapply row_served; [done|right; by left|done|by apply Hop|lia].
  - by eapply index_served.
  - eapply scan_served; [done|by left|done|lia|lia].
  - eapply scan_served; [done|right; by eauto|done|lia|lia].
Qed.

(** What a client of at most [d] calls has used up. *)
Definition spent (d : nat) (a a' : alloc_state) (m m' : gmap page_id_t Z) (len : nat) (db' : tables)
    (lay' : gmap string layout) : Prop :=
  al_num a' ≤ al_num a + 7 * Z.of_nat d ∧ (size m' <= size m + d)%nat ∧ bounded (len + d) db' lay'.

(** A whole client, call by call. *)
Lemma client_run n fuel d cl a W m cat db lay len : db_rel a W m cat db lay → legal d cl db →
  bounded len db lay → (len + d < fuel)%nat → al_num a + 7 * Z.of_nat d < INVALID_PAGE_ID →
  12 + Z.of_nat (size m) + Z.of_nat d < n →
  ∃ rs cat' db' a' W' m' lay', run_store (run_client fuel cl cat) (mkStore a W m n) =
      Some (Ret (rs, cat'), mkStore a' W' m' n) ∧
    behaves cl db rs db' ∧ db_rel a' W' m' cat' db' lay' ∧ spent d a a' m m' len db' lay'.
Proof.
  revert cl a W m cat db lay len. induction d as [|d IH]; intros [|op k] a W m cat db lay len Hdb Hleg Hch Hfuel Hroom Hn.
  1,3: exists [], cat, db, a, W, m, lay; split; [done|]; split; [constructor|]; split; [done|];
    split; [lia|split; [lia|eapply bounded_weaken, Hch; lia]].
  - destruct Hleg.
  - destruct Hleg as [Hop Hk].
    destruct (call_served n op a W m cat db lay len fuel Hdb Hop ltac:(lia) ltac:(lia) Hch ltac:(lia)) as
      (r & cat1 & db1 & a1 & W1 & m1 & lay1 & Hrun & Hstep & Hdb1 & Hnum & _ & Hsz & Hch1).
    destruct (IH (k r) a1 W1 m1 cat1 db1 lay1 (S len) Hdb1 (Hk _ _ Hstep) (Hch1 _ Hch) ltac:(lia) ltac:(lia) ltac:(lia)) as
      (rs & cat' & db' & a' & W' & m' & lay' & Hrest & Hbeh & Hdb' & Hn' & Hs' & Hc').
    exists (r :: rs), cat', db', a', W', m', lay'. split; [|split; [by econstructor|split; [done|]]].
    + cbn [run_client]. rewrite run_store_bind, Hrun. cbn iota beta. by rewrite run_store_bind, Hrest.
    + split; [lia|split; [lia|eapply bounded_weaken, Hc'; lia]].
Qed.

(** The same on a pool, and on a pool that opens the flushed file. *)
Section on_pool.
Context {R : Type} `{HR : Replacer R} `{!ReplacerLaws R}.

Lemma client_on_pool (c : machine R) fuel d cl a W m n cat db lay len :
  store_rel c (mkStore a W m n) → db_rel a W m cat db lay → legal d cl db →
  bounded len db lay → (len + d < fuel)%nat → al_num a + 7 * Z.of_nat d < INVALID_PAGE_ID →
  12 + Z.of_nat (size m) + Z.of_nat d < n →
  ∃ c' rs cat' db', run_pool (run_client fuel cl cat) c = (c', Ret (rs, cat')) ∧ behaves cl db rs db' ∧
    ∃ a' W' m' lay', store_rel c' (mkStore a' W' m' n) ∧ db_rel a' W' m' cat' db' lay' ∧ spent d a a' m m' len db' lay'.
Proof.
  intros Hr Hdb Hleg Hch Hfuel Hroom Hn.
  destruct (client_run n fuel d cl a W m cat db lay len Hdb Hleg Hch Hfuel Hroom Hn) as
    (rs & cat' & db' & a' & W' & m' & lay' & Hrun & Hbeh & Hdb' & Hsp).
  destruct (sim_prog _ _ _ _ _ Hr Hrun) as (c' & Hex & Hr'). exists c', rs, cat', db'.
  split; [done|]. split; [done|]. by exists a', W', m', lay'.
Qed.

(** The pages of the tables are unpinned, so a flush writes all of them. *)
Lemma db_flushed a a' W m cat db lay : db_rel a W m cat db lay → alloc_ok a' →
  (∀ p, p ∉ W → al_live a' !! p = al_live a !! p) → db_rel a' ∅ ∅ cat db lay.
Proof.
  intros [Ha Hm HW Ht Ho Hap] Ha' Hfr. split; [done|apply pins_ok_empty|by intros p ?%not_elem_of_empty| |done|done].
  intros name. specialize (Ht name). destruct (db !! name) as [tb|]; [|done].
  destruct Ht as (md & L & Hc & HL & Hta). exists md, L. split; [done|]. split; [done|].
  eapply table_frame, Hta. intros p Hp. apply Hfr. intros [z Hz]%HW. pose proof (Ho name L p HL Hp). congruence.
Qed.
Lemma db_reopened (c : machine R) a W m n cat db lay ac :
  store_rel c (mkStore a W m n) → db_rel a W m cat db lay → can_open ac = true →
  ∃ b dm a', FlushAllPages (ma_pool c) = (b, Ret tt) ∧
    DiskManager_new (Some (db_file (disk_manager_ b))) ac = (dm, Ret tt) ∧
    disk_rel dm a' ∧ db_rel a' ∅ ∅ cat db lay ∧ al_num a' = al_num a.
Proof.
  intros Hr Hdb Hac. destruct (flushed_file c _ Hr (dr_ok _ _ _ _ _ _ Hdb)) as (b & a' & Hex & Hd & Ha' & Hnum & _ & Hfr).
  exists b, (disk_manager_ b), a'. split; [done|]. split; [eapply reopen_eq; [apply Hd|exact Hac]|]. split; [done|]. split; [|done].
  by eapply db_flushed.
Qed.
End on_pool.

(** ** Properties *)

(** C3 (refinement). The storage engine as a client sees it: on a pool of frames
    with any replacement policy, any client of the catalog, the heaps and the
    indexes of any number of tables gets answers that tables kept as maps give:
    a row id with each inserted tuple, the tuple last stored under a row id, what
    the index maps a key to, the entries of an index in key order from the first or
    from a key, even though all tables share the pool, the allocator and the freed
    pages, and each root page id goes through the catalog. Every call returns: one
    unit of fuel per page of a chain or entry of an index. The client may make [d]
    calls; a call takes at most seven page ids, and a [Delete] that empties an index
    keeps one frame pinned. *)
Theorem tables_refine_maps {R} `{HR : Replacer R, !ReplacerLaws R} (c : machine R)
    fuel d cl a W m n cat db lay len :
  store_rel c (mkStore a W m n) → db_rel a W m cat db lay → legal d cl db →
  bounded len db lay → (len + d < fuel)%nat → al_num a + 7 * Z.of_nat d < INVALID_PAGE_ID →
  12 + Z.of_nat (size m) + Z.of_nat d < n →
  ∃ c' rs cat' db', run_pool (run_client fuel cl cat) c = (c', Ret (rs, cat')) ∧ behaves cl db rs db' ∧
    ∃ a' W' m' lay', store_rel c' (mkStore a' W' m' n) ∧ db_rel a' W' m' cat' db' lay' ∧ spent d a a' m m' len db' lay'.
Proof. apply client_on_pool. Qed.

(** C11 (safety). The tables survive a restart: [FlushAllPages] leaves a database
    file that, opened again (when it can be opened) under a pool of another size and policy and with the
    catalog kept, serves every client as the tables did before, rows and indexes
    alike. What is on a page that an emptied index left pinned may be lost; no table
    uses it, and its frame is available again. *)
Theorem tables_survive_restart {R R'} `{HR : Replacer R, !ReplacerLaws R, HR' : Replacer R', !ReplacerLaws R'}
    (c : machine R) a W m n cat db lay k (r : R') ac fuel d cl len :
  store_rel c (mkStore a W m n) → db_rel a W m cat db lay →
  rep_wf r → rep_cap r = k → rep_set r = ∅ →
  legal d cl db → bounded len db lay → (len + d < fuel)%nat →
  al_num a + 7 * Z.of_nat d < INVALID_PAGE_ID → 12 + Z.of_nat d < k → can_open ac = true →
  ∃ b dm c' rs cat' db', FlushAllPages (ma_pool c) = (b, Ret tt) ∧
    DiskManager_new (Some (db_file (disk_manager_ b))) ac = (dm, Ret tt) ∧
    run_pool (run_client fuel cl cat) (new_machine k dm r) = (c', Ret (rs, cat')) ∧ behaves cl db rs db'.
Proof.
  intros Hr Hdb Hwf Hcap Hset Hleg Hch Hfuel Hroom Hk Hac.
  destruct (db_reopened c a W m n cat db lay ac Hr Hdb Hac) as (b & dm & a' & Hex & Hopen & Hd & Hdb' & Hnum).
  destruct (client_on_pool (new_machine k dm r) fuel d cl a' ∅ ∅ k cat db lay len) as (c' & rs & cat' & db' & Hrun & Hbeh & _);
    [apply new_machine_rel; [lia|done..]|done|done|done|done|lia|rewrite map_size_empty; lia|].
  exists b, dm, c', rs, cat', db'. done.
Qed.

(** *** Witness: two tables, one of them with an indexed row, in a new database *)
Definition sample_client : client :=
  Call (Create "users" sample_schema) (λ _,
  Call (Create "log" sample_schema) (λ _,
  Call (ReadRow "none" (mkRID 1 0)) (λ _,
  Call (InsertRow "users" sample_tuple) (λ r,
    match r with
    | Inserted (Some rid) =>
        Call (Index "users" (Put 7 rid)) (λ _,
        Call (ScanFrom "users" 7) (λ _,
        Call (Scan "users") (λ _,
        Call (InsertRow "log" sample_tuple) (λ _,
        Call (DeleteRow "users" rid) (λ _,
        Call (ReadRow "users" rid) (λ _,
        Call (Index "users" (Get 7)) (λ _, Finish)))))))
    | _ => Finish
    end)))).

Lemma empty_db_rel : db_rel empty_alloc ∅ ∅ ∅ ∅ ∅.
Proof.
  split; [apply empty_alloc_ok|apply pins_ok_empty|apply nothing_dirty|..].
  - intros name. by rewrite !lookup_empty.
  - intros name L p. by rewrite lookup_empty.
  - intros name name' L L' p _. by rewrite lookup_empty.
Qed.
Lemma empty_bounded : bounded 0 ∅ ∅.
Proof. split; intros name x; by rewrite lookup_empty. Qed.
Lemma sample_fits : fits sample_schema sample_tuple.
Proof. split; [apply sample_storable|vm_compute; discriminate]. Qed.
#[local] Arguments legal : simpl never.
Lemma legal_call d op k db : op_legal op db → (∀ r db', db_step db op r db' → legal d (k r) db') →
  legal (S d) (Call op k) db.
Proof. by split. Qed.
(** The step a call made, and what it did to the table. *)
Ltac inv_step Hs :=
  let Ht := fresh in
  inversion Hs as [| |? ? ? ? ? Ht]; subst; clear Hs; cbn [creates table_of] in *; simplify_map_eq;
  try (inversion Ht; subst; clear Ht); cbn [set_rows set_index fresh_table tb_rows tb_schema tb_index] in *;
  simplify_map_eq.
Ltac step_of_call := let Hs := fresh in intros ? ? Hs; inv_step Hs.
Ltac inv_call Hb :=
  let Hs := fresh in let Hb' := fresh in
  inversion Hb as [|? ? ? ? ? ? ? Hs Hb']; subst; clear Hb; inv_step Hs; rename Hb' into Hb.
Lemma sample_client_legal : legal 11 sample_client ∅.
Proof.
  unfold sample_client. apply legal_call; [done|]. step_of_call.
  apply legal_call; [done|]. step_of_call.
  apply legal_call; [by intros tb Htb|]. step_of_call.
  apply legal_call; [intros tb Htb; simplify_map_eq; apply sample_fits|]. step_of_call.
  apply legal_call; [split; [vm_compute; done|done]|]. step_of_call.
  apply legal_call; [intros tb Htb; simplify_map_eq; cbn; simplify_map_eq; eauto|]. step_of_call.
  apply legal_call; [done|]. step_of_call.
  apply legal_call; [intros tb Htb; simplify_map_eq; apply sample_fits|]. step_of_call.
  apply legal_call; [intros tb Htb; simplify_map_eq; eauto|]. step_of_call.
  apply legal_call; [intros tb Htb; simplify_map_eq; eauto|]. step_of_call.
  apply legal_call; [done|]. step_of_call. done.
Qed.

Lemma tables_refine_maps_witness :
  ∃ c' rs cat' db',
    run_pool (run_client 12 sample_client ∅) (new_machine 24 new_db (LRU.LRUReplacer_new 24)) = (c', Ret (rs, cat')) ∧
    behaves sample_client ∅ rs db' ∧
    ∃ a' W' m' lay', store_rel c' (mkStore a' W' m' 24) ∧ db_rel a' W' m' cat' db' lay' ∧
      spent 11 empty_alloc a' ∅ m' 0 db' lay'.
Proof.
  apply (tables_refine_maps _ 12 11 sample_client empty_alloc ∅ ∅ 24 ∅ ∅ ∅ 0);
    [apply lru_new_rel; [lia|apply new_db_rel]|apply empty_db_rel|apply sample_client_legal|
     apply empty_bounded|lia|vm_compute; reflexivity|rewrite map_size_empty; lia].
Defined.

(** A row written before a restart and read after it. *)
Definition first_client : client :=
  Call (Create "users" sample_schema) (λ _, Call (InsertRow "users" sample_tuple) (λ _, Finish)).
Definition second_client (rid : RID) : client := Call (ReadRow "users" rid) (λ _, Finish).
Definition one_row (rid : RID) : tables :=
  <["users" := mkTable sample_schema {[rid := Some sample_tuple]} ∅]> {["users" := fresh_table sample_schema]}.
Lemma first_client_legal : legal 2 first_client ∅.
Proof.
  apply legal_call; [done|]. step_of_call.
  apply legal_call; [intros tb Htb; simplify_map_eq; apply sample_fits|]. done.
Qed.
Lemma first_client_behaves rs db : behaves first_client ∅ rs db →
  ∃ rid, rs = [Created; Inserted (Some rid)] ∧ db = one_row rid.
Proof. intros Hb. unfold first_client in Hb. do 2 inv_call Hb. inversion Hb; subst. eauto. Qed.
Lemma second_client_legal rid : legal 1 (second_client rid) (one_row rid).
Proof. apply legal_call; [|done]. intros tb Htb. unfold one_row in Htb. simplify_map_eq. eauto. Qed.
Lemma second_client_behaves rid rs db : behaves (second_client rid) (one_row rid) rs db → rs = [Row (Some sample_tuple)].
Proof. intros Hb. unfold second_client, one_row in Hb. inv_call Hb. by inversion Hb. Qed.

Lemma tables_survive_restart_witness :
  ∃ c1 rid cat1 b dm c2 cat2,
    run_pool (run_client 3 first_client ∅) (new_machine 24 new_db (LRU.LRUReplacer_new 24)) =
      (c1, Ret ([Created; Inserted (Some rid)], cat1)) ∧
    FlushAllPages (ma_pool c1) = (b, Ret tt) ∧
    DiskManager_new (Some (db_file (disk_manager_ b))) full_access = (dm, Ret tt) ∧
    run_pool (run_client 4 (second_client rid) cat1) (new_machine 14 dm (Clock.ClockReplacer_new 14)) =
      (c2, Ret ([Row (Some sample_tuple)], cat2)).
Proof.
  destruct (client_on_pool (new_machine 24 new_db (LRU.LRUReplacer_new 24)) 3 2 first_client empty_alloc ∅ ∅ 24 ∅ ∅ ∅ 0) as
    (c1 & rs1 & cat1 & db1 & Hrun1 & Hbeh1 & a & W & m & lay & Hr & Hdb & Hnum & _ & Hch);
    [apply lru_new_rel; [lia|apply new_db_rel]|apply empty_db_rel|apply first_client_legal|
     apply empty_bounded|lia|vm_compute; reflexivity|rewrite map_size_empty; lia|].
  apply first_client_behaves in Hbeh1 as (rid & -> & ->).
  destruct (tables_survive_restart c1 a W m 24 cat1 (one_row rid) lay 14 (Clock.ClockReplacer_new 14) full_access 4 1
    (second_client rid) 2 Hr Hdb) as (b & dm & c2 & rs2 & cat2 & db2 & Hflush & Hopen & Hrun2 & Hbeh2).
  - by apply Clock.clock_wf_new.
  - exact (eq_refl : 14 = 14).
  - apply clock_new_set.
  - apply second_client_legal.
  - exact Hch.
  - lia.
  - change (al_num empty_alloc) with 1 in Hnum. unfold INVALID_PAGE_ID. lia.
  - lia.
  - reflexivity.
  - apply second_client_behaves in Hbeh2 as ->. exists c1, rid, cat1, b, dm, c2, cat2.
    exact (conj Hrun1 (conj Hflush (conj Hopen Hrun2))).
Defined.
