(* ===== verification/Socket.v ===== *)
(** Sockets ([socket.hpp], [socket.cpp], the POSIX branches) over the calls of the
    operating system, and the wire format of the storage protocol
    ([protocol.hpp]).  The calls are parameters; their documented behaviour is the
    classes [OSLaws] (descriptors) and [OSStream] (byte streams). *)
From Stdlib Require Import ZArith Lia.
From Stdlib Require Strings.Byte.
From stdpp Require Import base list gmap strings pretty.
From S2P Require Import Prelude Types DiskManager.
Open Scope Z_scope.

Definition INVALID_SOCKET : Z := -1.
Definition SOCKET_ERROR : Z := -1.

(** ** The operating system

    The calls of [<sys/socket.h>], [<netdb.h>] and [<unistd.h>], on a state [N] of
    the network.  [os_socket (Some ai)] takes family, type and protocol from a
    resolved address, [os_socket None] is [AF_INET], [SOCK_STREAM]. [os_send] gets
    the memory from the pointer on and the count, [os_recv] returns the count and
    the bytes it stored. *)
Class OS (N : Type) := {
  addrinfo : Type;
  os_getaddrinfo : string → string → N → N * (Z * addrinfo);
  os_freeaddrinfo : addrinfo → N → N;
  os_socket : option addrinfo → N → N * Z;
  os_connect : Z → addrinfo → N → N * Z;
  os_reuseaddr : Z → N → N;
  os_bind : Z → Z → N → N * Z;
  os_listen : Z → Z → N → N * Z;
  os_accept : Z → N → N * Z;
  os_send : Z → list byte → Z → N → N * Z;
  os_recv : Z → Z → N → N * (Z * list byte);
  os_close : Z → N → N;
}.

(** ** [Socket] and [ServerSocket]

    The object and the network it lives in. *)
Record sock (N : Type) := mkSock { fd_ : Z; net_ : N }.
Arguments mkSock {N}.
Arguments fd_ {N}.
Arguments net_ {N}.

Section socket.
Context {N : Type} `{OS N}.

(** A system call on the descriptor of the object. *)
Definition sys {A} (f : Z → N → N * A) : M (sock N) A := λ s,
  let '(w, x) := f (fd_ s) (net_ s) in (mkSock (fd_ s) w, Ret x).
Definition sys_unit (f : Z → N → N) : M (sock N) unit := sys (λ fd w, (f fd w, tt)).
Definition set_fd (fd : Z) : M (sock N) unit := modify (λ s, mkSock fd (net_ s)).

Definition IsValid : M (sock N) bool := gets (λ s, bool_decide (fd_ s ≠ INVALID_SOCKET)).

(** Also the destructor. *)
Definition Socket_Close : M (sock N) unit :=
  v ← IsValid;
  if v : bool then _ ← sys_unit os_close; set_fd INVALID_SOCKET else mret tt.

(** The moved-from descriptor comes second. *)
Definition Socket_move (other_fd : Z) : Z * Z := (other_fd, INVALID_SOCKET).
(** [same] is [this == &other]; the result is the descriptor left in [other]. *)
Definition Socket_move_assign (same : bool) (other_fd : Z) : M (sock N) Z :=
  if same then mret other_fd else
  _ ← Socket_Close;
  _ ← set_fd other_fd;
  mret INVALID_SOCKET.

Definition Socket_Connect (host : string) (port : Z) : M (sock N) bool :=
  _ ← Socket_Close;
  r ← sys (λ _, os_getaddrinfo host (pretty port));
  let '(rc, res) := r in
  if decide (rc ≠ 0) then mret false else
  fd ← sys (λ _, os_socket (Some res));
  _ ← set_fd fd;
  if decide (fd = INVALID_SOCKET) then _ ← sys_unit (λ _, os_freeaddrinfo res); mret false else
  rc ← sys (λ fd, os_connect fd res);
  if decide (rc = SOCKET_ERROR) then
    _ ← Socket_Close; _ ← sys_unit (λ _, os_freeaddrinfo res); mret false
  else
    _ ← sys_unit (λ _, os_freeaddrinfo res); mret true.

(** The loop of [Send]; [sent] and [len] are [size_t], the count of a call is cast
    to [int].  A unit of fuel is one call. *)
Fixpoint send_loop (fuel : nat) (buf : list byte) (len sent : Z) : M (sock N) bool :=
  match fuel with
  | O => undefined
  | S fuel =>
      if decide (sent < len) then
        bytes ← sys (λ fd, os_send fd (drop (Z.to_nat sent) buf) (to_signed 32 (len - sent)));
        if decide (bytes ≤ 0) then mret false else send_loop fuel buf len (sent + bytes)
      else mret true
  end.
Definition Send (buf : list byte) : M (sock N) bool :=
  v ← IsValid;
  if v : bool then send_loop (S (length buf)) buf (zlen buf) 0 else mret false.

(** [Recv] returns the buffer as well; the call stores into it at [received]. *)
Fixpoint recv_loop (fuel : nat) (buf : list byte) (len received : Z) : M (sock N) (bool * list byte) :=
  match fuel with
  | O => undefined
  | S fuel =>
      if decide (received < len) then
        r ← sys (λ fd, os_recv fd (to_signed 32 (len - received)));
        let '(bytes, data) := r in
        buf ← from_opt (mem_write received data buf);
        if decide (bytes ≤ 0) then mret (false, buf) else recv_loop fuel buf len (received + bytes)
      else mret (true, buf)
  end.
Definition Recv (buf : list byte) (len : Z) : M (sock N) (bool * list byte) :=
  v ← IsValid;
  if v : bool then recv_loop (S (Z.to_nat len)) buf len 0 else mret (false, buf).

(** *** [ServerSocket] *)
Definition Listen (port backlog : Z) : M (sock N) bool :=
  _ ← Socket_Close;
  fd ← sys (λ _, os_socket None);
  _ ← set_fd fd;
  if decide (fd = INVALID_SOCKET) then mret false else
  _ ← sys_unit os_reuseaddr;
  rc ← sys (λ fd, os_bind fd port);
  if decide (rc = SOCKET_ERROR) then _ ← Socket_Close; mret false else
  rc ← sys (λ fd, os_listen fd backlog);
  if decide (rc = SOCKET_ERROR) then _ ← Socket_Close; mret false else
  mret true.

(** The descriptor of the [Socket] returned. *)
Definition Accept : M (sock N) Z :=
  v ← IsValid;
  if v : bool then
    client_fd ← sys os_accept;
    mret (if decide (client_fd = INVALID_SOCKET) then INVALID_SOCKET else client_fd)
  else mret INVALID_SOCKET.
End socket.

(** ** What the calls promise *)

(** Descriptors and resolved addresses as resources. *)
Class OSLaws (N : Type) `{OS N} := {
  os_fds : N → gset Z;
  os_infos : N → Z;
  fds_valid w : INVALID_SOCKET ∉ os_fds w;
  fds_getaddrinfo h p w w' rc ai : os_getaddrinfo h p w = (w', (rc, ai)) →
    os_fds w' = os_fds w ∧ os_infos w' = if decide (rc = 0) then os_infos w + 1 else os_infos w;
  fds_freeaddrinfo ai w : os_fds (os_freeaddrinfo ai w) = os_fds w ∧
    os_infos (os_freeaddrinfo ai w) = os_infos w - 1;
  fds_socket o w w' fd : os_socket o w = (w', fd) → os_infos w' = os_infos w ∧
    if decide (fd = INVALID_SOCKET) then os_fds w' = os_fds w
    else fd ∉ os_fds w ∧ os_fds w' = {[fd]} ∪ os_fds w;
  fds_accept s w w' fd : os_accept s w = (w', fd) → os_infos w' = os_infos w ∧
    if decide (fd = INVALID_SOCKET) then os_fds w' = os_fds w
    else fd ∉ os_fds w ∧ os_fds w' = {[fd]} ∪ os_fds w;
  fds_close fd w : os_fds (os_close fd w) = os_fds w ∖ {[fd]} ∧ os_infos (os_close fd w) = os_infos w;
  fds_reuse fd w : os_fds (os_reuseaddr fd w) = os_fds w ∧ os_infos (os_reuseaddr fd w) = os_infos w;
  fds_connect fd ai w : os_fds (os_connect fd ai w).1 = os_fds w ∧ os_infos (os_connect fd ai w).1 = os_infos w;
  fds_bind fd p w : os_fds (os_bind fd p w).1 = os_fds w ∧ os_infos (os_bind fd p w).1 = os_infos w;
  fds_listen fd b w : os_fds (os_listen fd b w).1 = os_fds w ∧ os_infos (os_listen fd b w).1 = os_infos w;
}.

(** A connected descriptor carries two byte streams: [os_in] is what the peer has
    still to deliver, [os_out] what was handed over to it. *)
Class OSStream (N : Type) `{OS N} := {
  os_in : N → Z → list byte;
  os_out : N → Z → list byte;
  recv_stream fd n w w' c d : os_recv fd n w = (w', (c, d)) → 0 < n →
    c ≤ n ∧ zlen d = Z.max 0 c ∧ os_in w fd = d ++ os_in w' fd ∧ os_out w' fd = os_out w fd;
  send_stream fd d n w w' c : os_send fd d n w = (w', c) → 0 < n → n ≤ zlen d →
    c ≤ n ∧ os_out w' fd = os_out w fd ++ take (Z.to_nat c) d ∧ os_in w' fd = os_in w fd;
}.
(** The connection stays up: the peer takes what is sent, delivers its stream and
    then ends it. *)
Class OSUp (N : Type) `{OS N, !OSStream N} := {
  recv_up fd n w w' c d : os_recv fd n w = (w', (c, d)) → 0 < n → 0 < c ↔ os_in w fd ≠ [];
  send_up fd d n w w' c : os_send fd d n w = (w', c) → 0 < n → n ≤ zlen d → 0 < c;
  close_out fd fd' w : os_out (os_close fd w) fd' = os_out w fd';
}.

(** ** Descriptors *)
Section descriptors.
Context {N : Type} `{HO : OS N, !OSLaws N}.
Implicit Types (s : sock N) (w : N).

Definition fds s : gset Z := os_fds (net_ s).
Definition infos s : Z := os_infos (net_ s).

(** An object gave up its descriptor, and holds a new one if [b]. *)
Record acquired (s s' : sock N) (b : bool) : Prop := {
  aq_infos : infos s' = infos s;
  aq_fds : if b then fd_ s' ≠ INVALID_SOCKET ∧ fd_ s' ∉ fds s ∖ {[fd_ s]} ∧
                fds s' = {[fd_ s']} ∪ (fds s ∖ {[fd_ s]})
           else fd_ s' = INVALID_SOCKET ∧ fds s' = fds s ∖ {[fd_ s]};
}.

Lemma close_eq s : ∃ w, Socket_Close s = (mkSock INVALID_SOCKET w, Ret tt) ∧
  os_fds w = fds s ∖ {[fd_ s]} ∧ os_infos w = infos s.
Proof.
  destruct s as [fd w]. unfold Socket_Close, IsValid, sys_unit, sys, set_fd, fds, infos. msimpl. cbn [fd_ net_].
  case_bool_decide as Hfd.
  - exists (os_close fd w). destruct (fds_close fd w). done.
  - subst fd. exists w. split; [done|]. split; [|done].
    pose proof (fds_valid w). set_solver.
Qed.

(** A descriptor taken and then given up again. *)
Lemma taken_closed (F : gset Z) fd : fd ∉ F → ({[fd]} ∪ F) ∖ {[fd]} = F.
Proof. intros Hfd. set_solver. Qed.

Lemma connect_acquired host port s : ∃ s' b, Socket_Connect host port s = (s', Ret b) ∧ acquired s s' b.
Proof.
  destruct (close_eq s) as (w & Hc & Hfds & Hinf). unfold Socket_Connect. rewrite (bind_Ret _ _ _ _ _ Hc).
  unfold sys, sys_unit, set_fd. msimpl. cbn [fd_ net_].
  destruct (os_getaddrinfo host (pretty port) w) as [w1 [rc ai]] eqn:Hg.
  destruct (fds_getaddrinfo _ _ _ _ _ _ Hg) as [Hf1 Hi1]. destruct (decide (rc ≠ 0)) as [Hrc|Hrc%dec_stable].
  { eexists _, false. split; [done|]. rewrite decide_False in Hi1 by done. repeat split; unfold infos, fds in *; cbn; congruence. }
  rewrite decide_True in Hi1 by done. cbn [fd_ net_].
  destruct (os_socket (Some ai) w1) as [w2 fd] eqn:Hs. destruct (fds_socket _ _ _ _ Hs) as [Hi2 Hf2]. cbn [fd_ net_].
  destruct (decide (fd = INVALID_SOCKET)) as [->|Hfd].
  { destruct (fds_freeaddrinfo ai w2) as [Hf3 Hi3]. eexists _, false. split; [done|].
    repeat split; unfold infos, fds in *; cbn; [lia|congruence]. }
  cbv beta iota. cbn [fd_ net_]. destruct Hf2 as [Hnew Hf2]. pose proof (fds_connect fd ai w2) as [Hf3 Hi3].
  destruct (os_connect fd ai w2) as [w3 rc3]. cbn [fst] in *.
  destruct (decide (rc3 = SOCKET_ERROR)).
  - destruct (close_eq (mkSock fd w3)) as (w4 & Hc4 & Hf4 & Hi4). cbv beta iota. rewrite Hc4. cbn [fd_ net_].
    destruct (fds_freeaddrinfo ai w4) as [Hf5 Hi5]. eexists _, false. split; [done|].
    repeat split; unfold infos, fds in *; cbn in *; [lia|]. rewrite Hf5, Hf4, Hf3, Hf2, taken_closed by done. congruence.
  - destruct (fds_freeaddrinfo ai w3) as [Hf5 Hi5]. eexists _, true. split; [done|].
    repeat split; unfold infos, fds in *; cbn in *; [lia|done|congruence|congruence].
Qed.

Lemma listen_acquired port backlog s : ∃ s' b, Listen port backlog s = (s', Ret b) ∧ acquired s s' b.
Proof.
  destruct (close_eq s) as (w & Hc & Hfds & Hinf). unfold Listen. rewrite (bind_Ret _ _ _ _ _ Hc).
  unfold sys, sys_unit, set_fd. msimpl. cbn [fd_ net_].
  destruct (os_socket None w) as [w2 fd] eqn:Hs. destruct (fds_socket _ _ _ _ Hs) as [Hi2 Hf2]. cbn [fd_ net_].
  destruct (decide (fd = INVALID_SOCKET)) as [->|Hfd].
  { eexists _, false. split; [done|]. repeat split; unfold infos, fds in *; cbn; [lia|congruence]. }
  unfold sys. cbv beta iota. cbn [fd_ net_]. destruct Hf2 as [Hnew Hf2]. destruct (fds_reuse fd w2) as [Hf3 Hi3].
  assert (Hclose : ∀ w', os_fds w' = os_fds (os_reuseaddr fd w2) → os_infos w' = os_infos (os_reuseaddr fd w2) →
    ∃ s', Socket_Close (mkSock fd w') = (s', Ret tt) ∧ acquired s s' false).
  { intros w' Hf' Hi'. destruct (close_eq (mkSock fd w')) as (w4 & Hc4 & Hf4 & Hi4). eexists. split; [exact Hc4|].
    repeat split; unfold infos, fds in *; cbn in *; [lia|]. rewrite Hf4, Hf', Hf3, Hf2, taken_closed by done. congruence. }
  pose proof (fds_bind fd port (os_reuseaddr fd w2)) as [Hf4 Hi4].
  destruct (os_bind fd port (os_reuseaddr fd w2)) as [w4 rc4]. cbv beta iota. cbn [fst fd_ net_] in *.
  destruct (decide (rc4 = SOCKET_ERROR)).
  { destruct (Hclose w4 Hf4 Hi4) as (s' & Hc' & Hs'). cbv beta iota. rewrite Hc'. by eexists s', false. }
  unfold sys. cbv beta iota. cbn [fd_ net_]. pose proof (fds_listen fd backlog w4) as [Hf5 Hi5]. destruct (os_listen fd backlog w4) as [w5 rc5].
  cbv beta iota. cbn [fst fd_ net_] in *. destruct (decide (rc5 = SOCKET_ERROR)).
  { destruct (Hclose w5) as (s' & Hc' & Hs'); [congruence|congruence|]. cbv beta iota. rewrite Hc'. by eexists s', false. }
  eexists _, true. split; [done|]. repeat split; unfold infos, fds in *; cbn in *; [congruence|done|congruence|congruence].
Qed.

(** Move assignment closes the descriptor it overwrites and takes the other one over;
    onto itself it does nothing. *)
Lemma move_assign_owned same fd s : ∃ s' rest, Socket_move_assign same fd s = (s', Ret rest) ∧
  infos s' = infos s ∧
  if same : bool then s' = s ∧ rest = fd
  else fd_ s' = fd ∧ rest = INVALID_SOCKET ∧ fds s' = fds s ∖ {[fd_ s]}.
Proof.
  unfold Socket_move_assign. destruct same; [by exists s, fd|].
  destruct (close_eq s) as (w & Hc & Hf & Hi). rewrite (bind_Ret _ _ _ _ _ Hc). unfold set_fd. msimpl.
  exists (mkSock fd w), INVALID_SOCKET. by repeat split.
Qed.

Lemma accept_owned s : ∃ w fd, Accept s = (mkSock (fd_ s) w, Ret fd) ∧ os_infos w = infos s ∧
  if decide (fd = INVALID_SOCKET) then os_fds w = fds s else fd ∉ fds s ∧ os_fds w = {[fd]} ∪ fds s.
Proof.
  destruct s as [sfd w]. unfold Accept, IsValid, sys, fds, infos. msimpl. cbn [fd_ net_].
  case_bool_decide; [|exists w, INVALID_SOCKET; by rewrite decide_True].
  destruct (os_accept sfd w) as [w' fd] eqn:Ha. destruct (fds_accept _ _ _ _ Ha) as [Hi Hf].
  exists w', fd. split; [|done]. cbv beta iota. cbn [fd_ net_]. rewrite Ha.
  by destruct (decide (fd = INVALID_SOCKET)) as [->|].
Qed.
End descriptors.

(** ** [Send] and [Recv] *)
Section transfer.
Context {N : Type} `{HO : OS N, !OSStream N}.
Implicit Types (s : sock N) (w : N).

Lemma count_cast len k : 0 ≤ k ≤ len → len < 2 ^ 31 → to_signed 32 (len - k) = len - k.
Proof.
  intros Hk Hl. unfold to_signed. rewrite Z.mod_small by lia. by rewrite decide_False by lia.
Qed.

(** What was sent is a prefix, the whole exactly when [Send] says so. *)
Lemma send_loop_run buf fuel : ∀ fd w k, 0 ≤ k ≤ zlen buf → zlen buf < 2 ^ 31 → zlen buf - k < Z.of_nat fuel →
  ∃ w' b j, send_loop fuel buf (zlen buf) k (mkSock fd w) = (mkSock fd w', Ret b) ∧ k ≤ j ≤ zlen buf ∧
    os_out w' fd = os_out w fd ++ slice k (j - k) buf ∧ os_in w' fd = os_in w fd ∧ (b = true ↔ j = zlen buf).
Proof.
  induction fuel as [|fuel IH]; intros fd w k Hk Hlen Hf; [lia|]. cbn [send_loop]. case_decide as Hlt.
  2: { exists w, true, k. split; [done|]. assert (k = zlen buf) as -> by lia. rewrite Z.sub_diag.
       change (slice (zlen buf) 0 buf) with (@nil byte). rewrite app_nil_r. split_and!; [lia|lia|done|done|tauto]. }
  unfold sys. msimpl. cbn [fd_ net_]. rewrite count_cast by lia.
  destruct (os_send fd (drop (Z.to_nat k) buf) (zlen buf - k) w) as [w1 c] eqn:Hs.
  destruct (send_stream _ _ _ _ _ _ Hs) as (Hc & Hout & Hin); [lia|rewrite length_drop; lia|].
  assert (Hsl : take (Z.to_nat c) (drop (Z.to_nat k) buf) = slice k c buf) by done. rewrite Hsl in Hout.
  case_decide as Hpos.
  - exists w1, false, k. split; [done|]. rewrite Hout, Z.sub_diag. unfold slice.
    replace (Z.to_nat c) with 0%nat by lia. split_and!; [lia|lia|done|done|]. split; [done|lia].
  - destruct (IH fd w1 (k + c)) as (w2 & b & j & Hrun & Hj & Hout2 & Hin2 & Hb); [lia..|].
    exists w2, b, j. split; [exact Hrun|]. split_and!; [lia|lia| |congruence|done].
    rewrite Hout2, Hout, <- app_assoc. f_equal. replace (j - k) with (c + (j - (k + c))) by lia.
    symmetry. apply slice_cut; lia.
Qed.

(** What was received is the next piece of the stream, stored in order. *)
Lemma recv_loop_run len fuel : ∀ fd w buf k, 0 ≤ k ≤ len → zlen buf = len → len < 2 ^ 31 →
  len - k < Z.of_nat fuel →
  ∃ w' b data, recv_loop fuel buf len k (mkSock fd w) = (mkSock fd w', Ret (b, splice k data buf)) ∧
    k + zlen data ≤ len ∧ os_in w fd = data ++ os_in w' fd ∧ os_out w' fd = os_out w fd ∧
    (b = true ↔ k + zlen data = len).
Proof.
  induction fuel as [|fuel IH]; intros fd w buf k Hk Hbuf Hlen Hf; [lia|]. cbn [recv_loop]. case_decide as Hlt.
  2: { exists w, true, []. rewrite splice_nil. split; [done|]. cbn. split_and!; [lia|done|done|]. split; [lia|done]. }
  unfold sys. msimpl. cbn [fd_ net_]. rewrite count_cast by lia.
  destruct (os_recv fd (len - k) w) as [w1 [c d]] eqn:Hr.
  destruct (recv_stream _ _ _ _ _ _ Hr) as (Hc & Hd & Hin & Hout); [lia|].
  rewrite mem_write_Some by lia. cbv beta iota. case_decide as Hpos.
  - assert (d = []) as -> by (apply length_zero_iff_nil; lia).
    exists w1, false, []. split; [done|]. cbn. split_and!; [lia|done|done|]. split; [done|lia].
  - destruct (IH fd w1 (splice k d buf) (k + c)) as (w2 & b & data & Hrun & Hj & Hin2 & Hout2 & Hb);
      [lia|rewrite zlen_splice; lia|lia|lia|].
    exists w2, b, (d ++ data). rewrite length_app, <- splice_splice_next by lia.
    replace (k + zlen d) with (k + c) by lia. split; [exact Hrun|].
    split_and!; [lia|by rewrite Hin, Hin2, app_assoc|congruence|]. rewrite Hb. lia.
Qed.

Lemma send_run buf s : zlen buf < 2 ^ 31 →
  ∃ s' b k, Send buf s = (s', Ret b) ∧ fd_ s' = fd_ s ∧ 0 ≤ k ≤ zlen buf ∧
    os_out (net_ s') (fd_ s) = os_out (net_ s) (fd_ s) ++ take (Z.to_nat k) buf ∧
    os_in (net_ s') (fd_ s) = os_in (net_ s) (fd_ s) ∧ (b = true → k = zlen buf) ∧
    (fd_ s ≠ INVALID_SOCKET → k = zlen buf → b = true).
Proof.
  destruct s as [fd w]. intros Hlen. unfold Send, IsValid. msimpl. cbn [fd_ net_]. case_bool_decide as Hfd.
  - destruct (send_loop_run buf (S (length buf)) fd w 0) as (w' & b & j & Hrun & Hj & Hout & Hin & Hb); [lia..|].
    exists (mkSock fd w'), b, j. cbn [fd_ net_]. rewrite Z.sub_0_r in Hout. unfold slice in Hout. rewrite drop_0 in Hout.
    split_and!; [exact Hrun|done|lia|lia|done|done|tauto|tauto].
  - exists (mkSock fd w), false, 0. cbn. rewrite app_nil_r. split_and!; done || lia.
Qed.
Lemma recv_run buf len s : zlen buf = len → len < 2 ^ 31 →
  ∃ s' b data, Recv buf len s = (s', Ret (b, splice 0 data buf)) ∧ fd_ s' = fd_ s ∧ zlen data ≤ len ∧
    os_in (net_ s) (fd_ s) = data ++ os_in (net_ s') (fd_ s) ∧
    os_out (net_ s') (fd_ s) = os_out (net_ s) (fd_ s) ∧ (b = true → zlen data = len) ∧
    (fd_ s ≠ INVALID_SOCKET → zlen data = len → b = true).
Proof.
  destruct s as [fd w]. intros Hbuf Hlen. unfold Recv, IsValid. msimpl. cbn [fd_ net_]. case_bool_decide as Hfd.
  - destruct (recv_loop_run len (S (Z.to_nat len)) fd w buf 0) as (w' & b & data & Hrun & Hj & Hin & Hout & Hb); [lia..|].
    exists (mkSock fd w'), b, data. cbn [fd_ net_]. rewrite Z.add_0_l in *.
    split_and!; [exact Hrun|done|lia|done|done|tauto|tauto].
  - exists (mkSock fd w), false, []. rewrite splice_nil. cbn. split_and!; done || lia.
Qed.

(** On a connection that stays up. *)
Context `{!OSUp N}.

Lemma send_loop_up buf fuel : ∀ fd w k s' b, 0 ≤ k ≤ zlen buf → zlen buf < 2 ^ 31 →
  send_loop fuel buf (zlen buf) k (mkSock fd w) = (s', Ret b) → b = true.
Proof.
  induction fuel as [|fuel IH]; intros fd w k s' b Hk Hlen; [done|]. cbn [send_loop]. case_decide as Hlt; [|by intros [= <- <-]].
  unfold sys. msimpl. cbn [fd_ net_]. rewrite count_cast by lia.
  destruct (os_send fd (drop (Z.to_nat k) buf) (zlen buf - k) w) as [w1 c] eqn:Hs. cbv beta iota.
  assert (Hn : zlen buf - k ≤ zlen (drop (Z.to_nat k) buf)) by (rewrite length_drop; lia).
  pose proof (send_up _ _ _ _ _ _ Hs ltac:(lia) Hn). destruct (send_stream _ _ _ _ _ _ Hs) as (Hc & _); [lia|done|].
  rewrite decide_False by lia. apply IH; lia.
Qed.
Lemma recv_loop_up len fuel : ∀ fd w buf k s' b buf', 0 ≤ k ≤ len → zlen buf = len → len < 2 ^ 31 →
  len - k ≤ zlen (os_in w fd) → recv_loop fuel buf len k (mkSock fd w) = (s', Ret (b, buf')) → b = true.
Proof.
  induction fuel as [|fuel IH]; intros fd w buf k s' b buf' Hk Hbuf Hlen Hav; [done|]. cbn [recv_loop].
  case_decide as Hlt; [|by intros [= <- <- <-]]. unfold sys. msimpl. cbn [fd_ net_]. rewrite count_cast by lia.
  destruct (os_recv fd (len - k) w) as [w1 [c d]] eqn:Hr.
  destruct (recv_stream _ _ _ _ _ _ Hr) as (Hc & Hd & Hin & Hout); [lia|].
  assert (0 < c) as Hpos.
  { apply (recv_up _ _ _ _ _ _ Hr); [lia|]. intros Hnil. rewrite Hnil in Hav. cbn in Hav. lia. }
  rewrite mem_write_Some by lia. cbv beta iota. rewrite decide_False by lia. apply IH; [lia|rewrite zlen_splice; lia|lia|].
  rewrite Hin, length_app in Hav. lia.
Qed.

Lemma send_ok buf s : fd_ s ≠ INVALID_SOCKET → zlen buf < 2 ^ 31 →
  ∃ s', Send buf s = (s', Ret true) ∧ fd_ s' = fd_ s ∧ os_out (net_ s') (fd_ s) = os_out (net_ s) (fd_ s) ++ buf ∧
    os_in (net_ s') (fd_ s) = os_in (net_ s) (fd_ s).
Proof.
  intros Hfd Hlen. destruct (send_run buf s Hlen) as (s' & b & k & Hrun & Hfd' & Hk & Hout & Hin & Hb & _).
  assert (b = true) as ->.
  { destruct s as [fd w]. unfold Send, IsValid in Hrun. revert Hrun. msimpl. cbn [fd_ net_].
    rewrite bool_decide_true by done. apply send_loop_up; lia. }
  exists s'. split_and!; [done|done| |done]. rewrite Hout, (Hb eq_refl). rewrite take_ge by lia. done.
Qed.
Lemma recv_ok buf data rest s : fd_ s ≠ INVALID_SOCKET → zlen buf = zlen data → zlen data < 2 ^ 31 →
  os_in (net_ s) (fd_ s) = data ++ rest →
  ∃ s', Recv buf (zlen data) s = (s', Ret (true, data)) ∧ fd_ s' = fd_ s ∧
    os_in (net_ s') (fd_ s) = rest ∧ os_out (net_ s') (fd_ s) = os_out (net_ s) (fd_ s).
Proof.
  intros Hfd Hbuf Hlen Hst. destruct (recv_run buf (zlen data) s Hbuf Hlen) as (s' & b & d & Hrun & Hfd' & Hd & Hin & Hout & Hb & _).
  assert (b = true) as ->.
  { destruct s as [fd w]. unfold Recv, IsValid in Hrun. revert Hrun. msimpl. cbn [fd_ net_] in *.
    rewrite bool_decide_true by done. apply recv_loop_up; [lia|done|lia|rewrite Hst, length_app; lia]. }
  specialize (Hb eq_refl). rewrite Hst in Hin. apply app_inj_1 in Hin as [<- Hrest]; [|lia].
  exists s'. split_and!; [|done|done|done]. by rewrite Hrun, splice_full.
Qed.
Lemma recv_closed buf len s : fd_ s ≠ INVALID_SOCKET → 0 < len → zlen buf = len → len < 2 ^ 31 →
  os_in (net_ s) (fd_ s) = [] →
  ∃ s' buf', Recv buf len s = (s', Ret (false, buf')) ∧ fd_ s' = fd_ s ∧ os_out (net_ s') (fd_ s) = os_out (net_ s) (fd_ s).
Proof.
  intros Hfd Hl Hbuf Hlen Hst. destruct (recv_run buf len s Hbuf Hlen) as (s' & b & d & Hrun & Hfd' & Hd & Hin & Hout & Hb & _).
  rewrite Hst in Hin. symmetry in Hin. apply app_eq_nil in Hin as [-> _].
  destruct b; [specialize (Hb eq_refl); cbn in Hb; lia|]. eauto.
Qed.
End transfer.

(** ** The wire format ([protocol.hpp])

    The packed structs are little-endian fields without padding. *)
Module protocol.
Definition READ_PAGE : Z := 0.
Definition WRITE_PAGE : Z := 1.
Definition ALLOCATE_PAGE : Z := 2.
Definition DEALLOCATE_PAGE : Z := 3.
Definition SUCCESS : Z := 0.
Definition ERROR : Z := 1.

Record RequestHeader := mkRequest { op_type : Z; req_page_id : page_id_t; req_data_len : Z }.
Record ResponseHeader := mkResponse { status : Z; resp_page_id : page_id_t; resp_data_len : Z }.

Definition header_size : Z := 9.
(** A packed header: a byte and two 32-bit words. *)
Definition pack (b v w : Z) : list byte := le_encode 1 b ++ le_encode 4 v ++ le_encode 4 w.
Definition unpack (d : list byte) : Z * Z * Z :=
  (le_decode (slice 0 1 d), rd32 1 d, rd32 5 d).

Definition encode_request (h : RequestHeader) : list byte := pack (op_type h) (req_page_id h) (req_data_len h).
Definition decode_request (d : list byte) : RequestHeader :=
  let '(b, v, w) := unpack d in mkRequest b v w.
Definition encode_response (h : ResponseHeader) : list byte := pack (status h) (resp_page_id h) (resp_data_len h).
Definition decode_response (d : list byte) : ResponseHeader :=
  let '(b, v, w) := unpack d in mkResponse b v w.

Definition u8_ok (z : Z) : Prop := 0 ≤ z < 256.

Lemma zlen_pack b v w : zlen (pack b v w) = header_size.
Proof. unfold pack. rewrite !length_app, !length_le_encode. done. Qed.
Lemma unpack_pack b v w : u8_ok b → u32_ok v → u32_ok w → unpack (pack b v w) = (b, v, w).
Proof.
  intros Hb Hv Hw. unfold unpack, pack, rd32. unfold u8_ok, u32_ok in *.
  rewrite slice_app_l by (rewrite length_le_encode; done).
  rewrite !(slice_app_r _ _ (le_encode 1 b)) by (rewrite length_le_encode; lia). rewrite !length_le_encode.
  rewrite (slice_app_l 4) by (rewrite length_le_encode; done).
  rewrite slice_app_r by (rewrite length_le_encode; lia). rewrite length_le_encode.
  rewrite slice_full by (rewrite length_le_encode; done).
  by rewrite !le_decode_encode_small by (cbn; lia).
Qed.
Lemma pack_unpack d : zlen d = header_size → let '(b, v, w) := unpack d in pack b v w = d.
Proof.
  unfold header_size. intros Hd. unfold unpack, pack, rd32.
  rewrite !le_encode_decode by (apply Nat2Z.inj; rewrite zlen_slice by lia; done).
  change (slice 5 4 d) with (slice (1 + 4) 4 d). rewrite <- (slice_cut 4 4 d 1) by lia.
  change (slice 1 (4 + 4) d) with (slice (0 + 1) 8 d). rewrite <- (slice_cut 1 8 d 0) by lia. by apply slice_full.
Qed.
Lemma decode_encode_request h : u8_ok (op_type h) → u32_ok (req_page_id h) → u32_ok (req_data_len h) →
  decode_request (encode_request h) = h.
Proof. intros ? ? ?. unfold decode_request, encode_request. rewrite unpack_pack by done. by destruct h. Qed.
End protocol.

(** ** A concrete network

    One peer; its bytes come and go in pieces of at most [tn_chunk + 1]. *)
Record test_net := mkNet {
  tn_in : list byte;
  tn_out : list byte;
  tn_chunk : nat;
  tn_fds : gset Z;
  tn_infos : Z;
}.
Definition piece (w : test_net) (n : Z) (d : list byte) : Z := Z.min (Z.min n (Z.of_nat (S (tn_chunk w)))) (zlen d).
Definition net_open (w : test_net) : test_net * Z :=
  let fd := fresh ({[INVALID_SOCKET]} ∪ tn_fds w) in
  (mkNet (tn_in w) (tn_out w) (tn_chunk w) ({[fd]} ∪ tn_fds w) (tn_infos w), fd).
Definition net_infos (k : Z) (w : test_net) : test_net :=
  mkNet (tn_in w) (tn_out w) (tn_chunk w) (tn_fds w) (tn_infos w + k).

#[export] Instance test_os : OS test_net := {
  addrinfo := unit;
  os_getaddrinfo _ _ w := (net_infos 1 w, (0, tt));
  os_freeaddrinfo _ w := net_infos (-1) w;
  os_socket _ w := net_open w;
  os_connect _ _ w := (w, 0);
  os_reuseaddr _ w := w;
  os_bind _ port w := (w, if decide (port < 1024) then -1 else 0);
  os_listen _ _ w := (w, 0);
  os_accept _ w := net_open w;
  os_send _ d n w :=
    let c := piece w n d in
    (mkNet (tn_in w) (tn_out w ++ take (Z.to_nat c) d) (tn_chunk w) (tn_fds w) (tn_infos w), c);
  os_recv _ n w :=
    let c := piece w n (tn_in w) in
    (mkNet (drop (Z.to_nat c) (tn_in w)) (tn_out w) (tn_chunk w) (tn_fds w) (tn_infos w),
     (c, take (Z.to_nat c) (tn_in w)));
  os_close fd w := mkNet (tn_in w) (tn_out w) (tn_chunk w) (tn_fds w ∖ {[fd]}) (tn_infos w);
}.

Lemma net_open_fds w w' fd : net_open w = (w', fd) → tn_infos w' = tn_infos w ∧
  fd ∉ tn_fds w ∖ {[INVALID_SOCKET]} ∧ fd ≠ INVALID_SOCKET ∧
  tn_fds w' ∖ {[INVALID_SOCKET]} = {[fd]} ∪ (tn_fds w ∖ {[INVALID_SOCKET]}).
Proof.
  unfold net_open. intros [= <- <-]. cbn [tn_infos tn_fds]. pose proof (is_fresh ({[INVALID_SOCKET]} ∪ tn_fds w)) as Hf.
  revert Hf. generalize (fresh ({[INVALID_SOCKET]} ∪ tn_fds w)). intros fd Hf. split; [done|]. split_and!; set_solver.
Qed.
#[export] Instance test_os_laws : OSLaws test_net.
Proof.
  refine {| os_fds w := tn_fds w ∖ {[INVALID_SOCKET]}; os_infos := tn_infos |}; try done.
  - intros w. set_solver.
  - intros h p w w' rc ai [= <- <- <-]. by rewrite decide_True.
  - intros o w w' fd Ho. destruct (net_open_fds _ _ _ Ho) as (? & ? & ? & ?). by rewrite decide_False.
  - intros o w w' fd Ho. destruct (net_open_fds _ _ _ Ho) as (? & ? & ? & ?). by rewrite decide_False.
  - intros fd w. cbn. split; [set_solver|done].
Defined.
Lemma piece_bounds w n d : 0 < n → piece w n d ≤ n ∧ 0 ≤ piece w n d ≤ zlen d ∧ (0 < piece w n d ↔ d ≠ []).
Proof.
  intros Hn. unfold piece. split; [lia|]. split; [lia|]. destruct d; cbn [length]; split; intros; (lia || done).
Qed.
#[export] Instance test_os_stream : OSStream test_net.
Proof.
  refine {| os_in w _ := tn_in w; os_out w _ := tn_out w |}.
  - intros fd n w w' c d [= <- <- <-] Hn. pose proof (piece_bounds w n (tn_in w) Hn) as (? & ? & _).
    cbn. rewrite take_drop, length_take. split_and!; (lia || done).
  - intros fd d n w w' c [= <- <-] Hn Hd. pose proof (piece_bounds w n d Hn) as (? & ? & _). by cbn.
Defined.
#[export] Instance test_os_up : OSUp test_net.
Proof.
  split; [| |done].
  - intros fd n w w' c d [= <- <- <-] Hn. by destruct (piece_bounds w n (tn_in w) Hn) as (_ & _ & ?).
  - intros fd d n w w' c [= <- <-] Hn Hd. pose proof (piece_bounds w n d Hn) as (_ & _ & Hp). apply Hp.
    intros ->. cbn in Hd. lia.
Qed.

(** ** Properties *)

(** C36 (safety). Sockets do not leak descriptors: [Connect] and [Listen], on every
    path, give up the descriptor the object had and end either with success and
    exactly one new open descriptor or with failure and none; every resolved
    address is freed; [Accept] opens at most the descriptor it returns; move
    assignment closes the descriptor it overwrites and leaves none behind; [Close]
    closes the descriptor once and leaves the object invalid, a second [Close]
    (or the destructor) then does nothing. *)
Theorem socket_no_leak {N} `{OSLaws N} (s : sock N) host port backlog :
  (∃ s' b, Socket_Connect host port s = (s', Ret b) ∧ acquired s s' b) ∧
  (∃ s' b, Listen port backlog s = (s', Ret b) ∧ acquired s s' b) ∧
  (∃ w fd, Accept s = (mkSock (fd_ s) w, Ret fd) ∧ os_infos w = infos s ∧
     if decide (fd = INVALID_SOCKET) then os_fds w = fds s else fd ∉ fds s ∧ os_fds w = {[fd]} ∪ fds s) ∧
  (∀ fd, ∃ s', Socket_move_assign false fd s = (s', Ret INVALID_SOCKET) ∧ infos s' = infos s ∧
     fd_ s' = fd ∧ fds s' = fds s ∖ {[fd_ s]}) ∧
  (∃ s', Socket_Close s = (s', Ret tt) ∧ acquired s s' false ∧ Socket_Close s' = (s', Ret tt)).
Proof.
  split; [apply connect_acquired|]. split; [apply listen_acquired|]. split; [apply accept_owned|].
  split; [intros fd; destruct (move_assign_owned false fd s) as (s' & rest & Hm & Hi & Hfd & -> & Hf); by exists s'|].
  destruct (close_eq s) as (w & Hc & Hf & Hi). exists (mkSock INVALID_SOCKET w). by repeat split.
Qed.

(** C22 (functional). [Send] and [Recv] hide the pieces in which the operating
    system takes and delivers bytes: each loop terminates, whatever the counts the
    calls return; [Send] has handed over a prefix of the buffer, the whole of it
    exactly when it reports success; [Recv] has consumed and stored in order a
    piece of the stream, of exactly the length asked for when it reports success. *)
Theorem send_recv_exact {N} `{OSStream N} (s : sock N) buf rbuf len :
  zlen buf < 2 ^ 31 → zlen rbuf = len → len < 2 ^ 31 →
  (∃ s' b k, Send buf s = (s', Ret b) ∧ fd_ s' = fd_ s ∧ 0 ≤ k ≤ zlen buf ∧
     os_out (net_ s') (fd_ s) = os_out (net_ s) (fd_ s) ++ take (Z.to_nat k) buf ∧
     os_in (net_ s') (fd_ s) = os_in (net_ s) (fd_ s) ∧ (b = true → k = zlen buf) ∧
     (fd_ s ≠ INVALID_SOCKET → k = zlen buf → b = true)) ∧
  (∃ s' b data, Recv rbuf len s = (s', Ret (b, splice 0 data rbuf)) ∧ fd_ s' = fd_ s ∧ zlen data ≤ len ∧
     os_in (net_ s) (fd_ s) = data ++ os_in (net_ s') (fd_ s) ∧
     os_out (net_ s') (fd_ s) = os_out (net_ s) (fd_ s) ∧ (b = true → zlen data = len) ∧
     (fd_ s ≠ INVALID_SOCKET → zlen data = len → b = true)).
Proof. intros Hb Hr Hl. split; [by apply send_run|by apply recv_run]. Qed.

(** C37 (roundtrip). The packed headers of the protocol are nine bytes; a request
    and a response with fields of the declared widths are read back as they were
    written, and every nine bytes are the encoding of the header read from them. The
    first byte is the operation or the status, the next four the page id and
    the last four the length, each with its least significant byte first. *)
Theorem protocol_roundtrip (h : protocol.RequestHeader) (r : protocol.ResponseHeader) d :
  protocol.u8_ok (protocol.op_type h) → u32_ok (protocol.req_page_id h) → u32_ok (protocol.req_data_len h) →
  protocol.u8_ok (protocol.status r) → u32_ok (protocol.resp_page_id r) → u32_ok (protocol.resp_data_len r) →
  zlen d = protocol.header_size →
  protocol.decode_request (protocol.encode_request h) = h ∧
  protocol.decode_response (protocol.encode_response r) = r ∧
  zlen (protocol.encode_request h) = protocol.header_size ∧ zlen (protocol.encode_response r) = protocol.header_size ∧
  protocol.encode_request (protocol.decode_request d) = d ∧
  protocol.encode_response (protocol.decode_response d) = d ∧
  (slice 0 1 (protocol.encode_request h) = le_encode 1 (protocol.op_type h) ∧
   slice 1 4 (protocol.encode_request h) = le_encode 4 (protocol.req_page_id h) ∧
   slice 5 4 (protocol.encode_request h) = le_encode 4 (protocol.req_data_len h)) ∧
  (slice 0 1 (protocol.encode_response r) = le_encode 1 (protocol.status r) ∧
   slice 1 4 (protocol.encode_response r) = le_encode 4 (protocol.resp_page_id r) ∧
   slice 5 4 (protocol.encode_response r) = le_encode 4 (protocol.resp_data_len r)).
Proof.
  intros ? ? ? ? ? ? Hd. pose proof (protocol.pack_unpack d Hd) as Hpu.
  unfold protocol.decode_request, protocol.encode_request, protocol.decode_response, protocol.encode_response.
  rewrite !protocol.unpack_pack by done. rewrite !protocol.zlen_pack. destruct (protocol.unpack d) as [[b v] w].
  destruct h, r. by split_and!.
Qed.

(** *** Witnesses *)
Definition sample_net : test_net := mkNet [Byte.x01; Byte.x02; Byte.x03] [] 1 {[4; 5]} 0.
Lemma send_recv_exact_witness :
  (∃ s', Recv [Byte.x00; Byte.x00; Byte.x00] 3 (mkSock 4 sample_net) = (s', Ret (true, [Byte.x01; Byte.x02; Byte.x03]))) ∧
  ∃ s' b data, Recv [Byte.x00; Byte.x00; Byte.x00] 3 (mkSock 4 sample_net) =
      (s', Ret (b, splice 0 data [Byte.x00; Byte.x00; Byte.x00])) ∧ fd_ s' = 4 ∧ zlen data ≤ 3 ∧
    os_in sample_net 4 = data ++ os_in (net_ s') 4 ∧ os_out (net_ s') 4 = os_out sample_net 4 ∧
    (b = true → zlen data = 3) ∧ (4 ≠ INVALID_SOCKET → zlen data = 3 → b = true).
Proof.
  split; [eexists; vm_compute; reflexivity|].
  apply (send_recv_exact (mkSock 4 sample_net) [Byte.x09] [Byte.x00; Byte.x00; Byte.x00] 3); done.
Defined.
Lemma protocol_roundtrip_witness :
  protocol.decode_request (protocol.encode_request (protocol.mkRequest protocol.WRITE_PAGE 7 PAGE_SIZE)) =
    protocol.mkRequest protocol.WRITE_PAGE 7 PAGE_SIZE.
Proof.
  apply (protocol_roundtrip (protocol.mkRequest protocol.WRITE_PAGE 7 PAGE_SIZE)
    (protocol.mkResponse protocol.SUCCESS 7 0) (protocol.pack 0 0 0)); vm_compute; done.
Defined.
