(* ===== verification/Service.v ===== *)
(** The storage daemon ([storage_service.hpp], [storage_service.cpp]): requests of
    clients, served from the buffer pool over a socket. *)
From Stdlib Require Import ZArith Lia.
From Stdlib Require Strings.Byte.
From stdpp Require Import base list gmap strings.
From S2P Require Import Prelude Types DiskManager Replacer BufferPool PageStore Socket.
Open Scope Z_scope.
Import protocol.

(** ** The service

    [buffer_pool_manager_] owns its frames and refers to the disk manager; when it
    is reset, the disk manager it leaves is kept in [sv_disk].  A handler thread has
    its own [client_socket]. *)
Record StorageService (R N : Type) := mkService {
  sv_pool : option (machine R);     (* [buffer_pool_manager_], null after [reset] *)
  sv_disk : option DiskManager;     (* [disk_manager_] when no pool refers to it *)
  sv_port : Z;
  sv_server : Z;                    (* the descriptor of [server_socket_] *)
  sv_client : Z;                    (* the descriptor of [client_socket] *)
  sv_net : N;
  sv_running : bool;
}.
Arguments mkService {R N}.
Arguments sv_pool {R N}.
Arguments sv_disk {R N}.
Arguments sv_port {R N}.
Arguments sv_server {R N}.
Arguments sv_client {R N}.
Arguments sv_net {R N}.
Arguments sv_running {R N}.

Section service.
Context {R N : Type} `{HR : Replacer R} `{HO : OS N}.
Abbreviation svc := (StorageService R N).

Definition set_pool (c : option (machine R)) (s : svc) : svc :=
  mkService c (sv_disk s) (sv_port s) (sv_server s) (sv_client s) (sv_net s) (sv_running s).
Definition set_disk (d : option DiskManager) (s : svc) : svc :=
  mkService (sv_pool s) d (sv_port s) (sv_server s) (sv_client s) (sv_net s) (sv_running s).
Definition set_server (k : sock N) (s : svc) : svc :=
  mkService (sv_pool s) (sv_disk s) (sv_port s) (fd_ k) (sv_client s) (net_ k) (sv_running s).
Definition set_client (k : sock N) (s : svc) : svc :=
  mkService (sv_pool s) (sv_disk s) (sv_port s) (sv_server s) (fd_ k) (net_ k) (sv_running s).
Definition set_running (b : bool) (s : svc) : svc :=
  mkService (sv_pool s) (sv_disk s) (sv_port s) (sv_server s) (sv_client s) (sv_net s) b.

Definition on_server {A} (m : M (sock N) A) : M svc A := zoom (λ s, mkSock (sv_server s) (sv_net s)) set_server m.
Definition on_client {A} (m : M (sock N) A) : M svc A := zoom (λ s, mkSock (sv_client s) (sv_net s)) set_client m.
(** Calls through [buffer_pool_manager_]; through a null pointer they are
    undefined. *)
Definition on_bpm {A} (m : M (machine R) A) : M svc A := λ s,
  match sv_pool s with
  | None => (s, UB)
  | Some c => let '(c', r) := m c in (set_pool (Some c') s, r)
  end.
Definition bpm {X} (op : pool_op X) : M svc X := on_bpm (run_pool (call op)).

(** *** A client's requests

    The handlers tell whether the loop goes on, [false] for [break]. *)
Definition send_response (r : ResponseHeader) : M svc bool := on_client (Send (encode_response r)).

Definition serve_read (page_id : page_id_t) : M svc bool :=
  try_catch
    (page ← bpm (Fetch page_id);
     if negb page then throw RuntimeError else
     ok ← send_response (mkResponse SUCCESS page_id PAGE_SIZE);
     send_success ← (if ok : bool then d ← bpm (Read page_id); on_client (Send d) else mret false);
     _ ← bpm (Unpin page_id false);
     mret send_success)
    (λ _, _ ← send_response (mkResponse ERROR page_id 0); mret true).

(** The bytes of an array on the stack that was not initialised are never read
    before they are written; zeros stand for them. *)
Definition stack_buffer (n : Z) : list byte := replicate (Z.to_nat n) Byte.x00.

Definition serve_write (page_id : page_id_t) : M svc bool :=
  '(ok, buffer) ← on_client (Recv (stack_buffer PAGE_SIZE) PAGE_SIZE);
  if negb ok then mret false else
  try_catch
    (page ← bpm (Fetch page_id);
     if negb page then throw RuntimeError else
     _ ← bpm (Write page_id buffer);
     _ ← bpm (Unpin page_id true);
     send_response (mkResponse SUCCESS page_id 0))
    (λ _, _ ← send_response (mkResponse ERROR page_id 0); mret true).

Definition serve_allocate : M svc bool :=
  try_catch
    (page ← bpm New;
     match page with
     | None => throw RuntimeError
     | Some new_page_id =>
         _ ← bpm (Unpin new_page_id true);
         send_response (mkResponse SUCCESS new_page_id 0)
     end)
    (λ _, _ ← send_response (mkResponse ERROR INVALID_PAGE_ID 0); mret true).

Definition serve_deallocate (page_id : page_id_t) : M svc bool :=
  try_catch
    (success ← bpm (Delete page_id);
     if negb success then throw RuntimeError else
     send_response (mkResponse SUCCESS page_id 0))
    (λ _, _ ← send_response (mkResponse ERROR page_id 0); mret true).

Definition serve_unknown : M svc bool :=
  _ ← send_response (mkResponse ERROR INVALID_PAGE_ID 0); mret true.

Definition serve_request (header : RequestHeader) : M svc bool :=
  if decide (op_type header = READ_PAGE) then serve_read (req_page_id header)
  else if decide (op_type header = WRITE_PAGE) then serve_write (req_page_id header)
  else if decide (op_type header = ALLOCATE_PAGE) then serve_allocate
  else if decide (op_type header = DEALLOCATE_PAGE) then serve_deallocate (req_page_id header)
  else serve_unknown.

(** The loop; a unit of fuel is one request. *)
Fixpoint client_loop (fuel : nat) : M svc unit :=
  match fuel with
  | O => undefined
  | S fuel =>
      is_running ← gets sv_running;
      if negb is_running then mret tt else
      '(ok, d) ← on_client (Recv (stack_buffer header_size) header_size);
      if negb ok then mret tt else
      go_on ← serve_request (decode_request d);
      if go_on : bool then client_loop fuel else mret tt
  end.
Definition HandleClient (fuel : nat) : M svc unit :=
  _ ← try_catch (client_loop fuel) (λ _, mret tt);
  on_client Socket_Close.

(** *** Starting and stopping *)

(** [Start] up to the acceptor thread it spawns; on POSIX [InitializeNetwork] is
    [true] and [CleanupNetwork] does nothing. *)
Definition Start : M svc unit :=
  is_running ← gets sv_running;
  if is_running : bool then mret tt else
  port ← gets sv_port;
  ok ← on_server (Listen port 128);
  if negb ok then throw RuntimeError else modify (set_running true).

(** An iteration of the acceptor: [None] ends it, otherwise the descriptor handed
    to a new handler thread, if there is one. *)
Definition acceptor_step : M svc (option (option Z)) :=
  is_running ← gets sv_running;
  if negb is_running then mret None else
  client_fd ← on_server Accept;
  is_running ← gets sv_running;
  if negb is_running then mret None else
  mret (Some (if decide (client_fd = INVALID_SOCKET) then None else Some client_fd)).

(** [buffer_pool_manager_.reset()]: the destructor of the pool flushes once more. *)
Definition reset_pool : M svc unit :=
  _ ← bpm FlushAll;
  c ← gets sv_pool;
  c ← from_opt c;
  _ ← modify (set_disk (Some (disk_manager_ (ma_pool c))));
  modify (set_pool None).
Definition Stop : M svc unit :=
  is_running ← gets sv_running;
  if negb is_running then mret tt else
  _ ← modify (set_running false);
  _ ← on_server Socket_Close;
  pool ← gets sv_pool;
  _ ← match pool with
      | Some _ => _ ← bpm FlushAll; reset_pool
      | None => mret tt
      end;
  disk ← gets sv_disk;
  match disk with
  | Some dm => modify (set_disk (Some (Close dm).1))
  | None => mret tt
  end.
End service.

(** The constructor: a pool of 128 frames with an LRU policy. *)
Definition StorageService_new {N} (dm : DiskManager) (port : Z) (w : N) : StorageService LRU.LRUReplacer N :=
  mkService (Some (new_machine 128 dm (LRU.LRUReplacer_new 128))) None port INVALID_SOCKET INVALID_SOCKET w false.

(** ** What a client is promised

    A request on the wire, and the reply of a server that keeps the pages [a] and
    has [n] frames to spare; [None] for a request that names a freed page or the
    metadata page, or allocates beyond the last page id. *)
Definition request : Type := RequestHeader * list byte.
Definition request_ok (r : request) : Prop :=
  u8_ok (op_type r.1) ∧ u32_ok (req_page_id r.1) ∧ u32_ok (req_data_len r.1) ∧
  zlen r.2 = if decide (op_type r.1 = WRITE_PAGE) then PAGE_SIZE else 0.
Definition wire (r : request) : list byte := encode_request r.1 ++ r.2.

Definition pages_state : Type := alloc_state * Z.
Definition reply (st : Z) (p : page_id_t) (len : Z) (payload : list byte) : list byte :=
  encode_response (mkResponse st p len) ++ payload.

(** Getting at a page: whether it can be had. *)
Definition access (p : page_id_t) (s : pages_state) : option (bool * pages_state) :=
  let '(a, n) := s in
  if decide (p = INVALID_PAGE_ID) then Some (false, s)
  else if decide (is_Some (al_live a !! p)) then Some (bool_decide (n ≠ 0), s)
  else if decide (al_num a ≤ p) then Some (false, (a, if decide (n = 0) then n else n - 1))
  else None.

Definition answer (r : request) (s : pages_state) : option (list byte * pages_state) :=
  let p := req_page_id r.1 in
  let op := op_type r.1 in
  if decide (op = READ_PAGE) then
    '(ok, s) ← access p s;
    Some (if ok : bool then reply SUCCESS p PAGE_SIZE (default zero_page (al_live s.1 !! p)) else reply ERROR p 0 [], s)
  else if decide (op = WRITE_PAGE) then
    '(ok, s) ← access p s;
    Some (if ok : bool then (reply SUCCESS p 0 [], (set_live p r.2 s.1, s.2)) else (reply ERROR p 0 [], s))
  else if decide (op = ALLOCATE_PAGE) then
    '(q, a) ← fresh_page s.1;
    Some (if decide (s.2 = 0) then (reply ERROR INVALID_PAGE_ID 0 [], s) else (reply SUCCESS q 0 [], (a, s.2)))
  else if decide (op = DEALLOCATE_PAGE) then
    if decide (is_Some (al_live s.1 !! p)) then Some (reply SUCCESS p 0 [], (dead_page p s.1, s.2))
    else if decide (al_num s.1 ≤ p ∨ p = 0) then Some (reply SUCCESS p 0 [], s) else None
  else Some (reply ERROR INVALID_PAGE_ID 0 [], s).
Fixpoint answers (rs : list request) (s : pages_state) : option (list byte * pages_state) :=
  match rs with
  | [] => Some ([], s)
  | r :: rs => '(o, s) ← answer r s; '(os, s) ← answers rs s; Some (o ++ os, s)
  end.

(** ** The handler keeps the promise *)
Section handler.
Context {R N : Type} `{HR : Replacer R, !ReplacerLaws R, HO : OS N, !OSStream N, !OSUp N}.
Abbreviation svc := (StorageService R N).
Implicit Types (s : svc).
Context (fd : Z) (Hfd : fd ≠ INVALID_SOCKET).

(** A handler at work: the pool represents the store, the stream still holds [inp]
    and [out] has been sent. *)
Record working s (st : store) (inp out : list byte) : Prop := {
  wk_pool : ∃ c, sv_pool s = Some c ∧ store_rel c st;
  wk_client : sv_client s = fd;
  wk_running : sv_running s = true;
  wk_in : os_in (sv_net s) fd = inp;
  wk_out : os_out (sv_net s) fd = out;
}.

Lemma bpm_run {X} (op : pool_op X) s st inp out r st' : working s st inp out →
  store_step op st = Some (r, st') → ∃ s', bpm op s = (s', r) ∧ working s' st' inp out.
Proof.
  intros [(c & Hc & Hr) Hcl Hrun Hin Hout] Hst.
  assert (Hs : run_store (call op) st = Some (r, st')) by (cbn; rewrite Hst; by destruct r).
  destruct (sim_prog _ _ _ _ _ Hr Hs) as (c' & Hex & Hr'). exists (set_pool (Some c') s).
  unfold bpm, on_bpm. rewrite Hc, Hex. split; [done|]. split; try done. by exists c'.
Qed.
Lemma on_client_eq {A} (m : M (sock N) A) s k r :
  m (mkSock (sv_client s) (sv_net s)) = (k, r) → on_client m s = (set_client k s, r).
Proof. unfold on_client, zoom. by intros ->. Qed.
Lemma client_send d s st inp out : working s st inp out → zlen d < 2 ^ 31 →
  ∃ s', on_client (Send d) s = (s', Ret true) ∧ working s' st inp (out ++ d).
Proof.
  intros [Hc Hcl Hrun Hin Hout] Hd.
  destruct (send_ok d (mkSock fd (sv_net s)) Hfd Hd) as (k & Hex & Hk & Hout' & Hin').
  rewrite <- Hcl in Hex. cbn [fd_ net_] in *. exists (set_client k s). rewrite (on_client_eq _ _ _ _ Hex).
  split; [done|]. split; try done; cbn; congruence.
Qed.
Lemma client_recv buf d rest s st out : working s st (d ++ rest) out → zlen buf = zlen d → zlen d < 2 ^ 31 →
  ∃ s', on_client (Recv buf (zlen d)) s = (s', Ret (true, d)) ∧ working s' st rest out.
Proof.
  intros [Hc Hcl Hrun Hin Hout] Hb Hd.
  destruct (recv_ok buf d rest (mkSock fd (sv_net s)) Hfd Hb Hd Hin) as (k & Hex & Hk & Hin' & Hout').
  rewrite <- Hcl in Hex. cbn [fd_ net_] in *. exists (set_client k s). rewrite (on_client_eq _ _ _ _ Hex).
  split; [done|]. split; try done; cbn; congruence.
Qed.
Lemma respond st0 p len s st inp out : working s st inp out →
  ∃ s', send_response (mkResponse st0 p len) s = (s', Ret true) ∧ working s' st inp (out ++ reply st0 p len []).
Proof.
  intros Hw. unfold reply. rewrite app_nil_r. unfold send_response. apply client_send; [done|].
  unfold encode_response. rewrite zlen_pack. done.
Qed.

(** The error reply of the handlers' [catch]. *)
Lemma catch_error (m : M svc bool) p s s1 st inp out e : m s = (s1, Throw e) → working s1 st inp out →
  ∃ s', try_catch m (λ _, _ ← send_response (mkResponse ERROR p 0); mret true) s = (s', Ret true) ∧
    working s' st inp (out ++ reply ERROR p 0 []).
Proof.
  intros Hm Hw. destruct (respond ERROR p 0 s1 st inp out Hw) as (s' & Hs & Hw'). exists s'. split; [|done].
  unfold try_catch. rewrite Hm. by rewrite (bind_Ret _ _ _ _ _ Hs).
Qed.
Lemma catch_none {A} (m : M svc A) h s s' x : m s = (s', Ret x) → try_catch m h s = (s', Ret x).
Proof. intros Hm. unfold try_catch. by rewrite Hm. Qed.

(** The states between requests. *)
Definition idle (a : alloc_state) (n : Z) : store := mkStore a ∅ ∅ n.

Lemma idle_full a n : st_full (idle a n) = bool_decide (n = 0).
Proof. unfold st_full, idle. cbn [st_pins st_frames]. rewrite map_size_empty. apply bool_decide_ext. lia. Qed.

(** [FetchPage] for a request: the page is pinned, or the handler throws. *)
Lemma fetch_access p a n ok ps s inp out : working s (idle a n) inp out → access p (a, n) = Some (ok, ps) →
  if ok then ps = (a, n) ∧ (∃ d, al_live a !! p = Some d) ∧
    ∃ s', bpm (Fetch p) s = (s', Ret true) ∧ working s' (mkStore a ∅ {[p := 1]} n) inp out
  else ∀ k, ∃ s' e, (page ← bpm (Fetch p); if negb page then throw RuntimeError else k : M svc bool) s = (s', Throw e) ∧
    working s' (idle ps.1 ps.2) inp out.
Proof.
  intros Hw Hacc. unfold access in Hacc. pose proof (idle_full a n) as Hfull.
  assert (Hnull : store_step (Fetch p) (idle a n) = Some (Ret false, idle a n) →
    ∀ k, ∃ s' e, (page ← bpm (Fetch p); if negb page then throw RuntimeError else k : M svc bool) s = (s', Throw e) ∧
      working s' (idle a n) inp out).
  { intros Hst k. destruct (bpm_run _ _ _ _ _ _ _ Hw Hst) as (s' & Hs & Hw'). exists s', RuntimeError.
    by rewrite (bind_Ret _ _ _ _ _ Hs). }
  destruct (decide (p = INVALID_PAGE_ID)) as [->|Hp]; [injection Hacc as <- <-; apply Hnull; cbn; by rewrite decide_True|].
  destruct (decide (is_Some (al_live a !! p))) as [Hl|Hl].
  - injection Hacc as <- <-. destruct (decide (n = 0)) as [Hn|Hn].
    + rewrite bool_decide_false by tauto. apply Hnull. cbn. rewrite decide_False, lookup_empty, decide_True by done.
      by rewrite Hfull, bool_decide_true.
    + rewrite bool_decide_true by done. split; [done|]. split; [done|].
      apply (bpm_run _ _ _ _ _ _ _ Hw). cbn. rewrite decide_False, lookup_empty, decide_True by done.
      by rewrite Hfull, bool_decide_false.
  - destruct (decide (al_num a ≤ p)) as [Hnum|]; [|done]. injection Hacc as <- <-.
    destruct (decide (n = 0)) as [Hn|Hn].
    + apply Hnull. cbn. rewrite decide_False, lookup_empty, decide_False, decide_True by done.
      by rewrite Hfull, bool_decide_true.
    + intros k. destruct (bpm_run (Fetch p) s _ inp out (Throw OutOfRange) (idle a (n - 1)) Hw) as (s' & Hs & Hw').
      { cbn. rewrite decide_False, lookup_empty, decide_False, decide_True by done.
        by rewrite Hfull, bool_decide_false. }
      exists s', OutOfRange. by rewrite (bind_Throw _ _ _ _ _ Hs).
Qed.

Lemma unpin_idle a n p (d : bool) W s inp out : working s (mkStore a W {[p := 1]} n) inp out →
  W = ∅ ∨ (d = true ∧ W = {[p]}) → ∃ s', bpm (Unpin p d) s = (s', Ret true) ∧ working s' (idle a n) inp out.
Proof.
  intros Hw HW. apply (bpm_run _ _ _ _ _ _ _ Hw). cbn [store_step st_pins].
  rewrite lookup_singleton_eq. rewrite decide_True by (destruct HW as [-> | [-> _]]; [right; left; set_solver|by left]).
  rewrite decide_True by done. rewrite delete_singleton_eq. do 3 f_equal. unfold idle.
  cbn [st_alloc st_unflagged st_frames]. f_equal. destruct HW as [-> | [-> ->]]; [by rewrite unpin_W_empty|cbn; set_solver].
Qed.

Lemma working_alloc s st inp out : working s st inp out → alloc_ok (st_alloc st).
Proof. intros [(c & _ & Hr) _ _ _ _]. by eapply rel_alloc_ok. Qed.

Lemma serve_read_run p a n ok ps s inp out : working s (idle a n) inp out → access p (a, n) = Some (ok, ps) →
  ∃ s', serve_read p s = (s', Ret true) ∧
    working s' (idle ps.1 ps.2) inp
      (out ++ if ok then reply SUCCESS p PAGE_SIZE (default zero_page (al_live ps.1 !! p)) else reply ERROR p 0 []).
Proof.
  intros Hw Hacc. pose proof (fetch_access p a n ok ps s inp out Hw Hacc) as Hf. unfold serve_read. destruct ok.
  - destruct Hf as (-> & (d & Hd) & s1 & Hs1 & Hw1). cbn [fst snd]. rewrite Hd. cbn [default].
    destruct (respond SUCCESS p PAGE_SIZE s1 _ inp out Hw1) as (s2 & Hs2 & Hw2).
    destruct (bpm_run (Read p) s2 _ inp _ (Ret d) (mkStore a ∅ {[p := 1]} n) Hw2) as (s3 & Hs3 & Hw3).
    { cbn. unfold st_live. cbn. by rewrite lookup_singleton_eq, Hd. }
    pose proof (ao_len _ (working_alloc _ _ _ _ Hw) _ _ Hd) as Hlen.
    destruct (client_send d s3 _ inp _ Hw3) as (s4 & Hs4 & Hw4); [rewrite Hlen; done|].
    destruct (unpin_idle a n p false ∅ s4 inp _ Hw4) as (s5 & Hs5 & Hw5); [by left|].
    exists s5. split; [|unfold reply in *; by rewrite app_nil_r, <- app_assoc in Hw5].
    apply catch_none. rewrite (bind_Ret _ _ _ _ _ Hs1). cbn [negb]. rewrite (bind_Ret _ _ _ _ _ Hs2).
    rewrite (bind_Ret _ _ s2 s4 true); [by rewrite (bind_Ret _ _ _ _ _ Hs5)|]. by rewrite (bind_Ret _ _ _ _ _ Hs3).
  - destruct (Hf (ok ← send_response (mkResponse SUCCESS p PAGE_SIZE);
      send_success ← (if ok : bool then d ← bpm (Read p); on_client (Send d) else mret false);
      _ ← bpm (Unpin p false); mret send_success)) as (s1 & e & Hs1 & Hw1).
    exact (catch_error _ p s s1 _ inp out e Hs1 Hw1).
Qed.

Lemma serve_write_run p d a n ok ps s rest out : working s (idle a n) (d ++ rest) out → zlen d = PAGE_SIZE →
  access p (a, n) = Some (ok, ps) →
  ∃ s', serve_write p s = (s', Ret true) ∧
    if ok then working s' (idle (set_live p d ps.1) ps.2) rest (out ++ reply SUCCESS p 0 [])
    else working s' (idle ps.1 ps.2) rest (out ++ reply ERROR p 0 []).
Proof.
  intros Hw Hlen Hacc. unfold serve_write.
  destruct (client_recv (stack_buffer PAGE_SIZE) d rest s _ out Hw) as (s0 & Hs0 & Hw0);
    [by rewrite Hlen|by rewrite Hlen|]. rewrite Hlen in Hs0. rewrite (bind_Ret _ _ _ _ _ Hs0). cbn [negb].
  pose proof (fetch_access p a n ok ps s0 rest out Hw0 Hacc) as Hf. destruct ok.
  - destruct Hf as (-> & (d0 & Hd0) & s1 & Hs1 & Hw1). cbn [fst snd].
    destruct (bpm_run (Write p d) s1 _ rest _ (Ret tt) (mkStore (set_live p d a) {[p]} {[p := 1]} n) Hw1) as (s2 & Hs2 & Hw2).
    { cbn. rewrite lookup_singleton_eq, decide_True by done. by rewrite union_empty_r_L. }
    destruct (unpin_idle _ n p true _ s2 rest _ Hw2) as (s3 & Hs3 & Hw3); [by right|].
    destruct (respond SUCCESS p 0 s3 _ rest _ Hw3) as (s4 & Hs4 & Hw4).
    exists s4. split; [|done]. apply catch_none. rewrite (bind_Ret _ _ _ _ _ Hs1). cbn [negb].
    rewrite (bind_Ret _ _ _ _ _ Hs2). by rewrite (bind_Ret _ _ _ _ _ Hs3).
  - destruct (Hf (_ ← bpm (Write p d); _ ← bpm (Unpin p true); send_response (mkResponse SUCCESS p 0)))
      as (s1 & e & Hs1 & Hw1).
    exact (catch_error _ p s0 s1 _ rest out e Hs1 Hw1).
Qed.

Lemma serve_allocate_run a n q a' s inp out : working s (idle a n) inp out → fresh_page a = Some (q, a') →
  ∃ s', serve_allocate s = (s', Ret true) ∧
    if decide (n = 0) then working s' (idle a n) inp (out ++ reply ERROR INVALID_PAGE_ID 0 [])
    else working s' (idle a' n) inp (out ++ reply SUCCESS q 0 []).
Proof.
  intros Hw Hf. pose proof (idle_full a n) as Hfull. unfold serve_allocate. destruct (decide (n = 0)) as [Hn|Hn].
  - destruct (bpm_run New s _ inp out (Ret None) (idle a n) Hw) as (s1 & Hs1 & Hw1).
    { cbn [store_step]. change (st_alloc (idle a n)) with a. by rewrite Hf, Hfull, bool_decide_true. }
    eapply (catch_error _ INVALID_PAGE_ID s s1 _ inp out RuntimeError); [|done]. by rewrite (bind_Ret _ _ _ _ _ Hs1).
  - destruct (bpm_run New s _ inp out (Ret (Some q)) (mkStore a' {[q]} {[q := 1]} n) Hw) as (s1 & Hs1 & Hw1).
    { cbn [store_step]. change (st_alloc (idle a n)) with a. rewrite Hf, Hfull, bool_decide_false by done.
      unfold idle. cbn [st_unflagged st_pins st_frames]. by rewrite union_empty_r_L. }
    destruct (unpin_idle _ n q true _ s1 inp _ Hw1) as (s2 & Hs2 & Hw2); [by right|].
    destruct (respond SUCCESS q 0 s2 _ inp _ Hw2) as (s3 & Hs3 & Hw3).
    exists s3. split; [|done]. apply catch_none. rewrite (bind_Ret _ _ _ _ _ Hs1). by rewrite (bind_Ret _ _ _ _ _ Hs2).
Qed.

Lemma serve_deallocate_run p a n s inp out a' : working s (idle a n) inp out →
  (is_Some (al_live a !! p) ∧ a' = dead_page p a ∨ al_live a !! p = None ∧ (al_num a ≤ p ∨ p = 0) ∧ a' = a) →
  ∃ s', serve_deallocate p s = (s', Ret true) ∧ working s' (idle a' n) inp (out ++ reply SUCCESS p 0 []).
Proof.
  intros Hw Ha'. destruct (bpm_run (Delete p) s _ inp out (Ret true) (idle a' n) Hw) as (s1 & Hs1 & Hw1).
  { cbn [store_step]. change (st_pins (idle a n)) with (∅ : gmap page_id_t Z). rewrite lookup_empty.
    change (st_live (idle a n)) with (al_live a). destruct Ha' as [[Hl ->]|(Hl & Hg & ->)].
    - by rewrite decide_True.
    - rewrite Hl, decide_False by (by intros [? ?]). by rewrite decide_True. }
  destruct (respond SUCCESS p 0 s1 _ inp _ Hw1) as (s2 & Hs2 & Hw2).
  exists s2. split; [|done]. apply catch_none. by rewrite (bind_Ret _ _ _ _ _ Hs1).
Qed.

Lemma serve_request_run h d a n o ps s rest out : working s (idle a n) (d ++ rest) out → request_ok (h, d) →
  answer (h, d) (a, n) = Some (o, ps) →
  ∃ s', serve_request h s = (s', Ret true) ∧ working s' (idle ps.1 ps.2) rest (out ++ o).
Proof.
  intros Hw (_ & _ & _ & Hd) Ha. unfold answer in Ha. cbn [fst snd] in Hd, Ha. unfold serve_request.
  assert (Hnil : op_type h ≠ WRITE_PAGE → d ++ rest = rest).
  { intros Hne. rewrite decide_False in Hd by done. by destruct d. }
  destruct (decide (op_type h = READ_PAGE)) as [Hop|_].
  { rewrite Hnil in Hw by (rewrite Hop; done). destruct (access _ _) as [[ok ps']|] eqn:Hacc; [|done].
    injection Ha as <- <-. by apply serve_read_run with (1 := Hw). }
  destruct (decide (op_type h = WRITE_PAGE)) as [Hop|Hne].
  { destruct (access _ _) as [[ok ps']|] eqn:Hacc; [|done].
    destruct (serve_write_run _ _ _ _ _ _ _ _ _ Hw Hd Hacc) as (s' & Hs & Hw').
    exists s'. split; [exact Hs|]. destruct ok; by injection Ha as <- <-. }
  rewrite Hnil in Hw by done. destruct (decide (op_type h = ALLOCATE_PAGE)) as [Hop|_].
  { destruct (fresh_page a) as [[q a']|] eqn:Hf; [|done].
    destruct (serve_allocate_run _ _ _ _ _ _ _ Hw Hf) as (s' & Hs & Hw'). exists s'. split; [exact Hs|].
    revert Ha. cbn. destruct (decide (n = 0)); by intros [= <- <-]. }
  destruct (decide (op_type h = DEALLOCATE_PAGE)) as [Hop|_].
  { destruct (decide (is_Some (al_live a !! req_page_id h))) as [Hl|Hl%eq_None_not_Some].
    - injection Ha as <- <-. apply (serve_deallocate_run _ _ _ _ _ _ _ Hw). by left.
    - destruct (decide _) as [Hg|]; [|done]. injection Ha as <- <-.
      apply (serve_deallocate_run _ _ _ _ _ _ _ Hw). by right. }
  injection Ha as <- <-. unfold serve_unknown.
  destruct (respond ERROR INVALID_PAGE_ID 0 s _ rest out Hw) as (s' & Hs & Hw'). exists s'. split; [|exact Hw'].
  by rewrite (bind_Ret _ _ _ _ _ Hs).
Qed.

Lemma client_loop_run rs : ∀ s a n o ps out fuel, working s (idle a n) (rs ≫= wire) out →
  Forall request_ok rs → answers rs (a, n) = Some (o, ps) → (length rs < fuel)%nat →
  ∃ s' inp, client_loop fuel s = (s', Ret tt) ∧ working s' (idle ps.1 ps.2) inp (out ++ o).
Proof.
  induction rs as [|[h d] rs IH]; intros s a n o ps out [|fuel] Hw Hok Ha Hf; try (cbn in Hf; lia).
  - injection Ha as <- <-. rewrite app_nil_r. cbn [client_loop]. rewrite (bind_Ret _ _ s s true) by
      (unfold gets; by rewrite (wk_running _ _ _ _ Hw)). cbn [negb].
    destruct (recv_closed (stack_buffer header_size) header_size (mkSock fd (sv_net s)))
      as (k & buf' & Hr & Hk & Hout); [done|done|done|done|apply Hw|].
    rewrite <- (wk_client _ _ _ _ Hw) in Hr. cbn [fd_ net_] in *.
    exists (set_client k s), (os_in (net_ k) (fd_ k)).
    rewrite (bind_Ret _ _ _ _ _ (on_client_eq _ _ _ _ Hr)). cbn [negb]. split; [done|].
    destruct Hw as [Hc Hcl Hrun Hin Hout']. split; try done; cbn; congruence.
  - apply Forall_cons in Hok as [Hr Hok]. cbn [answers] in Ha.
    destruct (answer (h, d) (a, n)) as [[o1 ps1]|] eqn:Ha1; [|done]. cbn in Ha.
    destruct (answers rs ps1) as [[o2 ps2]|] eqn:Ha2; [|done]. cbn in Ha. injection Ha as <- <-.
    rewrite bind_cons in Hw. unfold wire at 1 in Hw. cbn [fst snd] in Hw. rewrite <- app_assoc in Hw.
    cbn [client_loop]. rewrite (bind_Ret _ _ s s true) by (unfold gets; by rewrite (wk_running _ _ _ _ Hw)). cbn [negb].
    assert (Hz : zlen (encode_request h) = header_size) by apply zlen_pack.
    destruct (client_recv (stack_buffer header_size) (encode_request h) (d ++ (rs ≫= wire)) s _ out Hw)
      as (s1 & Hs1 & Hw1); [by rewrite Hz|by rewrite Hz|]. rewrite Hz in Hs1.
    rewrite (bind_Ret _ _ _ _ _ Hs1). cbn [negb].
    destruct Hr as (Ho & Hp & Hl & Hd) eqn:Hreq. clear Hreq. cbn [fst snd] in Ho, Hp, Hl.
    rewrite decode_encode_request by done.
    destruct (serve_request_run h d a n o1 ps1 s1 (rs ≫= wire) out Hw1) as (s2 & Hs2 & Hw2); [by split_and!|done|].
    rewrite (bind_Ret _ _ _ _ _ Hs2). destruct ps1 as [a1 n1].
    destruct (IH s2 a1 n1 o2 ps2 _ fuel Hw2 Hok Ha2) as (s3 & inp & Hs3 & Hw3); [cbn in Hf; lia|].
    exists s3, inp. split; [exact Hs3|]. by rewrite app_assoc.
Qed.

Lemma handle_client_run rs s a n o ps out fuel : working s (idle a n) (rs ≫= wire) out →
  Forall request_ok rs → answers rs (a, n) = Some (o, ps) → (length rs < fuel)%nat →
  ∃ s' c', HandleClient fuel s = (s', Ret tt) ∧ os_out (sv_net s') fd = out ++ o ∧
    sv_client s' = INVALID_SOCKET ∧ sv_pool s' = Some c' ∧ store_rel c' (idle ps.1 ps.2) ∧ sv_running s' = true.
Proof.
  intros Hw Hok Ha Hf.
  destruct (client_loop_run rs s a n o ps _ fuel Hw Hok Ha Hf) as (s1 & inp & Hs1 & [(c & Hc & Hr) Hcl Hrun Hin Hout]).
  exists (set_client (mkSock INVALID_SOCKET (os_close fd (sv_net s1))) s1), c.
  unfold HandleClient. rewrite (bind_Ret _ _ s s1 tt) by by apply catch_none.
  rewrite (on_client_eq _ s1 (mkSock INVALID_SOCKET (os_close fd (sv_net s1))) (Ret tt)).
  - split_and!; [done| |done..]. cbn. by rewrite close_out.
  - unfold Socket_Close, IsValid, sys_unit, sys, set_fd. msimpl. cbn [fd_ net_]. rewrite Hcl. by rewrite bool_decide_true.
Qed.
End handler.

(** ** Properties *)

(** C6 (refinement). A client session: on a connection that stays up, and however
    the network cuts the bytes into pieces, [HandleClient] answers every request of
    the protocol in order with exactly the reply the page server owes - the last
    contents written to a page, the id of a freshly allocated page, [ERROR] for an
    id outside the database and for an unknown operation - ends when the client
    does, closes the socket, and leaves a pool that represents the pages after the
    session, with no page pinned. *)
Theorem service_session {R N} `{HR : Replacer R, !ReplacerLaws R, HO : OS N, !OSStream N, !OSUp N}
    (s : StorageService R N) c rs a n o ps fuel :
  sv_pool s = Some c → store_rel c (idle a n) → sv_client s ≠ INVALID_SOCKET → sv_running s = true →
  os_in (sv_net s) (sv_client s) = rs ≫= wire → Forall request_ok rs → answers rs (a, n) = Some (o, ps) →
  (length rs < fuel)%nat →
  ∃ s' c', HandleClient fuel s = (s', Ret tt) ∧
    os_out (sv_net s') (sv_client s) = os_out (sv_net s) (sv_client s) ++ o ∧
    sv_client s' = INVALID_SOCKET ∧ sv_pool s' = Some c' ∧ store_rel c' (idle ps.1 ps.2).
Proof.
  intros Hc Hr Hfd Hrun Hin Hok Ha Hf.
  destruct (handle_client_run _ Hfd rs s a n o ps (os_out (sv_net s) (sv_client s)) fuel) as (s' & c' & H); [|done..|].
  - split; eauto.
  - exists s', c'. tauto.
Qed.

Definition read_request (p : page_id_t) : request := (mkRequest READ_PAGE p 0, []).
Lemma read_request_ok p : u32_ok p → request_ok (read_request p).
Proof. intros Hp. by split_and!. Qed.
Lemma answers_bad_reads p q a : p ≠ INVALID_PAGE_ID → q ≠ INVALID_PAGE_ID → al_num a ≤ p → al_live a !! p = None →
  is_Some (al_live a !! q) → ∀ k, answers (replicate k (read_request p) ++ [read_request q]) (a, Z.of_nat k) =
    Some ((replicate k (reply ERROR p 0 []) ≫= id) ++ reply ERROR q 0 [], (a, 0)).
Proof.
  intros Hp Hq Hnum Hd Hl. induction k as [|k IH]; cbn [replicate app answers].
  - unfold answer, access. cbn [read_request fst snd op_type req_page_id]. rewrite decide_True by done.
    rewrite decide_False by done. rewrite decide_True by done. cbn [mbind option_bind].
    rewrite bool_decide_false by tauto. cbn. by rewrite app_nil_r.
  - unfold answer at 1. unfold access. cbn [read_request fst snd op_type req_page_id]. rewrite decide_True by done.
    rewrite decide_False by done. rewrite Hd, decide_False by (by intros [? ?]). rewrite decide_True by done.
    cbn [mbind option_bind]. rewrite decide_False by lia. replace (Z.of_nat (S k) - 1) with (Z.of_nat k) by lia.
    rewrite IH. cbn [mbind option_bind]. by rewrite bind_cons, app_assoc.
Qed.

(** C39 (error). A client can make the daemon unusable with reads alone: each
    [READ_PAGE] of an id beyond the end of the database is answered [ERROR] and
    costs the pool a frame for good, and after as many of them as the pool has
    frames the read of any existing page is answered [ERROR] too. *)
Theorem bad_reads_exhaust_server {R N} `{HR : Replacer R, !ReplacerLaws R, HO : OS N, !OSStream N, !OSUp N}
    (s : StorageService R N) c a k p q fuel :
  sv_pool s = Some c → store_rel c (idle a (Z.of_nat k)) → sv_client s ≠ INVALID_SOCKET → sv_running s = true →
  al_num a ≤ p → p ≠ INVALID_PAGE_ID → u32_ok p → is_Some (al_live a !! q) →
  os_in (sv_net s) (sv_client s) = (replicate k (read_request p) ++ [read_request q]) ≫= wire → (S k < fuel)%nat →
  ∃ s' c', HandleClient fuel s = (s', Ret tt) ∧
    os_out (sv_net s') (sv_client s) =
      os_out (sv_net s) (sv_client s) ++ (replicate k (reply ERROR p 0 []) ≫= id) ++ reply ERROR q 0 [] ∧
    sv_pool s' = Some c' ∧ store_rel c' (idle a 0).
Proof.
  intros Hc Hr Hfd Hrun Hnum Hp Hpu Hq Hin Hf. pose proof (rel_alloc_ok _ _ Hr) as Ha. cbn in Ha.
  destruct (alloc_ok_id _ _ Ha Hq) as [Hqne Hqu].
  assert (Hd : al_live a !! p = None).
  { apply eq_None_not_Some. intros Hl%(ao_live _ Ha). lia. }
  pose proof (answers_bad_reads p q a Hp Hqne Hnum Hd Hq k) as Hans.
  set (rs := replicate k (read_request p) ++ [read_request q]) in *.
  assert (Hok : Forall request_ok rs).
  { apply Forall_app. split; [apply Forall_replicate|apply Forall_singleton]; by apply read_request_ok. }
  assert (Hlen : (length rs < fuel)%nat) by (unfold rs; rewrite length_app, length_replicate; cbn [length]; lia).
  assert (Hw : working (sv_client s) s (idle a (Z.of_nat k)) (rs ≫= wire) (os_out (sv_net s) (sv_client s))).
  { split; [by exists c|done..]. }
  destruct (handle_client_run (sv_client s) Hfd rs s a (Z.of_nat k) _ _ _ fuel Hw Hok Hans Hlen)
    as (s' & c' & Hs & Hout & _ & Hc' & Hr' & _). by exists s', c'.
Qed.

(** ** Stopping *)
Section stopping.
Context {R N : Type} `{HR : Replacer R, !ReplacerLaws R, HO : OS N, !OSLaws N}.
Abbreviation svc := (StorageService R N).

Lemma bpm_flush (s : svc) c a m n : sv_pool s = Some c → store_rel c (mkStore a ∅ m n) →
  ∃ c', bpm FlushAll s = (set_pool (Some c') s, Ret tt) ∧ store_rel c' (mkStore a ∅ m n) ∧
    ∀ p, is_Some (al_live a !! p) → al_live a !! p = Some (page_data (disk_manager_ (ma_pool c')) p).
Proof.
  intros Hc Hr. destruct (sim_prog (call FlushAll) c _ (Ret tt) (mkStore a ∅ m n) Hr) as (c' & Hex & Hr'); [done|].
  exists c'. unfold bpm, on_bpm. rewrite Hc, Hex. split; [done|]. split; [done|]. intros p Hp.
  destruct (flush_all_eq _ _ _ (sr_inv _ _ Hr)) as (b & Hb & _ & _ & _ & Hd).
  assert (ma_pool c' = b) as ->; [|apply Hd; [apply not_elem_of_empty|done]].
  revert Hex. cbn [run_pool call exec_call]. unfold on_pool. msimpl. rewrite Hb. by intros [= <-].
Qed.

(** The network after [Close] of the descriptor [fd]. *)
Definition shut (fd : Z) (w : N) : N := if decide (fd = INVALID_SOCKET) then w else os_close fd w.
Lemma shut_fds fd w : os_fds (shut fd w) = os_fds w ∖ {[fd]}.
Proof.
  unfold shut. case_decide as Hfd; [|apply fds_close]. subst fd. pose proof (fds_valid w). set_solver.
Qed.
Lemma server_close (s : svc) :
  on_server Socket_Close s = (set_server (mkSock INVALID_SOCKET (shut (sv_server s) (sv_net s))) s, Ret tt).
Proof.
  unfold on_server, zoom, Socket_Close, IsValid, sys_unit, sys, set_fd, shut. msimpl. cbn [fd_ net_].
  destruct (decide (sv_server s = INVALID_SOCKET)) as [He|He].
  - rewrite bool_decide_false by (by intros []). by rewrite <- He.
  - by rewrite bool_decide_true.
Qed.

Lemma stop_run (s : svc) c a m n : sv_running s = true → sv_pool s = Some c → store_rel c (mkStore a ∅ m n) →
  ∃ s' c', Stop s = (s', Ret tt) ∧ sv_pool s' = None ∧ sv_running s' = false ∧ sv_server s' = INVALID_SOCKET ∧
    sv_disk s' = Some (Close (disk_manager_ (ma_pool c'))).1 ∧
    sv_net s' = shut (sv_server s) (sv_net s) ∧ store_rel c' (mkStore a ∅ m n) ∧
    ∀ p, is_Some (al_live a !! p) → al_live a !! p = Some (page_data (disk_manager_ (ma_pool c')) p).
Proof.
  intros Hrun Hc Hr. pose proof (server_close (set_running false s)) as Hsv.
  set (s2 := set_server _ (set_running false s)) in *.
  destruct (bpm_flush s2 c a m n Hc Hr) as (c1 & Hs3 & Hr1 & _). set (s3 := set_pool (Some c1) s2) in *.
  destruct (bpm_flush s3 c1 a m n eq_refl Hr1) as (c2 & Hs4 & Hr2 & Hd2).
  eexists _, c2. split; [|split_and!; [..|exact Hr2|exact Hd2]].
  - unfold Stop. rewrite (bind_Ret _ _ s s true) by (unfold gets; by rewrite Hrun). cbn [negb].
    rewrite (bind_Ret _ _ s (set_running false s) tt) by done.
    rewrite (bind_Ret _ _ _ _ _ Hsv). rewrite (bind_Ret _ _ s2 s2 (Some c)) by (unfold gets; by rewrite <- Hc).
    rewrite (bind_Ret _ _ s2 (set_pool None (set_disk (Some (disk_manager_ (ma_pool c2))) (set_pool (Some c2) s3))) tt).
    + msimpl. cbn [sv_disk set_pool set_disk]. reflexivity.
    + rewrite (bind_Ret _ _ _ _ _ Hs3). unfold reset_pool. by rewrite (bind_Ret _ _ _ _ _ Hs4).
  - done.
  - done.
  - done.
  - done.
  - done.
Qed.

(** What the database file then holds. *)
Lemma stopped_disk (c : machine R) a m n : store_rel c (mkStore a ∅ m n) →
  (∀ p, is_Some (al_live a !! p) → al_live a !! p = Some (page_data (disk_manager_ (ma_pool c)) p)) →
  disk_rel (disk_manager_ (ma_pool c)) a.
Proof.
  intros Hr Hd. pose proof (pi_core _ _ _ (sr_inv _ _ Hr)) as Hcore.
  split; cbn; [eapply c_wf, Hcore|apply Hcore|apply Hcore|].
  intros p d Hl. specialize (Hd p). rewrite Hl in Hd. specialize (Hd ltac:(by eauto)). congruence.
Qed.
End stopping.

(** C16 (safety). Stopping the daemon loses nothing: [Stop] closes the listening
    socket, flushes the pool, destroys it and closes the database, and the file
    alone then holds every page - opening it again, when it can be opened, under a
    pool of any size and policy gives the same pages with the contents last written. *)
Theorem service_stop_durable {R R' N} `{HR : Replacer R, !ReplacerLaws R, HR' : Replacer R', !ReplacerLaws R',
    HO : OS N, !OSLaws N} (s : StorageService R N) c a m n k (r : R') ac :
  sv_running s = true → sv_pool s = Some c → store_rel c (mkStore a ∅ m n) →
  0 ≤ k → rep_wf r → rep_cap r = k → rep_set r = ∅ → can_open ac = true →
  ∃ s' dm dm', Stop s = (s', Ret tt) ∧ sv_pool s' = None ∧ sv_running s' = false ∧
    sv_server s' = INVALID_SOCKET ∧ os_fds (sv_net s') = os_fds (sv_net s) ∖ {[sv_server s]} ∧
    sv_disk s' = Some dm ∧ db_is_open dm = false ∧
    DiskManager_new (Some (db_file dm)) ac = (dm', Ret tt) ∧
    store_rel (new_machine k dm' r) (new_store k a).
Proof.
  intros Hrun Hc Hr Hk Hwf Hcap Hset Hac.
  destruct (stop_run s c a m n Hrun Hc Hr) as (s' & c' & Hs & Hp & Hrun' & Hsv & Hdk & Hfds & Hr' & Hd).
  pose proof (pi_core _ _ _ (sr_inv _ _ Hr')) as Hcore.
  exists s', (Close (disk_manager_ (ma_pool c'))).1, (disk_manager_ (ma_pool c')).
  split_and!; [exact Hs|exact Hp|exact Hrun'|exact Hsv|rewrite Hfds; apply shut_fds|exact Hdk|done|
    exact (reopen_eq _ _ ac (c_wf _ _ _ Hcore) Hac)|].
  apply new_machine_rel; try done. by eapply stopped_disk.
Qed.

(** C40 (error). [Stop] does not wait for the handler threads: a handler that has
    passed the test of [is_running_] and received a request when the daemon stops
    serves it through the pool that [Stop] has destroyed, which is undefined: at once,
    or for a write once the page to write has been received. *)
Theorem stop_races_handler {R N} `{HR : Replacer R, !ReplacerLaws R, HO : OS N, !OSLaws N}
    (s : StorageService R N) c a m n header :
  sv_running s = true → sv_pool s = Some c → store_rel c (mkStore a ∅ m n) →
  ∃ s', Stop s = (s', Ret tt) ∧
    (op_type header = READ_PAGE ∨ op_type header = ALLOCATE_PAGE ∨ op_type header = DEALLOCATE_PAGE →
       serve_request header s' = (s', UB)) ∧
    (op_type header = WRITE_PAGE → ∀ s2 d,
       on_client (Recv (stack_buffer PAGE_SIZE) PAGE_SIZE) s' = (s2, Ret (true, d)) → serve_request header s' = (s2, UB)).
Proof.
  intros Hrun Hc Hr. destruct (stop_run s c a m n Hrun Hc Hr) as (s' & c' & Hs & Hp & _).
  assert (Hbind : ∀ s2, sv_pool s2 = None → ∀ X (op : pool_op X) (k : X → M (StorageService R N) bool) h,
    try_catch (bpm op ≫= k) h s2 = (s2, UB)).
  { intros s2 H2 X op k h. unfold try_catch. msimpl. unfold bpm, on_bpm. by rewrite H2. }
  exists s'. split; [done|]. split; unfold serve_request.
  - intros [-> |[-> | ->]]; by apply Hbind.
  - intros -> s2 d Hrecv. cbn [decide]. rewrite decide_False, decide_True by done. unfold serve_write.
    rewrite (bind_Ret _ _ _ _ _ Hrecv). cbn [negb]. apply Hbind. revert Hrecv. unfold on_client, zoom.
    destruct (Recv _ _ _) as [k o]. intros [= <- _]. exact Hp.
Qed.

(** [Start] of a stopped daemon either listens on its port, with
    exactly one more descriptor open, and runs, or throws, opens nothing and does
    not run; of a running one it does nothing. While the daemon runs the acceptor
    hands on exactly the descriptors that [accept] opened, and it ends once the
    daemon has stopped. *)
Theorem service_start_accept {R N} `{HO : OS N, !OSLaws N} (s : StorageService R N) :
  (sv_running s = true → Start s = (s, Ret tt)) ∧
  (sv_running s = false → ∃ s' o, Start s = (s', o) ∧ sv_pool s' = sv_pool s ∧
     (o = Ret tt ∧ sv_running s' = true ∧ sv_server s' ≠ INVALID_SOCKET ∧
        os_fds (sv_net s') = {[sv_server s']} ∪ (os_fds (sv_net s) ∖ {[sv_server s]}) ∨
      o = Throw RuntimeError ∧ sv_running s' = false ∧ sv_server s' = INVALID_SOCKET ∧
        os_fds (sv_net s') = os_fds (sv_net s) ∖ {[sv_server s]})) ∧
  (sv_running s = false → acceptor_step s = (s, Ret None)) ∧
  (sv_running s = true → ∃ s' o, acceptor_step s = (s', Ret (Some o)) ∧ sv_pool s' = sv_pool s ∧
     match o with
     | Some fd => fd ∉ os_fds (sv_net s) ∧ os_fds (sv_net s') = {[fd]} ∪ os_fds (sv_net s)
     | None => os_fds (sv_net s') = os_fds (sv_net s)
     end).
Proof.
  split; [|split; [|split]]; intros Hrun.
  - unfold Start. by rewrite (bind_Ret _ _ s s true) by (unfold gets; by rewrite Hrun).
  - destruct (listen_acquired (sv_port s) 128 (mkSock (sv_server s) (sv_net s))) as (k & b & Hl & _ & Hb).
    assert (Hls : on_server (Listen (sv_port s) 128) s = (set_server k s, Ret b)).
    { unfold on_server, zoom. by rewrite Hl. }
    unfold Start. rewrite (bind_Ret _ _ s s false) by (unfold gets; by rewrite Hrun). cbv iota.
    rewrite (bind_Ret _ _ s s (sv_port s)) by done. rewrite (bind_Ret _ _ _ _ _ Hls).
    destruct b; [destruct Hb as (Hv & _ & Hf)|destruct Hb as (Hv & Hf)]; cbn [negb].
    + eexists _, _. split; [reflexivity|]. split; [done|]. left. by split_and!.
    + eexists _, _. split; [reflexivity|]. split; [done|]. right. by split_and!.
  - unfold acceptor_step. by rewrite (bind_Ret _ _ s s false) by (unfold gets; by rewrite Hrun).
  - destruct (accept_owned (mkSock (sv_server s) (sv_net s))) as (w & fd & Ha & _ & Hf).
    assert (Hls : on_server Accept s = (set_server (mkSock (sv_server s) w) s, Ret fd)).
    { unfold on_server, zoom. by rewrite Ha. }
    unfold acceptor_step. rewrite (bind_Ret _ _ s s true) by (unfold gets; by rewrite Hrun). cbn [negb].
    rewrite (bind_Ret _ _ _ _ _ Hls).
    rewrite (bind_Ret _ _ (set_server (mkSock (sv_server s) w) s) (set_server (mkSock (sv_server s) w) s) true)
      by (unfold gets; cbn; by rewrite Hrun).
    cbn [negb]. eexists _, _. split; [reflexivity|]. split; [done|]. by destruct (decide (fd = INVALID_SOCKET)).
Qed.

(** *** Witnesses: a client on a network that cuts the bytes into pieces of three *)
Definition sample_session : list request :=
  [(mkRequest ALLOCATE_PAGE 0 0, []); (mkRequest WRITE_PAGE 1 PAGE_SIZE, page_of Byte.x41);
   (mkRequest READ_PAGE 1 0, []); (mkRequest 7 1 0, [])].
Definition daemon {R} (c : machine R) (rs : list request) : StorageService R test_net :=
  mkService (Some c) None 9001 3 4 (mkNet (rs ≫= wire) [] 2 {[3; 4]} 0) true.
Definition new_pool : machine LRU.LRUReplacer := new_machine 128 new_db (LRU.LRUReplacer_new 128).
Definition sample_replies : list byte :=
  reply SUCCESS 1 0 [] ++ reply SUCCESS 1 0 [] ++ reply SUCCESS 1 PAGE_SIZE (page_of Byte.x41) ++
  reply ERROR INVALID_PAGE_ID 0 [].
Definition sample_pages : pages_state := (mkAlloc 2 [] {[1 := page_of Byte.x41]}, 128).

Lemma sample_session_ok : Forall request_ok sample_session.
Proof. unfold sample_session. repeat constructor; vm_compute; done. Qed.
Lemma sample_answers : answers sample_session (empty_alloc, 128) = Some (sample_replies, sample_pages).
Proof. vm_compute. reflexivity. Qed.
Lemma new_pool_rel : store_rel new_pool (idle empty_alloc 128).
Proof. apply lru_new_rel; [lia|apply new_db_rel]. Qed.

Lemma service_session_witness :
  ∃ s' c', HandleClient 5 (daemon new_pool sample_session) = (s', Ret tt) ∧
    os_out (sv_net s') (sv_client (daemon new_pool sample_session)) =
      os_out (sv_net (daemon new_pool sample_session)) (sv_client (daemon new_pool sample_session)) ++ sample_replies ∧ sv_client s' = INVALID_SOCKET ∧ sv_pool s' = Some c' ∧
    store_rel c' (idle sample_pages.1 sample_pages.2).
Proof.
  apply (service_session (daemon new_pool sample_session) new_pool sample_session empty_alloc 128
    sample_replies sample_pages 5); [done|apply new_pool_rel|done|done|done|apply sample_session_ok|
    apply sample_answers|cbn; lia].
Defined.

Definition bad_session : list request := replicate 1 (read_request 9) ++ [read_request 1].
Lemma sample_idle : sample_store = idle (st_alloc sample_store) (Z.of_nat 1).
Proof. vm_compute. reflexivity. Qed.
Lemma bad_reads_exhaust_server_witness :
  ∃ s' c', HandleClient 3 (daemon sample_machine bad_session) = (s', Ret tt) ∧
    os_out (sv_net s') (sv_client (daemon sample_machine bad_session)) =
      os_out (sv_net (daemon sample_machine bad_session)) (sv_client (daemon sample_machine bad_session)) ++
      (replicate 1 (reply ERROR 9 0 []) ≫= id) ++ reply ERROR 1 0 [] ∧
    sv_pool s' = Some c' ∧ store_rel c' (idle (st_alloc sample_store) 0).
Proof.
  apply (bad_reads_exhaust_server (daemon sample_machine bad_session) sample_machine (st_alloc sample_store) 1 9 1 3);
    [done|rewrite <- sample_idle; apply sample_rel|done|done|vm_compute; discriminate|done|done| |done|lia].
  eexists. vm_compute. reflexivity.
Defined.

Lemma service_stop_durable_witness :
  ∃ s' dm dm', Stop (daemon new_pool []) = (s', Ret tt) ∧ sv_pool s' = None ∧ sv_running s' = false ∧
    sv_server s' = INVALID_SOCKET ∧
    os_fds (sv_net s') = os_fds (sv_net (daemon new_pool [])) ∖ {[3]} ∧
    sv_disk s' = Some dm ∧ db_is_open dm = false ∧
    DiskManager_new (Some (db_file dm)) full_access = (dm', Ret tt) ∧
    store_rel (new_machine 4 dm' (Clock.ClockReplacer_new 4)) (new_store 4 empty_alloc).
Proof.
  apply (service_stop_durable (daemon new_pool []) new_pool empty_alloc ∅ 128 4 (Clock.ClockReplacer_new 4) full_access);
    [done|done|apply new_pool_rel|lia|apply Clock.clock_wf_new; lia|done|apply clock_new_set|done].
Defined.
Lemma stop_races_handler_witness :
  ∃ s', Stop (daemon new_pool []) = (s', Ret tt) ∧ serve_request (mkRequest READ_PAGE 1 0) s' = (s', UB).
Proof.
  destruct (stop_races_handler (daemon new_pool []) new_pool empty_alloc ∅ 128 (mkRequest READ_PAGE 1 0)) as (s' & Hs & Hub & _);
    [done|done|apply new_pool_rel|]. exists s'. split; [exact Hs|]. apply Hub. by left.
Defined.
