(* ===== verification/Handlers.v ===== *)
(** The handler threads of the daemon ([HandleClient] in [storage_service.cpp]), many
    at a time on one buffer pool: one client per handler, the steps of the handlers
    interleaved in any way.  A call of the pool is one step, as the latch makes it
    ([Concurrency]); the bytes of a page, which no latch protects, are sent and
    copied piece by piece, and overlapping uses of a page of which one is a write
    are data races. *)
From Stdlib Require Import ZArith Lia.
From Stdlib Require Strings.Byte.
From stdpp Require Import base list gmap relations.
From S2P Require Import Prelude Types DiskManager Replacer BufferPool PageStore Socket Service.
Open Scope Z_scope.
Import protocol.

(** ** What a handler does for a request

    The calls of the pool a handler makes ([Pool]), what it sends from its stack
    ([SendBytes]), and its two accesses to the bytes of a page, which no latch protects
    and which go on for many steps: [SendPage p from], the second [Send] of a
    [READ_PAGE], which takes the bytes out of the frame one [send] at a time,
    [from] of them so far, and [CopyIn p data from], the [memcpy] of a
    [WRITE_PAGE], [from] bytes of which are in the frame.  [Fails] is an
    exception on its way to the [catch] of the request. *)
Inductive work :=
| Pool {X : Type} (op : pool_op X) (k : X → work)
| SendBytes (bs : list byte) (k : work)
| SendPage (p : page_id_t) (from : nat) (k : work)
| CopyIn (p : page_id_t) (data : list byte) (from : nat) (k : work)
| Fails (e : exn)
| Done.

Definition error_reply (r : request) : list byte :=
  let op := op_type r.1 in
  reply ERROR (if decide (op = READ_PAGE ∨ op = WRITE_PAGE ∨ op = DEALLOCATE_PAGE) then req_page_id r.1
               else INVALID_PAGE_ID) 0 [].
Definition request_work (r : request) : work :=
  let op := op_type r.1 in
  let page_id := req_page_id r.1 in
  if decide (op = READ_PAGE) then
    Pool (Fetch page_id) (λ page,
    if negb page then Fails RuntimeError else
    SendBytes (encode_response (mkResponse SUCCESS page_id PAGE_SIZE)) (
    SendPage page_id 0 (
    Pool (Unpin page_id false) (λ _, Done))))
  else if decide (op = WRITE_PAGE) then
    Pool (Fetch page_id) (λ page,
    if negb page then Fails RuntimeError else
    CopyIn page_id r.2 0 (
    Pool (Unpin page_id true) (λ _,
    SendBytes (reply SUCCESS page_id 0 []) Done)))
  else if decide (op = ALLOCATE_PAGE) then
    Pool New (λ page,
    match page with
    | None => Fails RuntimeError
    | Some new_page_id =>
        Pool (Unpin new_page_id true) (λ _,
        SendBytes (reply SUCCESS new_page_id 0 []) Done)
    end)
  else if decide (op = DEALLOCATE_PAGE) then
    Pool (Delete page_id) (λ success,
    if negb success then Fails RuntimeError else
    SendBytes (reply SUCCESS page_id 0 []) Done)
  else SendBytes (error_reply r) Done.

(** ** Handlers at work

    [Busy r w settled todo]: the handler is at [w] in its work for [r]; [settled]
    once the calls made so far have decided the reply. *)
Inductive handler :=
| Idle (todo : list request)
| Busy (r : request) (w : work) (settled : bool) (todo : list request).

(** Bytes of a page, and how many of them a [send] or a part of [memcpy] moves when
    [from] have been moved: at least one, at most what is left. *)
Definition page_size : nat := Z.to_nat PAGE_SIZE.
Definition part (n from : nat) : nat := S n `min` (page_size - from).
(** The [n] bytes of [data] from [from] on, copied over those of [d]. *)
Definition copied (from n : nat) (data d : list byte) : list byte :=
  take from d ++ take n (drop from data) ++ drop (from + n) d.

Section handlers.
Context {R : Type} `{HR : Replacer R}.

(** The call that settles the reply: the pin on the page to read or to write, or the
    call that allocates or frees the page. What is settled is the reply, with the bytes the page has then. *)
Definition settles {X} (r : request) (op : pool_op X) : X → machine R → option (list byte) :=
  match op in pool_op X return X → machine R → option (list byte) with
  | Fetch p => λ page m,
      if negb page then None
      else if decide (op_type r.1 = READ_PAGE) then
        match (exec_call (Read p) m).2 with Ret d => Some (reply SUCCESS p PAGE_SIZE d) | _ => None end
      else Some (reply SUCCESS p 0 [])
  | New => λ o _, (λ q, reply SUCCESS q 0 []) <$> o
  | Delete p => λ success _, if success : bool then Some (reply SUCCESS p 0 []) else None
  | _ => λ _ _, None
  end.

(** One step of the work for [r]: what is left to do, the bytes sent, and the reply
    that is settled; [None] if there is nothing left to do or the step is undefined.  [n]
    is what the operating system makes of a [send], and the processor of a [memcpy]. *)
Definition work_step (r : request) (n : nat) (w : work) (m : machine R)
    : option (work * machine R * list byte * option (list byte)) :=
  match w with
  | Pool op k =>
      match exec_call op m with
      | (m', Ret x) => Some (k x, m', [], settles r op x m')
      | (m', Throw e) => Some (Fails e, m', [], None)
      | (_, UB) => None
      end
  | SendBytes bs k => Some (k, m, bs, Some bs)
  | SendPage p from k =>
      if decide (from = page_size) then Some (k, m, [], None) else
      match exec_call (Read p) m with
      | (m', Ret d) => Some (SendPage p (from + part n from) k, m', take (part n from) (drop from d), None)
      | _ => None
      end
  | CopyIn p data from k =>
      if decide (from = page_size) then Some (k, m, [], None) else
      match exec_call (Read p) m with
      | (m', Ret d) =>
          match exec_call (Write p (copied from (part n from) data d)) m' with
          | (m'', Ret _) => Some (CopyIn p data (from + part n from) k, m'', [], None)
          | _ => None
          end
      | _ => None
      end
  | Fails e => Some (SendBytes (error_reply r) Done, m, [], None)
  | Done => None
  end.

(** The handlers over the pool. [sv_log] lists the settled requests with their
    replies in the order in which they were settled, [sv_sent] the bytes in the
    order in which they were sent, each with the index of its handler. *)
Record server := mkServer {
  sv_handlers : list handler;
  sv_machine : machine R;
  sv_log : list (nat * (request * list byte));
  sv_sent : list (nat * list byte);
}.
Definition note (i : nat) (r : request) (o : option (list byte)) : list (nat * (request * list byte)) :=
  match o with Some rep => [(i, (r, rep))] | None => [] end.

(** A request is settled once. *)
Definition unless (settled : bool) (o : option (list byte)) : option (list byte) := if settled then None else o.
Inductive server_step : server → server → Prop :=
| ss_receive hs m log sent i r todo : hs !! i = Some (Idle (r :: todo)) →
    server_step (mkServer hs m log sent) (mkServer (<[i := Busy r (request_work r) false todo]> hs) m log sent)
| ss_work hs m log sent i r w c todo n w' m' bs o : hs !! i = Some (Busy r w c todo) →
    work_step r n w m = Some (w', m', bs, o) →
    server_step (mkServer hs m log sent)
      (mkServer (<[i := Busy r w' (c || bool_decide (is_Some o)) todo]> hs) m' (log ++ note i r (unless c o)) (sent ++ [(i, bs)]))
| ss_done hs m log sent i r c todo : hs !! i = Some (Busy r Done c todo) →
    server_step (mkServer hs m log sent) (mkServer (<[i := Idle todo]> hs) m log sent).
Definition serving (clients : list (list request)) (m : machine R) : server :=
  mkServer (Idle <$> clients) m [] [].

(** *** Data races

    A handler that reads or writes a page uses it from [FetchPage] to [UnpinPage]. When
    two uses of a page do not overlap, the first ends with a call of the pool and the
    second begins with one, and the latch of the pool orders their accesses. When they
    overlap nothing does, and if one of them is a write the accesses are a data
    race, whatever the schedule: undefined behaviour. *)
Fixpoint pin_of (w : work) : option page_id_t :=
  match w with
  | Pool (Unpin p _) _ | SendPage p _ _ | CopyIn p _ _ _ => Some p
  | SendBytes _ k => pin_of k
  | _ => None
  end.
Definition accesses (r : request) : Prop := op_type r.1 = READ_PAGE ∨ op_type r.1 = WRITE_PAGE.
#[global] Instance accesses_dec r : Decision (accesses r).
Proof. unfold accesses. apply _. Defined.
(** The page a handler uses, and whether it writes. *)
Definition uses (t : handler) : option (page_id_t * bool) :=
  match t with
  | Busy r w _ _ => if decide (accesses r) then (λ p, (p, bool_decide (op_type r.1 = WRITE_PAGE))) <$> pin_of w else None
  | Idle _ => None
  end.
Definition compatible (u v : option (page_id_t * bool)) : bool :=
  match u, v with Some (p, b), Some (q, b') => negb (p =? q) || negb (b || b') | _, _ => true end.
Fixpoint race_free (us : list (option (page_id_t * bool))) : bool :=
  match us with [] => true | u :: us => forallb (compatible u) us && race_free us end.
Definition calm (s : server) : Prop := race_free (uses <$> sv_handlers s) = true.
(** The defined steps: those that do not lead to a race. *)
Definition calm_step (s s' : server) : Prop := server_step s s' ∧ calm s'.
End handlers.
Arguments server R : clear implicits.
#[global] Opaque page_size.

(** ** The page server the clients see

    What a request does to the pages, and its reply; a request that is refused does
    nothing. *)
Inductive effect (a : alloc_state) (r : request) : list byte → alloc_state → Prop :=
| ef_read d : op_type r.1 = READ_PAGE → al_live a !! req_page_id r.1 = Some d →
    effect a r (reply SUCCESS (req_page_id r.1) PAGE_SIZE d) a
| ef_write : op_type r.1 = WRITE_PAGE → is_Some (al_live a !! req_page_id r.1) →
    effect a r (reply SUCCESS (req_page_id r.1) 0 []) (set_live (req_page_id r.1) r.2 a)
| ef_allocate q a' : op_type r.1 = ALLOCATE_PAGE → fresh_page a = Some (q, a') →
    effect a r (reply SUCCESS q 0 []) a'
| ef_deallocate : op_type r.1 = DEALLOCATE_PAGE → is_Some (al_live a !! req_page_id r.1) →
    effect a r (reply SUCCESS (req_page_id r.1) 0 []) (dead_page (req_page_id r.1) a)
| ef_refuse : effect a r (error_reply r) a.
Inductive history (a0 : alloc_state) : list (nat * (request * list byte)) → alloc_state → Prop :=
| hi_nil : history a0 [] a0
| hi_snoc log i r rep a a' : history a0 log a → effect a r rep a' → history a0 (log ++ [(i, (r, rep))]) a'.

Lemma history_app a0 log a log' a' : history a0 log a → history a log' a' → history a0 (log ++ log') a'.
Proof.
  intros H. induction 1 as [|log' i r rep b b' _ IH He]; [by rewrite app_nil_r|]. rewrite app_assoc. by econstructor.
Qed.

(** The clients name pages with care: what one of them frees is an allocated page
    that no other request names, and nobody reads or writes a page that is free at
    the start. *)
Definition freed (reqs : list request) : list page_id_t :=
  (λ r, req_page_id r.1) <$> filter (λ r, op_type r.1 = DEALLOCATE_PAGE) reqs.
Record careful (a : alloc_state) (reqs : list request) : Prop := {
  ca_ok r : r ∈ reqs → request_ok r;
  ca_page r : r ∈ reqs → accesses r → 1 ≤ req_page_id r.1;
  ca_not_free r : r ∈ reqs → accesses r → req_page_id r.1 ∉ al_free a;
  ca_not_freed r : r ∈ reqs → accesses r → req_page_id r.1 ∉ freed reqs;
  ca_freed p : p ∈ freed reqs → is_Some (al_live a !! p);
  ca_once : NoDup (freed reqs);
  ca_room : al_num a + zlen reqs < INVALID_PAGE_ID;
}.

(** ** Where a handler is in its work

    [live] and [hist] are the pages as they are and as the settled requests leave
    them: a page that is being copied has the first bytes of the one and the last
    ones of what was there before. The indexes after the work: whether the
    request is settled, the pin the handler holds, with [true] for a page it has
    written and not yet unpinned as dirty, whether the first call is still to be
    made, the bytes of the settled reply that are still to be sent, and the number of
    steps left. *)
Abbreviation hold := (option (page_id_t * bool)).
Inductive doing (live hist : gmap page_id_t (list byte)) (r : request)
    : work → bool → hold → bool → list byte → nat → Prop :=
| do_start : request_ok r → doing live hist r (request_work r) false None true [] (page_size + 6)
| do_header p d : op_type r.1 = READ_PAGE → p = req_page_id r.1 → live !! p = Some d → length d = page_size →
    doing live hist r (SendBytes (encode_response (mkResponse SUCCESS p PAGE_SIZE))
        (SendPage p 0 (Pool (Unpin p false) (λ _, Done)))) true (Some (p, false)) false
      (reply SUCCESS p PAGE_SIZE d) (page_size + 5)
| do_page p d from : op_type r.1 = READ_PAGE → p = req_page_id r.1 → live !! p = Some d → length d = page_size →
    (from <= page_size)%nat →
    doing live hist r (SendPage p from (Pool (Unpin p false) (λ _, Done))) true (Some (p, false)) false
      (drop from d) (page_size - from + 4)
| do_copy p old from : op_type r.1 = WRITE_PAGE → p = req_page_id r.1 → length r.2 = page_size →
    live !! p = Some (take from r.2 ++ drop from old) → length old = page_size → hist !! p = Some r.2 →
    (from <= page_size)%nat →
    doing live hist r (CopyIn p r.2 from (Pool (Unpin p true) (λ _, SendBytes (reply SUCCESS p 0 []) Done)))
      true (Some (p, bool_decide (0 < from)%nat)) false (reply SUCCESS p 0 []) (page_size - from + 4)
| do_unpin p b w rep : (accesses r → p = req_page_id r.1) → (w = Done ∧ rep = [] ∨ w = SendBytes rep Done) →
    doing live hist r (Pool (Unpin p b) (λ _, w)) true (Some (p, b)) false rep 3
| do_answer rep : doing live hist r (SendBytes rep Done) true None false rep 2
| do_refuse : doing live hist r (SendBytes (error_reply r) Done) false None false [] 2
| do_throw e : doing live hist r (Fails e) false None false [] 3
| do_done : doing live hist r Done true None false [] 1.

Lemma zlen_page (d : list byte) : zlen d = PAGE_SIZE ↔ length d = page_size.
Proof. with_strategy transparent [page_size] unfold page_size. assert (0 ≤ PAGE_SIZE) by done. lia. Qed.
Lemma page_size_pos : (0 < page_size)%nat.
Proof. with_strategy transparent [page_size] unfold page_size. assert (0 < PAGE_SIZE) by done. lia. Qed.
Lemma part_bounds n from : (from < page_size)%nat → (0 < part n from)%nat ∧ (from + part n from <= page_size)%nat.
Proof. unfold part. lia. Qed.
(** The parts of [memcpy] make up the whole. *)
Lemma copied_part from n (data old : list byte) : length data = length old → (from + n <= length data)%nat →
  copied from n data (take from data ++ drop from old) = take (from + n) data ++ drop (from + n) old.
Proof.
  intros Hl Hn. unfold copied. rewrite take_app_le by (rewrite length_take; lia). rewrite take_take, Nat.min_id.
  rewrite drop_app_ge by (rewrite length_take; lia). rewrite length_take, drop_drop.
  rewrite app_assoc. f_equal; [|f_equal; lia]. rewrite <- (take_drop from (take (from + n) data)).
  rewrite take_take, skipn_firstn_comm. f_equal; f_equal; lia.
Qed.
Lemma doing_settled live hist r w c h (b : bool) owes left : doing live hist r w c h b owes left → b = true → c = false.
Proof. by intros []. Qed.
(** The work depends on the page it uses only. *)
Lemma doing_stable live hist live' hist' r w c h b owes left : doing live hist r w c h b owes left →
  (∀ p, accesses r → pin_of w = Some p → live' !! p = live !! p ∧ hist' !! p = hist !! p) →
  doing live' hist' r w c h b owes left.
Proof.
  intros Hd Hsame. destruct Hd as [Hok|p d Hop Hp Hl Hz|p d from Hop Hp Hl Hz Hf|p old from Hop Hp Hz Hl Ho Hh Hf|p b w rep Hp Hw|rep| |e|];
    try (by constructor); destruct (Hsame p) as [E1 E2]; try (by left); try (by right); try done;
    econstructor; try done; try congruence.
Qed.

(** ** The pins of the handlers *)
Definition holds (p : page_id_t) (h : hold) : Z :=
  match h with Some (q, _) => if decide (q = p) then 1 else 0 | None => 0 end.
Fixpoint held (p : page_id_t) (hs : list hold) : Z :=
  match hs with [] => 0 | h :: hs => holds p h + held p hs end.
Record pins_of (hs : list hold) (m : gmap page_id_t Z) (W : gset page_id_t) : Prop := {
  po_count p : default 0 (m !! p) = held p hs;
  po_pos p k : m !! p = Some k → 0 < k;
  po_unflagged p : p ∈ W → ∃ i, hs !! i = Some (Some (p, true));
}.

Lemma held_insert p hs i h h' : hs !! i = Some h → held p (<[i := h']> hs) = held p hs - holds p h + holds p h'.
Proof.
  revert i. induction hs as [|x hs IH]; intros [|i] Hi; try done; cbn [held insert list_insert] in *.
  - injection Hi as <-. lia.
  - rewrite IH by done. lia.
Qed.
Lemma held_nonneg p hs : 0 ≤ held p hs.
Proof.
  induction hs as [|h hs IH]; [done|]. cbn [held]. unfold holds. destruct h as [[q b]|]; [case_decide|]; lia.
Qed.
Lemma held_le p hs i h : hs !! i = Some h → holds p h ≤ held p hs.
Proof.
  intros Hi. pose proof (held_insert p hs i h None Hi) as He. pose proof (held_nonneg p (<[i := None]> hs)).
  change (holds p None) with 0 in He. lia.
Qed.
(** Two handlers that hold a page. *)
Lemma held_two p hs i j h h' : hs !! i = Some h → hs !! j = Some h' → i ≠ j → holds p h + holds p h' ≤ held p hs.
Proof.
  intros Hi Hj Hne. pose proof (held_insert p hs i h None Hi) as He. change (holds p None) with 0 in He.
  pose proof (held_le p (<[i := None]> hs) j h') as Hle. rewrite list_lookup_insert_ne in Hle by done.
  specialize (Hle Hj). lia.
Qed.

(** A pin is taken, with or without a write to flag. *)
Lemma pins_take (hs : list hold) (m : gmap page_id_t Z) (W : gset page_id_t) i (p : page_id_t) (b : bool) : pins_of hs m W → hs !! i = Some None →
  pins_of (<[i := Some (p, b)]> hs) (<[p := default 0 (m !! p) + 1]> m) (if b then ({[p]} ∪ W : gset page_id_t) else W).
Proof.
  intros [Hc Hp HW] Hi. pose proof (held_nonneg p hs) as H0. split.
  - intros q. rewrite (held_insert q hs i None) by done. cbn [holds]. rewrite lookup_insert.
    case_decide as Hq; [subst q|]; [cbn; rewrite Hc; lia|rewrite Hc; lia].
  - intros q k. rewrite lookup_insert. case_decide; [|apply Hp]. intros [= <-]. rewrite Hc. lia.
  - intros q Hq. assert (Hold : q ∈ W → ∃ j, <[i := Some (p, b)]> hs !! j = Some (Some (q, true))).
    { intros (j & Hj)%HW. exists j. rewrite list_lookup_insert_ne; [done|]. intros <-. congruence. }
    destruct b; [|by apply Hold]. apply elem_of_union in Hq as [->%elem_of_singleton|Hq]; [|by apply Hold].
    exists i. apply list_lookup_insert_eq. by eapply lookup_lt_Some.
Qed.
(** A pinned page is written. *)
Lemma pins_write (hs : list hold) (m : gmap page_id_t Z) (W : gset page_id_t) i (p : page_id_t) (b : bool) : pins_of hs m W → hs !! i = Some (Some (p, b)) →
  pins_of (<[i := Some (p, true)]> hs) m ({[p]} ∪ W).
Proof.
  intros [Hc Hp HW] Hi. split; [|done|].
  - intros q. rewrite (held_insert q hs i _ _ Hi), Hc. cbn [holds]. lia.
  - intros q [->%elem_of_singleton|Hq]%elem_of_union.
    + exists i. apply list_lookup_insert_eq. by eapply lookup_lt_Some.
    + destruct (HW q Hq) as (j & Hj). exists j. destruct (decide (i = j)) as [<-|]; [|by rewrite list_lookup_insert_ne].
      rewrite Hi in Hj. injection Hj as -> ->. apply list_lookup_insert_eq. by eapply lookup_lt_Some.
Qed.
(** A pin is given back; a handler that has not written drops no write of another. *)
Lemma pins_drop (hs : list hold) (m : gmap page_id_t Z) (W : gset page_id_t) i (p : page_id_t) (b : bool) : pins_of hs m W → hs !! i = Some (Some (p, b)) →
  ∃ k, m !! p = Some k ∧ (b = true ∨ p ∉ W ∨ 1 < k) ∧
    pins_of (<[i := None]> hs) (if decide (k = 1) then delete p m else <[p := k - 1]> m) (unpin_W b p W).
Proof.
  intros [Hc Hp HW] Hi. pose proof (held_le p hs i _ Hi) as Hle. cbn [holds] in Hle. rewrite decide_True in Hle by done.
  destruct (m !! p) as [k|] eqn:Hk; [|specialize (Hc p); rewrite Hk in Hc; cbn in Hc; lia].
  assert (Hkp : k = held p hs) by (by rewrite <- Hc, Hk). exists k. split; [done|]. split.
  - destruct b; [by left|]. destruct (decide (p ∈ W)) as [(j & Hj)%HW|]; [|by right; left]. right; right.
    pose proof (held_two p hs i j _ _ Hi Hj) as H2. cbn [holds] in H2. rewrite !decide_True in H2 by done.
    rewrite Hkp. enough (i ≠ j) by (specialize (H2 H); lia). intros <-. congruence.
  - split.
    + intros q. rewrite (held_insert q hs i _ _ Hi). cbn [holds]. case_decide as H1.
      * rewrite lookup_delete. case_decide as Hq; [subst q; cbn; lia|rewrite Hc; lia].
      * rewrite lookup_insert. case_decide as Hq; [subst q; cbn; lia|rewrite Hc; lia].
    + intros q l. case_decide.
      * rewrite lookup_delete. case_decide; [done|apply Hp].
      * rewrite lookup_insert. case_decide; [intros [= <-]; lia|apply Hp].
    + intros q Hq. assert (Hq' : q ∈ W ∧ (b = true → q ≠ p)) by (destruct b; cbn in Hq; set_solver).
      destruct Hq' as [(j & Hj)%HW Hne]. exists j. rewrite list_lookup_insert_ne; [done|]. intros <-.
      rewrite Hi in Hj. injection Hj as -> ->. by apply Hne.
Qed.

(** ** Races *)
Lemma compatible_sym u v : compatible u v = compatible v u.
Proof. destruct u as [[p b]|], v as [[q b']|]; try done. unfold compatible. rewrite (Z.eqb_sym p q). by destruct b, b'. Qed.
Lemma race_free_spec us : race_free us = true ↔
  ∀ i j u v, i ≠ j → us !! i = Some u → us !! j = Some v → compatible u v = true.
Proof.
  induction us as [|u us IH]; [split; [by intros _ i j ? ? ?|done]|]. cbn [race_free].
  rewrite andb_true_iff, List.forallb_forall, IH. split.
  - intros [Hu Hus] [|i] [|j] x y Hij Hx Hy; [done|..].
    + injection Hx as <-. apply Hu, list_elem_of_In, list_elem_of_lookup. by exists j.
    + injection Hy as <-. rewrite compatible_sym. apply Hu, list_elem_of_In, list_elem_of_lookup. by exists i.
    + apply (Hus i j x y); [by intros ->|done..].
  - intros H. split; [|intros i j x y Hij Hx Hy; by apply (H (S i) (S j) x y); [intros [= ->]|..]].
    intros v [j Hj]%list_elem_of_In%list_elem_of_lookup. by apply (H 0%nat (S j) u v).
Qed.
Lemma calm_uses {R} `{HR : Replacer R} (s : server R) i j t t' p b b' : calm s → i ≠ j →
  sv_handlers s !! i = Some t → sv_handlers s !! j = Some t' → uses t = Some (p, b) → uses t' = Some (p, b') →
  b = false ∧ b' = false.
Proof.
  intros Hs Hij Hi Hj Ht Ht'. pose proof (proj1 (race_free_spec _) Hs i j (uses t) (uses t') Hij) as H.
  rewrite !list_lookup_fmap, Hi, Hj in H. specialize (H eq_refl eq_refl). rewrite Ht, Ht' in H. unfold compatible in H.
  rewrite Z.eqb_refl in H. by destruct b, b'.
Qed.

(** ** Clients that take care *)
Lemma freed_cons r reqs : freed (r :: reqs) =
  if decide (op_type r.1 = DEALLOCATE_PAGE) then req_page_id r.1 :: freed reqs else freed reqs.
Proof. unfold freed. rewrite filter_cons. by case_decide. Qed.
#[export] Instance freed_perm : Proper ((≡ₚ) ==> (≡ₚ)) freed.
Proof. intros l l' Hl. unfold freed. by rewrite Hl. Qed.
#[export] Instance careful_perm a : Proper ((≡ₚ) ==> iff) (careful a).
Proof.
  assert (Himp : ∀ l l', l ≡ₚ l' → careful a l → careful a l').
  { intros l l' Hl [H1 H2 H3 H4 H5 H6 H7]. pose proof (freed_perm l l' Hl) as Hf. split.
    1-4: intros r; rewrite <- ?Hf, <- Hl; auto.
    - intros p. rewrite <- Hf. apply H5.
    - by rewrite <- Hf.
    - by rewrite <- Hl. }
  intros l l' Hl. split; by apply Himp.
Qed.

(** The pages behind the requests that are still to come change under the others. *)
Record kept (a a' : alloc_state) (frees : list page_id_t) : Prop := {
  kp_free p : p ∈ al_free a' → p ∈ al_free a ∨ p ∈ frees;
  kp_live p : p ∉ frees → is_Some (al_live a !! p) → is_Some (al_live a' !! p);
  kp_num : al_num a' ≤ al_num a + 1;
}.
Lemma careful_kept a a' r rest : careful a (r :: rest) →
  kept a a' (if decide (op_type r.1 = DEALLOCATE_PAGE) then [req_page_id r.1] else []) → careful a' rest.
Proof.
  intros [H1 H2 H3 H4 H5 H6 H7] [Hf Hl Hn].
  assert (Hfr : ∀ p, p ∈ freed (r :: rest) ↔
    p ∈ (if decide (op_type r.1 = DEALLOCATE_PAGE) then [req_page_id r.1] else []) ∨ p ∈ freed rest).
  { intros p. rewrite freed_cons. case_decide; rewrite ?elem_of_cons, ?elem_of_nil; set_solver. }
  assert (Hnd : NoDup (freed rest) ∧
    ∀ p, p ∈ freed rest → p ∉ (if decide (op_type r.1 = DEALLOCATE_PAGE) then [req_page_id r.1] else [])).
  { rewrite freed_cons in H6. case_decide; [|split; [done|intros p _; apply not_elem_of_nil]].
    apply NoDup_cons in H6 as [Hn' H6]. split; [done|]. intros p Hp ->%list_elem_of_singleton. done. }
  split.
  - intros x Hx. apply H1. by right.
  - intros x Hx. apply H2. by right.
  - intros x Hx Ha [Hp|Hp]%Hf.
    + by apply (H3 x); [right|..].
    + apply (H4 x); [by right|done|]. apply Hfr. by left.
  - intros x Hx Ha Hp. apply (H4 x); [by right|done|]. apply Hfr. by right.
  - intros p Hp. apply Hl; [by apply Hnd|]. apply H5, Hfr. by right.
  - apply Hnd.
  - rewrite length_cons in H7. lia.
Qed.
Lemma kept_refl a l : kept a a l.
Proof. split; [by left|done|lia]. Qed.
Lemma kept_fresh a q a' l : alloc_ok a → fresh_page a = Some (q, a') → kept a a' l.
Proof.
  intros Ha Hf. destruct (fresh_page_ok _ _ _ Ha Hf) as (_ & _ & Hl). split.
  - intros p Hp. left. revert Hf Hp. unfold fresh_page. destruct (al_free a) as [|x fl]; [case_decide; [|done]|];
      intros [= <- <-]; cbn; [by intros ?%not_elem_of_nil|]. by right.
  - intros p _ Hp. rewrite Hl, lookup_insert. case_decide; eauto.
  - by eapply fresh_page_num.
Qed.
Lemma kept_dead a p : kept a (dead_page p a) [p].
Proof.
  split; cbn.
  - intros q [->|Hq]%elem_of_cons; [right; by left|by left].
  - intros q Hq%not_elem_of_cons Hl. by rewrite lookup_delete_ne by (intros ->; tauto).
  - lia.
Qed.
Lemma careful_write a p d reqs : careful a reqs → careful (set_live p d a) reqs.
Proof.
  intros [H1 H2 H3 H4 H5 H6 H7]. split; try done. intros q Hq. cbn. rewrite lookup_insert.
  case_decide; [eauto|by apply H5].
Qed.

(** ** One step of a handler *)

(** The page that is being copied. *)
Definition copying (w : work) : option page_id_t := match w with CopyIn p _ _ _ => Some p | _ => None end.

Section serving.
Context {R : Type} `{HR : Replacer R, !ReplacerLaws R}.

Record pool_at (hs : list hold) (c : machine R) (a : alloc_state) (reqs : list request) W m n : Prop := {
  pa_rel : store_rel c (mkStore a W m n);
  pa_live : pins_ok m a;
  pa_pins : pins_of hs m W;
  pa_careful : careful a reqs;
}.
Lemma pool_alloc hs c a reqs W m n : pool_at hs c a reqs W m n → alloc_ok a.
Proof. intros [Hr _ _ _]. by apply (rel_alloc_ok _ _ Hr). Qed.
Lemma pool_held hs c a reqs W m n i p b : pool_at hs c a reqs W m n → hs !! i = Some (Some (p, b)) →
  ∃ k d, m !! p = Some k ∧ al_live a !! p = Some d ∧ length d = page_size.
Proof.
  intros [Hr Hm Hp _] Hi. destruct (pins_drop hs m W i p b Hp Hi) as (k & Hk & _).
  destruct (Hm p k Hk) as [_ [d Hd]]. exists k, d. split; [done|]. split; [done|].
  apply zlen_page. by apply (ao_len _ (rel_alloc_ok _ _ Hr) p).
Qed.
Lemma pool_less hs c a r reqs W m n : pool_at hs c a (r :: reqs) W m n → pool_at hs c a reqs W m n.
Proof. intros [H1 H2 H3 H4]. split; try done. eapply careful_kept; [exact H4|apply kept_refl]. Qed.

(** The accesses to the bytes of a page under a pin. *)
Lemma read_pinned hs c a reqs W m n i p b : pool_at hs c a reqs W m n → hs !! i = Some (Some (p, b)) →
  ∃ c' d, exec_call (Read p) c = (c', Ret d) ∧ al_live a !! p = Some d ∧ length d = page_size ∧
    pool_at hs c' a reqs W m n.
Proof.
  intros Hpool Hi. destruct (pool_held _ _ _ _ _ _ _ _ _ _ Hpool Hi) as (k & d & Hk & Hd & Hz).
  destruct Hpool as [Hr Hm Hp Hc].
  destruct (sim_call (Read p) c (mkStore a W m n) (Ret d) (mkStore a W m n) Hr) as (c' & Hex & Hr').
  { cbn [store_step]. unfold st_live. cbn [st_pins st_alloc]. by rewrite Hk, Hd. }
  exists c', d. done.
Qed.
Lemma write_pinned hs c a reqs W m n i p b d : pool_at hs c a reqs W m n → hs !! i = Some (Some (p, b)) →
  length d = page_size →
  ∃ c', exec_call (Write p d) c = (c', Ret tt) ∧
    pool_at (<[i := Some (p, true)]> hs) c' (set_live p d a) reqs ({[p]} ∪ W) m n.
Proof.
  intros Hpool Hi Hz. destruct (pool_held _ _ _ _ _ _ _ _ _ _ Hpool Hi) as (k & d0 & Hk & Hd & _).
  destruct Hpool as [Hr Hm Hp Hc].
  destruct (sim_call (Write p d) c (mkStore a W m n) (Ret tt) (mkStore (set_live p d a) ({[p]} ∪ W) m n) Hr) as (c' & Hex & Hr').
  { cbn [store_step]. cbn [st_pins st_alloc st_unflagged st_frames]. rewrite Hk, decide_True; [done|]. by apply zlen_page. }
  exists c'. split; [done|]. split; [done|by apply pins_ok_live|by eapply pins_write|by apply careful_write].
Qed.

(** What [FetchPage] can do for a page that is not free. *)
Lemma fetch_step a W m n p : alloc_ok a → pins_ok m a → 1 ≤ p → p ∉ al_free a →
  store_step (Fetch p) (mkStore a W m n) = Some (Ret false, mkStore a W m n) ∨
  store_step (Fetch p) (mkStore a W m n) = Some (Throw OutOfRange, mkStore a W m (n - 1)) ∨
  (is_Some (al_live a !! p) ∧ store_step (Fetch p) (mkStore a W m n) =
     Some (Ret true, mkStore a W (<[p := default 0 (m !! p) + 1]> m) n)).
Proof.
  intros Ha Hm Hp Hfree. cbn [store_step]. unfold st_live, set_pins. cbn [st_alloc st_unflagged st_pins st_frames].
  destruct (decide (p = INVALID_PAGE_ID)); [by left|]. destruct (m !! p) as [k|] eqn:Hk.
  { right. right. destruct (Hm p k Hk). done. }
  destruct (decide (is_Some (al_live a !! p))) as [Hl|Hl]; [destruct (st_full _); [by left|by right; right]|].
  rewrite decide_True; [destruct (st_full _); [by left|by right; left]|].
  rewrite (ao_live _ Ha) in Hl. destruct (decide (al_num a ≤ p)); [done|]. exfalso. apply Hl. split; [lia|done].
Qed.
Lemma fetch_run hs i c a r rest W m n : pool_at hs c a (r :: rest) W m n → hs !! i = Some None → accesses r →
  ∃ c', (∃ m', exec_call (Fetch (req_page_id r.1)) c = (c', Ret true) ∧
           pool_at (<[i := Some (req_page_id r.1, false)]> hs) c' a rest W m' n) ∨
        (∃ n', (exec_call (Fetch (req_page_id r.1)) c = (c', Ret false) ∨
                exec_call (Fetch (req_page_id r.1)) c = (c', Throw OutOfRange)) ∧ pool_at hs c' a rest W m n').
Proof.
  intros Hpool Hi Hacc. pose proof (pool_alloc _ _ _ _ _ _ _ Hpool) as Ha.
  destruct (pool_less _ _ _ _ _ _ _ _ Hpool) as [_ _ _ Hrest]. destruct Hpool as [Hr Hm Hp Hc].
  destruct (fetch_step a W m n (req_page_id r.1) Ha Hm) as [Hs|[Hs|[Hl Hs]]].
  { apply (ca_page _ _ Hc); [by left|done]. }
  { apply (ca_not_free _ _ Hc); [by left|done]. }
  - destruct (sim_call _ _ _ _ _ Hr Hs) as (c' & Hex & Hr'). exists c'. right. exists n. split; [by left|done].
  - destruct (sim_call _ _ _ _ _ Hr Hs) as (c' & Hex & Hr'). exists c'. right. exists (n - 1). split; [by right|done].
  - destruct (sim_call _ _ _ _ _ Hr Hs) as (c' & Hex & Hr'). exists c'. left. eexists. split; [exact Hex|].
    split; [done| |by apply (pins_take hs m W i _ false)|done]. by apply pins_ok_pin.
Qed.

(** The other handlers: the pages they use ([watched]), and of these the ones they
    are copying ([foreign]). *)
Record others (hs : list hold) (i : nat) (watched foreign : page_id_t → Prop) : Prop := {
  ot_held p : watched p → ∃ j b, j ≠ i ∧ hs !! j = Some (Some (p, b));
  ot_foreign p : foreign p → watched p;
}.
(** The pages as the settled requests leave them: all but those being copied. *)
Record lag (foreign : page_id_t → Prop) (w : work) (a ah : alloc_state) : Prop := {
  lg_num : al_num ah = al_num a;
  lg_free : al_free ah = al_free a;
  lg_live p : copying w = Some p ∨ foreign p ∨ al_live ah !! p = al_live a !! p;
}.
(** No race with the page that the handler uses after the step. *)
Record apart_from (watched foreign : page_id_t → Prop) (r : request) (w : work) : Prop := {
  af_read p : accesses r → pin_of w = Some p → ¬ foreign p;
  af_write p : op_type r.1 = WRITE_PAGE → pin_of w = Some p → ¬ watched p;
}.

(** What a step of handler [i] leads to. *)
Record moved (hs : list hold) (i : nat) (watched foreign : page_id_t → Prop) (rest : list request) (r : request)
    (a ah : alloc_state) (c : bool) (owes : list byte) (left : nat) (w' : work) (c' : machine R) (bs : list byte)
    (o : option (list byte)) (h' : hold) (owes' : list byte) (left' : nat) (a' ah' : alloc_state) W' m' n' : Prop := {
  mv_doing : doing (al_live a') (al_live ah') r w' (c || bool_decide (is_Some o)) h' false owes' left';
  mv_pool : pool_at (<[i := h']> hs) c' a' rest W' m' n';
  mv_reply : match unless c o with
    | Some rep => effect ah r rep ah' ∧ owes = [] ∧ rep = bs ++ owes'
    | None => ah' = ah ∧ owes = bs ++ owes'
    end;
  mv_lag : lag foreign w' a' ah';
  mv_stable p : watched p → al_live a' !! p = al_live a !! p ∧ al_live ah' !! p = al_live ah !! p;
  mv_left : (left' < left)%nat;
}.
Definition moves hs i (watched foreign : page_id_t → Prop) rest r a ah n w c (st : bool) owes left : Prop :=
  ∃ w' c' bs o, work_step r n w c = Some (w', c', bs, o) ∧
    (apart_from watched foreign r w' → ∃ h' owes' left' a' ah' W' m' n',
       moved hs i watched foreign rest r a ah st owes left w' c' bs o h' owes' left' a' ah' W' m' n').

Lemma lag_same foreign w w' a ah : lag foreign w a ah → copying w = None → lag foreign w' a ah.
Proof. intros [H1 H2 H3] Hw. split; [done..|]. intros p. destruct (H3 p) as [Hp|[Hp|Hp]]; [congruence|by right; left|by right; right]. Qed.

(** A step that changes no page and settles nothing. *)
Lemma quiet_moved hs i watched foreign rest r a ah n w c st owes left w' c' bs o h' owes' left' W' m' n' :
  work_step r n w c = Some (w', c', bs, o) → unless st o = None →
  lag foreign w a ah → copying w = None → pool_at (<[i := h']> hs) c' a rest W' m' n' →
  doing (al_live a) (al_live ah) r w' (st || bool_decide (is_Some o)) h' false owes' left' →
  owes = bs ++ owes' → (left' < left)%nat →
  moves hs i watched foreign rest r a ah n w c st owes left.
Proof.
  intros Hw Ho Hlag Hcp Hpool Hd Hbs Hl. exists w', c', bs, o. split; [exact Hw|]. intros _.
  exists h', owes', left', a, ah, W', m', n'. split; [exact Hd|exact Hpool| |by eapply lag_same|done|exact Hl].
  by rewrite Ho.
Qed.

Section step.
Context (hs : list hold) (i : nat) (watched foreign : page_id_t → Prop) (Hot : others hs i watched foreign).
Context (r : request) (c : machine R) (a ah : alloc_state) (rest : list request) (W : gset page_id_t)
  (m : gmap page_id_t Z) (n : Z) (k : nat).

Lemma unpin_moves p b w rep : pool_at hs c a rest W m n → hs !! i = Some (Some (p, b)) →
  w = Done ∧ rep = [] ∨ w = SendBytes rep Done → lag foreign (Pool (Unpin p b) (λ _, w)) a ah →
  moves hs i watched foreign rest r a ah k (Pool (Unpin p b) (λ _, w)) c true rep 3.
Proof using Type*.
  intros [Hr Hm Hp Hc] Hi Hw Hlag. destruct (pins_drop hs m W i p b Hp Hi) as (l & Hk & Hd & Hp').
  destruct (sim_call (Unpin p b) c _ (Ret true)
    (mkStore a (unpin_W b p W) (if decide (l = 1) then delete p m else <[p := l - 1]> m) n) Hr) as (c' & Hex & Hr').
  { cbn [store_step]. cbn [st_pins st_unflagged st_alloc st_frames]. by rewrite Hk, decide_True. }
  assert (Hpool : pool_at (<[i := None]> hs) c' a rest (unpin_W b p W) (if decide (l = 1) then delete p m else <[p := l - 1]> m) n).
  { split; [exact Hr'| |exact Hp'|exact Hc]. intros q y. destruct (Hm p l Hk) as [Hk1 Hl].
    case_decide; [rewrite lookup_delete|rewrite lookup_insert]; case_decide as Hq; try (by apply Hm); [done|].
    intros [= <-]. split; [lia|by subst]. }
  destruct Hw as [[-> ->]| ->].
  - eapply quiet_moved with (o := None) (bs := []); [cbn [work_step]; by rewrite Hex|done|exact Hlag|done|exact Hpool|apply do_done|done|lia].
  - eapply quiet_moved with (o := None) (bs := []); [cbn [work_step]; by rewrite Hex|done|exact Hlag|done|exact Hpool|apply do_answer|done|lia].
Qed.

(** What a handler sends from its stack. *)
Lemma send_moves bs w st h owes owes' left left' : pool_at hs c a rest W m n → hs !! i = Some h →
  lag foreign (SendBytes bs w) a ah → copying w = None →
  (if st : bool then owes = bs ++ owes' else owes = [] ∧ owes' = [] ∧ bs = error_reply r) →
  doing (al_live a) (al_live ah) r w true h false owes' left' → (left' < left)%nat →
  moves hs i watched foreign rest r a ah k (SendBytes bs w) c st owes left.
Proof using Type*.
  intros Hpool Hi Hlag Hcp Hst Hd Hl. exists w, c, bs, (Some bs). split; [done|]. intros _.
  exists h, owes', left', a, ah, W, m, n. split; [by destruct st|by rewrite list_insert_id| |by eapply lag_same|done|exact Hl].
  destruct st; [done|]. cbn [unless]. destruct Hst as (-> & -> & ->). rewrite app_nil_r. split; [constructor|done].
Qed.

(** A [send] of a part of the page. *)
Lemma page_moves p d from : pool_at hs c a rest W m n → hs !! i = Some (Some (p, false)) →
  op_type r.1 = READ_PAGE → p = req_page_id r.1 → al_live a !! p = Some d → length d = page_size → (from <= page_size)%nat →
  lag foreign (SendPage p from (Pool (Unpin p false) (λ _, Done))) a ah →
  moves hs i watched foreign rest r a ah k (SendPage p from (Pool (Unpin p false) (λ _, Done))) c true
    (drop from d) (page_size - from + 4).
Proof using Type*.
  intros Hpool Hi Hop Hpr Hd Hz Hf Hlag. destruct (decide (from = page_size)) as [Hend|Hend].
  - eapply quiet_moved with (o := None) (bs := []) (h' := Some (p, false)) (owes' := []);
      [cbn [work_step]; by rewrite decide_True|done|exact Hlag|done|by rewrite list_insert_id|
       apply do_unpin; [done|by left]|rewrite drop_ge by lia; done|lia].
  - destruct (read_pinned _ _ _ _ _ _ _ _ _ _ Hpool Hi) as (c' & d' & Hex & Hd' & _ & Hpool').
    rewrite Hd in Hd'. injection Hd' as <-. destruct (part_bounds k from) as [H0 H1]; [lia|].
    eapply quiet_moved with (o := None) (h' := Some (p, false)) (owes' := drop (from + part k from) d);
      [cbn [work_step]; rewrite decide_False by done; by rewrite Hex|done|exact Hlag|done|by rewrite list_insert_id|
       by apply do_page| |lia].
    by rewrite <- drop_drop, take_drop.
Qed.

(** A part of [memcpy]. *)
Lemma copy_moves p old from : pool_at hs c a rest W m n → hs !! i = Some (Some (p, bool_decide (0 < from)%nat)) →
  op_type r.1 = WRITE_PAGE → p = req_page_id r.1 → length r.2 = page_size →
  al_live a !! p = Some (take from r.2 ++ drop from old) → length old = page_size → al_live ah !! p = Some r.2 →
  (from <= page_size)%nat →
  let w := CopyIn p r.2 from (Pool (Unpin p true) (λ _, SendBytes (reply SUCCESS p 0 []) Done)) in
  lag foreign w a ah →
  moves hs i watched foreign rest r a ah k w c true (reply SUCCESS p 0 []) (page_size - from + 4).
Proof using Type*.
  intros Hpool Hi Hop Hpr Hz Hl Ho Hh Hf w [Hn Hfr Hlv]. destruct (decide (from = page_size)) as [Hend|Hend].
  - exists (Pool (Unpin p true) (λ _, SendBytes (reply SUCCESS p 0 []) Done)), c, [], None.
    split; [unfold w; cbn [work_step]; by rewrite decide_True|]. intros _.
    pose proof page_size_pos. rewrite bool_decide_true in Hi by lia.
    exists (Some (p, true)), (reply SUCCESS p 0 []), 3%nat, a, ah, W, m, n.
    split; [by apply do_unpin; [|right]|by rewrite list_insert_id|done| |done|lia].
    split; [done..|]. intros q. destruct (Hlv q) as [[= <-]|[?|?]]; [|by right; left|by right; right].
    right; right. rewrite Hh, Hl. by rewrite take_ge, drop_ge, app_nil_r by lia.
  - destruct (read_pinned _ _ _ _ _ _ _ _ _ _ Hpool Hi) as (c1 & d' & Hex1 & Hd' & _ & Hpool1).
    rewrite Hl in Hd'. injection Hd' as <-. destruct (part_bounds k from) as [H0 H1]; [lia|].
    set (x := copied from (part k from) r.2 (take from r.2 ++ drop from old)).
    assert (Hx : x = take (from + part k from) r.2 ++ drop (from + part k from) old) by (apply copied_part; lia).
    destruct (write_pinned _ _ _ _ _ _ _ _ _ _ x Hpool1 Hi) as (c2 & Hex2 & Hpool2).
    { rewrite Hx, length_app, length_take, length_drop. lia. }
    exists (CopyIn p r.2 (from + part k from) (Pool (Unpin p true) (λ _, SendBytes (reply SUCCESS p 0 []) Done))), c2, [], None.
    split; [unfold w; cbn [work_step]; rewrite decide_False by done; rewrite Hex1; unfold x in Hex2; by rewrite Hex2|].
    intros Haf. assert (Hwp : ¬ watched p) by by apply (af_write _ _ _ _ Haf).
    exists (Some (p, true)), (reply SUCCESS p 0 []), (page_size - (from + part k from) + 4)%nat, (set_live p x a), ah, ({[p]} ∪ W), m, n.
    split; [| exact Hpool2|done| | |lia].
    + pose proof (do_copy (al_live (set_live p x a)) (al_live ah) r p old (from + part k from) Hop Hpr Hz) as Hd.
      rewrite bool_decide_true in Hd by lia. apply Hd; try done. cbn [set_live al_live]. by rewrite lookup_insert_eq, Hx.
    + split; [done..|]. intros q. cbn [set_live al_live copying]. rewrite lookup_insert.
      destruct (Hlv q) as [Hq|[?|?]]; [by left|by right; left|]. destruct (decide (p = q)) as [->|]; [by left|by right; right].
    + intros q Hq. split; [|done]. cbn [set_live al_live]. rewrite lookup_insert_ne; [done|]. by intros ->.
Qed.
(** A refused call: an exception on its way to the [catch]. *)
Lemma fails_moves w c' e n' left : work_step r k w c = Some (Fails e, c', [], None) → pool_at hs c' a rest W m n' →
  hs !! i = Some None → lag foreign w a ah → copying w = None → (3 < left)%nat →
  moves hs i watched foreign rest r a ah k w c false [] left.
Proof using Type*.
  intros Hw Hpool Hi Hlag Hcp Hl. eapply quiet_moved with (o := None) (h' := None) (owes' := []); [exact Hw|done|exact Hlag|done| |apply do_throw|done|lia].
  by rewrite list_insert_id.
Qed.

Lemma fetch_fails_moves p K c' n' left :
  exec_call (Fetch p) c = (c', Ret false) ∨ exec_call (Fetch p) c = (c', Throw OutOfRange) →
  K false = Fails RuntimeError → pool_at hs c' a rest W m n' → hs !! i = Some None → lag foreign (Pool (Fetch p) K) a ah →
  (3 < left)%nat → moves hs i watched foreign rest r a ah k (Pool (Fetch p) K) c false [] left.
Proof using Type*.
  intros [Hex|Hex] HK Hpool Hi Hlag Hl.
  - eapply (fails_moves _ c' RuntimeError n'); try done. cbn [work_step]. rewrite Hex. cbn [settles negb]. by rewrite HK.
  - eapply (fails_moves _ c' OutOfRange n'); try done. cbn [work_step]. by rewrite Hex.
Qed.
(** [FetchPage] for a page to read, which settles what is read. *)
Lemma fetch_read_moves left : pool_at hs c a (r :: rest) W m n → hs !! i = Some None → op_type r.1 = READ_PAGE →
  (page_size + 5 < left)%nat → lag foreign (request_work r) a ah →
  moves hs i watched foreign rest r a ah k (request_work r) c false [] left.
Proof using Type*.
  intros Hpool Hi Hop Hleft. unfold request_work. rewrite decide_True by done. set (p := req_page_id r.1).
  intros Hlag. pose proof page_size_pos as H0.
  destruct (fetch_run hs i c a r rest W m n Hpool Hi) as (c' & [(m' & Hex & Hp')|(n' & Hex & Hp')]); [by left| |].
  2: { eapply fetch_fails_moves; [exact Hex|done|exact Hp'|done|exact Hlag|lia]. }
  assert (Hi' : <[i := Some (p, false)]> hs !! i = Some (Some (p, false))).
  { apply list_lookup_insert_eq. by eapply lookup_lt_Some. }
  destruct (read_pinned _ _ _ _ _ _ _ _ _ _ Hp' Hi') as (c1 & d & Hr1 & Hd & Hz & _).
  exists (SendBytes (encode_response (mkResponse SUCCESS p PAGE_SIZE)) (SendPage p 0 (Pool (Unpin p false) (λ _, Done)))), c', [],
    (Some (reply SUCCESS p PAGE_SIZE d)).
  split. { cbn [work_step]. unfold p in *. rewrite Hex. cbn [settles negb]. rewrite decide_True by done. by rewrite Hr1. }
  intros Haf. assert (Hnf : ¬ foreign p) by (apply (af_read _ _ _ _ Haf); [by left|done]).
  exists (Some (p, false)), (reply SUCCESS p PAGE_SIZE d), (page_size + 5)%nat, a, ah, W, m', n.
  split; [by apply do_header|exact Hp'| |by eapply lag_same|done|lia].
  cbn [unless]. split; [|done]. apply ef_read; [done|]. fold p. destruct (lg_live _ _ _ _ Hlag p) as [?|[?|Heq]]; [done|done|by rewrite Heq].
Qed.
(** [FetchPage] for a page to write, which settles what is written. *)
Lemma fetch_write_moves left : pool_at hs c a (r :: rest) W m n → hs !! i = Some None → op_type r.1 = WRITE_PAGE →
  zlen r.2 = PAGE_SIZE → (page_size + 5 < left)%nat → lag foreign (request_work r) a ah →
  moves hs i watched foreign rest r a ah k (request_work r) c false [] left.
Proof using Type*.
  intros Hpool Hi Hop Hzr%zlen_page Hleft. unfold request_work. rewrite decide_False, decide_True by (done || by rewrite Hop).
  set (p := req_page_id r.1). intros [Hln Hlf Hlv]. pose proof page_size_pos as H0.
  destruct (fetch_run hs i c a r rest W m n Hpool Hi) as (c' & [(m' & Hex & Hp')|(n' & Hex & Hp')]); [by right| |].
  2: { eapply fetch_fails_moves; [exact Hex|done|exact Hp'|done|by split|lia]. }
  assert (Hi' : <[i := Some (p, false)]> hs !! i = Some (Some (p, false))).
  { apply list_lookup_insert_eq. by eapply lookup_lt_Some. }
  destruct (pool_held _ _ _ _ _ _ _ _ _ _ Hp' Hi') as (l & d & _ & Hd & Hz).
  exists (CopyIn p r.2 0 (Pool (Unpin p true) (λ _, SendBytes (reply SUCCESS p 0 []) Done))), c', [], (Some (reply SUCCESS p 0 [])).
  split. { cbn [work_step]. unfold p in *. rewrite Hex. cbn [settles negb]. by rewrite decide_False by (by rewrite Hop). }
  intros Haf. assert (Hnw : ¬ watched p) by by apply (af_write _ _ _ _ Haf).
  exists (Some (p, false)), (reply SUCCESS p 0 []), (page_size - 0 + 4)%nat, a, (set_live p r.2 ah), W, m', n.
  split; [|exact Hp'| | | |lia].
  - apply (do_copy _ _ _ p d 0); try done; [cbn [set_live al_live]; by rewrite lookup_insert_eq|lia].
  - cbn [unless]. split; [|done]. apply ef_write; [done|]. fold p.
    destruct (Hlv p) as [?|[Hf|Heq]]; [done|by apply (ot_foreign _ _ _ _ Hot) in Hf|rewrite Heq; eauto].
  - split; [done..|]. intros q. cbn [copying set_live al_live]. rewrite lookup_insert.
    destruct (decide (p = q)) as [->|]; [by left|]. destruct (Hlv q) as [?|[?|?]]; [done|by right; left|by right; right].
  - intros q Hq. split; [done|]. cbn [set_live al_live]. rewrite lookup_insert_ne; [done|]. by intros ->.
Qed.
Lemma fresh_lag q a' : al_num ah = al_num a → al_free ah = al_free a → fresh_page a = Some (q, a') →
  ∃ ah', fresh_page ah = Some (q, ah') ∧ al_num ah' = al_num a' ∧ al_free ah' = al_free a' ∧
    al_live a' = <[q := zero_page]> (al_live a) ∧ al_live ah' = <[q := zero_page]> (al_live ah).
Proof using Type.
  intros Hn Hf. unfold fresh_page. rewrite Hn, Hf.
  destruct (al_free a) as [|x fl]; [case_decide; [|done]|]; intros [= <- <-]; eexists; split_and!; done.
Qed.
(** A page that another handler holds is allocated, and pinned. *)
Lemma watched_live q : pool_at hs c a (r :: rest) W m n → watched q → is_Some (m !! q) ∧ is_Some (al_live a !! q).
Proof using Type*.
  intros Hpool (j & b & _ & Hj)%(ot_held _ _ _ _ Hot).
  destruct (pool_held _ _ _ _ _ _ _ _ _ _ Hpool Hj) as (l & d & H1 & H2 & _). eauto.
Qed.
Lemma new_moves left : pool_at hs c a (r :: rest) W m n → hs !! i = Some None → op_type r.1 = ALLOCATE_PAGE →
  (5 < left)%nat → lag foreign (request_work r) a ah →
  moves hs i watched foreign rest r a ah k (request_work r) c false [] left.
Proof using Type*.
  intros Hpool Hi Hop Hleft. unfold request_work. rewrite decide_False, decide_False, decide_True by (done || by rewrite Hop).
  intros [Hln Hlf Hlv]. pose proof (pool_alloc _ _ _ _ _ _ _ Hpool) as Ha. pose proof (watched_live) as Hwl.
  pose proof (pool_less _ _ _ _ _ _ _ _ Hpool) as Hpool'. destruct Hpool as [Hr Hm Hp Hc] eqn:Hpl. clear Hpl.
  destruct (fresh_room a Ha) as (q & a' & Hf & _).
  { pose proof (ca_room _ _ Hc) as H7. rewrite length_cons in H7. lia. }
  destruct (fresh_lag q a' Hln Hlf Hf) as (ah' & Hfh & Hn' & Hf' & Hl & Hlh).
  destruct (fresh_page_ok _ _ _ Ha Hf) as (Ha' & Hqn & _).
  assert (Hq : m !! q = None) by (destruct (m !! q) as [x|] eqn:Hk; [destruct (Hm q x Hk) as [_ [? ?]]; congruence|done]).
  destruct (st_full (mkStore a W m n)) eqn:Hfull.
  { destruct (sim_call New c _ (Ret None) (mkStore a W m n) Hr) as (c' & Hex & Hr').
    { cbn [store_step]. cbn [st_alloc]. by rewrite Hf, Hfull. }
    eapply (fails_moves _ c' RuntimeError n); [cbn [work_step]; by rewrite Hex| |done|by split|done|lia].
    destruct Hpool' as [_ ? ? ?]. by split. }
  destruct (sim_call New c _ (Ret (Some q)) (mkStore a' ({[q]} ∪ W) (<[q := 1]> m) n) Hr) as (c' & Hex & Hr').
  { cbn [store_step]. cbn [st_alloc st_unflagged st_pins st_frames]. by rewrite Hf, Hfull. }
  exists (Pool (Unpin q true) (λ _, SendBytes (reply SUCCESS q 0 []) Done)), c', [], (Some (reply SUCCESS q 0 [])).
  split; [cbn [work_step]; by rewrite Hex|]. intros _.
  exists (Some (q, true)), (reply SUCCESS q 0 []), 3%nat, a', ah', ({[q]} ∪ W), (<[q := 1]> m), n.
  split; [| | | | |lia].
  - apply do_unpin; [intros [Ho|Ho]; by rewrite Ho in Hop|by right].
  - split; [exact Hr'| | |by eapply careful_kept, kept_fresh].
    + intros p x. rewrite Hl, lookup_insert. case_decide as Hpq.
      * intros [= <-]. subst p. rewrite lookup_insert_eq. split; [lia|by eauto].
      * intros Hk. destruct (Hm p x Hk). by rewrite lookup_insert_ne.
    + pose proof (pins_take hs m W i q true Hp Hi) as Ht. by rewrite Hq in Ht.
  - cbn [unless]. split; [by eapply ef_allocate|done].
  - split; [done..|]. intros p. rewrite Hl, Hlh, !lookup_insert. destruct (decide (q = p)); [by right; right|].
    destruct (Hlv p) as [?|[?|?]]; [done|by right; left|by right; right].
  - intros p Hp'%Hwl; [|by split]. rewrite Hl, Hlh, !lookup_insert_ne; [done|..]; intros ->; destruct Hp' as [[? ?] _]; congruence.
Qed.
Lemma delete_moves left : pool_at hs c a (r :: rest) W m n → hs !! i = Some None → op_type r.1 = DEALLOCATE_PAGE →
  (5 < left)%nat → lag foreign (request_work r) a ah →
  moves hs i watched foreign rest r a ah k (request_work r) c false [] left.
Proof using Type*.
  intros Hpool Hi Hop Hleft. unfold request_work.
  rewrite decide_False, decide_False, decide_False, decide_True by (done || by rewrite Hop). set (p := req_page_id r.1).
  intros [Hln Hlf Hlv]. pose proof (watched_live) as Hwl.
  pose proof (pool_less _ _ _ _ _ _ _ _ Hpool) as Hpool'. destruct Hpool as [Hr Hm Hp Hc] eqn:Hpl. clear Hpl.
  assert (Hl : is_Some (al_live a !! p)).
  { apply (ca_freed _ _ Hc). rewrite freed_cons, decide_True by done. by left. }
  destruct (m !! p) as [x|] eqn:Hk.
  { destruct (sim_call (Delete p) c _ (Ret false) (mkStore a W m n) Hr) as (c' & Hex & Hr').
    { cbn [store_step]. cbn [st_pins]. by rewrite Hk. }
    eapply (fails_moves _ c' RuntimeError n); [cbn [work_step]; by rewrite Hex| |done|by split|done|lia].
    destruct Hpool' as [_ ? ? ?]. by split. }
  destruct (sim_call (Delete p) c _ (Ret true) (mkStore (dead_page p a) W m n) Hr) as (c' & Hex & Hr').
  { cbn [store_step]. unfold st_live. cbn [st_pins st_alloc]. by rewrite Hk, decide_True. }
  assert (Hnf : ¬ watched p) by (intros [[? ?] _]%Hwl; [congruence|by split]).
  exists (SendBytes (reply SUCCESS p 0 []) Done), c', [], (Some (reply SUCCESS p 0 [])).
  split; [cbn [work_step]; by rewrite Hex|]. intros _.
  exists None, (reply SUCCESS p 0 []), 2%nat, (dead_page p a), (dead_page p ah), W, m, n.
  split; [apply do_answer|rewrite list_insert_id by done| | | |lia].
  - split; [exact Hr'| |exact Hp|].
    + intros q l Hq. destruct (Hm q l Hq) as [? Hlq]. split; [done|]. cbn. rewrite lookup_delete_ne; [done|]. congruence.
    + eapply careful_kept; [exact Hc|]. rewrite decide_True by done. apply kept_dead.
  - cbn [unless]. split; [|done]. apply ef_deallocate; [done|]. fold p.
    destruct (Hlv p) as [?|[Hf|Heq]]; [done|by apply (ot_foreign _ _ _ _ Hot) in Hf|by rewrite Heq].
  - split; cbn [dead_page al_num al_free al_live]; [done|by rewrite Hlf|]. intros q. rewrite !lookup_delete.
    destruct (decide (p = q)); [by right; right|]. destruct (Hlv q) as [?|[?|?]]; [done|by right; left|by right; right].
  - intros q Hq. cbn [dead_page al_live]. rewrite !lookup_delete_ne; [done|..]; by intros ->.
Qed.
End step.

(** A handler that has work to do can do it, and the step is right unless it leads
    to a race. *)
Lemma work_run hs i watched foreign r w st h (b : bool) owes left c a ah rest W m n k : others hs i watched foreign →
  pool_at hs c a ((if b then [r] else []) ++ rest) W m n → hs !! i = Some h → lag foreign w a ah →
  doing (al_live a) (al_live ah) r w st h b owes left → w ≠ Done → moves hs i watched foreign rest r a ah k w c st owes left.
Proof.
  intros Hot Hpool Hi Hlag Hd Hw.
  destruct Hd as [Hok|p d Hop Hp Hl Hz|p d from Hop Hp Hl Hz Hf|p old from Hop Hp Hz Hl Ho Hh Hf|p b w rep Hp Hwr|rep| |e|];
    cbn [app] in Hpool.
  - pose proof page_size_pos. destruct (decide (op_type r.1 = READ_PAGE)) as [Hop|H1]; [by eapply fetch_read_moves; eauto; lia|].
    destruct (decide (op_type r.1 = WRITE_PAGE)) as [Hop|H2].
    { eapply fetch_write_moves; [exact Hot|exact Hpool|exact Hi|done| |lia|exact Hlag]. destruct Hok as (_ & _ & _ & Hz). by rewrite decide_True in Hz. }
    destruct (decide (op_type r.1 = ALLOCATE_PAGE)) as [Hop|H3]; [by eapply new_moves; eauto; lia|].
    destruct (decide (op_type r.1 = DEALLOCATE_PAGE)) as [Hop|H4]; [by eapply delete_moves; eauto; lia|].
    assert (Hrw : request_work r = SendBytes (error_reply r) Done) by (unfold request_work; by rewrite !decide_False).
    rewrite Hrw in *. eapply send_moves; [exact Hot|by eapply pool_less|exact Hi|exact Hlag|done|done|apply do_done|lia].
  - eapply send_moves; [exact Hot|exact Hpool|exact Hi|exact Hlag|done| |apply (do_page _ _ _ p d 0); try done; lia|lia].
    unfold reply. by rewrite drop_0.
  - by eapply page_moves.
  - by eapply copy_moves.
  - by eapply unpin_moves.
  - eapply send_moves; [exact Hot|exact Hpool|exact Hi|exact Hlag|done| |apply do_done|lia]. by rewrite app_nil_r.
  - eapply send_moves; [exact Hot|exact Hpool|exact Hi|exact Hlag|done|done|apply do_done|lia].
  - eapply quiet_moved with (o := None) (bs := []); [done|done|exact Hlag|done| |apply do_refuse|done|lia].
    rewrite list_insert_id by done. exact Hpool.
  - done.
Qed.

(** *** The page a handler uses *)
Lemma doing_pin live hist r w st h b owes left p : doing live hist r w st h b owes left → pin_of w = Some p →
  ∃ f, h = Some (p, f).
Proof.
  intros Hd Hp. destruct Hd as [Hok|q d|q d from|q old from|q f w rep _ Hw|rep| |e|]; cbn [pin_of] in Hp; simplify_eq; eauto.
  unfold request_work in Hp. repeat case_decide; done.
Qed.
Lemma doing_copies live hist r w st h b owes left p : doing live hist r w st h b owes left → copying w = Some p →
  op_type r.1 = WRITE_PAGE ∧ pin_of w = Some p.
Proof.
  intros Hd Hp. destruct Hd as [Hok|q d|q d from|q old from|q f w rep _ Hw|rep| |e|]; cbn [copying] in Hp; simplify_eq; try done.
  unfold request_work in Hp. repeat case_decide; done.
Qed.
Lemma pool_next {X} r n (op : pool_op X) k (m : machine R) w' m' bs o : work_step r n (Pool op k) m = Some (w', m', bs, o) →
  (∃ x, w' = k x) ∨ ∃ e, w' = Fails e.
Proof.
  cbn [work_step]. destruct (exec_call op m) as [m1 [x|e|]]; [|..|done]; intros Hs; injection Hs as <- _ _ _; eauto.
Qed.
Lemma step_uses live hist r w st h b owes left n (m : machine R) w' m' bs o p : doing live hist r w st h b owes left →
  work_step r n w m = Some (w', m', bs, o) → accesses r → pin_of w' = Some p → p = req_page_id r.1.
Proof.
  intros Hd Hs Hacc Hp. destruct Hd as [Hok|q d|q d from|q old from|q f w rep Hq Hw|rep| |x|].
  - unfold request_work in Hs. destruct (decide (op_type r.1 = READ_PAGE)) as [_|H1];
      [|destruct (decide (op_type r.1 = WRITE_PAGE)) as [_|H2]; [|by destruct Hacc]];
      apply pool_next in Hs as [[[] ->]|[e ->]]; cbn [negb pin_of] in Hp; congruence.
  - cbn [work_step] in Hs. injection Hs as <- _ _ _. cbn [pin_of] in Hp. congruence.
  - cbn [work_step] in Hs. repeat (case_match; try done); injection Hs as <- _ _ _; cbn [pin_of] in Hp; congruence.
  - cbn [work_step] in Hs. repeat (case_match; try done); injection Hs as <- _ _ _; cbn [pin_of] in Hp; congruence.
  - apply pool_next in Hs as [[x ->]|[e ->]]; [|done]. by destruct Hw as [[-> _]| ->].
  - cbn [work_step] in Hs. by injection Hs as <- _ _ _.
  - cbn [work_step] in Hs. by injection Hs as <- _ _ _.
  - cbn [work_step] in Hs. by injection Hs as <- _ _ _.
  - done.
Qed.

(** ** All handlers together *)
Record ghost := mkGhost { g_hold : hold; g_first : bool; g_owes : list byte; g_left : nat }.
Definition no_ghost : ghost := mkGhost None false [] 0.
Definition local (live hist : gmap page_id_t (list byte)) (t : handler) (g : ghost) : Prop :=
  match t with
  | Idle _ => g = no_ghost
  | Busy r w st _ => doing live hist r w st (g_hold g) (g_first g) (g_owes g) (g_left g)
  end.
Definition copies (t : handler) : option page_id_t := match t with Busy _ w _ _ => copying w | Idle _ => None end.
(** The requests whose first call is still to be made. *)
Definition pending (t : handler) (g : ghost) : list request :=
  match t with Busy r _ _ todo => (if g_first g then [r] else []) ++ todo | Idle todo => todo end.
(** The steps a handler can still make: a request takes at most [request_steps]. *)
Definition request_steps : nat := page_size + 7.
Definition steps_left (t : handler) (g : ghost) : nat :=
  match t with Idle todo => request_steps * length todo | Busy _ _ _ todo => g_left g + request_steps * length todo end.
Fixpoint all_steps (ts : list handler) (gs : list ghost) : nat :=
  match ts, gs with t :: ts, g :: gs => steps_left t g + all_steps ts gs | _, _ => 0 end.
(** The requests that are not settled. *)
Definition unsettled (t : handler) : list request :=
  match t with Busy r _ false todo => r :: todo | Busy _ _ true todo | Idle todo => todo end.
Definition of_handler {A} (i : nat) (log : list (nat * A)) : list A := (filter (λ x, x.1 = i) log).*2.

Record served_at (clients : list (list request)) (a0 : alloc_state) (budget : nat) (s : server R)
    (gs : list ghost) (a ah : alloc_state) W m n : Prop := {
  se_local : Forall2 (local (al_live a) (al_live ah)) (sv_handlers s) gs;
  se_pool : pool_at (g_hold <$> gs) (sv_machine s) a (concat (zip_with pending (sv_handlers s) gs)) W m n;
  se_history : history a0 (sv_log s) ah;
  se_num : al_num ah = al_num a;
  se_free : al_free ah = al_free a;
  se_live p : (∃ j t, sv_handlers s !! j = Some t ∧ copies t = Some p) ∨ al_live ah !! p = al_live a !! p;
  se_order i client : clients !! i = Some client → ∃ t g, sv_handlers s !! i = Some t ∧ gs !! i = Some g ∧
    (of_handler i (sv_log s)).*1 ++ unsettled t = client ∧
    concat (of_handler i (sv_log s)).*2 = concat (of_handler i (sv_sent s)) ++ g_owes g;
  se_member i r w st todo : sv_handlers s !! i = Some (Busy r w st todo) → ∃ client, clients !! i = Some client ∧ r ∈ client;
  se_known i t : sv_handlers s !! i = Some t → is_Some (clients !! i);
  se_calm : calm s;
  se_steps : (all_steps (sv_handlers s) gs <= budget)%nat;
}.
Definition served (clients : list (list request)) (a0 : alloc_state) (budget : nat) (s : server R) : Prop :=
  ∃ gs a ah W m n, served_at clients a0 budget s gs a ah W m n.

Lemma of_handler_app {A} i (log log' : list (nat * A)) : of_handler i (log ++ log') = of_handler i log ++ of_handler i log'.
Proof. unfold of_handler. by rewrite filter_app, fmap_app. Qed.
Lemma of_handler_one {A} i j (x : A) : of_handler i [(j, x)] = if decide (j = i) then [x] else [].
Proof. unfold of_handler. rewrite filter_cons. cbn. by case_decide. Qed.
Lemma of_note j i r o : of_handler j (note i r o) =
  if decide (i = j) then match o with Some rep => [(r, rep)] | None => [] end else [].
Proof. destruct o as [rep|]; cbn [note]; [by rewrite of_handler_one|by case_decide]. Qed.
Lemma concat_split {A B C} (f : A → B → list C) (ts : list A) (gs : list B) i t g :
  ts !! i = Some t → gs !! i = Some g → ∃ rest, concat (zip_with f ts gs) ≡ₚ f t g ++ rest ∧
    ∀ t' g', concat (zip_with f (<[i := t']> ts) (<[i := g']> gs)) ≡ₚ f t' g' ++ rest.
Proof.
  revert gs i. induction ts as [|x ts IH]; intros [|y gs] [|i] Ht Hg; try done; cbn in *.
  - injection Ht as <-. injection Hg as <-. by exists (concat (zip_with f ts gs)).
  - destruct (IH gs i Ht Hg) as (rest & H1 & H2). exists (f x y ++ rest). split.
    + rewrite H1, !app_assoc. f_equiv. apply Permutation_app_comm.
    + intros t' g'. rewrite H2, !app_assoc. f_equiv. apply Permutation_app_comm.
Qed.
Lemma steps_insert ts gs i t g t' g' : ts !! i = Some t → gs !! i = Some g →
  (all_steps (<[i := t']> ts) (<[i := g']> gs) + steps_left t g = all_steps ts gs + steps_left t' g')%nat.
Proof.
  revert gs i. induction ts as [|x ts IH]; intros [|y gs] [|i] Ht Hg; try done; cbn [all_steps insert list_insert].
  - injection Ht as <-. injection Hg as <-. lia.
  - specialize (IH gs i Ht Hg). unfold insert in *. cbn in *. lia.
Qed.
Lemma pool_at_perm hs c a reqs reqs' W m n : reqs ≡ₚ reqs' → pool_at hs c a reqs W m n → pool_at hs c a reqs' W m n.
Proof. intros Hp [H1 H2 H3 H4]. split; try done. by rewrite <- Hp. Qed.
Lemma lower budget (ts : list handler) (gs : list ghost) i t g t' g' : (all_steps ts gs <= budget)%nat →
  ts !! i = Some t → gs !! i = Some g → (steps_left t' g' < steps_left t g)%nat →
  ∃ b, budget = S b ∧ (all_steps (<[i := t']> ts) (<[i := g']> gs) <= b)%nat.
Proof.
  intros Hb Ht Hg Hlt. pose proof (steps_insert ts gs i t g t' g' Ht Hg). exists (pred budget). lia.
Qed.

(** What a step of handler [i] does to the log and the replies of each handler. *)
Lemma order_step (clients : list (list request)) (ts : list handler) (gs : list ghost)
    (log log2 : list (nat * (request * list byte))) sent sent2 i t g t' g' :
  (∀ j client, clients !! j = Some client → ∃ u h, ts !! j = Some u ∧ gs !! j = Some h ∧
     (of_handler j log).*1 ++ unsettled u = client ∧
     concat (of_handler j log).*2 = concat (of_handler j sent) ++ g_owes h) →
  ts !! i = Some t → gs !! i = Some g → (∀ j, j ≠ i → of_handler j log2 = [] ∧ of_handler j sent2 = []) →
  unsettled t = (of_handler i log2).*1 ++ unsettled t' →
  g_owes g ++ concat (of_handler i log2).*2 = concat (of_handler i sent2) ++ g_owes g' →
  ∀ j client, clients !! j = Some client → ∃ u h, <[i := t']> ts !! j = Some u ∧ <[i := g']> gs !! j = Some h ∧
    (of_handler j (log ++ log2)).*1 ++ unsettled u = client ∧
    concat (of_handler j (log ++ log2)).*2 = concat (of_handler j (sent ++ sent2)) ++ g_owes h.
Proof.
  intros Ho Hi Hg Hne Hun Hse j client Hj. destruct (Ho j client Hj) as (u & h & Hu & Hh & H1 & H2).
  destruct (decide (j = i)) as [->|Hji].
  - assert (u = t) as -> by congruence. assert (h = g) as -> by congruence. exists t', g'.
    rewrite !list_lookup_insert_eq by by eapply lookup_lt_Some.
    split; [done|]. split; [done|]. rewrite !of_handler_app, !fmap_app, !concat_app. split.
    + by rewrite <- app_assoc, <- Hun.
    + by rewrite H2, <- !app_assoc, Hse.
  - destruct (Hne j Hji) as [E1 E2]. exists u, h. rewrite !list_lookup_insert_ne by done.
    rewrite !of_handler_app, E1, E2, !app_nil_r. done.
Qed.
(** *** The other handlers *)
Definition watched_by (hs : list handler) (i : nat) (p : page_id_t) : Prop :=
  ∃ j t b, j ≠ i ∧ hs !! j = Some t ∧ uses t = Some (p, b).
Definition foreign_to (hs : list handler) (i : nat) (p : page_id_t) : Prop :=
  ∃ j t, j ≠ i ∧ hs !! j = Some t ∧ copies t = Some p.
Lemma local_copies live hist t g p : local live hist t g → copies t = Some p → uses t = Some (p, true).
Proof.
  destruct t as [todo|r w st todo]; [done|]. cbn [local copies uses]. intros Hl Hp.
  destruct (doing_copies _ _ _ _ _ _ _ _ _ _ Hl Hp) as [Hop ->]. rewrite decide_True by by right.
  by rewrite bool_decide_true.
Qed.
Lemma local_uses live hist t g p b : local live hist t g → uses t = Some (p, b) → ∃ f, g_hold g = Some (p, f).
Proof.
  destruct t as [todo|r w st todo]; [done|]. cbn [local uses]. case_decide; [|done].
  destruct (pin_of w) as [q|] eqn:Hq; [|done]. cbn. intros Hl [= -> _]. by eapply doing_pin.
Qed.
Lemma served_others live hist hs gs i : Forall2 (local live hist) hs gs → others (g_hold <$> gs) i (watched_by hs i) (foreign_to hs i).
Proof.
  intros Hl. split.
  - intros p (j & t & b & Hj & Ht & Hu). destruct (Forall2_lookup_l _ _ _ _ _ Hl Ht) as (g & Hg & Hlg).
    destruct (local_uses _ _ _ _ _ _ Hlg Hu) as [f Hf]. exists j, f. split; [done|]. by rewrite list_lookup_fmap, Hg, <- Hf.
  - intros p (j & t & Hj & Ht & Hu). destruct (Forall2_lookup_l _ _ _ _ _ Hl Ht) as (g & Hg & Hlg).
    exists j, t, true. split; [done|]. split; [done|]. by eapply local_copies.
Qed.
(** In a state without a race, what handler [i] has come to is apart from the others. *)
Lemma calm_apart live hist hs gs i r w st todo (c : machine R) log sent : Forall2 (local live hist) hs gs →
  (i < length hs)%nat → calm (mkServer (<[i := Busy r w st todo]> hs) c log sent) →
  apart_from (watched_by hs i) (foreign_to hs i) r w.
Proof.
  intros Hl Hi Hc. assert (Hu : ∀ p, accesses r → pin_of w = Some p → watched_by hs i p → bool_decide (op_type r.1 = WRITE_PAGE) = false ∧
    ∀ j t b, j ≠ i → hs !! j = Some t → uses t = Some (p, b) → b = false).
  { intros p Hacc Hp Hw. assert (G : ∀ j t b, j ≠ i → hs !! j = Some t → uses t = Some (p, b) →
      bool_decide (op_type r.1 = WRITE_PAGE) = false ∧ b = false).
    { intros j t b Hj Ht Hu. eapply (calm_uses _ i j (Busy r w st todo) t p); [exact Hc|congruence|by apply list_lookup_insert_eq|
        cbn [sv_handlers]; by rewrite list_lookup_insert_ne| |exact Hu].
      cbn [uses]. rewrite decide_True by done. by rewrite Hp. }
    split; [|intros j t b Hj Ht Hu; by apply (G j t b)]. destruct Hw as (j & t & b & Hj & Ht & Hu). by apply (G j t b). }
  split.
  - intros p Hacc Hp (j & t & Hj & Ht & Hcp). destruct (Forall2_lookup_l _ _ _ _ _ Hl Ht) as (g & Hg & Hlg).
    pose proof (local_copies _ _ _ _ _ Hlg Hcp) as Hut. destruct (Hu p Hacc Hp) as [_ H]; [by exists j, t, true|].
    by specialize (H j t true Hj Ht Hut).
  - intros p Hop Hp Hw. destruct (Hu p) as [H _]; [by right|done|done|]. by apply bool_decide_eq_false in H.
Qed.
(** The handlers that do not move. *)
Lemma local_moved live hist live' hist' hs gs i t' g' : Forall2 (local live hist) hs gs →
  (∀ p, watched_by hs i p → live' !! p = live !! p ∧ hist' !! p = hist !! p) → local live' hist' t' g' →
  Forall2 (local live' hist') (<[i := t']> hs) (<[i := g']> gs).
Proof.
  intros Hl Hsame Hg. apply Forall2_same_length_lookup. split; [by rewrite !length_insert; eapply Forall2_length|].
  intros j t g. destruct (decide (j = i)) as [->|Hj].
  - intros Ht Hgj. rewrite list_lookup_insert_eq in Ht by (rewrite <- (length_insert hs i t'); by eapply lookup_lt_Some).
    rewrite list_lookup_insert_eq in Hgj by (rewrite <- (length_insert gs i g'); by eapply lookup_lt_Some). congruence.
  - rewrite !list_lookup_insert_ne by done. intros Ht Hgj. pose proof (Forall2_lookup_lr _ _ _ _ _ _ Hl Ht Hgj) as Hlj.
    destruct t as [todo|r w st todo]; [exact Hlj|]. cbn [local] in *. eapply doing_stable; [exact Hlj|]. intros p Hacc Hp.
    apply Hsame. exists j, (Busy r w st todo). eexists. split; [done|]. split; [done|]. cbn [uses]. rewrite decide_True by done.
    by rewrite Hp.
Qed.

(** *** Every defined step keeps the handlers served *)
Lemma receive_served clients a0 budget hs c log sent i r todo : served clients a0 budget (mkServer hs c log sent) →
  hs !! i = Some (Idle (r :: todo)) →
  let s' := mkServer (<[i := Busy r (request_work r) false todo]> hs) c log sent in
  calm s' → ∃ b, budget = S b ∧ served clients a0 b s'.
Proof.
  intros (gs & a & ah & W & m & n & [Hl Hp Hh Hn Hf Hv Ho Hm Hk Hc Hs]) Hi; cbn zeta; intros Hc'; cbn [sv_handlers sv_machine sv_log sv_sent] in *.
  destruct (Forall2_lookup_l _ _ _ _ _ Hl Hi) as (g & Hg & Hlg). cbn [local] in Hlg. subst g.
  destruct (concat_split pending hs gs i _ _ Hi Hg) as (rest & H1 & H2).
  apply (pool_at_perm _ _ _ _ _ _ _ _ H1) in Hp. cbn [pending] in Hp.
  set (t' := Busy r (request_work r) false todo). set (g' := mkGhost None true [] (page_size + 6)).
  destruct (lower budget hs gs i _ _ t' g' Hs Hi Hg) as (b & Hb & Hs').
  { unfold steps_left, t', g', request_steps. cbn [g_left length]. lia. }
  exists b. split; [done|]. exists (<[i := g']> gs), a, ah, W, m, n. split; cbn [sv_handlers sv_machine sv_log sv_sent]; try done.
  - eapply local_moved; [exact Hl|done|]. apply do_start, (ca_ok _ _ (pa_careful _ _ _ _ _ _ _ Hp)). by left.
  - rewrite list_fmap_insert, list_insert_id by (by rewrite list_lookup_fmap, Hg).
    eapply pool_at_perm; [symmetry; apply H2|exact Hp].
  - intros p. destruct (Hv p) as [(j & t & Ht & Hcp)|]; [left|by right]. exists j, t. split; [|done].
    rewrite list_lookup_insert_ne; [done|]. intros ->. by rewrite Hi in Ht; injection Ht as <-.
  - pose proof (order_step clients hs gs log [] sent [] i _ _ t' g' Ho Hi Hg) as Hord. rewrite !app_nil_r in Hord. by apply Hord.
  - intros j r0 w st todo0. destruct (decide (j = i)) as [->|Hj]; [|rewrite list_lookup_insert_ne by done; apply Hm].
    rewrite list_lookup_insert_eq by (by eapply lookup_lt_Some). intros [= <- _ _ _].
    destruct (Hk i _ Hi) as [client Hcl]. exists client. split; [done|].
    destruct (Ho i client Hcl) as (t & g & Ht & _ & <- & _). rewrite Hi in Ht. injection Ht as <-.
    apply elem_of_app. right. by left.
  - intros j t. destruct (decide (j = i)) as [->|Hj]; [intros _; by eapply Hk|]. rewrite list_lookup_insert_ne by done. apply Hk.
Qed.

Lemma history_note a0 log a i r o a' : history a0 log a →
  match o with Some rep => effect a r rep a' | None => a' = a end → history a0 (log ++ note i r o) a'.
Proof.
  intros Hh Ho. destruct o as [rep|]; cbn [note]; [by econstructor|subst a'; by rewrite app_nil_r].
Qed.
(** What a move of one handler does to the whole server. *)
Lemma move_served clients a0 budget hs c log sent gs a ah W m n i r w st todo g rest w' c' bs o h' owes' left' a' ah' W' m' n' :
  served_at clients a0 budget (mkServer hs c log sent) gs a ah W m n → hs !! i = Some (Busy r w st todo) → gs !! i = Some g →
  (∀ t' g', concat (zip_with pending (<[i := t']> hs) (<[i := g']> gs)) ≡ₚ pending t' g' ++ rest) →
  moved (g_hold <$> gs) i (watched_by hs i) (foreign_to hs i) (todo ++ rest) r a ah st (g_owes g) (g_left g) w' c' bs o
    h' owes' left' a' ah' W' m' n' →
  let s' := mkServer (<[i := Busy r w' (st || bool_decide (is_Some o)) todo]> hs) c' (log ++ note i r (unless st o)) (sent ++ [(i, bs)]) in
  calm s' → ∃ b, budget = S b ∧ served clients a0 b s'.
Proof.
  intros [Hl Hp Hh Hn Hf Hv Ho Hm Hk Hc Hs] Hi Hg H2 [Hd Hp' Hrep [Hn' Hf' Hv'] Hsame Hleft]; cbn zeta; intros Hc';
    cbn [sv_handlers sv_machine sv_log sv_sent] in *.
  set (t' := Busy r w' (st || bool_decide (is_Some o)) todo). set (g' := mkGhost h' false owes' left').
  destruct (lower budget hs gs i _ _ t' g' Hs Hi Hg) as (b & Hb & Hs').
  { unfold steps_left, t', g'. cbn [g_left]. lia. }
  exists b. split; [done|]. exists (<[i := g']> gs), a', ah', W', m', n'. split; cbn [sv_handlers sv_machine sv_log sv_sent]; try done.
  - by eapply local_moved.
  - rewrite list_fmap_insert. eapply pool_at_perm; [symmetry; apply H2|]. exact Hp'.
  - eapply history_note; [exact Hh|]. destruct (unless st o); apply Hrep.
  - intros p. destruct (Hv' p) as [Hcp|[(j & t & Hj & Ht & Hcp)|]]; [left|left|by right].
    + exists i, t'. split; [|exact Hcp]. apply list_lookup_insert_eq. by eapply lookup_lt_Some.
    + exists j, t. by rewrite list_lookup_insert_ne.
  - apply order_step with (t := Busy r w st todo) (g := g); [done..| | |].
    + intros j Hj. by rewrite of_note, of_handler_one, !decide_False.
    + rewrite of_note, decide_True by done. unfold t'. destruct st; [done|]. cbn [unless orb]. by destruct o.
    + rewrite of_note, of_handler_one, !decide_True by done. unfold g'. cbn [g_owes]. destruct (unless st o) as [rep|]; cbn.
      * destruct Hrep as (_ & -> & ->). by rewrite !app_nil_r.
      * destruct Hrep as [_ ->]. by rewrite !app_nil_r.
  - intros j r0 w0 st0 todo0. destruct (decide (j = i)) as [->|Hj]; [|rewrite list_lookup_insert_ne by done; apply Hm].
    rewrite list_lookup_insert_eq by (by eapply lookup_lt_Some). intros [= <- _ _ _]. by eapply Hm.
  - intros j t. destruct (decide (j = i)) as [->|Hj]; [intros _; by eapply Hk|]. rewrite list_lookup_insert_ne by done. apply Hk.
Qed.
Lemma work_served_at clients a0 budget hs c log sent i r w st todo k : served clients a0 budget (mkServer hs c log sent) →
  hs !! i = Some (Busy r w st todo) → w ≠ Done →
  ∃ w' c' bs o, work_step r k w c = Some (w', c', bs, o) ∧
    let s' := mkServer (<[i := Busy r w' (st || bool_decide (is_Some o)) todo]> hs) c' (log ++ note i r (unless st o)) (sent ++ [(i, bs)]) in
    calm s' → ∃ b, budget = S b ∧ served clients a0 b s'.
Proof.
  intros (gs & a & ah & W & m & n & Hs) Hi Hw. pose proof Hs as [Hl Hp _ Hn Hf Hv _ _ _ _ _]; cbn [sv_handlers sv_machine] in *.
  destruct (Forall2_lookup_l _ _ _ _ _ Hl Hi) as (g & Hg & Hlg). cbn [local] in Hlg.
  destruct (concat_split pending hs gs i _ _ Hi Hg) as (rest & H1 & H2).
  apply (pool_at_perm _ _ _ _ _ _ _ _ H1) in Hp. cbn [pending] in Hp. rewrite <- app_assoc in Hp.
  assert (Hlag : lag (foreign_to hs i) w a ah).
  { split; [done..|]. intros p. destruct (Hv p) as [(j & t & Ht & Hcp)|]; [|by right; right].
    destruct (decide (j = i)) as [->|Hj]; [left|right; left; by exists j, t]. rewrite Hi in Ht. by injection Ht as <-. }
  destruct (work_run (g_hold <$> gs) i _ _ r w st (g_hold g) (g_first g) (g_owes g) (g_left g) c a ah (todo ++ rest) W m n k
    (served_others _ _ _ _ i Hl) Hp) as (w' & c' & bs & o & Hex & Hmv); [by rewrite list_lookup_fmap, Hg|done..|].
  exists w', c', bs, o. split; [exact Hex|]. cbn zeta. intros Hc'.
  destruct Hmv as (h' & owes' & left' & a' & ah' & W' & m' & n' & Hmv).
  { eapply calm_apart; [exact Hl|by eapply lookup_lt_Some|exact Hc']. }
  by eapply move_served.
Qed.
Lemma done_served clients a0 budget hs c log sent i r st todo : served clients a0 budget (mkServer hs c log sent) →
  hs !! i = Some (Busy r Done st todo) →
  let s' := mkServer (<[i := Idle todo]> hs) c log sent in calm s' → ∃ b, budget = S b ∧ served clients a0 b s'.
Proof.
  intros (gs & a & ah & W & m & n & [Hl Hp Hh Hn Hf Hv Ho Hm Hk Hc Hs]) Hi; cbn zeta; intros Hc'; cbn [sv_handlers sv_machine sv_log sv_sent] in *.
  destruct (Forall2_lookup_l _ _ _ _ _ Hl Hi) as (g & Hg & Hlg). cbn [local] in Hlg.
  assert (Hend : st = true ∧ g = mkGhost None false [] 1).
  { destruct g as [h f owes left]. cbn in Hlg. inversion Hlg as [Hok Hw| | | | | | | |]; subst; [|done].
    unfold request_work in *. repeat case_decide; done. }
  destruct Hend as [-> ->]. destruct (concat_split pending hs gs i _ _ Hi Hg) as (rest & H1 & H2).
  apply (pool_at_perm _ _ _ _ _ _ _ _ H1) in Hp. cbn [pending g_first app] in Hp.
  destruct (lower budget hs gs i _ _ (Idle todo) no_ghost Hs Hi Hg) as (b & Hb & Hs'); [cbn [steps_left g_left no_ghost]; lia|].
  exists b. split; [done|]. exists (<[i := no_ghost]> gs), a, ah, W, m, n. split; cbn [sv_handlers sv_machine sv_log sv_sent]; try done.
  - by eapply local_moved.
  - rewrite list_fmap_insert, list_insert_id by (by rewrite list_lookup_fmap, Hg).
    eapply pool_at_perm; [symmetry; apply H2|exact Hp].
  - intros p. destruct (Hv p) as [(j & t & Ht & Hcp)|]; [left|by right]. exists j, t. split; [|done].
    rewrite list_lookup_insert_ne; [done|]. intros ->. rewrite Hi in Ht. by injection Ht as <-.
  - pose proof (order_step clients hs gs log [] sent [] i _ _ (Idle todo) no_ghost Ho Hi Hg) as Hord. rewrite !app_nil_r in Hord. by apply Hord.
  - intros j r0 w st todo0. destruct (decide (j = i)) as [->|Hj]; [|rewrite list_lookup_insert_ne by done; apply Hm].
    by rewrite list_lookup_insert_eq by (by eapply lookup_lt_Some).
  - intros j t. destruct (decide (j = i)) as [->|Hj]; [intros _; by eapply Hk|]. rewrite list_lookup_insert_ne by done. apply Hk.
Qed.
Lemma step_served clients a0 budget s s' : served clients a0 budget s → calm_step s s' →
  ∃ b, budget = S b ∧ served clients a0 b s'.
Proof.
  intros Hs [Hst Hc]. destruct Hst as [hs c log sent i r todo Hi|hs c log sent i r w st todo n w' c' bs o Hi Hw|
    hs c log sent i r st todo Hi].
  - by eapply receive_served.
  - destruct (work_served_at _ _ _ _ _ _ _ _ _ _ _ _ n Hs Hi) as (w1 & c1 & bs1 & o1 & Hw1 & Hs1); [by intros ->|].
    rewrite Hw in Hw1. injection Hw1 as -> -> -> ->. by apply Hs1.
  - by eapply done_served.
Qed.




(** *** Clients that cannot race: what one of them writes no other one names *)
Definition apart (clients : list (list request)) : Prop :=
  ∀ i j ci cj r r', i ≠ j → clients !! i = Some ci → clients !! j = Some cj → r ∈ ci → r' ∈ cj →
    op_type r.1 = WRITE_PAGE → accesses r' → req_page_id r.1 ≠ req_page_id r'.1.
Definition uses_own (clients : list (list request)) (i : nat) (t : handler) : Prop :=
  ∀ p b, uses t = Some (p, b) → ∃ client r, clients !! i = Some client ∧ r ∈ client ∧ accesses r ∧ p = req_page_id r.1 ∧
    b = bool_decide (op_type r.1 = WRITE_PAGE).
Lemma busy_uses clients i r w st todo client : clients !! i = Some client → r ∈ client →
  (∀ p, accesses r → pin_of w = Some p → p = req_page_id r.1) → uses_own clients i (Busy r w st todo).
Proof.
  intros Hi Hr Hp p b. cbn [uses]. case_decide as Hacc; [|done]. destruct (pin_of w) as [q|]; [|done].
  cbn. intros [= <- <-]. exists client, r. split_and!; try done. by apply Hp.
Qed.
Lemma served_uses clients a0 budget s i t : served clients a0 budget s → sv_handlers s !! i = Some t → uses_own clients i t.
Proof.
  intros (gs & a & ah & W & m & n & [Hl _ _ _ _ _ _ Hm _ _ _]) Ht. destruct t as [todo|r w st todo]; [by intros p b|].
  destruct (Hm i r w st todo Ht) as (client & Hi & Hr). destruct (Forall2_lookup_l _ _ _ _ _ Hl Ht) as (g & _ & Hlg).
  eapply busy_uses; [exact Hi|exact Hr|]. intros p Hacc Hp. cbn [local] in Hlg. revert Hp Hacc.
  destruct Hlg as [Hok|q d Hop Hq|q d from Hop Hq|q old from Hop Hq|q f w rep Hq Hw|rep| |x|]; cbn [pin_of]; try done;
    try (intros [= <-]; done).
  unfold request_work. repeat case_decide; done.
Qed.
Lemma step_own clients a0 budget s s' j t : served clients a0 budget s → server_step s s' → sv_handlers s' !! j = Some t →
  uses_own clients j t.
Proof.
  intros Hs Hst. destruct Hst as [hs c log sent i r todo Hi|hs c log sent i r w st todo n w' c' bs o Hi Hw|
    hs c log sent i r st todo Hi]; cbn [sv_handlers]; intros [(<- & <- & _)|[_ Hj]]%list_lookup_insert_Some;
    try (by eapply served_uses).
  - destruct Hs as (gs & a & ah & W & m & n & [Hl _ _ _ _ _ Ho _ Hk _ _]). cbn [sv_handlers] in *.
    destruct (Hk i _ Hi) as [client Hcl]. eapply busy_uses; [exact Hcl| |].
    + destruct (Ho i client Hcl) as (t & g & Ht & _ & <- & _). rewrite Hi in Ht. injection Ht as <-. apply elem_of_app. right. by left.
    + intros p _. unfold request_work. repeat case_decide; done.
  - destruct Hs as (gs & a & ah & W & m & k & [Hl _ _ _ _ _ _ Hm _ _ _]). cbn [sv_handlers] in *.
    destruct (Hm i _ _ _ _ Hi) as (client & Hcl & Hr). destruct (Forall2_lookup_l _ _ _ _ _ Hl Hi) as (g & _ & Hlg).
    eapply busy_uses; [exact Hcl|exact Hr|]. intros p. by eapply step_uses.
  - by intros p b.
Qed.
Lemma apart_calm clients a0 budget s s' : apart clients → served clients a0 budget s → server_step s s' → calm s'.
Proof.
  intros Hap Hs Hst. apply race_free_spec. intros i j u v Hij Hu Hv.
  rewrite list_lookup_fmap in Hu, Hv. destruct (sv_handlers s' !! i) as [t|] eqn:Hi; [|done].
  destruct (sv_handlers s' !! j) as [t'|] eqn:Hj; [|done]. injection Hu as <-. injection Hv as <-.
  destruct (uses t) as [[p b]|] eqn:Ht; [|done]. destruct (uses t') as [[q b']|] eqn:Ht'; [|by destruct (uses t)].
  destruct (step_own _ _ _ _ _ _ _ Hs Hst Hi p b Ht) as (ci & r & Hci & Hr & Hacc & -> & ->).
  destruct (step_own _ _ _ _ _ _ _ Hs Hst Hj q b' Ht') as (cj & r' & Hcj & Hr' & Hacc' & -> & ->).
  unfold compatible. destruct (Z.eqb_spec (req_page_id r.1) (req_page_id r'.1)) as [Heq|]; [|done]. cbn [negb orb].
  rewrite !bool_decide_false; [done|..]; intros Hop.
  - apply (Hap j i cj ci r' r); [congruence|done..|by symmetry].
  - by apply (Hap i j ci cj r r').
Qed.
Lemma apart_steps clients a0 k : apart clients → ∀ budget s s', served clients a0 budget s → nsteps server_step k s s' →
  nsteps calm_step k s s'.
Proof.
  intros Hap. induction k as [|k IH]; intros budget s s' Hs Hst; inversion Hst as [|? ? s1 ? H1 H2]; subst; [constructor|].
  assert (Hc : calm_step s s1) by (split; [done|by eapply apart_calm]).
  destruct (step_served _ _ _ _ _ Hs Hc) as (b & -> & Hs1). apply nsteps_l with s1; [exact Hc|by eapply IH].
Qed.
End serving.

(** ** The work is that of [HandleClient]

    A handler alone: the bytes it sends for a request, and the pages it leaves. [None]:
    a step that is undefined. *)
Fixpoint run_work (r : request) (w : work) (st : store) : option (list byte * store) :=
  match w with
  | Pool op k =>
      match store_step op st with
      | Some (Ret x, st') => run_work r (k x) st'
      | Some (Throw e, st') => Some (error_reply r, st')
      | _ => None
      end
  | SendBytes bs k => '(out, st') ← run_work r k st; Some (bs ++ out, st')
  | SendPage p from k =>
      if decide (from = page_size) then run_work r k st else
      if decide (page_size < from)%nat then None else
      match store_step (Read p) st with
      | Some (Ret d, _) => '(out, st') ← run_work r k st; Some (drop from d ++ out, st')
      | _ => None
      end
  | CopyIn p data from k =>
      if decide (from = page_size) then run_work r k st else
      if decide (page_size < from)%nat then None else
      match store_step (Read p) st with
      | Some (Ret d, _) =>
          match store_step (Write p (take from d ++ drop from data)) st with
          | Some (Ret _, st') => run_work r k st'
          | _ => None
          end
      | _ => None
      end
  | Fails e => Some (error_reply r, st)
  | Done => Some ([], st)
  end.

(** Steps of the work, with the bytes they send. *)
Inductive work_steps {R} `{HR : Replacer R} (r : request) : work → machine R → list byte → work → machine R → Prop :=
| wk_refl w m : work_steps r w m [] w m
| wk_step n w m w1 m1 bs o bs' w' m' : work_step r n w m = Some (w1, m1, bs, o) → work_steps r w1 m1 bs' w' m' →
    work_steps r w m (bs ++ bs') w' m'.

Section pieces.
Context {R : Type} `{HR : Replacer R, !ReplacerLaws R}.

Lemma run_pool_inv {X} r (op : pool_op X) K st out st' : run_work r (Pool op K) st = Some (out, st') →
  (∃ x st1, store_step op st = Some (Ret x, st1) ∧ run_work r (K x) st1 = Some (out, st')) ∨
  (∃ e, store_step op st = Some (Throw e, st') ∧ out = error_reply r).
Proof.
  cbn [run_work]. destruct (store_step op st) as [[[x|e|] st1]|]; [by eauto| |done..]. intros [= <- <-]. by eauto.
Qed.
Lemma run_send_inv r bs k st out st' : run_work r (SendBytes bs k) st = Some (out, st') →
  ∃ out1, out = bs ++ out1 ∧ run_work r k st = Some (out1, st').
Proof. cbn [run_work]. destruct (run_work r k st) as [[out1 st1]|]; [|done]. intros [= <- <-]. eauto. Qed.
Lemma run_page_inv r p from k st out st' : (from < page_size)%nat → run_work r (SendPage p from k) st = Some (out, st') →
  ∃ d out1, store_step (Read p) st = Some (Ret d, st) ∧ al_live (st_alloc st) !! p = Some d ∧ is_Some (st_pins st !! p) ∧
    out = drop from d ++ out1 ∧ run_work r k st = Some (out1, st').
Proof.
  intros Hf. cbn [run_work]. rewrite decide_False by lia. rewrite decide_False by lia. cbn [store_step]. unfold st_live.
  destruct (st_pins st !! p) as [l|]; [|done]. destruct (al_live (st_alloc st) !! p) as [d|]; [|done].
  destruct (run_work r k st) as [[out1 st1]|]; [|done]. intros [= <- <-]. eauto 10.
Qed.
Lemma run_copy_inv r p data from k st out st' : (from < page_size)%nat → run_work r (CopyIn p data from k) st = Some (out, st') →
  ∃ d, store_step (Read p) st = Some (Ret d, st) ∧ al_live (st_alloc st) !! p = Some d ∧ is_Some (st_pins st !! p) ∧
    length (take from d ++ drop from data) = page_size ∧
    run_work r k (mkStore (set_live p (take from d ++ drop from data) (st_alloc st)) ({[p]} ∪ st_unflagged st) (st_pins st) (st_frames st))
      = Some (out, st').
Proof.
  intros Hf. cbn [run_work]. rewrite decide_False by lia. rewrite decide_False by lia. cbn [store_step]. unfold st_live.
  destruct (st_pins st !! p) as [l|]; [|done]. destruct (al_live (st_alloc st) !! p) as [d|]; [|done].
  case_decide as Hz; [|done]. apply zlen_page in Hz. intros Hk. exists d. split_and!; eauto.
Qed.
Lemma run_past r w p from k data st : (page_size < from)%nat → w = SendPage p from k ∨ w = CopyIn p data from k → run_work r w st = None.
Proof. intros Hf [->| ->]; cbn [run_work]; rewrite decide_False by lia; by rewrite decide_True. Qed.

(** A part of [memcpy] and the rest are the whole. *)
Lemma copied_rest from n (data d : list byte) : length d = page_size → length data = page_size → (from + n <= page_size)%nat →
  take (from + n) (copied from n data d) ++ drop (from + n) data = take from d ++ drop from data.
Proof.
  intros Hd Hz Hn. unfold copied. rewrite app_assoc. rewrite take_app_le by (rewrite length_app, !length_take, length_drop; lia).
  rewrite take_ge by (rewrite length_app, !length_take, length_drop; lia).
  rewrite <- app_assoc, <- drop_drop. by rewrite take_drop.
Qed.
Lemma copied_length from n (data d : list byte) : length d = page_size → length data = page_size → (from + n <= page_size)%nat →
  length (copied from n data d) = page_size.
Proof. intros Hd Hz Hn. unfold copied. rewrite !length_app, !length_take, !length_drop. lia. Qed.
Lemma set_live_twice p x y a : set_live p y (set_live p x a) = set_live p y a.
Proof. unfold set_live. cbn. by rewrite insert_insert_eq. Qed.

Lemma copy_step_run r p data from k n c st out st' c1 c2 d o : store_rel c st →
  run_work r (CopyIn p data from k) st = Some (out, st') → (from < page_size)%nat →
  exec_call (Read p) c = (c1, Ret d) → exec_call (Write p (copied from (part n from) data d)) c1 = (c2, o) →
  o = Ret tt ∧ ∃ st1, store_rel c2 st1 ∧ run_work r (CopyIn p data (from + part n from) k) st1 = Some (out, st').
Proof.
  intros Hr Hrun Hf Hread Hwrite. destruct (run_copy_inv _ _ _ _ _ _ _ _ Hf Hrun) as (d' & Hst & Hl & [l Hp] & Hz & Hk).
  destruct (sim_call _ _ _ _ _ Hr Hst) as (c1' & Hex & Hr1). rewrite Hread in Hex. injection Hex as <- <-.
  assert (Hd : length d = page_size) by (apply zlen_page; eapply (ao_len _ (rel_alloc_ok _ _ Hr)); exact Hl).
  assert (Hdata : length data = page_size) by (rewrite length_app, length_take, length_drop in Hz; lia).
  destruct (part_bounds n from Hf) as [H0 H1]. set (x := copied from (part n from) data d) in *.
  assert (Hx : length x = page_size) by by apply copied_length.
  set (st1 := mkStore (set_live p x (st_alloc st)) ({[p]} ∪ st_unflagged st) (st_pins st) (st_frames st)).
  assert (Hs1 : store_step (Write p x) st = Some (Ret tt, st1)).
  { cbn [store_step]. rewrite Hp, decide_True by by apply zlen_page. done. }
  destruct (sim_call _ _ _ _ _ Hr1 Hs1) as (c2' & Hex & Hr2). rewrite Hwrite in Hex. injection Hex as <- ->.
  split; [done|]. exists st1. split; [done|]. pose proof (copied_rest from (part n from) data d Hd Hdata H1) as Hrest. fold x in Hrest.
  cbn [run_work]. destruct (decide (from + part n from = page_size)%nat) as [Hend|Hend].
  - rewrite Hend, take_ge, drop_ge, app_nil_r in Hrest by lia. unfold st1. by rewrite Hrest.
  - rewrite decide_False by lia. unfold st1. cbn [store_step]. unfold st_live. cbn [st_pins st_alloc st_unflagged st_frames set_live al_live].
    rewrite Hp, lookup_insert_eq, Hrest, decide_True by by apply zlen_page.
    change (mkAlloc (al_num (st_alloc st)) (al_free (st_alloc st)) (<[p := x]> (al_live (st_alloc st)))) with (set_live p x (st_alloc st)).
    rewrite set_live_twice. replace ({[p]} ∪ ({[p]} ∪ st_unflagged st)) with ({[p]} ∪ st_unflagged st) by set_solver. exact Hk.
Qed.
Lemma run_error r st : run_work r (SendBytes (error_reply r) Done) st = Some (error_reply r, st).
Proof. cbn [run_work]. change (Some (error_reply r ++ [], st) = Some (error_reply r, st)). by rewrite app_nil_r. Qed.
(** However the sends and the copy are cut into pieces, each step leads on to the
    same bytes and the same pages. *)
Lemma work_step_run r n w c st out st' w' c' bs o : store_rel c st → run_work r w st = Some (out, st') →
  work_step r n w c = Some (w', c', bs, o) →
  ∃ st1 out1, store_rel c' st1 ∧ run_work r w' st1 = Some (out1, st') ∧ out = bs ++ out1.
Proof.
  intros Hr Hrun Hs. destruct w as [X op k|b k|p from k|p data from k|e|]; [..|done].
  - cbn [work_step] in Hs. apply run_pool_inv in Hrun as [(x & st1 & Hst & Hk)|(e & Hst & ->)];
      destruct (sim_call _ _ _ _ _ Hr Hst) as (c1 & Hex & Hr1); rewrite Hex in Hs; injection Hs as <- <- <- <-.
    + by exists st1, out.
    + exists st', (error_reply r). split; [done|]. split; [|done]. apply run_error.
  - cbn [work_step] in Hs. injection Hs as <- <- <- <-. apply run_send_inv in Hrun as (out1 & -> & Hk). eauto.
  - cbn [work_step] in Hs. destruct (decide (from = page_size)) as [Hend|Hend].
    { injection Hs as <- <- <- <-. cbn [run_work] in Hrun. rewrite decide_True in Hrun by done. by exists st, out. }
    destruct (decide (page_size < from)%nat) as [Hp|Hp]; [by rewrite (run_past _ _ p from k [] _ Hp ltac:(by left)) in Hrun|].
    destruct (run_page_inv r p from k st out st') as (d & out1 & Hst & Hl & Hpin & -> & Hk); [lia|done|].
    destruct (sim_call _ _ _ _ _ Hr Hst) as (c1 & Hex & Hr1). rewrite Hex in Hs. injection Hs as <- <- <- <-.
    destruct (part_bounds n from) as [H0 H1]; [lia|].
    assert (Hd : length d = page_size) by (apply zlen_page; eapply (ao_len _ (rel_alloc_ok _ _ Hr)); exact Hl).
    exists st, (drop (from + part n from) d ++ out1). split; [done|]. split; [|by rewrite <- drop_drop, app_assoc, take_drop].
    cbn [run_work]. case_decide as Hend'; [rewrite Hend', drop_ge by lia; done|]. rewrite decide_False by lia. by rewrite Hst, Hk.
  - cbn [work_step] in Hs. destruct (decide (from = page_size)) as [Hend|Hend].
    { injection Hs as <- <- <- <-. cbn [run_work] in Hrun. rewrite decide_True in Hrun by done. by exists st, out. }
    destruct (decide (page_size < from)%nat) as [Hp|Hp]; [by rewrite (run_past _ _ p from k data _ Hp ltac:(by right)) in Hrun|].
    destruct (exec_call (Read p) c) as [c1 [d|e|]] eqn:Hread; [|done..].
    destruct (exec_call (Write p _) c1) as [c2 oo] eqn:Hwrite.
    destruct (copy_step_run r p data from k n c st out st' c1 c2 d oo) as [-> (st1 & Hr1 & Hrun1)]; [done|done|lia|done|exact Hwrite|].
    injection Hs as <- <- <- <-. by exists st1, out.
  - cbn [work_step] in Hs. injection Hs as <- <- <- <-. cbn [run_work] in Hrun. injection Hrun as <- <-.
    exists st, (error_reply r). split; [done|]. split; [|done]. apply run_error.
Qed.
Lemma work_steps_run r w c bs c' st out st' : store_rel c st → run_work r w st = Some (out, st') →
  work_steps r w c bs Done c' → bs = out ∧ store_rel c' st'.
Proof.
  intros Hr Hrun Hs. remember Done as w' eqn:Hw. revert st out Hr Hrun.
  induction Hs as [w m|n w m w1 m1 bs o bs' w' m' Hst _ IH]; intros st out Hr Hrun.
  - subst w. cbn [run_work] in Hrun. by injection Hrun as <- <-.
  - destruct (work_step_run _ _ _ _ _ _ _ _ _ _ _ Hr Hrun Hst) as (st1 & out1 & Hr1 & Hrun1 & ->).
    by destruct (IH Hw st1 out1 Hr1 Hrun1) as [-> Hr'].
Qed.
End pieces.

Section one_handler.
Context {R N : Type} `{HR : Replacer R, !ReplacerLaws R, HO : OS N, !OSStream N, !OSUp N}.
Context (fd : Z) (Hfd : fd ≠ INVALID_SOCKET).
Implicit Types (s : StorageService R N).

(** [FetchPage] and the test for the null pointer. *)
Lemma fetched r s st inp out0 (k : M (StorageService R N) bool) K out st' : accesses r →
  working fd s st inp out0 → K false = Fails RuntimeError →
  run_work r (Pool (Fetch (req_page_id r.1)) K) st = Some (out, st') →
  (∃ s1 st1, bpm (Fetch (req_page_id r.1)) s = (s1, Ret true) ∧ working fd s1 st1 inp out0 ∧
     run_work r (K true) st1 = Some (out, st')) ∨
  ∃ s', try_catch (page ← bpm (Fetch (req_page_id r.1)); if negb page then throw RuntimeError else k)
      (λ _, _ ← send_response (mkResponse ERROR (req_page_id r.1) 0); mret true) s = (s', Ret true) ∧
    working fd s' st' inp (out0 ++ out).
Proof.
  intros Hacc Hw HK Hrun.
  assert (Herr : error_reply r = reply ERROR (req_page_id r.1) 0 []).
  { unfold error_reply. destruct Hacc as [->| ->]; reflexivity. }
  apply run_pool_inv in Hrun as [([] & st1 & Hs & Hk)|(e & Hs & ->)].
  - left. destruct (bpm_run fd _ _ _ _ _ _ _ Hw Hs) as (s1 & Hs1 & Hw1). eauto.
  - right. rewrite HK in Hk. injection Hk as <- <-. destruct (bpm_run fd _ _ _ _ _ _ _ Hw Hs) as (s1 & Hs1 & Hw1).
    rewrite Herr. eapply (catch_error fd Hfd); [|exact Hw1]. by rewrite (bind_Ret _ _ _ _ _ Hs1).
  - right. destruct (bpm_run fd _ _ _ _ _ _ _ Hw Hs) as (s1 & Hs1 & Hw1).
    rewrite Herr. eapply (catch_error fd Hfd); [|exact Hw1]. by rewrite (bind_Throw _ _ _ _ _ Hs1).
Qed.

(** Calls that do not throw. *)
Definition quiet {X} (op : pool_op X) : Prop := match op with Fetch _ => False | _ => True end.
Lemma quiet_step {X} (op : pool_op X) st o st' : quiet op → store_step op st = Some (o, st') → ∃ x, o = Ret x.
Proof.
  destruct op; [done|..]; cbn [quiet store_step]; intros _ Hs; repeat (case_match; try done); simplify_eq; eauto.
Qed.
Lemma quiet_call {X} r (op : pool_op X) K s st inp out0 out st' : quiet op → working fd s st inp out0 →
  run_work r (Pool op K) st = Some (out, st') →
  ∃ x st1 s1, store_step op st = Some (Ret x, st1) ∧ run_work r (K x) st1 = Some (out, st') ∧
    bpm op s = (s1, Ret x) ∧ working fd s1 st1 inp out0.
Proof.
  intros Hq Hw Hrun. apply run_pool_inv in Hrun as [(x & st1 & Hs & Hk)|(e & Hs & ->)].
  - destruct (bpm_run fd _ _ _ _ _ _ _ Hw Hs) as (s1 & Hs1 & Hw1). eauto 10.
  - by destruct (quiet_step _ _ _ _ Hq Hs).
Qed.
Lemma bpm_quiet {X} (op : pool_op X) s st inp out0 x st' : working fd s st inp out0 → store_step op st = Some (Ret x, st') →
  ∃ s1, bpm op s = (s1, Ret x) ∧ working fd s1 st' inp out0.
Proof. apply (bpm_run fd). Qed.
Lemma run_answer r rep st out st' : run_work r (SendBytes rep Done) st = Some (out, st') → out = rep ∧ st' = st.
Proof. intros (out1 & -> & Hk)%run_send_inv. injection Hk as <- <-. by rewrite app_nil_r. Qed.

Lemma read_work_served r s st inp out0 out st' : op_type r.1 = READ_PAGE → working fd s st inp out0 →
  run_work r (request_work r) st = Some (out, st') →
  ∃ s', serve_read (req_page_id r.1) s = (s', Ret true) ∧ working fd s' st' inp (out0 ++ out).
Proof.
  intros Hop Hw Hrun. unfold request_work in Hrun. rewrite decide_True in Hrun by done. unfold serve_read.
  edestruct (fetched r s st inp out0) as [(s1 & st1 & Hs1 & Hw1 & Hk)|Hdone];
    [by left|exact Hw| |exact Hrun| |exact Hdone]; [done|]. clear Hrun. cbn [negb] in Hk.
  set (p := req_page_id r.1) in *. apply run_send_inv in Hk as (out1 & -> & Hk).
  destruct (respond fd Hfd SUCCESS p PAGE_SIZE s1 _ inp out0 Hw1) as (s2 & Hs2 & Hw2).
  destruct (run_page_inv r p 0 _ _ _ _ page_size_pos Hk) as (d & out2 & Hst & Hl & _ & -> & Hk2). rewrite drop_0.
  destruct (bpm_quiet _ _ _ _ _ _ _ Hw2 Hst) as (s3 & Hs3 & Hw3).
  assert (Hlen : zlen d = PAGE_SIZE) by (eapply (ao_len _ (working_alloc fd _ _ _ _ Hw1)); exact Hl).
  destruct (client_send fd Hfd d s3 _ inp _ Hw3) as (s4 & Hs4 & Hw4); [rewrite Hlen; done|].
  destruct (quiet_call r (Unpin p false) _ s4 st1 inp _ out2 st' I Hw4 Hk2) as (b & st3 & s5 & _ & Hk3 & Hs5 & Hw5).
  injection Hk3 as <- <-. exists s5.
  split; [|unfold reply in *; by rewrite !app_nil_r, <- app_assoc in *].
  apply catch_none. rewrite (bind_Ret _ _ _ _ _ Hs1). cbn [negb]. rewrite (bind_Ret _ _ _ _ _ Hs2).
  rewrite (bind_Ret _ _ s2 s4 true); [by rewrite (bind_Ret _ _ _ _ _ Hs5)|]. by rewrite (bind_Ret _ _ _ _ _ Hs3).
Qed.
Lemma write_work_served r s st rest out0 out st' : op_type r.1 = WRITE_PAGE → zlen r.2 = PAGE_SIZE →
  working fd s st (r.2 ++ rest) out0 → run_work r (request_work r) st = Some (out, st') →
  ∃ s', serve_write (req_page_id r.1) s = (s', Ret true) ∧ working fd s' st' rest (out0 ++ out).
Proof.
  intros Hop Hz Hw Hrun. unfold request_work in Hrun. rewrite decide_False, decide_True in Hrun by (done || by rewrite Hop).
  unfold serve_write. destruct (client_recv fd Hfd (stack_buffer PAGE_SIZE) r.2 rest s _ out0 Hw) as (s0 & Hs0 & Hw0);
    [by rewrite Hz|by rewrite Hz|]. rewrite Hz in Hs0. rewrite (bind_Ret _ _ _ _ _ Hs0). cbn [negb].
  edestruct (fetched r s0 st rest out0) as [(s1 & st1 & Hs1 & Hw1 & Hk)|Hdone];
    [by right|exact Hw0| |exact Hrun| |exact Hdone]; [done|]. clear Hrun. cbn [negb] in Hk.
  set (p := req_page_id r.1) in *.
  destruct (run_copy_inv r p r.2 0 _ _ _ _ page_size_pos Hk) as (d & _ & _ & [l Hp] & Hzd & Hk2).
  rewrite take_0, drop_0 in Hk2, Hzd. cbn [app] in Hk2, Hzd.
  set (st2 := mkStore (set_live p r.2 (st_alloc st1)) ({[p]} ∪ st_unflagged st1) (st_pins st1) (st_frames st1)) in *.
  destruct (bpm_quiet (Write p r.2) s1 st1 rest out0 tt st2 Hw1) as (s2 & Hs2 & Hw2).
  { cbn [store_step]. by rewrite Hp, decide_True. }
  destruct (quiet_call r (Unpin p true) _ s2 st2 rest _ out st' I Hw2 Hk2) as (b & st3 & s3 & _ & Hk3 & Hs3 & Hw3).
  apply run_answer in Hk3 as [-> ->]. destruct (respond fd Hfd SUCCESS p 0 s3 _ rest _ Hw3) as (s4 & Hs4 & Hw4).
  exists s4. split; [|exact Hw4]. apply catch_none. rewrite (bind_Ret _ _ _ _ _ Hs1). cbn [negb].
  rewrite (bind_Ret _ _ _ _ _ Hs2). by rewrite (bind_Ret _ _ _ _ _ Hs3).
Qed.
Lemma allocate_served r s st inp out0 out st' : op_type r.1 = ALLOCATE_PAGE → working fd s st inp out0 →
  run_work r (request_work r) st = Some (out, st') →
  ∃ s', serve_allocate s = (s', Ret true) ∧ working fd s' st' inp (out0 ++ out).
Proof.
  intros Hop Hw Hrun. unfold request_work in Hrun.
  rewrite decide_False, decide_False, decide_True in Hrun by (done || by rewrite Hop). unfold serve_allocate.
  destruct (quiet_call r New _ s st inp out0 out st' I Hw Hrun) as ([q|] & st1 & s1 & _ & Hk & Hs1 & Hw1).
  - destruct (quiet_call r (Unpin q true) _ s1 st1 inp _ out st' I Hw1 Hk) as (b & st2 & s2 & _ & Hk2 & Hs2 & Hw2).
    apply run_answer in Hk2 as [-> ->]. destruct (respond fd Hfd SUCCESS q 0 s2 _ inp _ Hw2) as (s3 & Hs3 & Hw3).
    exists s3. split; [|exact Hw3]. apply catch_none. rewrite (bind_Ret _ _ _ _ _ Hs1). by rewrite (bind_Ret _ _ _ _ _ Hs2).
  - injection Hk as <- <-. unfold error_reply. rewrite Hop.
    eapply (catch_error fd Hfd); [|exact Hw1]. by rewrite (bind_Ret _ _ _ _ _ Hs1).
Qed.
Lemma deallocate_served r s st inp out0 out st' : op_type r.1 = DEALLOCATE_PAGE → working fd s st inp out0 →
  run_work r (request_work r) st = Some (out, st') →
  ∃ s', serve_deallocate (req_page_id r.1) s = (s', Ret true) ∧ working fd s' st' inp (out0 ++ out).
Proof.
  intros Hop Hw Hrun. unfold request_work in Hrun.
  rewrite decide_False, decide_False, decide_False, decide_True in Hrun by (done || by rewrite Hop).
  unfold serve_deallocate. set (p := req_page_id r.1) in *.
  destruct (quiet_call r (Delete p) _ s st inp out0 out st' I Hw Hrun) as ([] & st1 & s1 & _ & Hk & Hs1 & Hw1).
  - apply run_answer in Hk as [-> ->]. destruct (respond fd Hfd SUCCESS p 0 s1 _ inp _ Hw1) as (s2 & Hs2 & Hw2).
    exists s2. split; [|exact Hw2]. apply catch_none. by rewrite (bind_Ret _ _ _ _ _ Hs1).
  - injection Hk as <- <-. unfold error_reply. rewrite Hop.
    eapply (catch_error fd Hfd); [|exact Hw1]. by rewrite (bind_Ret _ _ _ _ _ Hs1).
Qed.

Lemma work_served r s st rest out0 out st' : working fd s st (r.2 ++ rest) out0 → request_ok r →
  run_work r (request_work r) st = Some (out, st') →
  ∃ s', serve_request r.1 s = (s', Ret true) ∧ working fd s' st' rest (out0 ++ out).
Proof.
  intros Hw (_ & _ & _ & Hz) Hrun. unfold serve_request.
  assert (Hnil : op_type r.1 ≠ WRITE_PAGE → r.2 ++ rest = rest).
  { intros Hne. rewrite decide_False in Hz by done. by destruct r.2. }
  destruct (decide (op_type r.1 = READ_PAGE)) as [Hop|H1].
  { rewrite Hnil in Hw by (by rewrite Hop). by eapply read_work_served. }
  destruct (decide (op_type r.1 = WRITE_PAGE)) as [Hop|H2]; [by eapply write_work_served|]. rewrite Hnil in Hw by done.
  destruct (decide (op_type r.1 = ALLOCATE_PAGE)) as [Hop|H3]; [by eapply allocate_served|].
  destruct (decide (op_type r.1 = DEALLOCATE_PAGE)) as [Hop|H4]; [by eapply deallocate_served|].
  unfold request_work in Hrun. rewrite !decide_False in Hrun by done. apply run_answer in Hrun as [-> ->]. unfold serve_unknown.
  destruct (respond fd Hfd ERROR INVALID_PAGE_ID 0 s _ rest out0 Hw) as (s' & Hs & Hw'). exists s'.
  split; [by rewrite (bind_Ret _ _ _ _ _ Hs)|]. unfold error_reply. rewrite decide_False by tauto. exact Hw'.
Qed.
End one_handler.

(** ** Properties *)


(** C17 (equivalence). The work of the interleaved handlers is that of the code of
    [HandleClient]: on a connection that stays up, serving a request, where its steps
    are defined, sends the bytes and leaves the pages of [request_work] - the error
    reply when a call throws - and goes on with the next request; and so do the steps
    of [request_work] taken one by one, however the sends and the copy of a page
    are cut into pieces. *)
Theorem handler_does_work {R N} `{HR : Replacer R, !ReplacerLaws R, HO : OS N, !OSStream N, !OSUp N}
    (s : StorageService R N) c r st rest out st' :
  sv_pool s = Some c → store_rel c st → sv_client s ≠ INVALID_SOCKET → sv_running s = true →
  os_in (sv_net s) (sv_client s) = r.2 ++ rest → request_ok r →
  run_work r (request_work r) st = Some (out, st') →
  (∃ s' c', serve_request r.1 s = (s', Ret true) ∧ sv_pool s' = Some c' ∧ store_rel c' st' ∧
    os_in (sv_net s') (sv_client s) = rest ∧
    os_out (sv_net s') (sv_client s) = os_out (sv_net s) (sv_client s) ++ out) ∧
  ∀ bs c', work_steps r (request_work r) c bs Done c' → bs = out ∧ store_rel c' st'.
Proof.
  intros Hc Hr Hfd Hrun Hin Hok Hw. split; [|intros bs c'; by eapply work_steps_run].
  destruct (work_served (sv_client s) Hfd r s st rest (os_out (sv_net s) (sv_client s)) out st') as
    (s' & Hs & [(c' & Hc' & Hr') Hcl _ Hin' Hout]); [split; eauto|done..|].
  exists s', c'. done.
Qed.

(** *** Witnesses: two clients, scheduled step by step *)
Section scheduler.
Context {R : Type} `{HR : Replacer R}.

(** Handler [i] takes a step, with pieces of [n + 1] bytes. *)
Definition step_by (i n : nat) (s : server R) : option (server R) :=
  let '(mkServer hs m log sent) := s in
  match hs !! i with
  | Some (Idle (r :: todo)) => Some (mkServer (<[i := Busy r (request_work r) false todo]> hs) m log sent)
  | Some (Busy r Done c todo) => Some (mkServer (<[i := Idle todo]> hs) m log sent)
  | Some (Busy r w c todo) =>
      '(w', m', bs, o) ← work_step r n w m;
      Some (mkServer (<[i := Busy r w' (c || bool_decide (is_Some o)) todo]> hs) m' (log ++ note i r (unless c o)) (sent ++ [(i, bs)]))
  | _ => None
  end.
(** A schedule; it ends before a race. *)
Fixpoint run_by (n : nat) (order : list nat) (s : server R) : option (server R) :=
  match order with
  | [] => Some s
  | i :: order =>
      s ← step_by i n s;
      if race_free (uses <$> sv_handlers s) then run_by n order s else None
  end.
Lemma step_by_step i n s s' : step_by i n s = Some s' → server_step s s'.
Proof.
  destruct s as [hs m log sent]. cbn [step_by]. destruct (hs !! i) as [[[|r todo]|r w c todo]|] eqn:Hi; try done.
  - intros [= <-]. by apply ss_receive.
  - intros Hs. assert (Hw : w = Done ∨ w ≠ Done) by (destruct w; auto). destruct Hw as [->|Hw].
    { injection Hs as <-. by eapply ss_done. }
    assert (Hstep : ('(w', m', bs, o) ← work_step r n w m; Some (mkServer (<[i := Busy r w' (c || bool_decide (is_Some o)) todo]> hs)
      m' (log ++ note i r (unless c o)) (sent ++ [(i, bs)]))) = Some s') by (destruct w; done).
    destruct (work_step r n w m) as [[[[w' m'] bs] o]|] eqn:Hws; [|done]. injection Hstep as <-. by eapply ss_work.
Qed.
Lemma run_by_steps n order s s' : run_by n order s = Some s' → nsteps calm_step (length order) s s'.
Proof.
  revert s. induction order as [|i order IH]; intros s; cbn [run_by length]; [intros [= <-]; constructor|].
  destruct (step_by i n s) as [s1|] eqn:Hs; [|done]. cbn [mbind option_bind].
  destruct (race_free _) eqn:Hc; [|done]. intros Hrun.
  apply nsteps_l with s1; [split; [by eapply step_by_step|exact Hc]|by apply IH].
Qed.
End scheduler.

(** The first client allocates a page and writes it; the second reads page 1 while
    the first has it pinned, and again after it was written. All sends and copies go in
    three pieces. *)
Definition ask (op : Z) (p : page_id_t) (d : list byte) : request := (mkRequest op p (zlen d), d).

(** Two clients of which one writes the page that the other reads can race: the first
    has pinned page 1 to copy into it when the second pins it to send it. *)
Definition racing_clients : list (list request) :=
  [[ask ALLOCATE_PAGE 0 []; ask WRITE_PAGE 1 (replicate 4096 Byte.x41)]; [ask READ_PAGE 1 []]].
Definition racing_order : list nat := [0; 1; 0; 0; 0; 0; 0; 0]%nat.
Definition racing_start : server LRU.LRUReplacer := serving racing_clients (new_machine 2 new_db (LRU.LRUReplacer_new 2)).
Definition racing_before : server LRU.LRUReplacer := default racing_start (run_by 1499 racing_order racing_start).
Definition racing_after : server LRU.LRUReplacer := default racing_before (step_by 1 1499 racing_before).
Lemma clients_can_race : nsteps calm_step (length racing_order) racing_start racing_before ∧
  server_step racing_before racing_after ∧ ¬ calm racing_after.
Proof.
  split; [apply (run_by_steps 1499); vm_compute; reflexivity|]. split; [apply (step_by_step 1 1499); vm_compute; reflexivity|].
  unfold calm. assert (H : race_free (uses <$> sv_handlers racing_after) = false) by (vm_compute; reflexivity). by rewrite H.
Qed.

Definition one_page_pool : alloc_state := mkAlloc 2 [] {[1 := zero_page]}.
Lemma handler_does_work_witness :
  (∃ s' c', serve_request (ask ALLOCATE_PAGE 0 []).1 (daemon new_pool sample_session) = (s', Ret true) ∧
    sv_pool s' = Some c' ∧ store_rel c' (idle one_page_pool 128) ∧
    os_in (sv_net s') (sv_client (daemon new_pool sample_session)) = sample_session ≫= wire ∧
    os_out (sv_net s') (sv_client (daemon new_pool sample_session)) =
      os_out (sv_net (daemon new_pool sample_session)) (sv_client (daemon new_pool sample_session)) ++ reply SUCCESS 1 0 []) ∧
  ∀ bs c', work_steps (ask ALLOCATE_PAGE 0 []) (request_work (ask ALLOCATE_PAGE 0 [])) new_pool bs Done c' →
    bs = reply SUCCESS 1 0 [] ∧ store_rel c' (idle one_page_pool 128).
Proof.
  apply (handler_does_work (daemon new_pool sample_session) new_pool (ask ALLOCATE_PAGE 0 []) (idle empty_alloc 128)
    (sample_session ≫= wire) (reply SUCCESS 1 0 []) (idle one_page_pool 128));
    [done|apply new_pool_rel|done|done|done|split_and!; vm_compute; done|vm_compute; reflexivity].
Defined.
