(* ===== verification/Daemon.v ===== *)
(** The storage daemon as a process ([main.cpp]): the command line, the wait for a
    signal, and the life of the service and of its database file between the two. *)
From Stdlib Require Import ZArith Lia Ascii String.
From stdpp Require Import base list gmap strings relations.
From S2P Require Import Prelude Types DiskManager Replacer BufferPool PageStore Socket Service Handlers.
Open Scope Z_scope.

Local Open Scope string_scope.
Local Open Scope Z_scope.

(** ** The command line ([main])

    [std::stoi]: leading white space, a sign, decimal digits up to the first other
    character; [RuntimeError] stands for [std::invalid_argument]. *)
Definition digit (c : ascii) : option Z :=
  let d := Z.of_nat (nat_of_ascii c) - 48 in if decide (0 ≤ d < 10) then Some d else None.
Definition is_space (c : ascii) : bool :=
  let n := Z.of_nat (nat_of_ascii c) in bool_decide (n = 32 ∨ 9 ≤ n ≤ 13)%Z.
(** The digits read so far give [acc]; [None] when there were none. *)
Fixpoint read_digits (s : string) (acc : option Z) : option Z :=
  match s with
  | String c s =>
      match digit c with
      | Some d => read_digits s (Some (default 0 acc * 10 + d))
      | None => acc
      end
  | EmptyString => acc
  end.
Fixpoint skip_space (s : string) : string :=
  match s with
  | String c s1 => if is_space c then skip_space s1 else s
  | EmptyString => s
  end.
Definition stoi (s : string) : outcome Z :=
  let s := skip_space s in
  let z := match s with
           | String "-" s1 => Z.opp <$> read_digits s1 None
           | String "+" s1 => read_digits s1 None
           | _ => read_digits s None
           end in
  match z with
  | None => Throw RuntimeError
  | Some z => if decide (i32_ok z) then Ret z else Throw OutOfRange
  end.

Record options := mkOptions { opt_port : Z; opt_db : string }.
Inductive parsed := RunDaemon (o : options) | ShowHelp.
Definition default_options : options := mkOptions 9001 "aether.db".

(** The loop over [argv]; an exception of [stoi] leaves [main]. *)
Fixpoint parse_args (args : list string) (o : options) : outcome parsed :=
  match args with
  | [] => Ret (RunDaemon o)
  | arg :: rest =>
      match rest with
      | value :: rest1 =>
          if decide (arg = "--port" ∨ arg = "-p") then
            match stoi value with
            | Ret z => parse_args rest1 (mkOptions (z mod 2 ^ 16) (opt_db o))
            | Throw e => Throw e
            | UB => UB
            end
          else if decide (arg = "--db" ∨ arg = "-d") then parse_args rest1 (mkOptions (opt_port o) value)
          else if decide (arg = "--help" ∨ arg = "-h") then Ret ShowHelp
          else parse_args rest o
      | [] =>
          if decide (arg = "--help" ∨ arg = "-h") then Ret ShowHelp else parse_args rest o
      end
  end.

Definition SIGINT : Z := 2.
Definition SIGTERM : Z := 15.
Definition SignalHandler (signal : Z) (shutdown_requested : bool) : bool :=
  if decide (signal = SIGINT ∨ signal = SIGTERM) then true else shutdown_requested.

Lemma parse_args_port args : ∀ o o', 0 ≤ opt_port o < 2 ^ 16 → parse_args args o = Ret (RunDaemon o') →
  0 ≤ opt_port o' < 2 ^ 16.
Proof.
  assert (H : ∀ n args o o', (length args < n)%nat → 0 ≤ opt_port o < 2 ^ 16 →
    parse_args args o = Ret (RunDaemon o') → 0 ≤ opt_port o' < 2 ^ 16).
  2: { intros o o'. by apply (H (S (length args))); lia. }
  clear args. induction n as [|n IH]; intros args o o' Hn Ho; [lia|].
  destruct args as [|arg [|value rest]]; cbn [parse_args length] in *.
  - by intros [= <-].
  - case_decide; [done|]. by intros [= <-].
  - case_decide.
    + destruct (stoi value) as [z|e|]; [|done..]. apply IH; [lia|]. cbn. apply Z.mod_pos_bound. lia.
    + case_decide; [apply IH; [lia|done]|]. case_decide; [done|]. apply (IH (value :: rest)); [cbn; lia|done].
Qed.

(** Options that are in order: ports that can be read, and databases. *)
Inductive in_order : list string → Prop :=
| io_nil : in_order []
| io_port flag value z pre : flag = "--port" ∨ flag = "-p" → stoi value = Ret z → in_order pre → in_order (flag :: value :: pre)
| io_db flag value pre : flag = "--db" ∨ flag = "-d" → in_order pre → in_order (flag :: value :: pre).
Lemma parse_in_order pre rest : in_order pre → ∀ o, ∃ o', parse_args (pre ++ rest) o = parse_args rest o'.
Proof.
  induction 1 as [|flag value z pre Hf Hz _ IH|flag value pre Hf _ IH]; intros o; cbn [app parse_args]; [by eexists| |].
  - rewrite decide_True by done. rewrite Hz. apply IH.
  - rewrite decide_False by (destruct Hf; subst; by intros [?|?]). rewrite decide_True by done. apply IH.
Qed.
Lemma parse_help pre flag rest o : in_order pre → flag = "--help" ∨ flag = "-h" → parse_args (pre ++ flag :: rest) o = Ret ShowHelp.
Proof.
  intros Hpre Hf. destruct (parse_in_order pre (flag :: rest) Hpre o) as [o' ->].
  destruct rest as [|value rest]; cbn [parse_args]; [by rewrite decide_True|].
  rewrite !decide_False, decide_True by (done || (destruct Hf; subst; by intros [?|?])). done.
Qed.
Lemma parse_bad_port pre flag value rest e o : in_order pre → flag = "--port" ∨ flag = "-p" → stoi value = Throw e →
  parse_args (pre ++ flag :: value :: rest) o = Throw e.
Proof.
  intros Hpre Hf He. destruct (parse_in_order pre (flag :: value :: rest) Hpre o) as [o' ->]. cbn [parse_args].
  by rewrite decide_True, He.
Qed.

(** ** The process

    While [main] sleeps, signals arrive and the acceptor and its handlers work on
    the service; a sleep is the signals delivered during it and what the other
    threads made of the service. *)
Abbreviation files := (gmap string (list byte)).

Section daemon.
Context {N : Type} `{HO : OS N}.
Abbreviation svc := (StorageService LRU.LRUReplacer N).
Definition sleep : Type := list Z * (svc → svc).

(** The loop on [shutdown_requested]: [false] when the signal has not come by the
    end of these sleeps. *)
Fixpoint wait_shutdown (sleeps : list sleep) (shutdown_requested : bool) : M svc bool :=
  if shutdown_requested then mret true else
  match sleeps with
  | [] => mret false
  | (signals, threads) :: sleeps =>
      _ ← modify threads;
      wait_shutdown sleeps (foldl (λ b signal, SignalHandler signal b) shutdown_requested signals)
  end.

(** The [try] block from [service.Start()] on. *)
Definition run_daemon (sleeps : list sleep) : M svc bool :=
  _ ← Start;
  down ← wait_shutdown sleeps false;
  if down : bool then _ ← Stop; mret true else mret false.

(** The destructors of the service and of its members. *)
Definition service_drop : M svc unit :=
  _ ← Stop;
  _ ← on_server Socket_Close;
  pool ← gets sv_pool;
  _ ← match pool with Some _ => reset_pool | None => mret tt end;
  disk ← gets sv_disk;
  match disk with
  | Some dm => modify (set_disk (Some (Close dm).1))
  | None => mret tt
  end.

(** How a run of [main] ends: with an exit code, by an exception nobody catches, by
    undefined behaviour, or not yet. *)
Inductive ending := Exit (code : Z) | Terminated | Undefined | Serving.

(** The database file of the service. *)
Definition db_of (s : svc) : option (list byte) :=
  match sv_disk s with
  | Some dm => Some (db_file dm)
  | None => db_file ∘ disk_manager_ ∘ ma_pool <$> sv_pool s
  end.
Definition save (o : options) (s : svc) (fs : files) : files :=
  match db_of s with Some f => <[opt_db o := f]> fs | None => fs end.

(** The files when the constructor of [DiskManager] has left the one under [name] as it is now. *)
Definition left_by (name : string) (file : option (list byte)) (fs : files) : files :=
  match file with Some f => <[name := f]> fs | None => delete name fs end.

(** [ac]: what the operating system makes of the attempts to open the database. *)
Definition main (args : list string) (fs : files) (ac : fs_access) (w : N) (sleeps : list sleep)
    : ending * files * N :=
  match parse_args args default_options with
  | Throw _ => (Terminated, fs, w)
  | UB => (Undefined, fs, w)
  | Ret ShowHelp => (Exit 0, fs, w)
  | Ret (RunDaemon o) =>
      let opened := left_by (opt_db o) (open_db (fs !! opt_db o) ac).1 fs in
      match DiskManager_new (fs !! opt_db o) ac with
      | (_, Throw _) => (Exit 1, opened, w)
      | (_, UB) => (Undefined, opened, w)
      | (dm, Ret _) =>
          let leave (code : Z) (s : svc) :=
            match service_drop s with
            | (s, Ret _) => (Exit code, save o s fs, sv_net s)
            | (s, Throw _) => (Terminated, save o s fs, sv_net s)
            | (s, UB) => (Undefined, save o s fs, sv_net s)
            end in
          match run_daemon sleeps (StorageService_new dm (opt_port o) w) with
          | (s, Ret true) => leave 0 s
          | (s, Ret false) => (Serving, save o s fs, sv_net s)
          | (s, Throw _) => leave 1 s
          | (s, UB) => (Undefined, save o s fs, sv_net s)
          end
      end
  end.

(** What the other threads do for one client: the acceptor hands its socket to a
    handler, which serves it until the client is done. *)
Definition connection (fuel : nat) (s : svc) : svc :=
  match acceptor_step s with
  | (s1, Ret (Some (Some fd))) => (HandleClient fuel (set_client (mkSock fd (sv_net s1)) s1)).1
  | (s1, _) => s1
  end.
End daemon.

Lemma shutdown_kept b signals : b = true → foldl (λ b signal, SignalHandler signal b) b signals = true.
Proof. intros ->. induction signals as [|x l IH]; [done|]. cbn. unfold SignalHandler at 2. by destruct (decide _). Qed.
Lemma shutdown_heard b signals : SIGINT ∈ signals ∨ SIGTERM ∈ signals →
  foldl (λ b signal, SignalHandler signal b) b signals = true.
Proof.
  revert b. induction signals as [|x l IH]; intros b; [rewrite !elem_of_nil; tauto|]. rewrite !elem_of_cons. cbn.
  destruct (decide (x = SIGINT ∨ x = SIGTERM)) as [Hx|Hx].
  - intros _. apply shutdown_kept. unfold SignalHandler. by rewrite decide_True.
  - intros H. apply IH. naive_solver.
Qed.

(** ** A run of the daemon *)
Section runs.
Context {N : Type} `{HO : OS N, !OSLaws N, !OSStream N, !OSUp N}.
Abbreviation svc := (StorageService LRU.LRUReplacer N).
Implicit Types (s : svc).

(** Opening the file [name] gives a database with the pages [a]. *)
Definition opens (fs : files) (name : string) (ac : fs_access) (a : alloc_state) : Prop :=
  ∃ dm, DiskManager_new (fs !! name) ac = (dm, Ret tt) ∧ disk_rel dm a.
(** The file [name] holds the pages [a], for whoever can open it. *)
Definition saved (fs : files) (name : string) (a : alloc_state) : Prop :=
  ∀ ac, can_open ac = true → opens fs name ac a.
(** The network lets the daemon listen on [port], and then brings one client on the
    descriptor [fd], which sends the requests [rs]. *)
Definition dialled (w : N) (port : Z) (rs : list request) (fd : Z) : Prop :=
  ∃ k w2, Listen port 128 (mkSock INVALID_SOCKET w) = (k, Ret true) ∧
    Accept k = (mkSock (fd_ k) w2, Ret fd) ∧ fd ≠ INVALID_SOCKET ∧
    os_in w2 fd = rs ≫= wire ∧ os_out w2 fd = [].

Lemma shut_out fd fd' w : os_out (shut fd w) fd' = os_out w fd'.
Proof. unfold shut. case_decide; [done|apply close_out]. Qed.

Lemma start_run (dm : DiskManager) port w k b : Listen port 128 (mkSock INVALID_SOCKET w) = (k, Ret b) →
  Start (StorageService_new dm port w) =
    if b then (set_running true (set_server k (StorageService_new dm port w)), Ret tt)
    else (set_server k (StorageService_new dm port w), Throw RuntimeError).
Proof.
  intros Hl. unfold Start. set (s0 := StorageService_new dm port w).
  rewrite (bind_Ret _ _ s0 s0 false) by done. cbv iota. rewrite (bind_Ret _ _ s0 s0 port) by done.
  rewrite (bind_Ret _ _ s0 (set_server k s0) b); [by destruct b|].
  unfold on_server, zoom. change (mkSock (sv_server s0) (sv_net s0)) with (mkSock INVALID_SOCKET w). by rewrite Hl.
Qed.

Lemma connection_run s c a n rs o ps fuel w2 fd : sv_running s = true → sv_pool s = Some c →
  store_rel c (idle a n) → Accept (mkSock (sv_server s) (sv_net s)) = (mkSock (sv_server s) w2, Ret fd) →
  fd ≠ INVALID_SOCKET → os_in w2 fd = rs ≫= wire → os_out w2 fd = [] → Forall request_ok rs →
  answers rs (a, n) = Some (o, ps) → (length rs < fuel)%nat →
  ∃ c', let s' := connection fuel s in sv_running s' = true ∧ sv_pool s' = Some c' ∧
    store_rel c' (idle ps.1 ps.2) ∧ os_out (sv_net s') fd = o.
Proof.
  intros Hrun Hc Hr Hacc Hfd Hin Hout Hok Ha Hf. set (s1 := set_server (mkSock (sv_server s) w2) s).
  assert (Hs1 : acceptor_step s = (s1, Ret (Some (Some fd)))).
  { unfold acceptor_step. rewrite (bind_Ret _ _ s s true) by (unfold gets; by rewrite Hrun). cbn [negb].
    rewrite (bind_Ret _ _ s s1 fd) by (unfold on_server, zoom; by rewrite Hacc).
    rewrite (bind_Ret _ _ s1 s1 true) by (unfold gets; cbn; by rewrite Hrun). cbn [negb].
    by rewrite decide_False. }
  unfold connection. rewrite Hs1. set (s2 := set_client _ s1).
  destruct (handle_client_run fd Hfd rs s2 a n o ps [] fuel) as (s' & c' & Hh & Hout' & _ & Hc' & Hr' & Hrun'); [|done..|].
  - split; try done. by exists c.
  - rewrite Hh. by exists c'.
Qed.

(** The end of the scope: the service has stopped, or never ran. *)
Lemma drop_stopped s dm : sv_running s = false → sv_pool s = None → sv_disk s = Some dm →
  ∃ s', service_drop s = (s', Ret tt) ∧ db_of s' = Some (db_file dm) ∧ sv_net s' = shut (sv_server s) (sv_net s).
Proof.
  intros Hrun Hp Hd. eexists. unfold service_drop.
  rewrite (bind_Ret _ _ s s tt); [|unfold Stop; by rewrite (bind_Ret _ _ s s false) by (unfold gets; by rewrite Hrun)].
  rewrite (bind_Ret _ _ _ _ _ (server_close s)). msimpl. cbn [sv_pool set_server]. rewrite Hp. msimpl.
  cbn [sv_disk set_server]. rewrite Hd. msimpl. split; [reflexivity|]. done.
Qed.
Lemma drop_unstarted s c a m n : sv_running s = false → sv_pool s = Some c → store_rel c (mkStore a ∅ m n) →
  ∃ s' dm, service_drop s = (s', Ret tt) ∧ db_of s' = Some (db_file dm) ∧ disk_rel dm a ∧
    sv_net s' = shut (sv_server s) (sv_net s).
Proof.
  intros Hrun Hp Hr. pose proof (server_close s) as Hsc. set (s1 := set_server _ s) in Hsc.
  destruct (bpm_flush s1 c a m n Hp Hr) as (c' & Hfl & Hr' & Hd).
  eexists _, (disk_manager_ (ma_pool c')). split; [|split_and!; [|by eapply stopped_disk|]].
  - unfold service_drop.
    rewrite (bind_Ret _ _ s s tt); [|unfold Stop; by rewrite (bind_Ret _ _ s s false) by (unfold gets; by rewrite Hrun)].
    rewrite (bind_Ret _ _ _ _ _ Hsc). rewrite (bind_Ret _ _ s1 s1 (Some c)) by (unfold gets; by rewrite <- Hp).
    rewrite (bind_Ret _ _ s1 (set_pool None (set_disk (Some (disk_manager_ (ma_pool c'))) (set_pool (Some c') s1))) tt).
    + msimpl. cbn [sv_disk set_pool set_disk]. reflexivity.
    + unfold reset_pool. by rewrite (bind_Ret _ _ _ _ _ Hfl).
  - done.
  - done.
Qed.

Lemma saved_opens o s fs dm a : db_of s = Some (db_file dm) → disk_rel dm a → saved (save o s fs) (opt_db o) a.
Proof.
  intros Hs Hd ac Hac. exists dm. unfold save. rewrite Hs. cbn iota. rewrite lookup_insert_eq. split; [|done].
  eapply reopen_eq; [apply Hd|exact Hac].
Qed.
Lemma saved_others o s fs name : name ≠ opt_db o → save o s fs !! name = fs !! name.
Proof. intros Hn. unfold save. destruct (db_of s); [|done]. by rewrite lookup_insert_ne. Qed.

(** The wait: a sleep in which one client is served, and the sleep the signal comes in. *)
Lemma wait_run s threads signals rest : SIGINT ∈ signals ∨ SIGTERM ∈ signals →
  wait_shutdown (([], threads) :: (signals, λ s, s) :: rest) false s = (threads s, Ret true).
Proof.
  intros Hs. cbn [wait_shutdown]. rewrite (bind_Ret _ _ s (threads s) tt) by done. cbn [foldl wait_shutdown].
  rewrite (bind_Ret _ _ (threads s) (threads s) tt) by done. rewrite shutdown_heard by done. by destruct rest.
Qed.

(** The started service. *)
Definition started (dm : DiskManager) (port : Z) (k : sock N) : svc :=
  set_running true (set_server k (StorageService_new dm port (net_ k))).

(** From the command line to the exit code: the daemon opens its database, listens,
    lets the other [threads] work, and stops at the signal. *)
Lemma main_run args fs ac (w : N) o dm k threads signals rest c a m n :
  parse_args args default_options = Ret (RunDaemon o) → DiskManager_new (fs !! opt_db o) ac = (dm, Ret tt) →
  Listen (opt_port o) 128 (mkSock INVALID_SOCKET w) = (k, Ret true) →
  SIGINT ∈ signals ∨ SIGTERM ∈ signals →
  sv_running (threads (started dm (opt_port o) k)) = true → sv_pool (threads (started dm (opt_port o) k)) = Some c →
  store_rel c (mkStore a ∅ m n) →
  ∃ fs' w', main args fs ac w (([], threads) :: (signals, λ s, s) :: rest) = (Exit 0, fs', w') ∧
    (∃ fd fd', w' = shut fd (shut fd' (sv_net (threads (started dm (opt_port o) k))))) ∧
    saved fs' (opt_db o) a ∧ ∀ name, name ≠ opt_db o → fs' !! name = fs !! name.
Proof.
  intros Hargs Hdm Hl Hsig Hrun Hp Hr. unfold main. rewrite Hargs, Hdm. set (s0 := StorageService_new dm (opt_port o) w).
  assert (Hs1 : Start s0 = (started dm (opt_port o) k, Ret tt)) by exact (start_run dm (opt_port o) w k true Hl).
  set (s1 := started dm (opt_port o) k) in *.
  destruct (stop_run _ c a m n Hrun Hp Hr) as (s3 & c3 & Hs3 & Hp3 & Hrun3 & Hsv3 & Hdk3 & Hnet3 & Hr3 & Hd3).
  destruct (drop_stopped s3 _ Hrun3 Hp3 Hdk3) as (s4 & Hs4 & Hdb4 & Hnet4).
  exists (save o s4 fs), (sv_net s4).
  assert (Hrd : run_daemon (([], threads) :: (signals, λ s, s) :: rest) s0 = (s3, Ret true)).
  { unfold run_daemon. rewrite (bind_Ret _ _ _ _ _ Hs1).
    rewrite (bind_Ret _ _ _ _ _ (wait_run s1 _ signals rest Hsig)). by rewrite (bind_Ret _ _ _ _ _ Hs3). }
  rewrite Hrd, Hs4. split; [done|]. split; [do 2 eexists; by rewrite Hnet4, Hnet3|].
  split; [|intros name; apply saved_others]. apply (saved_opens o s4 fs (disk_manager_ (ma_pool c3))); [exact Hdb4|].
  by eapply stopped_disk.
Qed.

(** *** Runs that fail *)
Lemma left_same name x (fs : files) : fs !! name = x → left_by name x fs = fs.
Proof. intros Hx. destruct x as [f|]; cbn; [by apply insert_id|by apply delete_id]. Qed.
Lemma unopened (fs : files) name ac : fs !! name = None ∨ can_open ac = false →
  open_db (fs !! name) ac = if can_create ac then if can_reopen ac then (Some [], Ret ([], true)) else (Some [], Throw RuntimeError)
    else (fs !! name, Throw RuntimeError).
Proof. intros [-> | H]; [done|]. unfold open_db. rewrite H. by destruct (fs !! name). Qed.
Lemma main_unopened args fs ac (w : N) sleeps o e : parse_args args default_options = Ret (RunDaemon o) →
  (open_db (fs !! opt_db o) ac).2 = Throw e →
  main args fs ac w sleeps = (Exit 1, left_by (opt_db o) (open_db (fs !! opt_db o) ac).1 fs, w).
Proof.
  intros Ho He. unfold main. rewrite Ho. unfold DiskManager_new.
  destruct (open_db (fs !! opt_db o) ac) as [x y]. cbn in He. by subst y.
Qed.
Lemma short_file f ac : can_open ac = true → zlen f < 8 → ∃ dm, DiskManager_new (Some f) ac = (dm, Throw RuntimeError).
Proof.
  intros Hac Hz. unfold DiskManager_new, open_db. rewrite Hac. unfold ReadMetadata, stream_read. msimpl. unfold file_read. cbn.
  case_decide; [|eauto]. cbn. rewrite decide_False by lia. eauto.
Qed.
Lemma not_listening args fs ac (w : N) sleeps o a dm k : parse_args args default_options = Ret (RunDaemon o) →
  DiskManager_new (fs !! opt_db o) ac = (dm, Ret tt) → disk_rel dm a →
  Listen (opt_port o) 128 (mkSock INVALID_SOCKET w) = (k, Ret false) →
  ∃ fs' w', main args fs ac w sleeps = (Exit 1, fs', w') ∧ saved fs' (opt_db o) a ∧
    os_fds w' = os_fds w ∧ ∀ name, name ≠ opt_db o → fs' !! name = fs !! name.
Proof.
  intros Ho Hdm Hd Hl. unfold main. rewrite Ho, Hdm. set (s0 := StorageService_new dm (opt_port o) w).
  destruct (listen_acquired (opt_port o) 128 (mkSock INVALID_SOCKET w)) as (k' & b & Hl' & [_ Hacq]).
  rewrite Hl in Hl'. injection Hl' as <- <-. destruct Hacq as [Hk Hfds].
  destruct (drop_unstarted (set_server k s0) (new_machine 128 dm (LRU.LRUReplacer_new 128)) a ∅ 128)
    as (s1 & dm1 & Hs1 & Hdb & Hd1 & Hnet); [done|done|by apply lru_new_rel|].
  assert (Hrd : run_daemon sleeps s0 = (set_server k s0, Throw RuntimeError)).
  { unfold run_daemon. by rewrite (bind_Throw _ _ s0 _ _ (start_run dm (opt_port o) w k false Hl)). }
  rewrite Hrd, Hs1. exists (save o s1 fs), (sv_net s1). split; [done|]. split; [by eapply saved_opens|].
  split; [|intros name; apply saved_others]. rewrite Hnet, shut_fds. cbn [sv_server set_server sv_net].
  rewrite Hk. unfold fds in Hfds. cbn [net_ fd_] in Hfds. rewrite Hfds. pose proof (fds_valid w) as Hv. clear -Hv. set_solver.
Qed.
End runs.

(** ** Properties *)

(** C9 (refinement). A life of the daemon, from the command line to its exit code:
    started on a database file that holds the pages [a], on a port it can listen
    on, it gives a client every reply the page server owes; at [SIGINT] or
    [SIGTERM] it stops and exits with 0, and the file then holds the pages as the
    session left them, so that the next daemon started on it goes on from there.
    No other file is touched. *)
Theorem daemon_session {N} `{HO : OS N, !OSLaws N, !OSStream N, !OSUp N} args fs ac (w : N) o a rs out ps fd
    fuel signals rest :
  parse_args args default_options = Ret (RunDaemon o) → opens fs (opt_db o) ac a →
  dialled w (opt_port o) rs fd → Forall request_ok rs → answers rs (a, 128) = Some (out, ps) →
  (length rs < fuel)%nat → SIGINT ∈ signals ∨ SIGTERM ∈ signals →
  ∃ fs' w', main args fs ac w (([], connection fuel) :: (signals, λ s, s) :: rest) = (Exit 0, fs', w') ∧
    os_out w' fd = out ∧ saved fs' (opt_db o) ps.1 ∧ ∀ name, name ≠ opt_db o → fs' !! name = fs !! name.
Proof.
  intros Hargs (dm & Hdm & Hd) (k & w2 & Hl & Hacc & Hfd & Hin & Hout) Hok Hans Hf Hsig.
  destruct (connection_run (started dm (opt_port o) k) (new_machine 128 dm (LRU.LRUReplacer_new 128)) a 128 rs out ps
    fuel w2 fd) as (c' & Hrun & Hp & Hr & Ho); [done|done|by apply lru_new_rel|by destruct k|done..|].
  destruct (main_run args fs ac w o dm k (connection fuel) signals rest c' ps.1 ∅ ps.2) as
    (fs' & w' & Hm & (fd1 & fd2 & Hw) & Hfs & Hothers); [done..|].
  exists fs', w'. split; [exact Hm|]. split; [by rewrite Hw, !shut_out|]. done.
Qed.


(** C38 (error). The other ends of [main]. After any options that are in order,
    [--help] exits with 0 and touches nothing, and a port that [stoi] does not read is
    thrown outside the [try] block and terminates the process; any other port is
    reduced modulo [2^16]. A database that cannot be opened: when it cannot be created
    either, or is too short for the metadata, the exit code is 1 and the files
    are as they were; when it can be created but not opened again, the exit code is 1
    and what was in the file is gone. When the daemon cannot listen it exits with
    1, all sockets closed again, and the database holds the pages it held, but no
    page at all if there was one that could not be opened and could be truncated. *)
Theorem main_failures {N} `{HO : OS N, !OSLaws N} args fs ac (w : N) sleeps :
  (∀ pre flag rest, in_order pre → flag = "--help" ∨ flag = "-h" → args = (pre ++ flag :: rest)%list →
     main args fs ac w sleeps = (Exit 0, fs, w)) ∧
  (∀ pre flag value rest e, in_order pre → flag = "--port" ∨ flag = "-p" → stoi value = Throw e →
     args = (pre ++ flag :: value :: rest)%list → main args fs ac w sleeps = (Terminated, fs, w)) ∧
  ∀ o, parse_args args default_options = Ret (RunDaemon o) →
    0 ≤ opt_port o < 2 ^ 16 ∧
    (fs !! opt_db o = None ∨ can_open ac = false →
       (can_create ac = false → main args fs ac w sleeps = (Exit 1, fs, w)) ∧
       (can_create ac = true → can_reopen ac = false → main args fs ac w sleeps = (Exit 1, <[opt_db o := []]> fs, w)) ∧
       (can_create ac = true → can_reopen ac = true → opens fs (opt_db o) ac empty_alloc)) ∧
    (∀ f, fs !! opt_db o = Some f → can_open ac = true → zlen f < 8 → main args fs ac w sleeps = (Exit 1, fs, w)) ∧
    (∀ a k, opens fs (opt_db o) ac a → Listen (opt_port o) 128 (mkSock INVALID_SOCKET w) = (k, Ret false) →
       ∃ fs' w', main args fs ac w sleeps = (Exit 1, fs', w') ∧ saved fs' (opt_db o) a ∧
         os_fds w' = os_fds w ∧ ∀ name, name ≠ opt_db o → fs' !! name = fs !! name).
Proof.
  split; [|split].
  - intros pre flag rest Hpre Hf ->. unfold main. by rewrite (parse_help pre flag rest).
  - intros pre flag value rest e Hpre Hf He ->. unfold main. by rewrite (parse_bad_port pre flag value rest e).
  - intros o Ho. split; [by apply (parse_args_port args default_options)|]. split; [|split].
    + intros Hno. split; [|split].
      * intros Hc. rewrite (main_unopened _ _ _ _ _ _ RuntimeError Ho); rewrite unopened by done; rewrite Hc; [|done].
        by rewrite left_same.
      * intros Hc Hre. rewrite (main_unopened _ _ _ _ _ _ RuntimeError Ho); rewrite unopened by done; by rewrite Hc, Hre.
      * intros Hc Hre. exists new_db. split; [|apply new_db_rel]. unfold DiskManager_new. rewrite unopened by done.
        rewrite Hc, Hre. vm_compute. reflexivity.
    + intros f Hf Hac Hz. destruct (short_file f ac Hac Hz) as [dm Hdm]. unfold main. rewrite Ho, Hf, Hdm.
      unfold open_db. rewrite Hac. cbn [fst]. by rewrite (left_same _ _ _ Hf).
    + intros a k (dm & Hdm & Hd) Hl. by eapply not_listening.
Qed.

(** *** Witnesses: a daemon that creates its database and serves one client *)
Definition daemon_args : list string := ["-p"; "9100"; "--db"; "pages.db"].
Definition daemon_options : options := mkOptions 9100 "pages.db".
Definition daemon_net : test_net := mkNet (sample_session ≫= wire) [] 2 ∅ 0.

Lemma daemon_dialled : ∃ fd, dialled daemon_net 9100 sample_session fd.
Proof. eexists. do 2 eexists. split_and!; [vm_compute; reflexivity|vm_compute; reflexivity|vm_compute; done|vm_compute; reflexivity|vm_compute; reflexivity]. Qed.

Lemma daemon_session_witness : ∃ fd fs' w',
  main daemon_args ∅ full_access daemon_net (([], connection 5) :: ([1; SIGTERM], λ s, s) :: []) = (Exit 0, fs', w') ∧
  os_out w' fd = sample_replies ∧ saved fs' "pages.db" sample_pages.1 ∧
  ∀ name, name ≠ "pages.db" → fs' !! name = (∅ : files) !! name.
Proof.
  destruct daemon_dialled as [fd Hd]. exists fd.
  apply (daemon_session daemon_args ∅ full_access daemon_net daemon_options empty_alloc sample_session sample_replies
    sample_pages fd 5 [1; SIGTERM] []).
  - vm_compute. reflexivity.
  - exists new_db. split; [apply new_db_eq|apply new_db_rel].
  - exact Hd.
  - apply sample_session_ok.
  - apply sample_answers.
  - cbn; lia.
  - right. right. by left.
Defined.


(** A daemon that is asked for help, one whose port is no number, one that truncates a
    database it cannot open, and one that must not listen on port 80. *)
Definition some_files : files := {["pages.db" := [Byte.x41]]}.
Lemma main_failures_witness :
  main ["-p"; "9100"; "--help"; "--port"] some_files full_access daemon_net [] = (Exit 0, some_files, daemon_net) ∧
  main ["--db"; "pages.db"; "-p"; "ninety"] some_files full_access daemon_net [] = (Terminated, some_files, daemon_net) ∧
  main daemon_args some_files (mkAccess false true false) daemon_net [] = (Exit 1, <["pages.db" := []]> some_files, daemon_net) ∧
  main daemon_args some_files full_access daemon_net [] = (Exit 1, some_files, daemon_net) ∧
  ∃ fs' w', main ["-p"; "80"; "--db"; "pages.db"] some_files (mkAccess false true true) daemon_net [] = (Exit 1, fs', w') ∧
    saved fs' "pages.db" empty_alloc ∧ os_fds w' = os_fds daemon_net ∧ ∀ name, name ≠ "pages.db" → fs' !! name = some_files !! name.
Proof.
  assert (Hp : in_order ["-p"; "9100"]) by (apply (io_port _ _ 9100); [by right|vm_compute; reflexivity|constructor]).
  assert (Hd : in_order ["--db"; "pages.db"]) by (apply io_db; [by left|constructor]).
  assert (Ho : parse_args daemon_args default_options = Ret (RunDaemon daemon_options)) by (vm_compute; reflexivity).
  split; [|split; [|split; [|split]]].
  - destruct (main_failures ["-p"; "9100"; "--help"; "--port"] some_files full_access daemon_net []) as (H & _ & _).
    apply (H ["-p"; "9100"] "--help" ["--port"]); [exact Hp|by left|done].
  - destruct (main_failures ["--db"; "pages.db"; "-p"; "ninety"] some_files full_access daemon_net []) as (_ & H & _).
    apply (H ["--db"; "pages.db"] "-p" "ninety" [] RuntimeError); [exact Hd|by right|vm_compute; reflexivity|done].
  - destruct (main_failures daemon_args some_files (mkAccess false true false) daemon_net []) as (_ & _ & H).
    destruct (H _ Ho) as (_ & Hno & _). apply Hno; [by right|done|done].
  - destruct (main_failures daemon_args some_files full_access daemon_net []) as (_ & _ & H).
    destruct (H _ Ho) as (_ & _ & Hs & _). by apply (Hs [Byte.x41]).
  - destruct (main_failures ["-p"; "80"; "--db"; "pages.db"] some_files (mkAccess false true true) daemon_net []) as (_ & _ & H).
    destruct (H (mkOptions 80 "pages.db")) as (_ & _ & _ & Hl); [vm_compute; reflexivity|].
    apply (Hl empty_alloc (Listen 80 128 (mkSock INVALID_SOCKET daemon_net)).1).
    + exists new_db. split; [by apply unopened_new|apply new_db_rel].
    + vm_compute. reflexivity.
Defined.
