(* ===== verification/Logger.v ===== *)
(** Logging ([logger.hpp]).  A streamed argument is the text [operator<<] makes of
    it; the lines written to [std::cout] are a list. *)
From Stdlib Require Import ZArith Lia Ascii String.
From stdpp Require Import base list strings.
From S2P Require Import Prelude Types.
Open Scope Z_scope.

Local Open Scope string_scope.
Local Open Scope Z_scope.

(** ** Formatting

    [FormatImpl] with no arguments streams the rest of the format; with a first
    argument it looks for the next placeholder, the loop over [*format]. *)
Definition brace_open : ascii := "{"%char.
Definition brace_close : ascii := "}"%char.

Fixpoint FormatImpl (format : string) (args : list string) : string :=
  match args with
  | [] => format
  | first :: rest =>
      match format with
      | EmptyString => EmptyString
      | String c format1 =>
          match format1 with
          | String d format2 =>
              if bool_decide (c = brace_open) && bool_decide (d = brace_close)
              then first +:+ FormatImpl format2 rest
              else String c (FormatImpl format1 args)
          | EmptyString => String c EmptyString
          end
      end
  end.
Definition Format (format : string) (args : list string) : string := FormatImpl format args.

(** [local] is what [std::localtime] gives for the time of the clock, [None] for a
    null pointer; [put_time] is the text of a date under a format. *)
Definition GetCurrentTimestamp {tm : Type} (put_time : string → tm → string) (local : option tm) : string :=
  match local with
  | Some timeinfo => put_time "%Y-%m-%d %H:%M:%S" timeinfo
  | None => "0000-00-00 00:00:00"
  end.

(** [Log], under the log mutex, appends a line. *)
Definition Log (timestamp level msg : string) (out : list string) : list string :=
  (out ++ ["[" +:+ timestamp +:+ "] [aether] [" +:+ level +:+ "] " +:+ msg])%list.

Inductive log_level := debug | info | warn | error | critical.
Definition level_name (l : log_level) : string :=
  match l with
  | debug => "DEBUG" | info => "INFO" | warn => "WARN" | error => "ERROR" | critical => "CRITICAL"
  end.
(** [spdlog::debug], [info], [warn], [error] and [critical]. *)
Definition log_at (l : log_level) (timestamp fmt : string) (args : list string) (out : list string) : list string :=
  Log timestamp (level_name l) (Format fmt args) out.

(** *** Formats as pieces of text around placeholders *)
Definition hole : string := "{}".
(** No placeholder inside. *)
Fixpoint plain (s : string) : bool :=
  match s with
  | String c s1 =>
      match s1 with
      | String d _ => negb (bool_decide (c = brace_open) && bool_decide (d = brace_close)) && plain s1
      | EmptyString => true
      end
  | EmptyString => true
  end.
Fixpoint template (p : string) (ps : list string) : string :=
  match ps with [] => p | q :: ps => p +:+ hole +:+ template q ps end.
(** The arguments in place of the placeholders: surplus arguments are dropped, and
    surplus placeholders stay. *)
Fixpoint fill_in (p : string) (ps : list string) (args : list string) : string :=
  match ps, args with
  | [], _ => p
  | q :: ps, a :: args => p +:+ a +:+ fill_in q ps args
  | _ :: _, [] => template p ps
  end.

Lemma format_no_args f : FormatImpl f [] = f.
Proof. by destruct f. Qed.
Lemma format_plain p a args : plain p = true → FormatImpl p (a :: args) = p.
Proof.
  induction p as [|c p IH]; [done|]. cbn [plain FormatImpl]. destruct p as [|d p]; [done|].
  intros [Hc Hp]%andb_true_iff. apply negb_true_iff in Hc. rewrite Hc. f_equal. by apply IH.
Qed.
(** The first placeholder after a plain text is the one found. *)
Lemma format_hole p a args f : plain p = true →
  FormatImpl (p +:+ hole +:+ f) (a :: args) = p +:+ a +:+ FormatImpl f args.
Proof.
  induction p as [|c p IH]; [done|]. intros Hp.
  change (String c p +:+ hole +:+ f) with (String c (p +:+ hole +:+ f)).
  change (String c p +:+ ?x) with (String c (p +:+ x)).
  destruct p as [|d p].
  - cbn [FormatImpl String.app]. change (EmptyString +:+ ?x) with x. change (hole +:+ f) with (String brace_open (String brace_close f)).
    assert (Hpl : FormatImpl (String brace_open (String brace_close f)) (a :: args) = a +:+ FormatImpl f args) by done.
    rewrite <- Hpl. cbn [FormatImpl]. rewrite (bool_decide_false (brace_open = brace_close)) by done.
    by rewrite andb_false_r.
  - cbn [plain] in Hp. apply andb_true_iff in Hp as [Hc Hp]. apply negb_true_iff in Hc.
    change (String d p +:+ ?x) with (String d (p +:+ x)) in IH |- *. cbn [FormatImpl]. rewrite Hc.
    f_equal. by apply IH.
Qed.
Lemma format_template ps : ∀ p args, plain p = true → Forall (λ q, plain q = true) ps →
  FormatImpl (template p ps) args = fill_in p ps args.
Proof.
  induction ps as [|q ps IH]; intros p [|a args] Hp Hps; cbn [template fill_in].
  - apply format_no_args.
  - by apply format_plain.
  - apply format_no_args.
  - apply Forall_cons in Hps as [Hq Hps]. by rewrite format_hole, IH.
Qed.

(** Every format is a template. *)
Lemma template_cons c p ps : template (String c p) ps = String c (template p ps).
Proof. by destruct ps. Qed.
Lemma template_complete f : ∃ p ps, f = template p ps ∧ plain p = true ∧ Forall (λ q, plain q = true) ps.
Proof.
  assert (H : ∀ n f, (String.length f < n)%nat → ∃ p ps, f = template p ps ∧ plain p = true ∧ Forall (λ q, plain q = true) ps).
  2: { by apply (H (S (String.length f))); lia. }
  clear f. induction n as [|n IH]; intros f Hf; [lia|]. destruct f as [|c f]; [by exists EmptyString, []|].
  destruct f as [|d f].
  { exists (String c EmptyString), []. by split_and!. }
  destruct (bool_decide (c = brace_open) && bool_decide (d = brace_close)) eqn:Hcd.
  - apply andb_true_iff in Hcd as [->%bool_decide_eq_true ->%bool_decide_eq_true].
    destruct (IH f) as (p & ps & -> & Hp & Hps); [cbn in Hf; lia|].
    exists EmptyString, (p :: ps). split_and!; [done|done|by constructor].
  - destruct (IH (String d f)) as (p & ps & Heq & Hp & Hps); [cbn in Hf |- *; lia|].
    exists (String c p), ps. split_and!; [by rewrite template_cons, Heq| |done].
    destruct p as [|e p]; [done|]. rewrite template_cons in Heq. injection Heq as <- _.
    change (negb (bool_decide (c = brace_open) && bool_decide (d = brace_close)) && plain (String d p) = true).
    by rewrite Hcd, Hp.
Qed.

(** ** Properties *)

(** [Format] puts the arguments, in order, in place of the
    placeholders of the format and leaves the text around them alone, whatever the
    arguments contain; surplus arguments are dropped and surplus placeholders stay
    as they are. Every format is text around placeholders, so this is what [Format]
    does on all of them. *)
Theorem format_fills_template fmt args :
  ∃ p ps, fmt = template p ps ∧ plain p = true ∧ Forall (λ q, plain q = true) ps ∧
    Format fmt args = fill_in p ps args.
Proof.
  destruct (template_complete fmt) as (p & ps & -> & Hp & Hps). exists p, ps. split_and!; try done.
  by apply format_template.
Qed.
