(* ===== verification/Concurrency.v ===== *)
(** Threads and locks ([concurrency.hpp]): [Thread] handles over the calls of
    pthreads and over those of Windows, and what [Mutex] and [LockGuard] give the methods
    of the engine - any interleaving of their calls is a sequence of whole calls. *)
From Stdlib Require Import ZArith Lia.
From stdpp Require Import base list gmap relations.
From S2P Require Import Prelude Types DiskManager Replacer BufferPool PageStore.
Open Scope Z_scope.

(** ** [Thread] handles *)

(** The calls of [<pthread.h>] on a state [W] of the system; [None] when no thread
    could be created. A [pthread_t] is a number, 0 for none. *)
Class Pthread (W : Type) := {
  pthread_create : W → W * option Z;
  pthread_join : Z → W → W;
  pthread_detach : Z → W → W;
}.
(** The threads whose resources are still to be reclaimed. *)
Class PthreadLaws (W : Type) `{Pthread W} := {
  joinable : W → gset Z;
  pt_create w w' o : pthread_create w = (w', o) →
    match o with
    | Some t => t ≠ 0 ∧ t ∉ joinable w ∧ joinable w' = {[t]} ∪ joinable w
    | None => joinable w' = joinable w
    end;
  pt_join t w : joinable (pthread_join t w) = joinable w ∖ {[t]};
  pt_detach t w : joinable (pthread_detach t w) = joinable w ∖ {[t]};
}.

(** A [Thread] object in the system: its [thread_]. *)
Record thread_obj (W : Type) := mkThread { thread_ : Z; world_ : W }.
Arguments mkThread {W}.
Arguments thread_ {W}.
Arguments world_ {W}.

Section thread.
Context {W : Type} `{HP : Pthread W}.
Implicit Types (x : thread_obj W).

Definition Thread_default (w : W) : thread_obj W := mkThread 0 w.
(** The constructor that starts a task. The result of [pthread_create] is not
    tested: after a failure [thread_] has no determined value, and any use of it is
    undefined. *)
Definition Thread_new (w : W) : thread_obj W * outcome unit :=
  let '(w, o) := pthread_create w in
  match o with
  | Some t => (mkThread t w, Ret tt)
  | None => (mkThread 0 w, UB)
  end.
(** The destructor does nothing on POSIX. *)
Definition Thread_destroy x : W := world_ x.
Definition Join x : thread_obj W :=
  if decide (thread_ x ≠ 0) then mkThread 0 (pthread_join (thread_ x) (world_ x)) else x.
Definition Detach x : thread_obj W :=
  if decide (thread_ x ≠ 0) then mkThread 0 (pthread_detach (thread_ x) (world_ x)) else x.
(** The moved-from handle comes second. *)
Definition Thread_move (other : Z) : Z * Z := (other, 0).
Definition Thread_move_assign (same : bool) (other : Z) x : thread_obj W * Z :=
  if same then (x, other) else (mkThread other (world_ x), 0).
End thread.

(** A started thread is reclaimed once, by [Join] or [Detach], however often they are
    called; moving the handle moves the duty. *)
Lemma thread_reclaimed {W : Type} `{HL : PthreadLaws W} (w w' : W) t :
  pthread_create w = (w', Some t) →
  let x := (Thread_new w).1 in
  thread_ x = t ∧ joinable (world_ (Join x)) = joinable w ∧ joinable (world_ (Detach x)) = joinable w ∧
  Join (Join x) = Join x ∧ Detach (Detach x) = Detach x ∧ Detach (Join x) = Join x.
Proof.
  intros Hc. destruct (pt_create _ _ _ Hc) as (H0 & Hn & Hj). unfold Thread_new. rewrite Hc. cbn [fst].
  unfold Join, Detach. cbn [thread_ world_]. rewrite !(decide_True (P:=t ≠ 0)) by done.
  cbn [thread_ world_]. rewrite pt_join, pt_detach, Hj. repeat split; set_solver.
Qed.
(** Neither the destructor nor the assignment reclaims the thread of the handle they
    discard (the POSIX branches). *)
Lemma thread_leaked {W : Type} `{HL : PthreadLaws W} (w w' : W) t other :
  pthread_create w = (w', Some t) →
  let x := (Thread_new w).1 in
  t ∈ joinable (Thread_destroy x) ∧ t ∈ joinable (world_ (Thread_move_assign false other x).1) ∧
  thread_ (Thread_move_assign false other x).1 = other.
Proof.
  intros Hc. destruct (pt_create _ _ _ Hc) as (H0 & Hn & Hj). unfold Thread_new. rewrite Hc. cbn.
  rewrite Hj. repeat split; set_solver.
Qed.

(** *** The Windows branches

    A [HANDLE] is a number, 0 for the null handle, which [CreateThread] returns when
    it fails. *)
Class WinThreads (W : Type) := {
  CreateThread : W → W * (Z * Z);
  WaitForSingleObject : Z → W → W;
  CloseHandle : Z → W → W;
}.
Class WinThreadsLaws (W : Type) `{WinThreads W} := {
  open_handles : W → gset Z;
  wt_create w w' h id : CreateThread w = (w', (h, id)) →
    open_handles w' = if decide (h = 0) then open_handles w else {[h]} ∪ open_handles w;
  wt_fresh w w' h id : CreateThread w = (w', (h, id)) → h ≠ 0 → h ∉ open_handles w;
  wt_wait h w : open_handles (WaitForSingleObject h w) = open_handles w;
  wt_close h w : open_handles (CloseHandle h w) = open_handles w ∖ {[h]};
}.
Record win_thread := mkWinThread { handle_ : Z; thread_id_ : Z }.

Section win_thread.
Context {W : Type} `{HP : WinThreads W}.
Implicit Types (x other : win_thread) (w : W).

Definition Win_default : win_thread := mkWinThread 0 0.
Definition Win_new w : win_thread * W :=
  let '(w, (h, id)) := CreateThread w in (mkWinThread h id, w).
Definition Win_destroy x w : W := if decide (handle_ x ≠ 0) then CloseHandle (handle_ x) w else w.
Definition Win_join x w : win_thread * W :=
  if decide (handle_ x ≠ 0)
  then (mkWinThread 0 (thread_id_ x), CloseHandle (handle_ x) (WaitForSingleObject (handle_ x) w)) else (x, w).
Definition Win_detach x w : win_thread * W :=
  if decide (handle_ x ≠ 0) then (mkWinThread 0 (thread_id_ x), CloseHandle (handle_ x) w) else (x, w).
(** The moved-from object comes second. *)
Definition Win_move other : win_thread * win_thread := (other, Win_default).
Definition Win_move_assign (same : bool) x other w : win_thread * win_thread * W :=
  if same then (x, other, w) else
  (other, Win_default, if decide (handle_ x ≠ 0) then CloseHandle (handle_ x) w else w).

(** The handles that are open are those of [base] and the one of [x]. *)
Definition owns `{!WinThreadsLaws W} (base : gset Z) x w : Prop :=
  (handle_ x = 0 ∧ open_handles w = base) ∨
  (handle_ x ≠ 0 ∧ handle_ x ∉ base ∧ open_handles w = {[handle_ x]} ∪ base).
End win_thread.

(** On Windows a handle is closed once, by the first of [Join], [Detach], the
    destructor and the assignment; a failed start leaves a null handle. *)
Lemma win_thread_owned {W : Type} `{HL : WinThreadsLaws W} (base : gset Z) (x : win_thread) (w : W) : owns base x w →
  let j := Win_join x w in let d := Win_detach x w in
  (handle_ j.1 = 0 ∧ open_handles j.2 = base) ∧ (handle_ d.1 = 0 ∧ open_handles d.2 = base) ∧
  open_handles (Win_destroy x w) = base.
Proof.
  unfold Win_join, Win_detach, Win_destroy. intros [[H0 Hb]|(H0 & Hn & Hb)].
  - rewrite !decide_False by (by intros []). cbn. done.
  - rewrite !decide_True by done. cbn. rewrite !wt_close, wt_wait, Hb. repeat split; set_solver.
Qed.
Lemma win_thread_new {W : Type} `{HL : WinThreadsLaws W} (w : W) :
  owns (open_handles w) (Win_new w).1 (Win_new w).2.
Proof.
  unfold Win_new, owns. destruct (CreateThread w) as [w' [h id]] eqn:Hc. cbn. pose proof (wt_create _ _ _ _ Hc) as Ho.
  case_decide as Hh; [by left|right]. split; [done|]. split; [by eapply wt_fresh|done].
Qed.
Lemma win_thread_assigned {W : Type} `{HL : WinThreadsLaws W} (base : gset Z) (x other : win_thread) (w : W) :
  owns base x w →
  let '(x', other', w') := Win_move_assign false x other w in
  x' = other ∧ handle_ other' = 0 ∧ open_handles w' = base.
Proof.
  intros Hx. pose proof (win_thread_owned _ _ _ Hx) as (_ & _ & Hd). cbn. unfold Win_destroy in Hd. done.
Qed.

(** ** Calls under a lock

    A method that holds a [LockGuard] for its whole body: [Lock], steps on the
    shared state that may depend on it, and with the result [Unlock], on every way
    out. *)
Inductive body (S A : Type) : Type :=
| Done (r : A)
| Step (f : S → S) (k : S → body S A).
Arguments Done {S A} r.
Arguments Step {S A} f k.

Fixpoint run_body {S A} (b : body S A) (s : S) : S * A :=
  match b with Done r => (s, r) | Step f k => run_body (k s) (f s) end.

(** A thread is between calls or inside one; [C] is the type of the calls. *)
Inductive thread_state (S A C : Type) : Type :=
| Between (todo : list C)
| Inside (rest : body S A) (todo : list C).
Arguments Between {S A C}.
Arguments Inside {S A C}.

(** The mutex knows its holder. [cf_log]: the calls in the order in which they took
    the lock, [cf_results]: their results, both with their threads. *)
Record config (S A C : Type) := mkConfig {
  cf_threads : list (thread_state S A C);
  cf_holder : option nat;
  cf_shared : S;
  cf_log : list (nat * C);
  cf_results : list (nat * A);
}.
Arguments mkConfig {S A C}.
Arguments cf_threads {S A C}.
Arguments cf_holder {S A C}.
Arguments cf_shared {S A C}.
Arguments cf_log {S A C}.
Arguments cf_results {S A C}.

Section locks.
Context {S A C : Type} (method : C → body S A).
Implicit Types (c : config S A C) (s : S) (ts : list (thread_state S A C)) (programs : list (list C)).

(** [Mutex::Lock] waits until no thread holds the mutex. *)
Inductive thread_step : config S A C → config S A C → Prop :=
| step_lock ts s log rs i b todo : ts !! i = Some (Between (b :: todo)) →
    thread_step (mkConfig ts None s log rs)
      (mkConfig (<[i := Inside (method b) todo]> ts) (Some i) s (log ++ [(i, b)]) rs)
| step_inside ts h s log rs i f k todo : ts !! i = Some (Inside (Step f k) todo) →
    thread_step (mkConfig ts h s log rs) (mkConfig (<[i := Inside (k s) todo]> ts) h (f s) log rs)
| step_unlock ts h s log rs i r todo : ts !! i = Some (Inside (Done r) todo) →
    thread_step (mkConfig ts h s log rs) (mkConfig (<[i := Between todo]> ts) None s log (rs ++ [(i, r)])).

Definition start programs s : config S A C := mkConfig (Between <$> programs) None s [] [].
(** The whole calls, one after the other. *)
Definition one_call (w : S * list (nat * A)) (l : nat * C) : S * list (nat * A) :=
  let '(s', r) := run_body (method l.2) w.1 in (s', w.2 ++ [(l.1, r)]).
Definition sequential (log : list (nat * C)) (s : S) : S * list (nat * A) := foldl one_call (s, []) log.
Definition calls_of (i : nat) (log : list (nat * C)) : list C := (filter (λ l, l.1 = i) log).*2.
Definition todo_of (t : thread_state S A C) : list C :=
  match t with Between todo | Inside _ todo => todo end.

Record lock_inv programs (s0 : S) c : Prop := {
  (* at most the holder is inside a call *)
  li_holder i b todo : cf_threads c !! i = Some (Inside b todo) → cf_holder c = Some i;
  li_inside i : cf_holder c = Some i → ∃ b todo, cf_threads c !! i = Some (Inside b todo) ∧
    ((run_body b (cf_shared c)).1, cf_results c ++ [(i, (run_body b (cf_shared c)).2)]) =
      sequential (cf_log c) s0;
  li_free : cf_holder c = None → (cf_shared c, cf_results c) = sequential (cf_log c) s0;
  (* every thread makes its calls in order *)
  li_order i p : programs !! i = Some p →
    ∃ t, cf_threads c !! i = Some t ∧ calls_of i (cf_log c) ++ todo_of t = p;
  li_length : length (cf_threads c) = length programs;
  li_log : Forall (λ l, l.1 < length programs)%nat (cf_log c);
}.

Lemma start_inv programs s : lock_inv programs s (start programs s).
Proof.
  split; cbn; try done.
  - intros i b todo Hi. apply list_lookup_fmap_Some in Hi as (p & ? & _). done.
  - intros i p Hp. exists (Between p). by rewrite list_lookup_fmap, Hp.
  - apply length_fmap.
Qed.

Lemma calls_of_snoc i j b (log : list (nat * C)) :
  calls_of i (log ++ [(j, b)]) = calls_of i log ++ if decide (j = i) then [b] else [].
Proof.
  unfold calls_of. rewrite filter_app, fmap_app. f_equal. rewrite filter_cons. cbn. by case_decide.
Qed.
Lemma sequential_snoc i b log s : sequential (log ++ [(i, b)]) s = one_call (sequential log s) (i, b).
Proof. unfold sequential. by rewrite foldl_app. Qed.
Lemma order_insert programs ts log i t t' :
  (∀ j p, programs !! j = Some p → ∃ t, ts !! j = Some t ∧ calls_of j log ++ todo_of t = p) →
  ts !! i = Some t → todo_of t' = todo_of t →
  ∀ j p, programs !! j = Some p → ∃ t, <[i := t']> ts !! j = Some t ∧ calls_of j log ++ todo_of t = p.
Proof.
  intros Ho Hi Ht j p Hp. destruct (Ho j p Hp) as (u & Hu & Heq). destruct (decide (j = i)) as [->|Hne].
  - exists t'. rewrite list_lookup_insert_eq by by eapply lookup_lt_Some. split; [done|]. rewrite Ht. congruence.
  - exists u. by rewrite list_lookup_insert_ne.
Qed.

Ltac fields := cbn [cf_threads cf_holder cf_shared cf_log cf_results] in *.
Lemma lock_step_inv programs s0 ts s log rs i b todo :
  lock_inv programs s0 (mkConfig ts None s log rs) → ts !! i = Some (Between (b :: todo)) →
  lock_inv programs s0 (mkConfig (<[i := Inside (method b) todo]> ts) (Some i) s (log ++ [(i, b)]) rs).
Proof.
  intros [Hh Hin Hfree Ho Hl Hlog] Hi. split; fields; [| |done| |by rewrite length_insert|].
  - intros j b' todo' Hj. destruct (decide (j = i)) as [->|Hne]; [done|].
    rewrite list_lookup_insert_ne in Hj by done. by specialize (Hh _ _ _ Hj).
  - intros j [= <-]. exists (method b), todo.
    rewrite list_lookup_insert_eq by by eapply lookup_lt_Some. split; [done|].
    rewrite sequential_snoc, <- Hfree by done. unfold one_call. cbn [fst snd].
    by destruct (run_body (method b) s).
  - intros j p Hp. destruct (Ho j p Hp) as (u & Hu & Heq). rewrite calls_of_snoc.
    destruct (decide (i = j)) as [->|Hne].
    + exists (Inside (method b) todo). rewrite list_lookup_insert_eq by by eapply lookup_lt_Some.
      split; [done|]. rewrite Hi in Hu. injection Hu as <-. by rewrite <- app_assoc.
    + exists u. rewrite list_lookup_insert_ne, app_nil_r by done. done.
  - apply Forall_app. split; [done|]. apply Forall_singleton. cbn. rewrite <- Hl. by eapply lookup_lt_Some.
Qed.
Lemma inside_step_inv programs s0 ts h s log rs i f k todo :
  lock_inv programs s0 (mkConfig ts h s log rs) → ts !! i = Some (Inside (Step f k) todo) →
  lock_inv programs s0 (mkConfig (<[i := Inside (k s) todo]> ts) h (f s) log rs).
Proof.
  intros [Hh Hin Hfree Ho Hl Hlog] Hi. fields. pose proof (Hh _ _ _ Hi) as ->.
  split; fields; [| |done| |by rewrite length_insert|done].
  - intros j b' todo' Hj. destruct (decide (j = i)) as [->|Hne]; [done|].
    rewrite list_lookup_insert_ne in Hj by done. by eapply Hh.
  - intros j [= <-]. exists (k s), todo. rewrite list_lookup_insert_eq by by eapply lookup_lt_Some.
    split; [done|]. destruct (Hin i eq_refl) as (b & todo' & Hb & Heq). rewrite Hi in Hb.
    injection Hb as <- <-. exact Heq.
  - by eapply order_insert.
Qed.
Lemma unlock_step_inv programs s0 ts h s log rs i r todo :
  lock_inv programs s0 (mkConfig ts h s log rs) → ts !! i = Some (Inside (Done r) todo) →
  lock_inv programs s0 (mkConfig (<[i := Between todo]> ts) None s log (rs ++ [(i, r)])).
Proof.
  intros [Hh Hin Hfree Ho Hl Hlog] Hi. fields. pose proof (Hh _ _ _ Hi) as ->.
  split; fields; [|done| | |by rewrite length_insert|done].
  - intros j b' todo' Hj. destruct (decide (j = i)) as [->|Hne].
    + by rewrite list_lookup_insert_eq in Hj by by eapply lookup_lt_Some.
    + rewrite list_lookup_insert_ne in Hj by done. specialize (Hh _ _ _ Hj). congruence.
  - intros _. destruct (Hin i eq_refl) as (b & todo' & Hb & Heq). rewrite Hi in Hb.
    injection Hb as <- <-. exact Heq.
  - by eapply order_insert.
Qed.
Lemma step_inv programs s0 c c' : lock_inv programs s0 c → thread_step c c' → lock_inv programs s0 c'.
Proof.
  intros Hi Hst. destruct Hst; eauto using lock_step_inv, inside_step_inv, unlock_step_inv.
Qed.
Lemma reach_inv programs s0 c : rtc thread_step (start programs s0) c → lock_inv programs s0 c.
Proof.
  intros Hr. assert (lock_inv programs s0 (start programs s0)) as Hi by apply start_inv.
  induction Hr as [c|c c1 c2 Hst _ IH]; [done|]. apply IH. by eapply step_inv.
Qed.

(** As long as a thread has something to do, some thread can make a step. *)
Lemma lock_progress programs s0 c : lock_inv programs s0 c →
  (∀ t, t ∈ cf_threads c → t = Between []) ∨ ∃ c', thread_step c c'.
Proof.
  intros [Hh Hin Hfree Ho Hl _]. destruct c as [ts [i|] s log rs]; fields.
  - right. destruct (Hin i eq_refl) as ([r|f k] & todo & Hi & _).
    + eexists. by apply step_unlock.
    + eexists. by apply step_inside.
  - destruct (decide (Exists (λ t, todo_of t ≠ []) ts)) as [He|Hn].
    + right. apply Exists_exists in He as (t & [i Hi]%list_elem_of_lookup_1 & Ht).
      destruct t as [[|b todo]|b todo]; [done|eexists; by apply (step_lock _ _ _ _ i b todo)|].
      by specialize (Hh _ _ _ Hi).
    + left. intros t Ht. rewrite <- Forall_Exists_neg, Forall_forall in Hn. specialize (Hn t Ht).
      apply list_elem_of_lookup_1 in Ht as [i Hi]. destruct t as [todo|b todo]; [|by specialize (Hh _ _ _ Hi)].
      apply dec_stable in Hn. by cbn in Hn; subst.
Qed.
End locks.

(** ** The latch of the buffer pool

    The public methods of [BufferPoolManager] hold [latch_] from their first
    statement to their last. A client holds no lock while it reads or writes the
    page behind a pinned pointer: those accesses are left out here. *)
Definition pool_call : Type := { X : Type & pool_op X }.
Definition reply : Type := { X : Type & outcome X }.
Definition latched (l : pool_call) : Prop :=
  match projT2 l with Read _ | Write _ _ => False | _ => True end.

Section pool_latch.
Context {R : Type} `{HR : Replacer R} `{!ReplacerLaws R}.

Definition perform (l : pool_call) (m : machine R) : machine R * reply :=
  let '(m', o) := exec_call (projT2 l) m in (m', existT (projT1 l) o).
(** [method] cuts the calls into atomic steps, in whatever way. *)
Definition implements (method : pool_call → body (machine R) reply) : Prop :=
  ∀ l m, latched l → run_body (method l) m = perform l m.

Fixpoint store_calls (log : list (nat * pool_call)) (s : store) : option (list (nat * reply) * store) :=
  match log with
  | [] => Some ([], s)
  | (i, l) :: log =>
      '(o, s1) ← store_step (projT2 l) s;
      '(rs, s2) ← store_calls log s1;
      Some ((i, existT (projT1 l) o) :: rs, s2)
  end.

Lemma sequential_store (method : pool_call → body (machine R) reply) log c s rs rs0 s' : implements method →
  Forall (λ l, latched l.2) log → store_rel c s → store_calls log s = Some (rs, s') →
  ∃ c', foldl (one_call method) (c, rs0) log = (c', rs0 ++ rs) ∧ store_rel c' s'.
Proof.
  intros Hm Hl. revert c s rs rs0. induction Hl as [|[i l] log Hl _ IH]; intros c s rs rs0 Hr; cbn [store_calls].
  - intros [= <- <-]. exists c. by rewrite app_nil_r.
  - destruct (store_step (projT2 l) s) as [[o s1]|] eqn:Hs; [|done]. cbn.
    destruct (store_calls log s1) as [[rs1 s2]|] eqn:Hc; [|done]. intros [= <- <-].
    destruct (sim_call _ c s o s1 Hr Hs) as (c1 & Hex & Hr1).
    destruct (IH c1 s1 rs1 (rs0 ++ [(i, existT (projT1 l) o)]) Hr1 Hc) as (c' & Hf & Hr').
    exists c'. cbn [foldl].
    assert (one_call method (c, rs0) (i, l) = (c1, rs0 ++ [(i, existT (projT1 l) o)])) as ->.
    { unfold one_call. cbn [fst snd]. rewrite Hm by done. unfold perform. by rewrite Hex. }
    by rewrite Hf, <- app_assoc.
Qed.
Lemma log_latched (method : pool_call → body (machine R) reply) programs s0 c : lock_inv method programs s0 c →
  Forall (Forall latched) programs → Forall (λ l, latched l.2) (cf_log c).
Proof.
  intros Hi Hl. apply Forall_forall. intros [i l] Hin. cbn.
  pose proof (li_log _ _ _ _ Hi) as Hlen. rewrite Forall_forall in Hlen.
  destruct (lookup_lt_is_Some_2 programs i (Hlen _ Hin)) as [p Hp].
  destruct (li_order _ _ _ _ Hi i p Hp) as (t & _ & Heq).
  rewrite Forall_lookup in Hl. pose proof (Hl _ _ Hp) as Hp'. rewrite <- Heq, Forall_app in Hp'.
  destruct Hp' as [Hc _]. rewrite Forall_forall in Hc. apply Hc. unfold calls_of.
  apply list_elem_of_fmap. exists (i, l). split; [done|]. by apply list_elem_of_filter.
Qed.
End pool_latch.

(** ** Properties *)

(** C26 (refinement). A [Mutex] with a [LockGuard] in every method makes the methods
    atomic. Whatever the interleaving of the threads' steps, at most one thread is
    inside a call; each thread makes its calls in its own order; whenever the lock
    is free, the shared state and the results the calls have returned are those of
    the whole calls made one after the other in the order in which they took the
    lock; and there is no deadlock: unless every thread has finished, some thread
    can make a step. *)
Theorem lock_serializes {S A C : Type} (method : C → body S A) programs (s0 : S) c :
  rtc (thread_step method) (start programs s0) c →
  (∀ i j b b' todo todo', cf_threads c !! i = Some (Inside b todo) →
     cf_threads c !! j = Some (Inside b' todo') → i = j) ∧
  (∀ i p, programs !! i = Some p →
     ∃ t, cf_threads c !! i = Some t ∧ calls_of i (cf_log c) ++ todo_of t = p) ∧
  (cf_holder c = None → (cf_shared c, cf_results c) = sequential method (cf_log c) s0) ∧
  ((∀ t, t ∈ cf_threads c → t = Between []) ∨ ∃ c', thread_step method c c').
Proof.
  intros Hi%reach_inv. split; [|split; [|split]].
  - intros i j b b' todo todo' H1 H2. pose proof (li_holder _ _ _ _ Hi _ _ _ H1) as H1'.
    pose proof (li_holder _ _ _ _ Hi _ _ _ H2) as H2'. congruence.
  - apply (li_order _ _ _ _ Hi).
  - apply (li_free _ _ _ _ Hi).
  - by eapply lock_progress.
Qed.

(** C18 (refinement). The latch of the buffer pool: any number of threads call the
    public methods of one pool, each method running as any sequence of atomic steps
    that together do what the method does. Whenever the latch is free, the calls
    were made in some order that keeps the order of every thread; if that order is
    disciplined on the abstract page store, every call returned what the store
    returns, and the pool represents the resulting store. *)
Theorem pool_calls_serialize {R : Type} `{HR : Replacer R, !ReplacerLaws R}
    (method : pool_call → body (machine R) reply) programs (m : machine R) s c rs s' :
  implements method → Forall (Forall latched) programs → store_rel m s →
  rtc (thread_step method) (start programs m) c → cf_holder c = None →
  store_calls (cf_log c) s = Some (rs, s') →
  (∀ i p, programs !! i = Some p → calls_of i (cf_log c) `prefix_of` p) ∧
  cf_results c = rs ∧ store_rel (cf_shared c) s'.
Proof.
  intros Hm Hl Hr Hi%reach_inv Hfree Hc. split.
  - intros i p Hp. destruct (li_order _ _ _ _ Hi i p Hp) as (t & _ & <-). by apply prefix_app_r.
  - pose proof (li_free _ _ _ _ Hi Hfree) as Heq. unfold sequential in Heq.
    destruct (sequential_store _ _ _ _ _ [] _ Hm (log_latched _ _ _ _ Hi Hl) Hr Hc) as (c' & Hf & Hr').
    rewrite Hf in Heq. injection Heq as -> ->. done.
Qed.

(** *** Witnesses: a scheduler that runs the threads in a given order. *)
Section scheduler.
Context {S A C : Type} (method : C → body S A).

Definition step_of (c : config S A C) (i : nat) : option (config S A C) :=
  let '(mkConfig ts h s log rs) := c in
  match ts !! i, h with
  | Some (Between (b :: todo)), None =>
      Some (mkConfig (<[i := Inside (method b) todo]> ts) (Some i) s (log ++ [(i, b)]) rs)
  | Some (Inside (Step f k) todo), _ => Some (mkConfig (<[i := Inside (k s) todo]> ts) h (f s) log rs)
  | Some (Inside (Done r) todo), _ => Some (mkConfig (<[i := Between todo]> ts) None s log (rs ++ [(i, r)]))
  | _, _ => None
  end.
Fixpoint schedule (order : list nat) (c : config S A C) : config S A C :=
  match order with
  | [] => c
  | i :: order => match step_of c i with Some c' => schedule order c' | None => schedule order c end
  end.

Lemma schedule_reaches order c : rtc (thread_step method) c (schedule order c).
Proof.
  revert c. induction order as [|i order IH]; intros c; cbn [schedule]; [done|].
  destruct (step_of c i) as [c'|] eqn:Hs; [|done]. apply rtc_l with c'; [|done].
  destruct c as [ts h s log rs]. cbn in Hs.
  destruct (ts !! i) as [[[|b todo]|[r|f k] todo]|] eqn:Hi; try done; destruct h; try done;
    injection Hs as <-; by constructor.
Qed.
End scheduler.

(** Two threads count; each increment reads the counter and then writes it. The
    second thread tries to run between the steps of the first. *)
Definition increment : unit → body Z Z := λ _, Step id (λ s, Step (λ _, s + 1) (λ _, Done s)).
Definition counting : config Z Z unit :=
  schedule increment [0; 0; 1; 0; 1; 0; 1; 1; 0; 1; 1; 0]%nat (start [[(); ()]; [()]] 5).
Lemma lock_serializes_witness :
  cf_holder counting = Some 0%nat ∧ cf_log counting = [(0, ()); (1, ()); (0, ())]%nat ∧
  cf_results counting = [(0%nat, 5); (1%nat, 6)] ∧
  ((∀ t, t ∈ cf_threads counting → t = Between []) ∨ ∃ c', thread_step increment counting c').
Proof.
  split; [reflexivity|]. split; [reflexivity|]. split; [reflexivity|].
  apply (lock_serializes increment [[(); ()]; [()]] 5 counting). apply schedule_reaches.
Defined.

Definition two_steps (l : pool_call) : body (machine LRU.LRUReplacer) reply :=
  Step id (λ m, Step (λ _, (perform l m).1) (λ _, Done (perform l m).2)).
Definition pool_programs : list (list pool_call) :=
  [[existT _ New; existT _ FlushAll]; [existT _ New; existT _ (Unpin 1 true)]].
Definition pool_config : config (machine LRU.LRUReplacer) reply pool_call :=
  schedule two_steps [1; 0; 1; 1; 1; 0; 0; 0; 1; 0; 1; 1; 1; 0; 1; 0; 0; 0; 0]%nat
    (start pool_programs (new_machine 4 new_db (LRU.LRUReplacer_new 4))).
Lemma two_steps_implement : implements two_steps.
Proof. intros l m _. unfold two_steps. cbn. by destruct (perform l m). Qed.
Definition pool_log : list (nat * reply) * store :=
  default ([], new_store 4 empty_alloc) (store_calls (cf_log pool_config) (new_store 4 empty_alloc)).
Lemma pool_log_run : store_calls (cf_log pool_config) (new_store 4 empty_alloc) = Some pool_log.
Proof. vm_compute. reflexivity. Qed.
Lemma pool_calls_serialize_witness :
  (∀ i p, pool_programs !! i = Some p → calls_of i (cf_log pool_config) `prefix_of` p) ∧
  cf_results pool_config = pool_log.1 ∧ store_rel (cf_shared pool_config) pool_log.2.
Proof.
  apply (pool_calls_serialize two_steps pool_programs
    (new_machine 4 new_db (LRU.LRUReplacer_new 4)) (new_store 4 empty_alloc)).
  - apply two_steps_implement.
  - repeat constructor.
  - apply lru_new_rel; [lia|apply new_db_rel].
  - apply schedule_reaches.
  - vm_compute. reflexivity.
  - rewrite pool_log_run. by destruct pool_log.
Defined.
